(* ===== verification/_CoqProject ===== *)
-Q . S2P
Prelude.v
Types.v
Interfaces.v
Rlp.v
MessageSet.v
ValidatorSet.v
Quorum.v
Votes.v
VotesSpec.v
VotesLaws.v
Snapshot.v
SnapshotLaws.v
Engine.v
Verification.v
EngineSpec.v
VerificationSpec.v
Backend.v
BackendSpec.v
EngineFrame.v
Restart.v
Sealing.v
Seals.v
Sample.v
RoundState.v
RoundRlp.v
CoreState.v
Backlog.v
Broadcast.v
Round.v
Phases.v
Loop.v
Consensus.v
CoreFrame.v
Provenance.v
CoreSpec.v
BroadcastSpec.v
BacklogSpec.v
Priorities.v
Messages.v
Node.v
Refinement.v
CoreRefinement.v
Handlers.v
Safety.v
Correctness.v
Rounds.v
Decided.v
Network.v
Delivery.v
Progress.v
Assembly.v
AssemblySpec.v
Scenarios.v
Witnesses.v
VoteWitnesses.v
EngineWitnesses.v
NodeWitnesses.v
NetworkWitnesses.v
