(* ===== verification/Prelude.v ===== *)
(** * Verification of chain5j-pbft

    The consensus engine of chain5j: a PBFT (Istanbul-style) replica in Go.
    This development models its consensus core and proves what it guarantees,
    and where it falls short.

    ** The program

    - [src/protocol/]: data of the protocol (views, requests, subjects,
      messages, states), the message set, and the interfaces of proposals,
      validators, the validator set and the backend.
    - [src/validator/]: the default validator set and the proposer policies.
    - [src/core/]: one replica.  A single goroutine ([handleLoop]) takes
      events from channels (requests, its own messages, p2p messages, stored
      messages, timeouts, final commits) and runs a handler for each.
      Goroutines the handlers spawn only send on these channels.
    - the root package, the engine around the core.  Managers vote on managers
      and validators (manange.go) through the API (api.go) and the consensus
      data of headers (types.go); a snapshot (snapshot.go) is the validators
      and votes at a block; the engine (engine.go) finds the snapshot of a
      block, verifies headers against it, prepares and seals blocks; as the
      backend of the core (pbft.go) it supplies validators and signatures and
      takes committed blocks.

    ** The files

    - [Prelude]: machine integers, float32 and float64 rounding, lemmas on
      lists and sets, programs as state passing with panics ([prog], [wp]):
      [wp] says that a program returns and does not panic of its own; a panic
      of what it calls may end it.
    - [Types], [Interfaces]: the data, the Go interfaces as classes with their
      laws, and the classes for imported packages (codec, priority queue, ARC
      cache, keccak, peer ids, broadcaster, clock).  [Env] collects them.
    - [Rlp]: the RLP methods of views, proposals and votes, and the codec of
      the core built from them; [RoundRlp]: those of the round state.
    - [MessageSet], [ValidatorSet], [Quorum], [RoundState]: the message set,
      the default validator set with its selectors, the threshold, and the
      round state with the round-change votes.
    - [CoreState], [Backlog], [Broadcast], [Round], [Phases], [Loop]: the
      struct [core] and every method of it, one Definition per method, the
      handlers composed as in the code; [handle_event] is one iteration of the
      loop.  A send, a broadcast, a timer and a [backend.Commit] are recorded
      as effects in [trace].
    - [CoreSpec], [BroadcastSpec], [BacklogSpec]: specifications of the
      methods over [main], the part of the state that decides the protocol.
    - [Node]: the abstract protocol of one validator: a step relation labelled
      with the votes, proposals, decisions and dropped locks, and its invariant.
    - [Refinement], [CoreRefinement], [Correctness]: every handler returns and
      refines the abstract protocol, in which the actions that are not always
      right happen only where they are warranted; the start; runs over any
      events.
    - [Provenance]: every message a node holds was brought to it by an event.
    - [Handlers], [Rounds], [Messages], [Priorities]: functional behaviour of
      the handlers on every branch, of round changes and timeouts, of message
      checks, queues and messages, and of the machine arithmetic.
    - [Safety]: order of votes, decision certificates, agreement; [Decided]:
      agreement as a statement about states; [Progress]: a proposal and the
      votes of a quorum lead to a decision.
    - [Network]: nodes that exchange messages, with their histories, among
      faulty validators that send anything; its invariant, and agreement in
      it.  [Delivery]: networks that can be executed, and are reachable.
    - [Votes]: the votes, the tallies and their application, method by method;
      [VotesSpec]: what a sequence of votes means, without tallies, and that
      the code computes it; [VotesLaws]: repeated votes, new snapshots, the
      votes a node proposes.
    - [Snapshot], [SnapshotLaws]: snapshots, [Apply], the stored form.
    - [Engine], [EngineSpec]: the state of the engine and [snapshot], the
      search for the snapshot of a block; its termination and invariant.
    - [Verification], [VerificationSpec]: [VerifyHeader] and what it calls;
      what committed seals certify and what an accepted header carries.
    - [Backend], [BackendSpec]: the methods the core calls, [Prepare], the
      signing part of [Seal], the API.
    - [Sealing]: the rest of [Seal], which waits for the committed block, as
      events interleaved with those of [Commit]; [Seals]: any number of calls
      of [Seal], the lock and the channel they share.
    - [Consensus]: the options, [NewConsensus] and the life cycle of an engine.
    - [Assembly], [AssemblySpec]: a node, the core running on the engine as its
      backend.  [CoreFrame] and [EngineFrame] carry an invariant of the
      backend through every method of the core and of the engine; [Restart]:
      the engine over a database with stored snapshots.
    - [Sample], [Scenarios], [Witnesses]: a concrete environment in which all
      laws hold, runs of four validators in it, and applications of the
      theorems to it; [VoteWitnesses], [EngineWitnesses], [NodeWitnesses],
      [NetworkWitnesses]: the same for votes and snapshots, for an engine with
      a chain of two blocks, for a node that commits the next block, and for a
      network of three nodes and a faulty fourth.

    ** What the theorems show

    The loop never panics of its own after a successful start, whatever bytes
    arrive and whatever the backend answers, and does only what the abstract
    protocol allows; only a panic in the backend, or a nil validator set from
    it, can end it; it drops a lock only on a timeout or when the backend
    refuses the block ([run_refines]).  The votes a validator sends for a
    view agree, but for the COMMITs with which it answers proposals of blocks
    that its chain has ([core_never_equivocates]); these can contradict its
    other votes ([commits_contradict]).  It counts only messages it was sent
    ([holds_received]); a decision carries a quorum of matching COMMITs
    ([decision_certificate]); the handlers send what they should and nothing
    else ([HandlePrePrepare_correct], [HandlePrepare_correct],
    [HandleCommit_correct], [HandleRoundChange_correct]); two deciders in a view agree
    ([agreement_in_view]).  In a network whose faulty validators, at most [f]
    of [3f + 1], send what they like, no correct node gets stuck
    but by its backend ([deliver_total]), and two nodes that commit at a height commit the same
    block unless a correct node dropped a lock at that height or repeated a
    COMMIT for a block without a certificate ([network_agreement]).  The code
    does drop locks: [disagreement_after_timeout] runs four correct validators
    into two decisions, since a timeout drops the lock
    ([handleTimeoutMsg_correct]).  [quorum_intersection] and [quorum_too_small] delimit the
    numbers of validators for which the threshold is safe.  A node that gets a
    proposal and the COMMITs of a quorum commits the block, whatever other
    votes come in between ([round_commits]).  A stored round state cannot be
    read back ([roundState_no_roundtrip]).

    The committed seals the engine accepts are those of more than [2f]
    distinct validators ([check_seals_correct]), so accepted blocks agree
    ([verified_headers_agree]), and the core's quorums are accepted
    ([core_quorum_accepted]), as is a single seal among two or three
    validators ([one_seal_accepted]).  [VerifyHeader_accepts] lists what an
    accepted header carries, [Commit_certifies] and [Prepare_correct] what
    the node puts into its own.  Votes on managers are counted right
    ([applyMVotes_refines]); but a repeated vote on a validator damages the
    other votes ([applyVVotes_revote]), a vote on a new snapshot panics
    ([newVoteSnapshot_votes]), and since [Apply] gives the votes to the wrong
    snapshot none takes effect: the validators are those of genesis for ever
    ([Apply_correct], [genesis_validators_forever], [snapshot_correct],
    [getValidators_correct]).  A stored snapshot keeps its votes
    ([Store_loadSnapshot]), but not the maps of its tallies where they are
    empty, so that the next vote panics ([loaded_vote_panics]), nor its
    validator set ([loadSnapshot_unusable]).  [Seal] delivers at most one block, the one it
    was given ([seal_one_result]), and may lose it ([seal_loses_commit]).
    Several calls of [Seal] behave each like a single one ([seals_refine]),
    and the lock lets one wait at a time ([seals_correct]); but one may throw
    away the block of another ([seals_steal]).

    Of a node, the core on the engine: whatever the network, the chain and the
    other users of the engine do, it runs the protocol with the validators of
    genesis or none, and passes on only blocks it decided, as long as the
    engine does not panic ([node_correct]);
    nodes in a network that have committed at a height agree, with the same
    proviso ([nodes_agree]); what a node passes on every engine accepts as certified
    ([decided_block_certified]).
    A node that is started again has no validators, and panics or is deaf
    ([restart_loses_validators]).  [NewConsensus_correct] says when an engine
    is made: never, if the API cannot be registered at a nil interface.

    ** Modelling decisions

    - Pointers that may be nil are options; a nil dereference is [Panic].
      A call of the backend may panic, and its validator sets may be nil,
      which the core dereferences at once: both end the core with
      [CalleePanic].  Go makes no difference between the two panics; with it
      theorems on the core can say that the core is not to blame.
      Logging is left out, except that a value it dereferences is read.
    - Integers are [Z] with the conversions of the code ([u64], [i64],
      [big_Uint64]); [big.Int] is [Z].  Floats are exact integers or the
      rounded quotient.
    - Mutexes and goroutine scheduling: each handler is one atomic step, and a
      value sent by a goroutine is an event that may arrive in any order.
    - A fresh backend state ([World]) is threaded through every backend call,
      so its answers are arbitrary and may change between calls.
    - Loops over queues use the number of elements as fuel; [drain_spec]
      proves that it suffices.  [search] has the heights above genesis as
      fuel, and [snapshot] calls [VerifyHeader], which may call [snapshot], to
      depth 1: [snapshot_terminates] proves that both are enough.
    - Go maps are enumerated in an unspecified order; the results that depend
      on it ([Values]) are used up to order.
    - [CalcProposer] mutates the validator set in place, also as seen through
      message sets that share it; these only look up members, which it does
      not change ([CalcProposer_GetById]), so the sharing is not modelled.
      The default set identifies a validator with its id, not its address.

    - Snapshots share validator sets, and [AddValidator] and [RemoveValidator]
      change them in place: in the root package a set is a reference into a
      [heap], a snapshot in use an object behind a reference of [EState].
      The core calls [CalcProposer] on the set it was given, which is the one
      in the snapshot: [heap_CalcProposer], which keeps the engine's invariant
      ([e_ok_CalcProposer]).
    - What [json.Marshal] leaves out of a snapshot is modelled
      ([json_fields]), the text of the rest is not.
    - Headers, blocks, keys, JSON and the database are classes ([Chain],
      [EngineI], [BackendE]) with laws of their own; the block reader and the
      clock are arguments of an operation, [now] for all readings of the
      clock in a verification.

    - In a node ([Assembly]) the operations of the engine that other
      goroutines run are batches in a schedule, one before each call of the
      core.  Each operation of the engine is one atomic step: two that search
      for a snapshot at the same time are not interleaved.  A panic in the
      engine, in whichever goroutine, ends the core's next call and with it
      the process.
    - In a network a message in the name of a correct validator is one that it
      sent.  The code does not check this ([checkValidatorSignature] accepts
      everything), so it is an assumption on the network ([deliverable]); the
      bytes are otherwise arbitrary, in any order, as often as one likes, or
      lost.  The events
      and actions of a node are recorded beside its state ([replica]); the
      code does not read them.
    - A call of [Seal] is a sequence of steps at the points where it waits,
      takes the lock or uses the channel; steps of all calls and of [Commit]
      come in any order.

    ** Not modelled

    The mocks, which are generated, and the tests; logging, metrics, the JSON-RPC layer
    and the encodings of external packages (parameters with laws).  Of [Stop]
    the wait for the goroutines; the context of the engine, which nothing
    cancels, and [finalCommitCh], which nothing uses. *)

From stdpp Require Export base gmap list strings sorting.
From Stdlib Require Export ZArith Lia.

#[global] Open Scope Z_scope.

(** Notations of the development, and the lemmas its automation uses. *)
Declare Scope pbft_scope.
Create HintDb pbft.

(** [lia] on goals with [/] and [mod] by constants. *)
Ltac lia_div := Z.to_euclidean_division_equations; lia.

(** ** Machine integers

    Go's [uint64] and [int64] values are [Z]; a conversion or an operation
    that can leave the range is followed by the wrap-around. *)

Definition u64 (x : Z) : Z := x mod 2 ^ 64.

Definition i64 (x : Z) : Z :=
  let y := x mod 2 ^ 64 in if y <? 2 ^ 63 then y else y - 2 ^ 64.

(** [big.Int.Uint64]: the low 64 bits of the absolute value. *)
Definition big_Uint64 (x : Z) : Z := u64 (Z.abs x).

Definition in_u64 (x : Z) : Prop := 0 <= x < 2 ^ 64.

Lemma u64_range x : in_u64 (u64 x).
Proof. unfold in_u64, u64. apply Z.mod_pos_bound. lia. Qed.

Lemma u64_small x : in_u64 x -> u64 x = x.
Proof. unfold in_u64, u64. intros H. by apply Z.mod_small. Qed.

Lemma i64_small x : 0 <= x < 2 ^ 63 -> i64 x = x.
Proof.
  intros H. unfold i64. rewrite Z.mod_small by lia.
  by destruct (Z.ltb_spec x (2 ^ 63)); [|lia].
Qed.

Lemma u64_i64 x : u64 (i64 x) = u64 x.
Proof.
  unfold u64, i64.
  pose proof (Z.mod_pos_bound x (2 ^ 64) ltac:(lia)).
  destruct (Z.ltb_spec (x mod 2 ^ 64) (2 ^ 63)).
  - apply Z.mod_mod. lia.
  - rewrite Zminus_mod, Z_mod_same_full, Z.sub_0_r, !Z.mod_mod; lia.
Qed.

Lemma big_Uint64_small x : in_u64 x -> big_Uint64 x = x.
Proof.
  intros H. unfold big_Uint64. rewrite Z.abs_eq by (destruct H; lia).
  by apply u64_small.
Qed.

(** ** Rounding: IEEE 754 round to nearest, ties to even *)

(** The integer nearest to [n / d]. *)
Definition round_ne (n d : Z) : Z :=
  let q := n / d in
  let r := n mod d in
  if 2 * r <? d then q
  else if d <? 2 * r then q + 1
  else if Z.even q then q else q + 1.

(** [float32(x)] of a [uint64] value: 24 bits of significand.  Every such
    value is an integer, so the result is again a [Z]. *)
Definition float32_of_uint64 (x : Z) : Z :=
  if x <? 2 ^ 24 then x
  else let e := Z.log2 x - 23 in round_ne x (2 ^ e) * 2 ^ e.

(** [math.Ceil(float64(n) / d)] for [0 <= n]: the quotient is rounded to a
    53-bit significand before the ceiling is taken. *)
Definition ceil_float64_div (n d : Z) : Z :=
  if n =? 0 then 0
  else
    let e := Z.log2 (n * 2 ^ 60 / d) - 60 in
    let k := 52 - e in
    - ((- round_ne (n * 2 ^ k) d) / 2 ^ k).

Lemma round_ne_bounds n d :
  0 < d -> n / d <= round_ne n d <= n / d + 1.
Proof. intros Hd. unfold round_ne. repeat case_match; lia. Qed.

Lemma round_ne_shift a b d :
  0 < d -> Z.even a = true -> round_ne (a * d + b) d = a + round_ne b d.
Proof.
  intros Hd Ha. unfold round_ne.
  rewrite (Z.add_comm (a * d)), Z_div_plus_full, Z_mod_plus_full by lia.
  rewrite Z.even_add, Ha. destruct (Z.even (b / d)); simpl; repeat case_match; lia.
Qed.

Lemma round_ne_exact a d : 0 < d -> round_ne (a * d) d = a.
Proof.
  intros Hd. unfold round_ne. rewrite Z.div_mul, Z.mod_mul by lia.
  by destruct (Z.ltb_spec (2 * 0) d); [|lia].
Qed.

Lemma round_ne_mono n m d :
  0 < d -> n <= m -> round_ne n d <= round_ne m d.
Proof.
  intros Hd Hnm.
  pose proof (Z.div_mod n d ltac:(lia)). pose proof (Z.mod_pos_bound n d Hd).
  pose proof (Z.div_mod m d ltac:(lia)). pose proof (Z.mod_pos_bound m d Hd).
  pose proof (Z.div_le_mono n m d Hd Hnm).
  destruct (Z.eq_dec (n / d) (m / d)) as [E|E].
  - unfold round_ne. rewrite E. repeat case_match; nia.
  - pose proof (round_ne_bounds n d Hd). pose proof (round_ne_bounds m d Hd). lia.
Qed.

Lemma float32_small x : x < 2 ^ 24 -> float32_of_uint64 x = x.
Proof. intros H. unfold float32_of_uint64. by destruct (Z.ltb_spec x (2 ^ 24)); [|lia]. Qed.

(** A value of the binade [[2^L, 2^(L+1))] is rounded inside the closed binade. *)
Lemma float32_binade x :
  2 ^ 24 <= x ->
  2 ^ Z.log2 x <= float32_of_uint64 x <= 2 ^ (Z.log2 x + 1).
Proof.
  intros Hx. unfold float32_of_uint64.
  destruct (Z.ltb_spec x (2 ^ 24)); [lia|].
  pose proof (Z.log2_spec x ltac:(lia)) as [HL1 HL2].
  assert (24 <= Z.log2 x) by (apply Z.log2_le_pow2; lia).
  set (e := Z.log2 x - 23). set (p := 2 ^ e).
  assert (0 < p) by (apply Z.pow_pos_nonneg; lia).
  assert (E1 : 2 ^ Z.log2 x = 2 ^ 23 * p).
  { unfold p. rewrite <- Z.pow_add_r by lia. f_equal; lia. }
  assert (E2 : 2 ^ Z.succ (Z.log2 x) = 2 ^ 24 * p).
  { unfold p. rewrite <- Z.pow_add_r by lia. f_equal; lia. }
  rewrite <- Z.add_1_r in E2, HL2. rewrite E1, E2 in *.
  pose proof (round_ne_mono (2 ^ 23 * p) x p ltac:(lia) ltac:(lia)) as A.
  pose proof (round_ne_mono x (2 ^ 24 * p) p ltac:(lia) ltac:(lia)) as B.
  rewrite round_ne_exact in A, B by lia. nia.
Qed.

Lemma float32_mono x y :
  x <= y -> float32_of_uint64 x <= float32_of_uint64 y.
Proof.
  intros Hxy.
  destruct (Z.lt_ge_cases y (2 ^ 24)) as [Hy|Hy].
  { rewrite !float32_small by lia. lia. }
  pose proof (float32_binade y Hy) as [By _].
  destruct (Z.lt_ge_cases x (2 ^ 24)) as [Hx|Hx].
  { rewrite (float32_small x) by lia.
    assert (2 ^ 24 <= 2 ^ Z.log2 y); [|lia].
    apply Z.pow_le_mono_r; [lia|]. apply Z.log2_le_pow2; lia. }
  pose proof (float32_binade x Hx) as [_ Bx].
  destruct (Z.eq_dec (Z.log2 x) (Z.log2 y)) as [E|E].
  - unfold float32_of_uint64.
    destruct (Z.ltb_spec x (2 ^ 24)), (Z.ltb_spec y (2 ^ 24)); try lia.
    rewrite E. assert (24 <= Z.log2 y) by (apply Z.log2_le_pow2; lia).
    assert (0 < 2 ^ (Z.log2 y - 23)) by (apply Z.pow_pos_nonneg; lia).
    apply Z.mul_le_mono_nonneg_r; [lia|]. by apply round_ne_mono.
  - pose proof (Z.log2_le_mono x y Hxy).
    assert (2 ^ (Z.log2 x + 1) <= 2 ^ Z.log2 y); [|lia].
    apply Z.pow_le_mono_r; lia.
Qed.

(** The rounding of the quotient never moves it across an integer, so the
    ceiling is the exact one. *)
Lemma ceil_float64_div_3 n :
  0 <= n < 2 ^ 53 -> ceil_float64_div n 3 = (n + 2) / 3.
Proof.
  intros Hn. unfold ceil_float64_div.
  destruct (Z.eqb_spec n 0) as [->|Hn0]; [done|].
  set (k := 52 - _).
  assert (1 <= k).
  { subst k. assert (Z.log2 (n * 2 ^ 60 / 3) < 112); [|lia].
    apply Z.log2_lt_pow2; lia_div. }
  assert (E : 2 ^ k = 2 * 2 ^ (k - 1)).
  { rewrite <- Z.pow_succ_r by lia. f_equal; lia. }
  assert (0 < 2 ^ (k - 1)) by (apply Z.pow_pos_nonneg; lia).
  rewrite E. set (h := 2 ^ (k - 1)) in *.
  set (q := n / 3). set (r := n mod 3).
  assert (n = 3 * q + r) as Hnq by (subst q r; apply Z.div_mod; lia).
  assert (0 <= r < 3) by (subst r; apply Z.mod_pos_bound; lia).
  replace (n * (2 * h)) with (q * (2 * h) * 3 + r * (2 * h)) by lia.
  rewrite round_ne_shift; [|lia|].
  2: { rewrite !Z.even_mul. simpl. by rewrite orb_true_r. }
  replace (n + 2) with (q * 3 + (r + 2)) by lia.
  rewrite Z.div_add_l by lia.
  assert (0 < r -> 1 <= round_ne (r * (2 * h)) 3 <= 2 * h) as Hr.
  { clearbody h q r.
    assert (r = 0 \/ r = 1 \/ r = 2) as [Hr|[Hr|Hr]] by lia; rewrite Hr; intros; [lia| |];
      unfold round_ne; repeat case_match; lia_div. }
  clearbody h q r.
  assert (r = 0 \/ r = 1 \/ r = 2) as [Er|[Er|Er]] by lia; rewrite Er in *.
  - replace (round_ne (0 * (2 * h)) 3) with 0 by reflexivity.
    replace (- (q * (2 * h) + 0)) with (- q * (2 * h)) by lia.
    rewrite Z.div_mul by lia. change ((0 + 2) / 3) with 0. lia.
  - change ((1 + 2) / 3) with 1. specialize (Hr ltac:(lia)).
    rewrite <- (Z.div_unique_pos (- (q * (2 * h) + round_ne (1 * (2 * h)) 3)) (2 * h)
      (- (q + 1)) (2 * h - round_ne (1 * (2 * h)) 3)); lia.
  - change ((2 + 2) / 3) with 1. specialize (Hr ltac:(lia)).
    rewrite <- (Z.div_unique_pos (- (q * (2 * h) + round_ne (2 * (2 * h)) 3)) (2 * h)
      (- (q + 1)) (2 * h - round_ne (2 * (2 * h)) 3)); lia.
Qed.

(** ** Lists, sets and maps *)

Lemma size_list_to_set_le `{Countable A} (l : list A) :
  (size (list_to_set l : gset A) <= length l)%nat.
Proof.
  induction l as [|a l IH]; simpl; [done|].
  pose proof (size_union_alt {[a]} (list_to_set l : gset A)) as E1.
  rewrite size_singleton in E1.
  pose proof (subseteq_size (list_to_set l ∖ {[a]}) (list_to_set l : gset A) ltac:(set_solver)).
  lia.
Qed.

Lemma length_filter_fmap {A B} (f : A -> B) (P : B -> Prop) (Q : A -> Prop)
    `{forall b, Decision (P b), forall a, Decision (Q a)} l :
  (forall a, P (f a) <-> Q a) ->
  length (filter P (f <$> l)) = length (filter Q l).
Proof.
  intros HPQ. induction l as [|a l IH]; csimpl; [done|].
  rewrite !filter_cons. repeat case_decide; simpl; naive_solver.
Qed.

Lemma size_union_intersection `{Countable A} (X Y : gset A) :
  (size (X ∪ Y) + size (X ∩ Y) = size X + size Y)%nat.
Proof.
  rewrite size_union_alt.
  assert (size Y = size (Y ∖ X) + size (X ∩ Y))%nat; [|lia].
  rewrite <- size_union by set_solver. f_equal.
  apply set_eq. intros x. destruct (decide (x ∈ X)); set_solver.
Qed.

(** Reading a non-empty list at [n] consecutive positions modulo its length
    [n] enumerates it, whatever the starting point. *)
Lemma rotation_perm {A} (l : list A) (c r0 : Z) :
  let n := Z.of_nat (length l) in
  0 < n ->
  ((fun r => l !! Z.to_nat ((c + r) mod n)) <$> seqZ r0 n) ≡ₚ (Some <$> l).
Proof.
  intros n Hn.
  assert (((fun r => (c + r) mod n) <$> seqZ r0 n) ≡ₚ seqZ 0 n) as Hp.
  { apply submseteq_length_Permutation.
    - apply NoDup_submseteq.
      + apply NoDup_fmap_2_strong; [|apply NoDup_seqZ].
        intros x y Hx%elem_of_seqZ Hy%elem_of_seqZ E1.
        assert ((x - y) mod n = 0) as E2.
        { replace (x - y) with ((c + x) - (c + y)) by lia.
          rewrite Zminus_mod, E1, Z.sub_diag. by apply Z.mod_0_l; lia. }
        apply Z.mod_divide in E2 as [k Hk]; [|lia]. clearbody n.
        assert (- n < k * n < n) by lia. assert (k = 0) by nia. lia.
      + intros x (y & -> & _)%list_elem_of_fmap. apply elem_of_seqZ.
        pose proof (Z.mod_pos_bound (c + y) n Hn). lia.
    - rewrite length_fmap, !length_seqZ. lia. }
  transitivity ((fun k => l !! Z.to_nat k) <$> seqZ 0 n).
  - rewrite <- Hp, <- list_fmap_compose. done.
  - apply reflexive_eq. apply list_eq. intros i. rewrite !list_lookup_fmap.
    destruct (decide (i < length l)%nat) as [Hi|Hi].
    + rewrite lookup_seqZ_lt by lia. simpl.
      rewrite Z.add_0_l, Nat2Z.id. destruct (lookup_lt_is_Some_2 l i Hi) as [x ->]. done.
    + rewrite lookup_seqZ_ge by lia. by rewrite lookup_ge_None_2 by lia.
Qed.

Lemma list_filter_all {A} (P : A -> Prop) `{forall x, Decision (P x)} (l : list A) :
  (forall x, x ∈ l -> P x) -> filter P l = l.
Proof.
  induction l as [|x l IH]; intros Hl; [done|]. rewrite filter_cons_True by set_solver.
  f_equal. apply IH. set_solver.
Qed.

Lemma NoDup_fmap_filter {A B} (f : A -> B) (P : A -> Prop) `{forall x, Decision (P x)} l :
  NoDup (f <$> l) -> NoDup (f <$> filter P l).
Proof.
  induction l as [|x l IH]; [done|]. csimpl. rewrite filter_cons, NoDup_cons.
  intros [Hx Hn]. destruct (decide (P x)); [|by apply IH]. csimpl. constructor; [|by apply IH].
  rewrite list_elem_of_fmap. intros (y & Ey & [_ Hy]%list_elem_of_filter).
  apply Hx. rewrite list_elem_of_fmap. by exists y.
Qed.

(** Deleting the only match of a search. *)
Lemma delete_first_unique {A} (P : A -> Prop) `{forall x, Decision (P x)} (l : list A) i x :
  list_find P l = Some (i, x) -> (forall j y, l !! j = Some y -> P y -> j = i) ->
  delete i l = filter (fun y => ~ P y) l.
Proof.
  revert i. induction l as [|y l IH]; intros i Hf Hu; [done|].
  simpl in Hf. rewrite filter_cons. destruct (decide (P y)) as [Hy|Hy].
  - simplify_eq. rewrite decide_False by tauto. simpl. symmetry.
    apply list_filter_all. intros z [j Hj]%list_elem_of_lookup Hz.
    by specialize (Hu (S j) z Hj Hz).
  - rewrite decide_True by done. destruct (list_find P l) as [[j z]|]; simplify_eq/=.
    f_equal. apply IH; [done|]. intros k w Hk Hw. by specialize (Hu (S k) w Hk Hw) as [= ->].
Qed.

(** ** Programs: state passing with panics

    A Go method with a pointer receiver is a function from the receiver's
    state to its result and the new state, or to [Panic] where Go raises a
    run-time panic (nil dereference, index out of range, write to a nil
    map).

    A panic is labelled with whose it is: of the component itself, or of what
    it calls (which panicked, or answered with a nil that the component
    dereferences).  Go makes no difference; the label is what lets a theorem
    on a client say that the client is not to blame. *)

Inductive culprit := Own | Callee.

Inductive outcome (A : Type) :=
| Ret (a : A)
| Fail (who : culprit).
Arguments Ret {A} _.
Arguments Fail {A} _.

Abbreviation Panic := (Fail Own).
Abbreviation CalleePanic := (Fail Callee).

#[export] Instance outcome_ret : MRet outcome := @Ret.
#[export] Instance outcome_bind : MBind outcome := fun A B f m =>
  match m with Ret a => f a | Fail who => Fail who end.

(** Dereferencing a pointer that may be nil. *)
Definition deref {A} (p : option A) : outcome A :=
  match p with Some a => Ret a | None => Panic end.

Definition prog (S A : Type) : Type := S -> outcome (A * S).

#[export] Instance prog_ret {S} : MRet (prog S) := fun A a s => Ret (a, s).
#[export] Instance prog_bind {S} : MBind (prog S) := fun A B f m s =>
  match m s with Ret (a, s') => f a s' | Fail who => Fail who end.

(** Whether what a program calls can panic at all. *)
Class MayFail := callee_fails : Prop.

Section Prog.
Context {S : Type} {MF : MayFail}.

Definition get_state : prog S S := fun s => Ret (s, s).
Definition gets {A} (f : S -> A) : prog S A := fun s => Ret (f s, s).
Definition modify (f : S -> S) : prog S unit := fun s => Ret (tt, f s).
Definition lift {A} (o : outcome A) : prog S A := fun s =>
  match o with Ret a => Ret (a, s) | Fail who => Fail who end.
Definition load {A} (p : option A) : prog S A := lift (deref p).
Definition when (b : bool) (m : prog S unit) : prog S unit :=
  if b then m else mret tt.

(** [wp m s Q]: run from [s], [m] returns, and its result and final state
    satisfy [Q]; or what it calls panicked, which is possible only if
    [callee_fails]. *)
Definition wp {A} (m : prog S A) (s : S) (Q : A -> S -> Prop) : Prop :=
  match m s with
  | Ret (a, s') => Q a s'
  | Panic => False
  | CalleePanic => callee_fails
  end.

Lemma wp_ret {A} (a : A) s (Q : A -> S -> Prop) : Q a s -> wp (mret a) s Q.
Proof. done. Qed.

Lemma wp_bind {A B} (m : prog S A) (f : A -> prog S B) s (Q : B -> S -> Prop) :
  wp m s (fun a s' => wp (f a) s' Q) -> wp (m ≫= f) s Q.
Proof. unfold wp, mbind, prog_bind. by destruct (m s) as [[]|]. Qed.

Lemma prog_bind_ret {A B} (m : prog S A) (f : A -> prog S B) s a s' :
  m s = Ret (a, s') -> (m ≫= f) s = f a s'.
Proof. unfold mbind, prog_bind. by intros ->. Qed.

Lemma wp_get_state s (Q : S -> S -> Prop) : Q s s -> wp get_state s Q.
Proof. done. Qed.

Lemma wp_gets {A} (f : S -> A) s (Q : A -> S -> Prop) : Q (f s) s -> wp (gets f) s Q.
Proof. done. Qed.

Lemma wp_modify f s (Q : unit -> S -> Prop) : Q tt (f s) -> wp (modify f) s Q.
Proof. done. Qed.

Lemma wp_lift {A} (o : outcome A) a s (Q : A -> S -> Prop) :
  o = Ret a -> Q a s -> wp (lift o) s Q.
Proof. by intros ->. Qed.

Lemma wp_load {A} (p : option A) a s (Q : A -> S -> Prop) :
  p = Some a -> Q a s -> wp (load p) s Q.
Proof. by intros ->. Qed.

Lemma wp_when (b : bool) (m : prog S unit) s (Q : unit -> S -> Prop) :
  (b = true -> wp m s Q) -> (b = false -> Q tt s) -> wp (when b m) s Q.
Proof. destruct b; intros H1 H2; [by apply H1 | by apply H2]. Qed.

Lemma wp_mono {A} (m : prog S A) s (Q1 Q2 : A -> S -> Prop) :
  wp m s Q1 -> (forall a s', Q1 a s' -> Q2 a s') -> wp m s Q2.
Proof. unfold wp. destruct (m s) as [[]|[]]; eauto. Qed.

Lemma wp_run {A} (m : prog S A) s a s' (Q : A -> S -> Prop) :
  m s = Ret (a, s') -> Q a s' -> wp m s Q.
Proof. unfold wp. by intros ->. Qed.

Lemma wp_cases {A} (m : prog S A) s (Q : A -> S -> Prop) :
  wp m s Q <->
  (exists a s', m s = Ret (a, s') /\ Q a s') \/ (m s = CalleePanic /\ callee_fails).
Proof. unfold wp. destruct (m s) as [[a s']|[]]; naive_solver. Qed.

(** Going on with the equation of the first program. *)
Lemma wp_bind_eq {A B} (m : prog S A) (f : A -> prog S B) s (P : A -> S -> Prop) (Q : B -> S -> Prop) :
  wp m s P -> (forall a s', m s = Ret (a, s') -> P a s' -> wp (f a) s' Q) -> wp (m ≫= f) s Q.
Proof.
  unfold wp, mbind, prog_bind. intros Hm Hf. destruct (m s) as [[a s']|[]]; [|done..]. by apply Hf.
Qed.

Lemma wp_eq {A} (m : prog S A) s (P Q : A -> S -> Prop) :
  wp m s P -> (forall a s', m s = Ret (a, s') -> P a s' -> Q a s') -> wp m s Q.
Proof. unfold wp. intros Hm Hf. destruct (m s) as [[a s']|[]]; [|done..]. by apply Hf. Qed.

(** Whatever a run that satisfies its [wp] ends in satisfies [Q]. *)
Lemma wp_Ret {A} (m : prog S A) s (Q : A -> S -> Prop) a s' :
  wp m s Q -> m s = Ret (a, s') -> Q a s'.
Proof. unfold wp. by intros H E; rewrite E in H. Qed.

(** If nothing it calls can panic, a run that satisfies its [wp] returns. *)
Lemma wp_returns {A} (m : prog S A) s (Q : A -> S -> Prop) :
  ~ callee_fails -> wp m s Q -> exists a s', m s = Ret (a, s') /\ Q a s'.
Proof. intros Hs [H|[_ ?]]%wp_cases; done. Qed.
End Prog.

(** [wlp m s Q]: if [m] returns from [s], its result and final state satisfy
    [Q]; it may also panic. *)
Definition wlp {S A} (m : prog S A) (s : S) (Q : A -> S -> Prop) : Prop :=
  forall a s', m s = Ret (a, s') -> Q a s'.

Section Wlp.
Context {S : Type}.

Lemma wlp_ret {A} (a : A) (s : S) (Q : A -> S -> Prop) : Q a s -> wlp (mret a) s Q.
Proof. by intros HQ b s' [= <- <-]. Qed.

Lemma wlp_bind {A B} (m : prog S A) (f : A -> prog S B) s (Q : B -> S -> Prop) :
  wlp m s (fun a s' => wlp (f a) s' Q) -> wlp (m ≫= f) s Q.
Proof.
  unfold wlp, mbind, prog_bind. intros Hm b s'. destruct (m s) as [[a s1]|] eqn:E; [|done].
  by apply Hm.
Qed.

Lemma wlp_get_state (s : S) (Q : S -> S -> Prop) : Q s s -> wlp get_state s Q.
Proof. by intros HQ b s' [= <- <-]. Qed.

Lemma wlp_gets {A} (f : S -> A) s (Q : A -> S -> Prop) : Q (f s) s -> wlp (gets f) s Q.
Proof. by intros HQ b s' [= <- <-]. Qed.

Lemma wlp_modify f (s : S) (Q : unit -> S -> Prop) : Q tt (f s) -> wlp (modify f) s Q.
Proof. by intros HQ [] s' [= <-]. Qed.

Lemma wlp_lift {A} (o : outcome A) (s : S) (Q : A -> S -> Prop) :
  (forall a, o = Ret a -> Q a s) -> wlp (lift o) s Q.
Proof. intros HQ a s'. unfold lift. destruct o; [|done]. intros [= <- <-]. by apply HQ. Qed.

Lemma wlp_load {A} (p : option A) (s : S) (Q : A -> S -> Prop) :
  (forall a, p = Some a -> Q a s) -> wlp (load p) s Q.
Proof. intros HQ. apply wlp_lift. intros a. destruct p; intros [= <-]. by apply HQ. Qed.

Lemma wlp_mono {A} (m : prog S A) s (Q1 Q2 : A -> S -> Prop) :
  wlp m s Q1 -> (forall a s', Q1 a s' -> Q2 a s') -> wlp m s Q2.
Proof. intros H1 H2 a s' E. by apply H2, H1. Qed.
End Wlp.

Ltac wlp_step :=
  lazymatch goal with
  | |- wlp (_ ≫= _) _ _ => apply wlp_bind
  | |- wlp (mret _) _ _ => apply wlp_ret
  | |- wlp get_state _ _ => apply wlp_get_state
  | |- wlp (gets _) _ _ => apply wlp_gets
  | |- wlp (modify _) _ _ => apply wlp_modify
  | |- wlp (load _) _ _ => apply wlp_load; intros ? ?
  | |- wlp (lift _) _ _ => apply wlp_lift; intros ? ?
  end.
Ltac wlp_steps := repeat (wlp_step; cbv beta).

(** Each element has one property or another: one has the first, or all have
    the second. *)
Lemma set_all_or {A} `{Countable A} (Q : gset A) (P1 P2 : A -> Prop) :
  (forall x, x ∈ Q -> P1 x \/ P2 x) -> (exists x, x ∈ Q /\ P1 x) \/ (forall x, x ∈ Q -> P2 x).
Proof.
  induction Q as [|x Q Hx IH] using set_ind_L; [by right; intros ? ?%not_elem_of_empty|].
  intros HQ. destruct IH as [(y & Hy & ?)|HP]; [intros y Hy; apply HQ; set_solver|left; exists y; set_solver|].
  destruct (HQ x) as [?|?]; [set_solver|left; exists x; set_solver|].
  right. intros y [->%elem_of_singleton|?]%elem_of_union; [done|by apply HP].
Qed.

(** [keeps f m]: no run of [m] changes what [f] observes of the state. *)
Definition keeps {S A B} (f : S -> B) (m : prog S A) : Prop :=
  forall s a s', m s = Ret (a, s') -> f s' = f s.

Section Keeps.
Context {S B : Type} (f : S -> B).

Lemma keeps_ret {A} (a : A) : keeps f (mret a).
Proof. by intros s b s' [= _ ->]. Qed.

Lemma keeps_bind {A C} (m : prog S A) (g : A -> prog S C) :
  keeps f m -> (forall a, keeps f (g a)) -> keeps f (m ≫= g).
Proof.
  intros Hm Hg s c s'. unfold mbind, prog_bind. destruct (m s) as [[a s1]|] eqn:E; [|done].
  intros E'. rewrite (Hg a _ _ _ E'). by eapply Hm.
Qed.

Lemma keeps_get_state : keeps f get_state.
Proof. by intros s a s' [= _ ->]. Qed.

Lemma keeps_gets {A} (g : S -> A) : keeps f (gets g).
Proof. by intros s a s' [= _ ->]. Qed.

Lemma keeps_modify g : (forall s, f (g s) = f s) -> keeps f (modify g).
Proof. by intros Hg s a s' [= _ <-]. Qed.

Lemma keeps_lift {A} (o : outcome A) : keeps f (lift o).
Proof. intros s a s'. unfold lift. destruct o; [|done]. by intros [= _ ->]. Qed.

Lemma keeps_load {A} (p : option A) : keeps f (load p).
Proof. apply keeps_lift. Qed.

Lemma keeps_when b (m : prog S unit) : keeps f m -> keeps f (when b m).
Proof. destruct b; [done|]. intros _. apply keeps_ret. Qed.
End Keeps.

#[export] Hint Resolve keeps_ret keeps_bind keeps_get_state keeps_gets keeps_lift keeps_when : pbft.

Ltac keeps_step :=
  lazymatch goal with
  | |- keeps _ (_ ≫= _) => apply keeps_bind; [|intros ?]
  | |- keeps _ (match ?x with _ => _ end) => destruct x
  | |- keeps _ (modify _) => apply keeps_modify; intros ?; auto
  | |- keeps _ (load _) => apply keeps_load
  | |- keeps _ _ => solve [auto with pbft]
  end.
Ltac keeps_steps := repeat keeps_step.

(** [pres I m]: every run of [m] that returns preserves the invariant [I]. *)
Definition pres {S A} (I : S -> Prop) (m : prog S A) : Prop :=
  forall s, I s -> wlp m s (fun _ s' => I s').

Section Pres.
Context {S : Type} (I : S -> Prop).

Lemma pres_ret {A} (a : A) : pres I (mret a).
Proof. intros s Hs. by apply wlp_ret. Qed.

Lemma pres_bind {A B} (m : prog S A) (f : A -> prog S B) :
  pres I m -> (forall a, pres I (f a)) -> pres I (m ≫= f).
Proof.
  intros Hm Hf s Hs. apply wlp_bind. eapply wlp_mono; [by apply Hm|]. intros a s' Hs'. by apply Hf.
Qed.

Lemma pres_get_state : pres I get_state.
Proof. intros s Hs. by apply wlp_get_state. Qed.

Lemma pres_gets {A} (f : S -> A) : pres I (gets f).
Proof. intros s Hs. by apply wlp_gets. Qed.

Lemma pres_modify f : (forall s, I s -> I (f s)) -> pres I (modify f).
Proof. intros Hf s Hs. by apply wlp_modify, Hf. Qed.

Lemma pres_lift {A} (o : outcome A) : pres I (lift o).
Proof. intros s Hs. by apply wlp_lift. Qed.

Lemma pres_load {A} (o : option A) : pres I (load o).
Proof. apply pres_lift. Qed.

Lemma pres_when b (m : prog S unit) : pres I m -> pres I (when b m).
Proof. destruct b; [done|]. intros _. apply pres_ret. Qed.

(** Going on in a [wlp] goal after a program that preserves [I]. *)
Lemma pres_wlp {A} (m : prog S A) s (Q : A -> S -> Prop) :
  pres I m -> I s -> (forall a s', I s' -> Q a s') -> wlp m s Q.
Proof. intros Hm Hs HQ. eapply wlp_mono; [by apply Hm|]. exact HQ. Qed.
End Pres.

Create HintDb pres.
#[export] Hint Resolve pres_ret pres_get_state pres_gets pres_lift pres_load : pres.

(** One step of a proof that a program preserves an invariant: the hints of
    [pres] are the programs that are known to. *)
Ltac pres_step :=
  lazymatch goal with
  | |- pres _ (_ ≫= _) => apply pres_bind; [|intros ?]
  | |- pres _ (when _ _) => apply pres_when
  | |- pres _ (match ?x with _ => _ end) => destruct x
  | |- pres _ (modify _) => apply pres_modify; solve [eauto with pres]
  | |- pres _ _ => solve [auto with pres]
  end.
Ltac pres_steps := repeat pres_step.

(** The state a run ends in, when it returns. *)
Definition final {S A} (m : prog S A) (s : S) : option S :=
  match m s with Ret (_, s') => Some s' | Fail _ => None end.

Lemma final_Ret {S} (m : prog S unit) s s' : final m s = Some s' -> m s = Ret (tt, s').
Proof. unfold final. destruct (m s) as [[[] ?]|]; [|done]. by intros [= <-]. Qed.

Ltac wp_step :=
  lazymatch goal with
  | |- wp (_ ≫= _) _ _ => apply wp_bind
  | |- wp (mret _) _ _ => apply wp_ret
  | |- wp get_state _ _ => apply wp_get_state
  | |- wp (gets _) _ _ => apply wp_gets
  | |- wp (modify _) _ _ => apply wp_modify
  | |- wp (load _) _ _ => eapply wp_load; [first [eassumption | reflexivity]|]
  | |- wp (lift _) _ _ => eapply wp_lift; [first [eassumption | reflexivity]|]
  | |- wp (when _ _) _ _ => apply wp_when; intros
  end.
Ltac wp_steps := repeat (wp_step; cbv beta).
