(* ===== verification/Types.v ===== *)
(** * Types: the data of the protocol

    Models [protocol/types.go], [protocol/message.go], [protocol/config.go],
    [protocol/util.go], [protocol/errors.go] and [core/errorx.go].  Types of
    other modules ([types.Hash], [signature.SignResult]) and the [Proposal]
    and [Validator] interfaces are fields of the class [Platform]. *)

From stdpp Require Import pretty.
From S2P Require Import Prelude.

(** ** Interfaces *)

(** [types.Hash]: a comparable value with a zero value. *)
Class HashI (H : Type) := {
  hash_eq_dec :: EqDecision H;
  ZeroHash : H;
  Hash_Nil : H -> bool;
  Hash_Bytes : H -> string;
}.

(** Interface [Proposal] of [protocol/protocol.go]. *)
Class ProposalI (P H : Type) := {
  Height : P -> Z;
  HashOf : P -> H;
  Timestamp : P -> Z;
}.

(** Interface [Validator] of [protocol/validator.go].  Validators are
    compared as map keys, hence the countability. *)
Class ValidatorI (V : Type) := {
  validator_eq_dec :: EqDecision V;
  validator_countable :: Countable V;
  ID : V -> string;
}.

(** The types the program is written against. *)
Class Platform := {
  Hash : Type;
  SignResult : Type;
  Proposal : Type;
  Validator : Type;
  platform_hash :: HashI Hash;
  platform_proposal :: ProposalI Proposal Hash;
  platform_validator :: ValidatorI Validator;
}.

(** What [types.Hash.Nil] promises, and the range of block heights: a height
    and its successor fit in an [int64]. *)
Class PlatformLaws `{Platform} := {
  Hash_Nil_spec (h : Hash) : Hash_Nil h = true <-> h = ZeroHash;
  Height_range (p : Proposal) : 0 <= Height p < 2 ^ 63 - 1;
}.

(** ** Views (protocol/types.go) *)

(** The fields are [*big.Int] pointers, which may be nil. *)
Record View := mkView {
  Sequence : option Z;
  Round : option Z;
}.

#[export] Instance View_eq_dec : EqDecision View.
Proof. solve_decision. Defined.

(** [big.Int.Cmp] *)
Definition big_Cmp (x y : Z) : Z :=
  match x ?= y with Lt => -1 | Eq => 0 | Gt => 1 end.

Definition View_Cmp (v y : View) : outcome Z :=
  vs ← deref (Sequence v); ys ← deref (Sequence y);
  if negb (big_Cmp vs ys =? 0) then mret (big_Cmp vs ys)
  else
    vr ← deref (Round v); yr ← deref (Round y);
    if negb (big_Cmp vr yr =? 0) then mret (big_Cmp vr yr)
    else mret 0.

Definition View_String (v : View) : outcome string :=
  s ← deref (Sequence v); r ← deref (Round v);
  mret ("{Sequence: " +:+ pretty (big_Uint64 s)
        +:+ ", Round: " +:+ pretty (big_Uint64 r) +:+ "}")%string.

(** ** Consensus states (protocol/types.go: [type State uint64]) *)

Definition State := Z.
Definition StateAcceptRequest : State := 0.
Definition StatePrePrepared : State := 1.
Definition StatePrepared : State := 2.
Definition StateCommitted : State := 3.

Definition State_String (s : State) : string :=
  if s =? StateAcceptRequest then "Accept request"
  else if s =? StatePrePrepared then "PrePrepared"
  else if s =? StatePrepared then "Prepared"
  else if s =? StateCommitted then "Committed"
  else "Unknown".

Definition State_Cmp (s y : State) : Z :=
  if s <? y then -1 else if y <? s then 1 else 0.

(** ** Message codes (protocol/message.go) *)

Definition MsgPrePrepare : Z := 0.
Definition MsgPrepare : Z := 1.
Definition MsgCommit : Z := 2.
Definition MsgRoundChange : Z := 3.

(** ** Proposer policies (protocol/config.go) *)

Definition ProposerPolicy := Z.
Definition RoundRobin : ProposerPolicy := 0.
Definition Sticky : ProposerPolicy := 1.

Section Data.
Context `{Platform}.

(** [type Request struct { Proposal Proposal }]; the interface may be nil. *)
Record Request := mkRequest { rq_Proposal : option Proposal }.

Record PrePrepare := mkPrePrepare {
  pp_View : option View;
  pp_Proposal : option Proposal;
}.

Record Subject := mkSubject {
  sub_View : option View;
  Digest : Hash;
}.

#[export] Instance Subject_eq_dec : EqDecision Subject.
Proof. solve_decision. Defined.

Record Message := mkMessage {
  Code : Z;
  Msg : string;
  Msg_Validator : string;
  Signature : option SignResult;
  CommittedSeal : option SignResult;
}.

(** [Message.String] *)
Definition Message_String (m : Message) : string :=
  ("{Code: " +:+ pretty (Code m) +:+ ", Id: " +:+ Msg_Validator m +:+ "}")%string.

(** [PrepareCommittedSeal]: the bytes a committed seal signs. *)
Definition PrepareCommittedSeal (h : Hash) : string :=
  (Hash_Bytes h +:+ "commit")%string.
End Data.

(** ** Errors (protocol/errors.go, core/errorx.go)

    Go compares these errors by identity; [ErrOther] stands for the errors
    that the backend and the codec return. *)
Inductive error :=
| ErrUnauthorized
| ErrStoppedEngine
| ErrStartedEngine
| ErrOldMessage
| ErrUnknownAncestor
| ErrFutureBlock
| errInconsistentSubject
| errNotFromProposer
| errIgnored
| errFutureMessage
| errInvalidMessage
| errFailedDecodePrePrepare
| errFailedDecodePrepare
| errFailedDecodeCommit
| ErrOther (what : string).

#[export] Instance error_eq_dec : EqDecision error.
Proof. solve_decision. Defined.

(** A Go [error] result: [None] is nil. *)
Abbreviation err := (option error).

(** ** Views are ordered lexicographically *)

Lemma big_Cmp_spec x y :
  (x < y /\ big_Cmp x y = -1) \/ (x = y /\ big_Cmp x y = 0) \/ (y < x /\ big_Cmp x y = 1).
Proof. unfold big_Cmp. destruct (Z.compare_spec x y); auto. Qed.

(** The order of views: [(s, r)] before [(s', r')]. *)
Definition view_lt (v w : Z * Z) : Prop :=
  v.1 < w.1 \/ (v.1 = w.1 /\ v.2 < w.2).
Definition view_le (v w : Z * Z) : Prop := view_lt v w \/ v = w.

#[export] Instance view_lt_dec v w : Decision (view_lt v w).
Proof. unfold view_lt. apply _. Defined.

#[export] Instance view_le_preorder : PreOrder view_le.
Proof.
  split; [by right|].
  intros [a b] [c d] [e f]; unfold view_le, view_lt; simpl.
  intros [?|[= -> ->]] [?|[= -> ->]]; auto; left; lia.
Qed.

Definition full_view (s r : Z) : View := mkView (Some s) (Some r).

Lemma View_Cmp_full s r s' r' :
  exists k, View_Cmp (full_view s r) (full_view s' r') = Ret k /\
    (k < 0 <-> view_lt (s, r) (s', r')) /\
    (k = 0 <-> (s, r) = (s', r')) /\
    (0 < k <-> view_lt (s', r') (s, r)).
Proof.
  unfold View_Cmp, full_view, view_lt, mbind, outcome_bind, mret, outcome_ret; simpl.
  destruct (big_Cmp_spec s s') as [[? ->]|[[-> ->]|[? ->]]]; simpl;
    [| destruct (big_Cmp_spec r r') as [[? ->]|[[-> ->]|[? ->]]]; simpl |];
    eexists; (split; [reflexivity|]); repeat split; intros;
    first [lia | congruence | simplify_eq; lia].
Qed.
