(* ===== verification/Interfaces.v ===== *)
(** * Interfaces: what the components ask of each other and of the outside

    [ValidatorSetI] and [BackendI] are the Go interfaces [ValidatorSet]
    ([protocol/validator.go]) and [PBFTBackend] ([protocol/protocol.go]).
    The remaining classes stand for packages the program imports: the codec
    (chain5j-pkg/codec), the priority queue (collection/queues/preque), the
    ARC cache (hashicorp/golang-lru), keccak, the
    peer ids ([models.IDFromString]) and the p2p broadcaster.  The
    laws of each class are in a class of its own.  Calls of the backend may
    panic; [backend_fails] lists the ways in which it can make the core
    panic. *)

From S2P Require Import Prelude Types.

(** ** ValidatorSet *)

Class ValidatorSetI `{Platform} (VS : Type) := {
  CalcProposer : VS -> string -> Z -> VS;
  GetProposer : VS -> option Validator;
  IsProposer : VS -> string -> bool;
  Policy : VS -> ProposerPolicy;
  GetByIndex : VS -> Z -> option Validator;
  GetById : VS -> string -> Z * option Validator;
  AddValidator : VS -> string -> bool * VS;
  RemoveValidator : VS -> string -> bool * VS;
  List : VS -> list Validator;
  Size : VS -> Z;
  Copy : VS -> VS;
  FaultTolerantNum : VS -> Z;
}.

(** The promises the consensus core relies on. *)
Class ValidatorSetLaws `{ValidatorSetI VS} := {
  GetById_Some vs id i v : GetById vs id = (i, Some v) -> ID v = id /\ v ∈ List vs;
  GetById_None vs id i : GetById vs id = (i, None) -> id ∉ ID <$> List vs;
  CalcProposer_List vs p r : List (CalcProposer vs p r) = List vs;
  CalcProposer_GetById vs p r id : GetById (CalcProposer vs p r) id = GetById vs id;
  Size_List vs : Size vs = Z.of_nat (length (List vs));
  FaultTolerantNum_Size vs :
    Size vs < 2 ^ 53 -> FaultTolerantNum vs = (Size vs + 2) / 3 - 1;
  IsProposer_member vs id : IsProposer vs id = true -> is_Some (GetById vs id).2;
}.

(** ** The codec (chain5j-pkg/codec) and keccak *)

Class CodecI `{Platform} := {
  EncodeSubject : Subject -> option string;
  DecodeSubject : string -> option Subject;
  EncodePrePrepare : PrePrepare -> option string;
  DecodePrePrepare : string -> option PrePrepare;
  EncodeMessage : Message -> option string;
  DecodeMessage : string -> option Message;
  Keccak256 : string -> Hash;
  IDFromString : string -> string;
}.

(** Decoding allocates every pointer field that is not tagged as optional,
    and decoding the encoding of a complete value gives it back.  [Rlp.v]
    proves the laws for the encoding methods of the program. *)
Class CodecLaws `{CodecI} := {
  DecodeSubject_full b s :
    DecodeSubject b = Some s -> exists q r, sub_View s = Some (full_view q r);
  DecodePrePrepare_full b p :
    DecodePrePrepare b = Some p ->
    exists q r P, pp_View p = Some (full_view q r) /\ pp_Proposal p = Some P;
  DecodeSubject_Encode q r d b :
    let s := mkSubject (Some (full_view q r)) d in
    EncodeSubject s = Some b -> DecodeSubject b = Some s;
  DecodePrePrepare_Encode q r P b :
    let p := mkPrePrepare (Some (full_view q r)) (Some P) in
    EncodePrePrepare p = Some b -> DecodePrePrepare b = Some p;
  DecodeMessage_Encode m b : EncodeMessage m = Some b -> DecodeMessage b = Some m;
}.

(** ** Priority queues (preque.Prque): the greatest priority is popped first

    Priorities are float32 values; those of the program are integers. *)

Class PrqueI (Q : Type -> Type) := {
  prque_New {A} : Q A;
  prque_Push {A} : Q A -> A -> Z -> Q A;
  prque_Pop {A} : Q A -> option (A * Z * Q A);
  prque_Empty {A} : Q A -> bool;
  prque_Reset {A} : Q A -> Q A;
  (** the elements held, in no particular order *)
  prque_elems {A} : Q A -> list (A * Z);
}.

Class PrqueLaws `{PrqueI Q} := {
  elems_New {A} : prque_elems (@prque_New Q _ A) = [];
  elems_Push {A} (q : Q A) a p : prque_elems (prque_Push q a p) ≡ₚ (a, p) :: prque_elems q;
  elems_Reset {A} (q : Q A) : prque_elems (prque_Reset q) = [];
  Empty_elems {A} (q : Q A) : prque_Empty q = true <-> prque_elems q = [];
  Pop_None {A} (q : Q A) : prque_Pop q = None -> prque_elems q = [];
  Pop_Some {A} (q q' : Q A) a p :
    prque_Pop q = Some (a, p, q') ->
    prque_elems q ≡ₚ (a, p) :: prque_elems q' /\
    Forall (fun e => e.2 <= p) (prque_elems q');
}.

(** ** ARC caches (golang-lru) *)

Class CacheI (C : Type -> Type -> Type) := {
  cache_New {K V} : C K V;
  cache_Get {K V} `{EqDecision K} : C K V -> K -> option V * C K V;
  cache_Add {K V} `{EqDecision K} : C K V -> K -> V -> C K V;
  (** the entries held *)
  cache_elems {K V} : C K V -> list (K * V);
}.

(** A cache may forget entries but never makes one up. *)
Class CacheLaws `{CacheI C} := {
  cache_elems_New {K V} : cache_elems (@cache_New C _ K V) = [];
  cache_Get_elem {K V} `{EqDecision K} (c c' : C K V) k v :
    cache_Get c k = (Some v, c') -> (k, v) ∈ cache_elems c;
  cache_Get_elems {K V} `{EqDecision K} (c c' : C K V) k o :
    cache_Get c k = (o, c') -> cache_elems c' ⊆ cache_elems c;
  cache_Add_elems {K V} `{EqDecision K} (c : C K V) k v :
    cache_elems (cache_Add c k v) ⊆ (k, v) :: cache_elems c;
}.

(** ** PBFTBackend, the broadcaster and the clock

    [World] is everything behind these interfaces; every call may change it,
    and may panic. *)

Class BackendI `{Platform} (VS World : Type) := {
  be_Validators : Proposal -> prog World (option VS);  (* nil is an answer *)
  be_ParentValidators : Proposal -> prog World (option VS);
  be_Verify : Proposal -> prog World (option string);
  be_Commit : Proposal -> list (option SignResult) -> prog World (option string);
  be_Sign : string -> prog World (option SignResult + string);
  be_LastProposal : prog World (option Proposal * string);
  be_HasProposal : Hash -> Z -> prog World bool;
  be_GetProposer : Z -> prog World string;
  be_Broadcast : list string -> string -> prog World (option string);
  be_Now : prog World Z;
}.

(** The answers of a call, in whatever world it is made; whether it can
    panic. *)
Definition answers {W A} (f : prog W A) (a : A) : Prop := exists w w', f w = Ret (a, w').
Definition panics {W A} (f : prog W A) : Prop := exists w who, f w = Fail who.

(** The ways in which a backend can make the core panic. *)
Inductive backend_fails `{BackendI VS World} : Prop :=
| fails_Validators p : panics (be_Validators p) -> backend_fails
| nil_Validators p : answers (be_Validators p) None -> backend_fails
| fails_ParentValidators p : panics (be_ParentValidators p) -> backend_fails
| nil_ParentValidators p : answers (be_ParentValidators p) None -> backend_fails
| fails_Verify p : panics (be_Verify p) -> backend_fails
| fails_Commit p seals : panics (be_Commit p seals) -> backend_fails
| fails_Sign d : panics (be_Sign d) -> backend_fails
| fails_LastProposal : panics be_LastProposal -> backend_fails
| fails_HasProposal h n : panics (be_HasProposal h n) -> backend_fails
| fails_GetProposer n : panics (be_GetProposer n) -> backend_fails
| fails_Broadcast ps d : panics (be_Broadcast ps d) -> backend_fails
| fails_Now : panics be_Now -> backend_fails.
#[export] Hint Constructors backend_fails : pbft.

(** [float64] to [int64] conversion of an out-of-range value: the Go
    specification leaves the result to the implementation. *)
Class GoImpl := { f2i_overflow : Z -> Z }.

(** ** Everything the core is built on *)

Class Env := {
  env_platform :: Platform;
  ValidatorSet : Type;
  env_valset :: ValidatorSetI ValidatorSet;
  env_codec :: CodecI;
  Prque : Type -> Type;
  env_prque :: PrqueI Prque;
  Cache : Type -> Type -> Type;
  env_cache :: CacheI Cache;
  World : Type;
  env_backend :: BackendI ValidatorSet World;
  env_go :: GoImpl;
}.

(** The panics that the core is not to blame for are those of its backend. *)
#[export] Instance env_may_fail (E : Env) : MayFail := backend_fails (VS := ValidatorSet).

Class EnvLaws (E : Env) := {
  env_platform_laws :: PlatformLaws;
  env_valset_laws :: @ValidatorSetLaws _ ValidatorSet _;
  env_codec_laws :: @CodecLaws _ _;
  env_prque_laws :: @PrqueLaws Prque _;
  env_cache_laws :: @CacheLaws Cache _;
}.
