(* ===== verification/Rlp.v ===== *)
(** * Rlp: the encoding of views, proposals and votes

    The [EncodeRLP] and [DecodeRLP] methods of [protocol/types.go], and the
    codec of the core built from them ([rlp_codec]).  The RLP library is the
    class [RlpI]: an [item] is an RLP value; a struct is the list of its
    fields, decoded only from a list of the same length. *)

From S2P Require Import Prelude Types Interfaces.

Section Rlp.
Context `{P : Platform}.

Class RlpI := {
  item : Type;
  (** the bytes of a value, and the value that bytes hold *)
  rlp_write : item -> string;
  rlp_read : string -> option item;
  list_item : list item -> item;
  item_list : item -> option (list item);
  (** [*big.Int]; a negative one cannot be encoded *)
  big_item : option Z -> option item;
  item_big : item -> option Z;
  hash_item : Hash -> item;
  item_hash : item -> option Hash;
  (** what is written for a nil [*View] *)
  nil_View_item : outcome (option item);
  (** [*models.Block] and the type assertion [proposal.( *models.Block)] *)
  Block : Type;
  block_item : Block -> option item;
  item_block : item -> option Block;
  proposal_Block : Proposal -> option Block;
  Block_proposal : Block -> Proposal;
}.

(** Reading what was written gives it back. *)
Class RlpLaws `{RlpI} := {
  rlp_read_write i : rlp_read (rlp_write i) = Some i;
  item_list_item l : item_list (list_item l) = Some l;
  big_item_nonneg n : 0 <= n -> is_Some (big_item (Some n));
  item_big_item n i : big_item (Some n) = Some i -> item_big i = Some n;
  item_hash_item h : item_hash (hash_item h) = Some h;
  item_block_item b i : block_item b = Some i -> item_block i = Some b;
  Block_proposal_Block p b : proposal_Block p = Some b -> Block_proposal b = p;
}.

Context `{R : RlpI}.

(** ** View: the round comes first *)

Definition View_EncodeRLP (v : View) : option item :=
  r ← big_item (Round v); s ← big_item (Sequence v); Some (list_item [r; s]).

Definition View_DecodeRLP (it : item) : option View :=
  match item_list it with
  | Some [r; s] => r ← item_big r; s ← item_big s; Some (full_view s r)
  | _ => None
  end.

(** A [*View] inside another value. *)
Definition View_item (v : option View) : outcome (option item) :=
  match v with Some v => Ret (View_EncodeRLP v) | None => nil_View_item end.

(** ** PrePrepare and Subject *)

Definition PrePrepare_EncodeRLP (b : PrePrepare) : outcome (option item) :=
  p ← deref (pp_Proposal b);
  block ← deref (proposal_Block p);
  v ← View_item (pp_View b);
  mret (v ← v; b ← block_item block; Some (list_item [v; b])).

Definition PrePrepare_DecodeRLP (it : item) : option PrePrepare :=
  match item_list it with
  | Some [v; b] =>
      v ← View_DecodeRLP v; b ← item_block b;
      Some (mkPrePrepare (Some v) (Some (Block_proposal b)))
  | _ => None
  end.

Definition Subject_EncodeRLP (b : Subject) : outcome (option item) :=
  v ← View_item (sub_View b);
  mret (v ← v; Some (list_item [v; hash_item (Digest b)])).

Definition Subject_DecodeRLP (it : item) : option Subject :=
  match item_list it with
  | Some [v; d] => v ← View_DecodeRLP v; d ← item_hash d; Some (mkSubject (Some v) d)
  | _ => None
  end.

(** ** The codec of the core *)

Definition encoded (o : outcome (option item)) : option string :=
  match o with Ret i => rlp_write <$> i | Fail _ => None end.

(** Messages, keccak and peer ids are not encoded by methods of the program.
    A panic of [EncodeRLP] counts as an error here; the core encodes complete
    views and proposals that are blocks, where there is none
    ([rlp_roundtrip]). *)
Definition rlp_codec (EncodeM : Message -> option string) (DecodeM : string -> option Message)
    (keccak : string -> Hash) (ids : string -> string) : CodecI := {|
  EncodeSubject s := encoded (Subject_EncodeRLP s);
  DecodeSubject b := rlp_read b ≫= Subject_DecodeRLP;
  EncodePrePrepare p := encoded (PrePrepare_EncodeRLP p);
  DecodePrePrepare b := rlp_read b ≫= PrePrepare_DecodeRLP;
  EncodeMessage := EncodeM;
  DecodeMessage := DecodeM;
  Keccak256 := keccak;
  IDFromString := ids;
|}.

(** ** Round trips *)

Context `{L : !RlpLaws}.

Lemma View_roundtrip q r :
  0 <= q -> 0 <= r ->
  exists i, View_EncodeRLP (full_view q r) = Some i /\ View_DecodeRLP i = Some (full_view q r).
Proof.
  intros Hq Hr. destruct (big_item_nonneg q Hq) as [s Es], (big_item_nonneg r Hr) as [t Et].
  unfold View_EncodeRLP, View_DecodeRLP; simpl. rewrite Es, Et. simpl. eexists. split; [done|].
  by rewrite item_list_item, (item_big_item _ _ Es), (item_big_item _ _ Et).
Qed.

Lemma View_Decode_Encode q r i :
  View_EncodeRLP (full_view q r) = Some i -> View_DecodeRLP i = Some (full_view q r).
Proof.
  unfold View_EncodeRLP, View_DecodeRLP; simpl. intros E.
  apply bind_Some in E as (t & Et & E). apply bind_Some in E as (s & Es & [= <-]).
  by rewrite item_list_item, (item_big_item _ _ Es), (item_big_item _ _ Et).
Qed.

Lemma View_Decode_full i v : View_DecodeRLP i = Some v -> exists q r, v = full_view q r.
Proof.
  unfold View_DecodeRLP. destruct (item_list i) as [[|r [|s []]]|]; try done. intros E.
  apply bind_Some in E as (? & _ & E). apply bind_Some in E as (? & _ & [= <-]). by eexists _, _.
Qed.

Lemma Subject_Decode_Encode q r d i :
  Subject_EncodeRLP (mkSubject (Some (full_view q r)) d) = Ret (Some i) ->
  Subject_DecodeRLP i = Some (mkSubject (Some (full_view q r)) d).
Proof.
  unfold Subject_EncodeRLP, Subject_DecodeRLP; cbn. intros [= E].
  apply bind_Some in E as (v & Ev & [= <-]). rewrite item_list_item. cbn.
  by rewrite (View_Decode_Encode _ _ _ Ev), item_hash_item.
Qed.

Lemma PrePrepare_Decode_Encode q r p i :
  PrePrepare_EncodeRLP (mkPrePrepare (Some (full_view q r)) (Some p)) = Ret (Some i) ->
  PrePrepare_DecodeRLP i = Some (mkPrePrepare (Some (full_view q r)) (Some p)).
Proof.
  unfold PrePrepare_EncodeRLP, PrePrepare_DecodeRLP; cbn.
  destruct (proposal_Block p) as [b|] eqn:Eb; [|done]. cbn. intros [= E].
  apply bind_Some in E as (v & Ev & E). apply bind_Some in E as (bi & Ebi & [= <-]).
  rewrite item_list_item. cbn. rewrite (View_Decode_Encode _ _ _ Ev), (item_block_item _ _ Ebi). cbn.
  by rewrite (Block_proposal_Block _ _ Eb).
Qed.

Lemma Subject_Decode_full i s :
  Subject_DecodeRLP i = Some s -> exists q r, sub_View s = Some (full_view q r).
Proof.
  unfold Subject_DecodeRLP. destruct (item_list i) as [[|v [|d []]]|]; try done.
  intros E. apply bind_Some in E as (w & Ew & E). apply bind_Some in E as (? & _ & [= <-]).
  destruct (View_Decode_full _ _ Ew) as (q & r & ->). by eexists _, _.
Qed.

Lemma PrePrepare_Decode_full i p :
  PrePrepare_DecodeRLP i = Some p ->
  exists q r b, pp_View p = Some (full_view q r) /\ pp_Proposal p = Some (Block_proposal b).
Proof.
  unfold PrePrepare_DecodeRLP. destruct (item_list i) as [[|v [|b []]]|]; try done.
  intros E. apply bind_Some in E as (w & Ew & E). apply bind_Some in E as (? & _ & [= <-]).
  destruct (View_Decode_full _ _ Ew) as (q & r & ->). by eexists _, _, _.
Qed.

(** The codec has the laws the core relies on. *)
Lemma rlp_codec_laws EncodeM DecodeM keccak ids :
  (forall m b, EncodeM m = Some b -> DecodeM b = Some m) ->
  @CodecLaws P (rlp_codec EncodeM DecodeM keccak ids).
Proof.
  intros Hm. split; cbn [EncodeSubject DecodeSubject EncodePrePrepare DecodePrePrepare
    EncodeMessage DecodeMessage rlp_codec]; [..|exact Hm].
  - intros b s (i & _ & E)%bind_Some. by eapply Subject_Decode_full.
  - intros b p (i & _ & E)%bind_Some.
    destruct (PrePrepare_Decode_full _ _ E) as (q & r & bl & -> & ->). by eexists _, _, _.
  - intros q r d b. unfold encoded. destruct (Subject_EncodeRLP _) as [[i|]|] eqn:E; try done.
    intros [= <-]. rewrite rlp_read_write. by apply Subject_Decode_Encode.
  - intros q r p b. unfold encoded. destruct (PrePrepare_EncodeRLP _) as [[i|]|] eqn:E; try done.
    intros [= <-]. rewrite rlp_read_write. by apply PrePrepare_Decode_Encode.
Qed.

(** C32. Every vote with a complete view of non-negative numbers is encoded,
    and so is every proposal of an encodable block, without a panic; both
    decode to what was encoded. Whatever bytes are decoded, the result has a
    complete view, and a proposal has a block. *)
Theorem rlp_roundtrip :
  (forall q r d, 0 <= q -> 0 <= r ->
     let s := mkSubject (Some (full_view q r)) d in
     exists i, Subject_EncodeRLP s = Ret (Some i) /\ Subject_DecodeRLP i = Some s) /\
  (forall q r p b j, 0 <= q -> 0 <= r -> proposal_Block p = Some b -> block_item b = Some j ->
     let pp := mkPrePrepare (Some (full_view q r)) (Some p) in
     exists i, PrePrepare_EncodeRLP pp = Ret (Some i) /\ PrePrepare_DecodeRLP i = Some pp) /\
  (forall i s, Subject_DecodeRLP i = Some s -> exists q r, sub_View s = Some (full_view q r)) /\
  (forall i p, PrePrepare_DecodeRLP i = Some p ->
     exists q r b, pp_View p = Some (full_view q r) /\ pp_Proposal p = Some (Block_proposal b)).
Proof.
  split; [|split; [|split]].
  - intros q r d Hq Hr s. destruct (View_roundtrip q r Hq Hr) as (v & Ev & _).
    assert (E : Subject_EncodeRLP s = Ret (Some (list_item [v; hash_item d]))).
    { unfold Subject_EncodeRLP, s; cbn. by rewrite Ev. }
    eexists. split; [exact E|]. by apply Subject_Decode_Encode.
  - intros q r p b j Hq Hr Eb Ej pp. destruct (View_roundtrip q r Hq Hr) as (v & Ev & _).
    assert (E : PrePrepare_EncodeRLP pp = Ret (Some (list_item [v; j]))).
    { unfold PrePrepare_EncodeRLP, pp; cbn. rewrite Eb. cbn. by rewrite Ev, Ej. }
    eexists. split; [exact E|]. by apply PrePrepare_Decode_Encode.
  - apply Subject_Decode_full.
  - apply PrePrepare_Decode_full.
Qed.
End Rlp.
