(* ===== verification/MessageSet.v ===== *)
(** * MessageSet: the messages of a round, one per validator
    (protocol/message_set.go) *)

From S2P Require Import Prelude Types Interfaces.

Section MessageSet.
Context `{E : Env}.

Record MessageSet := mkMessageSet {
  ms_view : View;
  ms_valSet : ValidatorSet;
  messages : gmap string Message;
}.

Definition NewMessageSet (vs : ValidatorSet) : MessageSet :=
  mkMessageSet (full_view 0 0) vs ∅.

(** [MessageSet.verify] *)
Definition MessageSet_verify (ms : MessageSet) (m : Message) : err :=
  match (GetById (ms_valSet ms) (Msg_Validator m)).2 with
  | None => Some ErrUnauthorized
  | Some _ => None
  end.

(** [MessageSet.Add] *)
Definition MessageSet_Add (ms : MessageSet) (m : Message) : err * MessageSet :=
  match MessageSet_verify ms m with
  | Some e => (Some e, ms)
  | None =>
      (None, mkMessageSet (ms_view ms) (ms_valSet ms) (<[Msg_Validator m := m]> (messages ms)))
  end.

(** [MessageSet.Values]; Go enumerates the map in an unspecified order. *)
Definition MessageSet_Values (ms : MessageSet) : list Message :=
  (map_to_list (messages ms)).*2.

(** [MessageSet.Size] *)
Definition MessageSet_Size (ms : MessageSet) : Z := Z.of_nat (size (messages ms)).

(** [MessageSet.Get] *)
Definition MessageSet_Get (ms : MessageSet) (val : string) : option Message :=
  messages ms !! val.

(** [MessageSet.View] *)
Definition MessageSet_View (ms : MessageSet) : View := ms_view ms.

(** [MessageSet.String] *)
Definition MessageSet_String (ms : MessageSet) : string :=
  ("[" +:+ String.concat ", " (Msg_Validator <$> MessageSet_Values ms) +:+ "]")%string.

(** ** Well-formedness: every entry is filed under its sender, and the
    sender is a validator of the set. *)
Definition ms_wf (ms : MessageSet) : Prop :=
  forall id m, messages ms !! id = Some m ->
    Msg_Validator m = id /\ is_Some (GetById (ms_valSet ms) id).2.

Lemma NewMessageSet_wf vs : ms_wf (NewMessageSet vs).
Proof. intros id m. simpl. by rewrite lookup_empty. Qed.

Lemma MessageSet_Add_wf ms m : ms_wf ms -> ms_wf (MessageSet_Add ms m).2.
Proof.
  intros Hwf. unfold MessageSet_Add, MessageSet_verify.
  destruct (GetById (ms_valSet ms) (Msg_Validator m)).2 as [v|] eqn:E1; [|done].
  intros id m'; simpl. rewrite lookup_insert_Some. intros [[<- <-]|[? ?]]; eauto.
Qed.

Lemma MessageSet_Add_valSet ms m : ms_valSet (MessageSet_Add ms m).2 = ms_valSet ms.
Proof. unfold MessageSet_Add. by case_match. Qed.

Lemma MessageSet_Add_None ms m :
  (MessageSet_Add ms m).1 = None ->
  messages (MessageSet_Add ms m).2 = <[Msg_Validator m := m]> (messages ms).
Proof. unfold MessageSet_Add. by case_match. Qed.

Lemma MessageSet_Add_Some ms m e :
  (MessageSet_Add ms m).1 = Some e -> (MessageSet_Add ms m).2 = ms.
Proof. unfold MessageSet_Add. by case_match. Qed.

(** Each message of the set after an [Add] was there before or is the new one. *)
Lemma MessageSet_Add_lookup ms m id m' :
  messages (MessageSet_Add ms m).2 !! id = Some m' ->
  m' = m \/ messages ms !! id = Some m'.
Proof.
  unfold MessageSet_Add. destruct (MessageSet_verify ms m); simpl; [auto|].
  rewrite lookup_insert_Some. naive_solver.
Qed.

Lemma elem_of_Values ms m :
  m ∈ MessageSet_Values ms <-> exists id, messages ms !! id = Some m.
Proof.
  unfold MessageSet_Values. rewrite list_elem_of_fmap. split.
  - intros ([id m'] & -> & Hin). apply elem_of_map_to_list in Hin. eauto.
  - intros [id Hid]. exists (id, m). split; [done|]. by apply elem_of_map_to_list.
Qed.

Lemma length_Values ms : Z.of_nat (length (MessageSet_Values ms)) = MessageSet_Size ms.
Proof. unfold MessageSet_Values. by rewrite length_fmap, length_map_to_list. Qed.

(** The senders of a set, as a set. *)
Definition senders (ms : MessageSet) : gset string := dom (messages ms).

Lemma elem_of_senders ms i : i ∈ senders ms <-> is_Some (messages ms !! i).
Proof. apply elem_of_dom. Qed.

Lemma size_senders ms : Z.of_nat (size (senders ms)) = MessageSet_Size ms.
Proof. unfold senders, MessageSet_Size. by rewrite size_dom. Qed.

Context `{L : !EnvLaws E}.

(** A well-formed set holds at most one message per validator. *)
Lemma ms_wf_senders ms id :
  ms_wf ms -> id ∈ senders ms -> id ∈ ID <$> List (ms_valSet ms).
Proof.
  unfold senders. intros Hwf [m Hm]%elem_of_dom. destruct (Hwf id m Hm) as [<- [v Hv]].
  destruct (GetById _ _) as [i o] eqn:E1; simpl in Hv; subst o.
  apply GetById_Some in E1 as [<- Hin]. by apply list_elem_of_fmap_2.
Qed.

Lemma MessageSet_Size_bound ms :
  ms_wf ms -> 0 <= MessageSet_Size ms <= Size (ms_valSet ms).
Proof.
  intros Hwf. rewrite <- size_senders, Size_List. split; [lia|].
  apply Nat2Z.inj_le.
  assert (senders ms ⊆ list_to_set (ID <$> List (ms_valSet ms))) as Hsub.
  { intros id Hid. rewrite elem_of_list_to_set. by apply ms_wf_senders. }
  apply subseteq_size in Hsub. etrans; [exact Hsub|].
  etrans; [apply size_list_to_set_le|]. by rewrite length_fmap.
Qed.
End MessageSet.
