(* ===== verification/ValidatorSet.v ===== *)
(** * ValidatorSet: the default validator set and the proposer selection

    Models [validator/validator.go], [validator/validator_set.go] and
    [validator/selector.go].  Module [Default] holds the translated
    definitions under the source's names and their theorems; the instance
    at the end of the file discharges the interface [ValidatorSetI].  The
    read-write lock of the source is not modelled: an operation is one
    atomic step.  A [*defaultValidator] is its contents: the only two uses
    of the pointers here, [val == nil] and [reflect.DeepEqual], do not
    distinguish pointers to equal contents. *)

From S2P Require Import Prelude Types Interfaces.

Module Default.

(** [type defaultValidator struct { id string }] *)
Record defaultValidator := mkValidator { id : string }.

#[global] Instance defaultValidator_eq_dec : EqDecision defaultValidator.
Proof. solve_decision. Defined.

#[global] Program Instance defaultValidator_countable : Countable defaultValidator :=
  inj_countable' id mkValidator _.
Next Obligation. by intros []. Qed.

(** The functions a [selector] field can hold. *)
Inductive Selector := selRoundRobin | selSticky.

Record defaultValidatorSet := mkSet {
  policy : ProposerPolicy;
  proposer : option defaultValidator;
  validators : list defaultValidator;
  selector : Selector;
}.

(** [Validators.Less] is strict; sorting orders by [<=]. *)
Definition Less (a b : defaultValidator) : bool :=
  match String.compare (id a) (id b) with Lt => true | _ => false end.

Definition val_le (a b : defaultValidator) : Prop := String.le (id a) (id b).
#[export] Instance val_le_dec : RelDecision val_le.
Proof. intros a b. unfold val_le. apply _. Defined.

(** [sort.Sort] on a [Validators] slice. *)
Definition sort_validators (l : list defaultValidator) : list defaultValidator :=
  merge_sort val_le l.

Definition Size (vs : defaultValidatorSet) : Z := Z.of_nat (length (validators vs)).

Definition List (vs : defaultValidatorSet) : list defaultValidator := validators vs.

Definition GetByIndex (vs : defaultValidatorSet) (i : Z) : option defaultValidator :=
  if i <? u64 (Size vs) then validators vs !! Z.to_nat i else None.

(** The [range] loop of [GetById]. *)
Fixpoint getById_loop (index : Z) (l : list defaultValidator) (i : string)
    : Z * option defaultValidator :=
  match l with
  | [] => (-1, None)
  | val :: l' =>
      if bool_decide (i = id val) then (index, Some val)
      else getById_loop (index + 1) l' i
  end.

Definition GetById (vs : defaultValidatorSet) (i : string) : Z * option defaultValidator :=
  getById_loop 0 (List vs) i.

Definition newDefaultSet (ids : list string) (p : ProposerPolicy) : defaultValidatorSet :=
  let sorted := sort_validators (mkValidator <$> ids) in
  let vs := mkSet p None sorted selRoundRobin in
  mkSet p
    (if 0 <? Size vs then GetByIndex vs 0 else None)
    sorted
    (if p =? Sticky then selSticky else selRoundRobin).

Definition GetProposer (vs : defaultValidatorSet) : option defaultValidator := proposer vs.

(** [reflect.DeepEqual] of the recorded proposer and the validator found. *)
Definition IsProposer (vs : defaultValidatorSet) (i : string) : bool :=
  match (GetById vs i).2 with
  | None => false
  | Some val => bool_decide (GetProposer vs = Some val)
  end.

(** ** selector.go *)

Definition calcSeed (vs : defaultValidatorSet) (prop : string) (round : Z) : Z :=
  let offset := match GetById vs prop with (idx, Some _) => idx | _ => 0 end in
  u64 (u64 offset + round).

Definition roundRobinProposer (vs : defaultValidatorSet) (prop : string) (round : Z)
    : option defaultValidator :=
  if Size vs =? 0 then None
  else
    let seed := if String.eqb prop "" then round
                else u64 (calcSeed vs prop round + 1) in
    GetByIndex vs (seed mod u64 (Size vs)).

Definition stickyProposer (vs : defaultValidatorSet) (prop : string) (round : Z)
    : option defaultValidator :=
  if Size vs =? 0 then None
  else
    let seed := if String.eqb prop "" then round else calcSeed vs prop round in
    GetByIndex vs (seed mod u64 (Size vs)).

Definition run_selector (s : Selector) :=
  match s with selRoundRobin => roundRobinProposer | selSticky => stickyProposer end.

Definition CalcProposer (vs : defaultValidatorSet) (lastProposer : string) (round : Z)
    : defaultValidatorSet :=
  mkSet (policy vs) (run_selector (selector vs) vs lastProposer round)
    (validators vs) (selector vs).

Definition AddValidator (vs : defaultValidatorSet) (i : string) : bool * defaultValidatorSet :=
  if existsb (fun v => String.eqb (id v) i) (validators vs) then (false, vs)
  else (true, mkSet (policy vs) (proposer vs)
                (sort_validators (validators vs ++ [mkValidator i])) (selector vs)).

(** The loop of [RemoveValidator]: drops the first match. *)
Fixpoint remove_first (l : list defaultValidator) (i : string)
    : option (list defaultValidator) :=
  match l with
  | [] => None
  | v :: l' =>
      if String.eqb (id v) i then Some l' else cons v <$> remove_first l' i
  end.

Definition RemoveValidator (vs : defaultValidatorSet) (i : string)
    : bool * defaultValidatorSet :=
  match remove_first (validators vs) i with
  | Some l => (true, mkSet (policy vs) (proposer vs) l (selector vs))
  | None => (false, vs)
  end.

Definition Policy (vs : defaultValidatorSet) : ProposerPolicy := policy vs.

Definition Copy (vs : defaultValidatorSet) : defaultValidatorSet :=
  newDefaultSet (id <$> validators vs) (Policy vs).

(** [int(math.Ceil(float64(vs.Size())/3)) - 1] *)
Definition FaultTolerantNum (vs : defaultValidatorSet) : Z :=
  ceil_float64_div (Size vs) 3 - 1.

(** ** Order and sorting *)

#[export] Instance val_le_total : Total val_le.
Proof. intros a b. apply String.le_total. Qed.
#[export] Instance val_le_trans : Transitive val_le.
Proof. intros a b c. unfold val_le. apply transitivity. Qed.
#[export] Instance val_le_antisymm : AntiSymm (=) val_le.
Proof.
  intros [a] [b] H1 H2. unfold val_le in *; simpl in *. f_equal. by apply (anti_symm String.le).
Qed.

Lemma sort_sorted l : StronglySorted val_le (sort_validators l).
Proof. apply StronglySorted_merge_sort; apply _. Qed.

Lemma sort_perm l : sort_validators l ≡ₚ l.
Proof. apply merge_sort_Permutation. Qed.

(** Sorting has one result: [sort.Sort] being unstable does not matter. *)
Lemma sort_unique l l' : StronglySorted val_le l' -> l' ≡ₚ l -> sort_validators l = l'.
Proof.
  intros Hs Hp. apply (StronglySorted_unique val_le); [apply sort_sorted|done|].
  by rewrite sort_perm.
Qed.

Lemma sort_id l : StronglySorted val_le l -> sort_validators l = l.
Proof. intros. by apply sort_unique. Qed.

Lemma fmap_mkValidator_id (l : list defaultValidator) : mkValidator <$> (id <$> l) = l.
Proof. induction l as [|[] l IH]; csimpl; congruence. Qed.

Lemma fmap_id_mkValidator (l : list string) : id <$> (mkValidator <$> l) = l.
Proof. induction l as [|? l IH]; csimpl; congruence. Qed.

(** ** Lookup by id *)

Lemma getById_loop_spec l k i :
  (exists n val, getById_loop k l i = (k + Z.of_nat n, Some val) /\
     l !! n = Some val /\ id val = i /\
     forall m w, (m < n)%nat -> l !! m = Some w -> id w <> i) \/
  (getById_loop k l i = (-1, None) /\ i ∉ id <$> l).
Proof.
  revert k. induction l as [|v l IH]; intros k; simpl; [right; set_solver|].
  case_bool_decide as Hv.
  - left. exists 0%nat, v. repeat split; [f_equal; lia|done|]. intros; lia.
  - destruct (IH (k + 1)) as [(n & val & E1 & E2 & E3 & E4)|[E1 E2]].
    + left. exists (S n), val. repeat split; [|done..|].
      { rewrite E1. f_equal. lia. }
      intros [|m] w Hm Hw; [simpl in Hw; congruence|]. apply (E4 m w); [lia|exact Hw].
    + right. split; [done|]. set_solver.
Qed.

Lemma GetById_Some vs i k val :
  GetById vs i = (k, Some val) ->
  id val = i /\ 0 <= k < Size vs /\ validators vs !! Z.to_nat k = Some val.
Proof.
  unfold GetById, List. intros E0.
  destruct (getById_loop_spec (validators vs) 0 i) as [(n & v & E1 & E2 & E3 & _)|[E1 _]];
    rewrite E1 in E0; simplify_eq.
  apply lookup_lt_Some in E2 as Hlt. unfold Size.
  split; [done|]. split; [lia|]. by rewrite Z.add_0_l, Nat2Z.id.
Qed.

Lemma GetById_member vs i :
  is_Some (GetById vs i).2 <-> i ∈ id <$> validators vs.
Proof.
  unfold GetById, List.
  destruct (getById_loop_spec (validators vs) 0 i) as [(n & v & E1 & E2 & <- & _)|[E1 E2]];
    rewrite E1; simpl.
  - split; [intros _|eauto]. apply list_elem_of_fmap_2. by apply list_elem_of_lookup_2 in E2.
  - split; [by intros []|done].
Qed.

Lemma GetById_None vs i : (GetById vs i).2 = None <-> i ∉ id <$> validators vs.
Proof. rewrite <- GetById_member, eq_None_not_Some. done. Qed.

Lemma existsb_member (l : list defaultValidator) i :
  existsb (fun v => String.eqb (id v) i) l = true <-> i ∈ id <$> l.
Proof.
  rewrite existsb_exists, list_elem_of_fmap. split.
  - intros (v & Hin & <-%String.eqb_eq). exists v. split; [done|]. by apply list_elem_of_In.
  - intros (v & -> & Hin). exists v. split; [by apply list_elem_of_In|]. by apply String.eqb_eq.
Qed.

(** ** The invariant: sorted by id, no id twice *)

Definition wf (vs : defaultValidatorSet) : Prop :=
  StronglySorted val_le (validators vs) /\ NoDup (validators vs).

Definition ids (vs : defaultValidatorSet) : list string := id <$> validators vs.

Lemma id_inj (a b : defaultValidator) : id a = id b -> a = b.
Proof. destruct a, b; simpl; congruence. Qed.

Lemma elem_of_ids i (l : list defaultValidator) : i ∈ id <$> l <-> mkValidator i ∈ l.
Proof.
  rewrite list_elem_of_fmap. split; [|by exists (mkValidator i)].
  by intros ([j] & -> & Hin).
Qed.

Lemma remove_first_spec l i :
  match remove_first l i with
  | Some l' => (mkValidator i :: l') ≡ₚ l /\ sublist l' l
  | None => i ∉ id <$> l
  end.
Proof.
  induction l as [|v l IH]; simpl; [set_solver|].
  destruct (String.eqb_spec (id v) i) as [<-|Hne].
  - destruct v. split; [done|]. by constructor.
  - destruct (remove_first l i) as [l'|]; simpl.
    + destruct IH as [Hp Hs]. split; [|by constructor]. rewrite <- Hp. constructor.
    + set_solver.
Qed.

Lemma StronglySorted_sublist {A} (R : relation A) (l l' : list A) :
  sublist l' l -> StronglySorted R l -> StronglySorted R l'.
Proof.
  induction 1 as [|x l1 l2 Hs IH|x l1 l2 Hs IH]; intros H; [done| |];
    apply StronglySorted_inv in H as [H1 H2]; [|by apply IH].
  constructor; [by apply IH|]. rewrite Forall_forall in *. intros y Hy. apply H2.
  by eapply elem_of_sublist.
Qed.

Lemma remove_first_id l i :
  i ∉ id <$> l -> remove_first l i = None.
Proof.
  intros Hi. pose proof (remove_first_spec l i) as H.
  destruct (remove_first l i) as [l'|]; [|done].
  destruct H as [Hp _]. exfalso. apply Hi, elem_of_ids. rewrite <- Hp. constructor.
Qed.

Lemma remove_first_member l i :
  i ∈ id <$> l -> exists l', remove_first l i = Some l' /\
    (mkValidator i :: l') ≡ₚ l /\ sublist l' l.
Proof.
  intros Hi. pose proof (remove_first_spec l i) as H.
  destruct (remove_first l i) as [l'|]; naive_solver.
Qed.

Lemma AddValidator_cases vs i :
  (i ∈ ids vs /\ AddValidator vs i = (false, vs)) \/
  ((i ∉ ids vs) /\ (AddValidator vs i).1 = true /\
   validators (AddValidator vs i).2 ≡ₚ (mkValidator i :: validators vs) /\
   StronglySorted val_le (validators (AddValidator vs i).2) /\
   proposer (AddValidator vs i).2 = proposer vs).
Proof.
  unfold AddValidator, ids.
  destruct (existsb _ _) eqn:E1.
  - left. split; [by apply existsb_member|done].
  - right. split; [|split; [done|split; [|split; [apply sort_sorted|done]]]].
    + intros Hin%existsb_member. congruence.
    + simpl. rewrite sort_perm. by rewrite Permutation_app_comm.
Qed.

Lemma selector_pick s vs last :
  0 < Size vs < 2 ^ 62 ->
  exists c, 0 <= c <= Size vs /\
    forall r, 0 <= r < 2 ^ 62 ->
      run_selector s vs last r = validators vs !! Z.to_nat ((c + r) mod Size vs).
Proof.
  intros Hn.
  assert (Hget : forall x, GetByIndex vs (x mod u64 (Size vs)) =
                   validators vs !! Z.to_nat (x mod Size vs)).
  { intros x. unfold GetByIndex. rewrite u64_small by (unfold in_u64; lia).
    pose proof (Z.mod_pos_bound x (Size vs) ltac:(lia)).
    by destruct (Z.ltb_spec (x mod Size vs) (Size vs)); [|lia]. }
  assert (Hseed : exists o, 0 <= o < Size vs /\
    forall r, 0 <= r < 2 ^ 62 -> calcSeed vs last r = o + r).
  { unfold calcSeed. destruct (GetById vs last) as [k [val|]] eqn:E1.
    - apply GetById_Some in E1 as (_ & Hk & _). exists k. split; [done|].
      intros r Hr. rewrite (u64_small k) by (unfold in_u64; lia).
      apply u64_small. unfold in_u64; lia.
    - exists 0. split; [lia|]. intros r Hr. change (u64 0) with 0.
      apply u64_small. unfold in_u64; lia. }
  destruct Hseed as (o & Ho & Hseed).
  exists (if String.eqb last "" then 0
          else match s with selRoundRobin => o + 1 | selSticky => o end).
  split; [destruct (String.eqb last ""), s; lia|].
  intros r Hr. destruct s; simpl; unfold roundRobinProposer, stickyProposer;
    (destruct (Z.eqb_spec (Size vs) 0); [lia|]); rewrite Hget;
    destruct (String.eqb last ""); rewrite ?Hseed by done; try done.
  rewrite u64_small by (unfold in_u64; lia). do 3 f_equal. lia.
Qed.

(** ** Theorems *)

(** C40. [NewSet] holds exactly the given ids (duplicates included), sorted,
    starts with the first validator as proposer, and rotates by the policy. *)
Theorem newDefaultSet_correct l p :
  Z.of_nat (length l) < 2 ^ 63 ->
  StronglySorted val_le (validators (newDefaultSet l p)) /\
  ids (newDefaultSet l p) ≡ₚ l /\
  GetProposer (newDefaultSet l p) = head (validators (newDefaultSet l p)) /\
  Policy (newDefaultSet l p) = p /\
  run_selector (selector (newDefaultSet l p)) =
    (if p =? Sticky then stickyProposer else roundRobinProposer).
Proof.
  intros Hl. split; [apply sort_sorted|].
  assert (Hp : ids (newDefaultSet l p) ≡ₚ l).
  { unfold ids; simpl. rewrite sort_perm. by rewrite fmap_id_mkValidator. }
  split; [done|]. split; [|split; [done|]].
  - apply Permutation_length in Hp. unfold ids in Hp. rewrite length_fmap in Hp.
    revert Hp. unfold newDefaultSet, GetProposer, GetByIndex, Size; simpl.
    destruct (sort_validators _) as [|v l']; simpl; [done|]. intros Hp.
    rewrite u64_small by (unfold in_u64; lia). done.
  - simpl. by destruct (p =? Sticky).
Qed.

Example newDefaultSet_correct_witness :
  GetProposer (newDefaultSet ["c"; "a"; "b"]%string RoundRobin) = Some (mkValidator "a").
Proof.
  destruct (newDefaultSet_correct ["c"; "a"; "b"]%string RoundRobin ltac:(done)) as (_ & _ & H & _).
  rewrite H. reflexivity.
Defined.

(** [AddValidator] succeeds exactly on an id that is not a validator yet;
    it then inserts that id and nothing else, keeps the set sorted and free
    of duplicates and leaves the proposer alone; on a known id the set is
    unchanged. *)
Theorem AddValidator_correct vs i :
  wf vs ->
  wf (AddValidator vs i).2 /\
  ((AddValidator vs i).1 = true <-> i ∉ ids vs) /\
  ((AddValidator vs i).1 = false -> (AddValidator vs i).2 = vs) /\
  (forall j, j ∈ ids (AddValidator vs i).2 <-> j = i \/ j ∈ ids vs) /\
  proposer (AddValidator vs i).2 = proposer vs.
Proof.
  intros [Hs Hn].
  destruct (AddValidator_cases vs i) as [[Hin ->]|(Hin & E1 & Hp & Hs' & Hprop)].
  - simpl. split; [done|]. split; [naive_solver|]. split; [done|]. split; [|done].
    set_solver.
  - split.
    { split; [done|]. rewrite Hp. constructor; [|done]. by rewrite <- elem_of_ids. }
    split; [naive_solver|]. split; [congruence|]. split; [|done].
    intros j. unfold ids. rewrite !elem_of_ids, Hp, elem_of_cons. naive_solver.
Qed.

Example AddValidator_correct_witness :
  (AddValidator (newDefaultSet ["b"]%string 0) "a").1 = true /\
  "a"%string ∈ ids (AddValidator (newDefaultSet ["b"]%string 0) "a").2.
Proof.
  assert (wf (newDefaultSet ["b"]%string 0)) as Hwf by (split; repeat constructor; set_solver).
  destruct (AddValidator_correct _ "a" Hwf) as (_ & H1 & _ & H2 & _).
  split; [reflexivity|]. apply H2. by left.
Defined.

(** [RemoveValidator] succeeds exactly on a validator of the set; it then
    drops that id and nothing else and keeps the set sorted.  The recorded
    proposer is left alone, so a removed proposer is no longer a proposer
    of the set. *)
Theorem RemoveValidator_correct vs i :
  wf vs ->
  wf (RemoveValidator vs i).2 /\
  ((RemoveValidator vs i).1 = true <-> i ∈ ids vs) /\
  ((RemoveValidator vs i).1 = false -> (RemoveValidator vs i).2 = vs) /\
  (forall j, j ∈ ids (RemoveValidator vs i).2 <-> j <> i /\ j ∈ ids vs) /\
  proposer (RemoveValidator vs i).2 = proposer vs /\
  IsProposer (RemoveValidator vs i).2 i = false.
Proof.
  intros [Hs Hn].
  assert (Hout : forall vs', i ∉ ids vs' -> IsProposer vs' i = false).
  { intros vs' Hi. unfold IsProposer. by rewrite (proj2 (GetById_None vs' i) Hi). }
  unfold RemoveValidator. destruct (decide (i ∈ ids vs)) as [Hin|Hin].
  - destruct (remove_first_member _ _ Hin) as (l' & -> & Hp & Hsub).
    assert (Hn' : NoDup (mkValidator i :: l')) by by rewrite Hp.
    apply NoDup_cons in Hn' as [Hi Hn'].
    assert (Hmem : forall j, j ∈ id <$> l' <-> j <> i /\ j ∈ ids vs).
    { intros j. unfold ids. rewrite !elem_of_ids, <- Hp, elem_of_cons.
      split; [|naive_solver]. intros Hj. split; [by intros ->|by right]. }
    simpl. split; [split; [by eapply StronglySorted_sublist|done]|].
    split; [done|]. split; [done|]. split; [done|]. split; [done|].
    apply Hout. unfold ids; simpl. naive_solver.
  - rewrite (remove_first_id _ _ Hin). simpl.
    split; [done|]. split; [done|]. split; [done|].
    split; [|by auto]. intros j. split; [|naive_solver].
    intros Hj. split; [by intros ->|done].
Qed.

Example RemoveValidator_correct_witness :
  (RemoveValidator (newDefaultSet ["a"; "b"]%string 0) "a").1 = true /\
  IsProposer (RemoveValidator (newDefaultSet ["a"; "b"]%string 0) "a").2 "a" = false.
Proof.
  assert (wf (newDefaultSet ["a"; "b"]%string 0)) as Hwf.
  { split; repeat constructor; set_solver. }
  destruct (RemoveValidator_correct _ "a" Hwf) as (_ & _ & _ & _ & _ & H).
  split; [reflexivity|exact H].
Defined.

(** Round trip: removing a validator that was just added gives the old
    set back, and so does copying a set (except that a copy's proposer is
    the first validator). *)
Theorem Add_Remove_Copy_roundtrip vs i :
  wf vs -> i ∉ ids vs -> selector vs = (if policy vs =? Sticky then selSticky else selRoundRobin) ->
  RemoveValidator (AddValidator vs i).2 i = (true, vs) /\
  validators (Copy vs) = validators vs /\ Policy (Copy vs) = Policy vs /\
  selector (Copy vs) = selector vs.
Proof.
  intros [Hs Hn] Hi Hsel. split.
  - destruct (AddValidator_cases vs i) as [[? _]|(_ & _ & Hp & Hs' & _)]; [done|].
    unfold AddValidator in *. destruct (existsb _ _) eqn:E1.
    { apply existsb_member in E1. done. }
    simpl in *. unfold RemoveValidator; simpl.
    assert (Hin : i ∈ id <$> sort_validators (validators vs ++ [mkValidator i])).
    { apply elem_of_ids. rewrite Hp. constructor. }
    destruct (remove_first_member _ _ Hin) as (l' & -> & Hp' & Hsub).
    f_equal. destruct vs as [pol pr vals sel]; simpl in *. f_equal.
    apply (StronglySorted_unique val_le); [by eapply StronglySorted_sublist|done|].
    rewrite Hp in Hp'. by apply (inj (cons (mkValidator i))) in Hp'.
  - unfold Copy, newDefaultSet; simpl. rewrite fmap_mkValidator_id, sort_id by done.
    split; [done|]. split; [done|]. by rewrite Hsel.
Qed.

Example Add_Remove_Copy_roundtrip_witness :
  RemoveValidator (AddValidator (newDefaultSet ["a"; "c"]%string 0) "b").2 "b" =
    (true, newDefaultSet ["a"; "c"]%string 0).
Proof.
  apply Add_Remove_Copy_roundtrip; [split; repeat constructor; set_solver| |reflexivity].
  apply (bool_decide_unpack _). vm_compute. exact I.
Defined.

(** C38. Proposer rotation is fair under both policies: over any [Size]
    consecutive rounds, whatever the last proposer, every validator is
    chosen exactly once. *)
Theorem CalcProposer_rotation vs last r0 :
  0 < Size vs < 2 ^ 61 -> 0 <= r0 < 2 ^ 61 ->
  ((fun r => GetProposer (CalcProposer vs last r)) <$> seqZ r0 (Size vs))
    ≡ₚ (Some <$> validators vs).
Proof.
  intros Hn Hr0. destruct (selector_pick (selector vs) vs last ltac:(lia)) as (c & Hc & Hpick).
  rewrite <- (rotation_perm (validators vs) c r0) by (unfold Size in Hn; lia).
  apply reflexive_eq. apply list_fmap_ext. intros k r Hr.
  apply lookup_seqZ in Hr as [-> Hr]. simpl. apply Hpick. unfold Size in *. lia.
Qed.

Example CalcProposer_rotation_witness :
  ((fun r => GetProposer (CalcProposer (newDefaultSet ["a"; "b"; "c"]%string Sticky) "b" r))
     <$> seqZ 5 3) ≡ₚ (Some <$> [mkValidator "a"; mkValidator "b"; mkValidator "c"]).
Proof.
  exact (CalcProposer_rotation (newDefaultSet ["a"; "b"; "c"]%string Sticky) "b" 5
           ltac:(vm_compute; done) ltac:(done)).
Defined.

(** After [CalcProposer] on a non-empty set exactly one id is the
    proposer; in round 0 it is the last proposer itself under [Sticky] and
    its cyclic successor under round robin. *)
Theorem CalcProposer_proposer vs last k v :
  wf vs -> Size vs < 2 ^ 61 -> last <> ""%string -> GetById vs last = (k, Some v) ->
  (forall r, 0 <= r < 2 ^ 61 ->
     exists p, p ∈ ids vs /\
       forall i, IsProposer (CalcProposer vs last r) i = true <-> i = p) /\
  (selector vs = selSticky -> GetProposer (CalcProposer vs last 0) = Some v) /\
  (selector vs = selRoundRobin ->
     GetProposer (CalcProposer vs last 0) =
       validators vs !! Z.to_nat (if k + 1 =? Size vs then 0 else k + 1)).
Proof.
  intros [Hs Hn] Hsz Hlast Hget.
  destruct (GetById_Some _ _ _ _ Hget) as (_ & Hk & Hv).
  assert (Hpos : 0 < Size vs < 2 ^ 62) by lia.
  split; [|split].
  - intros r Hr. destruct (selector_pick (selector vs) vs last Hpos) as (c & Hc & Hpick).
    pose proof (Z.mod_pos_bound (c + r) (Size vs) ltac:(lia)) as Hb.
    destruct (lookup_lt_is_Some_2 (validators vs) (Z.to_nat ((c + r) mod Size vs))) as [p Hp].
    { unfold Size in *. lia. }
    exists (id p). split; [apply list_elem_of_fmap_2; by eapply list_elem_of_lookup_2|].
    intros i. unfold IsProposer, GetProposer. change (proposer (CalcProposer vs last r))
      with (run_selector (selector vs) vs last r). rewrite Hpick, Hp by lia.
    change (GetById (CalcProposer vs last r) i) with (GetById vs i).
    destruct (GetById vs i) as [j [w|]] eqn:E1; simpl.
    + apply GetById_Some in E1 as [<- _]. rewrite bool_decide_eq_true.
      split; [congruence|]. by intros <-%id_inj.
    + split; [done|]. intros ->. exfalso.
      pose proof (f_equal snd E1) as E2. apply GetById_None in E2. apply E2.
      apply list_elem_of_fmap_2. by eapply list_elem_of_lookup_2.
  - intros Hsel. unfold GetProposer; simpl. rewrite Hsel; simpl. unfold stickyProposer, calcSeed.
    destruct (Z.eqb_spec (Size vs) 0); [lia|].
    destruct (String.eqb_spec last ""); [done|]. rewrite Hget.
    rewrite Z.add_0_r, !(u64_small k) by (unfold in_u64; lia).
    rewrite u64_small, Z.mod_small by (unfold in_u64; lia).
    unfold GetByIndex. rewrite u64_small by (unfold in_u64; lia).
    by destruct (Z.ltb_spec k (Size vs)); [|lia].
  - intros Hsel. unfold GetProposer; simpl. rewrite Hsel; simpl. unfold roundRobinProposer, calcSeed.
    destruct (Z.eqb_spec (Size vs) 0); [lia|].
    destruct (String.eqb_spec last ""); [done|]. rewrite Hget.
    rewrite Z.add_0_r, !(u64_small k), !u64_small by (unfold in_u64; lia).
    unfold GetByIndex. rewrite u64_small by (unfold in_u64; lia).
    destruct (Z.eqb_spec (k + 1) (Size vs)) as [->|].
    + rewrite Z.mod_same by lia. by destruct (Z.ltb_spec 0 (Size vs)); [|lia].
    + rewrite Z.mod_small by lia. by destruct (Z.ltb_spec (k + 1) (Size vs)); [|lia].
Qed.

Example CalcProposer_proposer_witness :
  GetProposer (CalcProposer (newDefaultSet ["a"; "b"]%string RoundRobin) "b" 0)
    = Some (mkValidator "a").
Proof.
  assert (wf (newDefaultSet ["a"; "b"]%string RoundRobin)) as Hwf.
  { split; repeat constructor; set_solver. }
  destruct (CalcProposer_proposer (newDefaultSet ["a"; "b"]%string RoundRobin) "b" 1
    (mkValidator "b") Hwf ltac:(vm_compute; done) ltac:(done) ltac:(reflexivity)) as (_ & _ & H).
  rewrite H by reflexivity. reflexivity.
Defined.

(** C39. [FaultTolerantNum] is exact: for every set that fits in memory it is
    the greatest [f] with [3f + 1 <= Size], although it is computed through
    a rounded floating-point quotient. *)
Theorem FaultTolerantNum_exact vs :
  Size vs < 2 ^ 53 ->
  FaultTolerantNum vs = (Size vs + 2) / 3 - 1 /\
  (forall f, 0 < Size vs -> f <= FaultTolerantNum vs <-> 3 * f + 1 <= Size vs).
Proof.
  intros H. unfold FaultTolerantNum. rewrite ceil_float64_div_3 by (unfold Size in *; lia).
  split; [done|]. intros f. lia_div.
Qed.

Example FaultTolerantNum_exact_witness :
  FaultTolerantNum (newDefaultSet ["a"; "b"; "c"; "d"]%string 0) = 1.
Proof.
  rewrite (proj1 (FaultTolerantNum_exact (newDefaultSet ["a"; "b"; "c"; "d"]%string 0)
    ltac:(vm_compute; done))). reflexivity.
Defined.
End Default.

(** ** The default set implements the interface *)

Section Instances.
Context (H S P : Type) (hi : HashI H) (pi : ProposalI P H).

#[local] Instance default_validator : ValidatorI Default.defaultValidator :=
  {| ID := Default.id |}.

Definition default_platform : Platform := {|
  Hash := H; SignResult := S; Proposal := P; Validator := Default.defaultValidator;
|}.

#[local] Existing Instance default_platform.

Definition default_valset : @ValidatorSetI default_platform Default.defaultValidatorSet := {|
  CalcProposer := Default.CalcProposer;
  GetProposer := Default.GetProposer : _ -> option (@Validator default_platform);
  IsProposer := Default.IsProposer;
  Policy := Default.Policy;
  GetByIndex := Default.GetByIndex : _ -> _ -> option (@Validator default_platform);
  GetById := Default.GetById : _ -> _ -> Z * option (@Validator default_platform);
  AddValidator := Default.AddValidator;
  RemoveValidator := Default.RemoveValidator;
  List := Default.List : _ -> list (@Validator default_platform);
  Size := Default.Size;
  Copy := Default.Copy;
  FaultTolerantNum := Default.FaultTolerantNum;
|}.

(** The promises of [ValidatorSetLaws] hold of the default set. *)
Lemma default_valset_laws : @ValidatorSetLaws default_platform _ default_valset.
Proof.
  split; simpl.
  - intros vs i k v E1. destruct (Default.GetById_Some vs i k v E1) as (-> & _ & Hl).
    split; [done|]. by eapply list_elem_of_lookup_2.
  - intros vs i k E1. apply Default.GetById_None. by rewrite E1.
  - done.
  - done.
  - done.
  - intros vs Hs. unfold Default.FaultTolerantNum.
    rewrite ceil_float64_div_3; [done|]. unfold Default.Size in *. lia.
  - intros vs i. unfold Default.IsProposer. destruct (Default.GetById vs i).2; [eauto|done].
Qed.
End Instances.
