(* ===== verification/Quorum.v ===== *)
(** * Quorum: the threshold of the protocol (core/utils.go, reachThreshold)

    The threshold is stated against the validator-set interface; the
    intersection theorems are about sets of validator ids. *)

From S2P Require Import Prelude Types Interfaces ValidatorSet.

Section Quorum.
Context `{P : Platform, VS : Type, I : !ValidatorSetI VS, L : !ValidatorSetLaws}.

(** [reachThreshold] *)
Definition reachThreshold (vs : VS) (num : Z) : bool :=
  let f := FaultTolerantNum vs in
  if f =? 0 then num =? Size vs
  else if 2 * f <? num then true
  else false.

(** A set of validator ids that reaches the threshold. *)
Definition quorum (vs : VS) (Q : gset string) : Prop :=
  Q ⊆ list_to_set (ID <$> List vs) /\ reachThreshold vs (Z.of_nat (size Q)) = true.

Lemma reachThreshold_iff vs num :
  0 < Size vs < 2 ^ 53 ->
  reachThreshold vs num = true <->
    (Size vs <= 3 /\ num = Size vs) \/ (3 < Size vs /\ 2 * ((Size vs + 2) / 3 - 1) < num).
Proof.
  intros Hn. unfold reachThreshold. rewrite FaultTolerantNum_Size by lia.
  destruct (Z.eqb_spec ((Size vs + 2) / 3 - 1) 0);
    [destruct (Z.eqb_spec num (Size vs))|
     destruct (Z.ltb_spec (2 * ((Size vs + 2) / 3 - 1)) num)]; split; try done; lia_div.
Qed.

Lemma quorum_intersection_size vs (Q1 Q2 : gset string) :
  Q1 ⊆ list_to_set (ID <$> List vs) -> Q2 ⊆ list_to_set (ID <$> List vs) ->
  Z.of_nat (size Q1) + Z.of_nat (size Q2) - Size vs <= Z.of_nat (size (Q1 ∩ Q2)).
Proof.
  intros H1 H2.
  assert (size (Q1 ∪ Q2) <= length (List vs))%nat.
  { rewrite <- (length_fmap ID). rewrite <- (size_list_to_set_le (A:=string)).
    apply subseteq_size. set_solver. }
  pose proof (size_union_intersection Q1 Q2).
  rewrite Size_List. lia.
Qed.

Lemma quorums_intersect vs (Q1 Q2 : gset string) :
  0 < Size vs < 2 ^ 53 ->
  Size vs mod 3 = 1 \/ Size vs <= 3 ->
  quorum vs Q1 -> quorum vs Q2 ->
  FaultTolerantNum vs < Z.of_nat (size (Q1 ∩ Q2)).
Proof.
  intros Hn Hmod [H1 T1] [H2 T2].
  pose proof (quorum_intersection_size vs Q1 Q2 H1 H2) as Hi.
  rewrite reachThreshold_iff in T1, T2 by done.
  rewrite FaultTolerantNum_Size by lia. lia_div.
Qed.

(** Quorums depend on the validators only, not on the proposer. *)
Lemma quorum_ext vs vs' Q :
  List vs = List vs' -> 0 < Size vs < 2 ^ 53 -> quorum vs Q -> quorum vs' Q.
Proof.
  intros Hl Hn [H1 H2]. assert (Hs : Size vs' = Size vs) by by rewrite !Size_List, Hl.
  split; [by rewrite <- Hl|].
  rewrite reachThreshold_iff in H2 by done. apply reachThreshold_iff; rewrite Hs; done.
Qed.

(** A member of both quorums that is not faulty. *)
Lemma quorums_share_correct vs (Q1 Q2 F : gset string) :
  0 < Size vs < 2 ^ 53 -> Size vs mod 3 = 1 \/ Size vs <= 3 ->
  quorum vs Q1 -> quorum vs Q2 -> Z.of_nat (size F) <= FaultTolerantNum vs ->
  exists i, i ∈ Q1 /\ i ∈ Q2 /\ i ∉ F.
Proof.
  intros Hn Hmod H1 H2 HF. pose proof (quorums_intersect vs Q1 Q2 Hn Hmod H1 H2) as Hi.
  destruct (decide (Q1 ∩ Q2 ⊆ F)) as [Hs|Hs].
  - apply subseteq_size in Hs. lia.
  - destruct (set_choose_or_empty ((Q1 ∩ Q2) ∖ F)) as [[i Hi']|He].
    + exists i. rewrite elem_of_difference, elem_of_intersection in Hi'. tauto.
    + exfalso. apply Hs. intros i Hi'. destruct (decide (i ∈ F)) as [|Hf]; [done|].
      assert (i ∈ (Q1 ∩ Q2) ∖ F) as Hin by (by apply elem_of_difference).
      rewrite He in Hin. by apply elem_of_empty in Hin.
Qed.

(** Quorum intersection: when the number of validators is [3f + 1], or at
    most three, any two quorums share more validators than may be faulty. *)
Theorem quorum_intersection vs (Q1 Q2 : gset string) :
  0 < Size vs < 2 ^ 53 ->
  Size vs mod 3 = 1 \/ Size vs <= 3 ->
  quorum vs Q1 -> quorum vs Q2 ->
  FaultTolerantNum vs < Z.of_nat (size (Q1 ∩ Q2)).
Proof. apply quorums_intersect. Qed.

(** For every other size the threshold is too low: with [3f + 2] or
    [3f + 3] validators, [f >= 1], there are two quorums that share at most
    [f] validators, all of which may be faulty. *)
Theorem quorum_too_small vs :
  NoDup (ID <$> List vs) -> 3 < Size vs < 2 ^ 53 -> Size vs mod 3 <> 1 ->
  exists Q1 Q2 : gset string,
    quorum vs Q1 /\ quorum vs Q2 /\
    Z.of_nat (size (Q1 ∩ Q2)) <= FaultTolerantNum vs.
Proof.
  intros Hnd Hn Hmod. set (l := ID <$> List vs) in *.
  set (k := Z.to_nat (2 * FaultTolerantNum vs + 1)).
  assert (Hlen : Z.of_nat (length l) = Size vs) by (subst l; by rewrite length_fmap, Size_List).
  assert (Hf : FaultTolerantNum vs = (Size vs + 2) / 3 - 1) by (apply FaultTolerantNum_Size; lia).
  assert (Hk : Z.of_nat k = 2 * FaultTolerantNum vs + 1 /\ (k <= length l)%nat) by (split; lia_div).
  destruct Hk as [Hk Hkl].
  assert (Hth : reachThreshold vs (Z.of_nat k) = true) by (apply reachThreshold_iff; [lia|right; lia]).
  exists (list_to_set (take k l)), (list_to_set (drop (length l - k) l)).
  assert (N1 : NoDup (take k l)) by by apply (sublist_NoDup _ l); [|apply sublist_take].
  assert (N2 : NoDup (drop (length l - k) l)) by by apply (sublist_NoDup _ l); [|apply sublist_drop].
  assert (Hsub : forall l', sublist l' l -> (list_to_set l' : gset string) ⊆ list_to_set l).
  { intros l' Hl' x. rewrite !elem_of_list_to_set. intros Hx. by eapply elem_of_sublist. }
  assert (S1 : size (list_to_set (take k l) : gset string) = k).
  { rewrite size_list_to_set, length_take by done. lia. }
  assert (S2 : size (list_to_set (drop (length l - k) l) : gset string) = k).
  { rewrite size_list_to_set, length_drop by done. lia. }
  split; [split; [apply Hsub, sublist_take|by rewrite S1]|].
  split; [split; [apply Hsub, sublist_drop|by rewrite S2]|].
  assert (Hcov : (list_to_set l : gset string) ⊆
    list_to_set (take k l) ∪ list_to_set (drop (length l - k) l)).
  { intros x. rewrite elem_of_union, !elem_of_list_to_set.
    rewrite <- (take_drop (length l - k) l) at 1. rewrite elem_of_app.
    intros [Hx|Hx]; [left|by right].
    eapply elem_of_sublist; [exact Hx|].
    replace (length l - k)%nat with ((length l - k) `min` k)%nat by lia_div.
    rewrite <- take_take. apply sublist_take. }
  apply subseteq_size in Hcov. rewrite (size_list_to_set l) in Hcov by done.
  pose proof (size_union_intersection (list_to_set (take k l) : gset string)
    (list_to_set (drop (length l - k) l))). lia_div.
Qed.
End Quorum.
