(* ===== verification/Votes.v ===== *)
(** * Votes: the managers' votes on managers and validators

    Models [manange.go], the vote types of [types.go] and [Tally] of
    [snapshot.go].

    - A [voteSnapshot] holds its validator set by reference: the set is an
      object of a [heap], since snapshots share it and [applyVVotes] changes
      it in place.  The heap allocates references in order.
    - A Go map that may be nil is an [option]: a nil map reads as empty
      ([map_get], [set_has]) and panics when written ([map_put], [set_put]).
    - Votes are never changed once made, so a pointer to a vote is its
      contents.  A counter of votes is bounded by the length of a list in
      memory and is a [Z].
    - [getVotes] ranges over its maps in an unspecified order, which is an
      argument of the definition. *)

From S2P Require Import Prelude Types ValidatorSet.

(** ** Objects and maps of Go *)

Record heap := mkHeap {
  hp_sets : gmap nat Default.defaultValidatorSet;
  hp_next : nat;
}.

Definition heap_alloc (h : heap) (vs : Default.defaultValidatorSet) : nat * heap :=
  (hp_next h, mkHeap (<[hp_next h := vs]> (hp_sets h)) (S (hp_next h))).

(** The object behind a reference that may be nil. *)
Definition heap_get (h : heap) (p : option nat) : outcome Default.defaultValidatorSet :=
  p ← deref p; deref (hp_sets h !! p).

Definition heap_put (h : heap) (p : option nat) (vs : Default.defaultValidatorSet) : heap :=
  match p with
  | Some p => mkHeap (<[p := vs]> (hp_sets h)) (hp_next h)
  | None => h
  end.

Definition map_get `{Countable K} {V} (m : option (gmap K V)) (k : K) : option V :=
  m ≫= fun m => m !! k.

Definition map_put `{Countable K} {V} (m : option (gmap K V)) (k : K) (v : V)
    : outcome (option (gmap K V)) :=
  match m with Some m => Ret (Some (<[k := v]> m)) | None => Panic end.

Definition map_del `{Countable K} {V} (m : option (gmap K V)) (k : K) : option (gmap K V) :=
  delete k <$> m.

Definition set_has `{Countable K} (s : option (gset K)) (k : K) : bool :=
  match s with Some s => bool_decide (k ∈ s) | None => false end.

Definition set_put `{Countable K} (s : option (gset K)) (k : K) : outcome (option (gset K)) :=
  match s with Some s => Ret (Some ({[k]} ∪ s)) | None => Panic end.

Definition set_del `{Countable K} (s : option (gset K)) (k : K) : option (gset K) :=
  (fun s => s ∖ {[k]}) <$> s.

Definition set_len `{Countable K} (s : option (gset K)) : Z :=
  match s with Some s => Z.of_nat (size s) | None => 0 end.

(** [append(l[:i], l[i+1:]...)] for [i >= 0]: it panics when [i] is not an
    index of [l]. *)
Definition slice_remove {A} (i : nat) (l : list A) : outcome (list A) :=
  if (i <? length l)%nat then Ret (delete i l) else Panic.

(** ** Votes (types.go, snapshot.go) *)

Record Tally := mkTally {
  ty_Authorize : bool;
  ty_Votes : Z;
}.

#[export] Instance Tally_eq_dec : EqDecision Tally.
Proof. solve_decision. Defined.

#[export] Program Instance Tally_countable : Countable Tally :=
  inj_countable' (fun t => (ty_Authorize t, ty_Votes t)) (fun '(a, n) => mkTally a n) _.
Next Obligation. by intros []. Qed.

(** What a map of tallies answers for a missing key. *)
Definition zero_Tally : Tally := mkTally false 0.

Section Votes.
Context {Address : Type} `{Countable Address}.

Record ManagementVote := mkManagementVote {
  mv_Manager : Address;
  mv_Candidate : Address;
  mv_Authorize : bool;
  mv_DeadlineHeight : option Z;
  mv_Signature : string;
}.

Record ValidatorVote := mkValidatorVote {
  vv_Manager : Address;
  vv_Validator : string;
  vv_Authorize : bool;
  vv_DeadlineHeight : option Z;
  vv_Signature : string;
}.

#[export] Instance ManagementVote_eq_dec : EqDecision ManagementVote.
Proof. solve_decision. Defined.

#[export] Program Instance ManagementVote_countable : Countable ManagementVote :=
  inj_countable' (fun v => (mv_Manager v, mv_Candidate v, mv_Authorize v, mv_DeadlineHeight v,
      mv_Signature v))
    (fun '(m, c, a, d, s) => mkManagementVote m c a d s) _.
Next Obligation. by intros []. Qed.

#[export] Instance ValidatorVote_eq_dec : EqDecision ValidatorVote.
Proof. solve_decision. Defined.

#[export] Program Instance ValidatorVote_countable : Countable ValidatorVote :=
  inj_countable' (fun v => (vv_Manager v, vv_Validator v, vv_Authorize v, vv_DeadlineHeight v,
      vv_Signature v))
    (fun '(m, c, a, d, s) => mkValidatorVote m c a d s) _.
Next Obligation. by intros []. Qed.

(** ** The votes this node proposes (type [manager]) *)

Record manager := mkManager {
  mCandidate : gmap Address ManagementVote;
  vCandidate : gmap string ValidatorVote;
}.

Definition newManager : manager := mkManager ∅ ∅.

Definition setMVote (m : manager) (addr : Address) (vote : ManagementVote) : manager :=
  mkManager (<[addr := vote]> (mCandidate m)) (vCandidate m).

Definition setVVote (m : manager) (val : string) (vote : ValidatorVote) : manager :=
  mkManager (mCandidate m) (<[val := vote]> (vCandidate m)).

(** [&&] evaluates the deadline only after the check. *)
Definition vote_current (check : bool) (deadline : option Z) (height : Z) : outcome bool :=
  if check then d ← deref deadline; mret (height <? big_Uint64 d) else mret false.

(** The [range] loops of [getVotes]; [order] is the order in which the map
    is enumerated. *)
Fixpoint pick_vote {K V} `{Countable K} (usable : K -> V -> outcome bool)
    (order : list K) (m : gmap K V) : outcome (option V * gmap K V) :=
  match order with
  | [] => mret (None, m)
  | k :: order' =>
      match m !! k with
      | None => pick_vote usable order' m
      | Some vote =>
          ok ← usable k vote;
          if (ok : bool) then mret (Some vote, m)
          else pick_vote usable order' (delete k m)
      end
  end.

Definition getVotes (m : manager) (height : Z)
    (checkMVote : Address -> bool -> outcome bool)
    (checkVVote : string -> bool -> outcome bool)
    (m_order : list Address) (v_order : list string)
    : outcome ((option ManagementVote * option ValidatorVote) * manager) :=
  '(mVote, mc) ← pick_vote (fun address vote =>
      ok ← checkMVote address (mv_Authorize vote);
      vote_current ok (mv_DeadlineHeight vote) height) m_order (mCandidate m);
  '(vVote, vc) ← pick_vote (fun id vote =>
      ok ← checkVVote id (vv_Authorize vote);
      vote_current ok (vv_DeadlineHeight vote) height) v_order (vCandidate m);
  mret ((mVote, vVote), mkManager mc vc).

(** ** The votes cast on the chain (type [voteSnapshot]) *)

Record voteSnapshot := mkVoteSnapshot {
  ValSet : option nat;
  Managers : option (gset Address);
  vVotes : list ValidatorVote;
  mVotes : list ManagementVote;
  vTally : option (gmap string Tally);
  mTally : option (gmap Address Tally);
}.

Definition newVoteSnapshot (valSet : option nat) (managers : list Address) : voteSnapshot :=
  mkVoteSnapshot valSet (Some (list_to_set managers)) [] [] None None.

Definition isManager (s : voteSnapshot) (addr : Address) : bool := set_has (Managers s) addr.

(** [(ok && !authorize) || (!ok && authorize)] *)
Definition votable (present authorize : bool) : bool :=
  (present && negb authorize) || (negb present && authorize).

Definition checkMVote (s : voteSnapshot) (address : Address) (authorize : bool) : bool :=
  votable (set_has (Managers s) address) authorize.

Definition checkVVote (h : heap) (s : voteSnapshot) (id : string) (authorize : bool)
    : outcome bool :=
  vs ← heap_get h (ValSet s);
  mret (votable (bool_decide (is_Some (Default.GetById vs id).2)) authorize).

(** The state of the vote methods: the receiver and the validator sets. *)
Record VState := mkVState {
  vsnap : voteSnapshot;
  vheap : heap;
}.

Definition upd_snap (f : voteSnapshot -> voteSnapshot) : prog VState unit :=
  modify (fun st => mkVState (f (vsnap st)) (vheap st)).

Definition set_ValSet p (s : voteSnapshot) : voteSnapshot :=
  mkVoteSnapshot p (Managers s) (vVotes s) (mVotes s) (vTally s) (mTally s).
Definition set_Managers m (s : voteSnapshot) : voteSnapshot :=
  mkVoteSnapshot (ValSet s) m (vVotes s) (mVotes s) (vTally s) (mTally s).
Definition set_vVotes l (s : voteSnapshot) : voteSnapshot :=
  mkVoteSnapshot (ValSet s) (Managers s) l (mVotes s) (vTally s) (mTally s).
Definition set_mVotes l (s : voteSnapshot) : voteSnapshot :=
  mkVoteSnapshot (ValSet s) (Managers s) (vVotes s) l (vTally s) (mTally s).
Definition set_vTally t (s : voteSnapshot) : voteSnapshot :=
  mkVoteSnapshot (ValSet s) (Managers s) (vVotes s) (mVotes s) t (mTally s).
Definition set_mTally t (s : voteSnapshot) : voteSnapshot :=
  mkVoteSnapshot (ValSet s) (Managers s) (vVotes s) (mVotes s) (vTally s) t.

(** The tally part of [castM] and [castV]. *)
Definition cast_tally {K} `{Countable K} (t : option (gmap K Tally)) (k : K) (authorize : bool)
    : outcome (option (gmap K Tally)) :=
  match map_get t k with
  | Some old => map_put t k (mkTally (ty_Authorize old) (ty_Votes old + 1))
  | None => map_put t k (mkTally authorize 1)
  end.

(** The tally part of [uncastM] and [uncastV]: the result and the new map. *)
Definition uncast_tally {K} `{Countable K} (t : option (gmap K Tally)) (k : K) (authorize : bool)
    : outcome (bool * option (gmap K Tally)) :=
  match map_get t k with
  | None => mret (false, t)
  | Some tally =>
      if negb (Bool.eqb (ty_Authorize tally) authorize) then mret (false, t)
      else if 1 <? ty_Votes tally then
        t' ← map_put t k (mkTally (ty_Authorize tally) (ty_Votes tally - 1));
        mret (true, t')
      else mret (true, map_del t k)
  end.

Definition castM (address : Address) (authorize : bool) : prog VState bool :=
  s ← gets vsnap;
  if negb (checkMVote s address authorize) then mret false
  else
    t ← lift (cast_tally (mTally s) address authorize);
    upd_snap (set_mTally t);;
    mret true.

Definition uncastM (address : Address) (authorize : bool) : prog VState bool :=
  s ← gets vsnap;
  r ← lift (uncast_tally (mTally s) address authorize);
  upd_snap (set_mTally r.2);;
  mret r.1.

Definition castV (id : string) (authorize : bool) : prog VState bool :=
  st ← get_state;
  ok ← lift (checkVVote (vheap st) (vsnap st) id authorize);
  if negb ok then mret false
  else
    t ← lift (cast_tally (vTally (vsnap st)) id authorize);
    upd_snap (set_vTally t);;
    mret true.

Definition uncastV (id : string) (authorize : bool) : prog VState bool :=
  s ← gets vsnap;
  r ← lift (uncast_tally (vTally s) id authorize);
  upd_snap (set_vTally r.2);;
  mret r.1.

Definition m_same (manager candidate : Address) (vote : ManagementVote) : Prop :=
  mv_Manager vote = manager /\ mv_Candidate vote = candidate.
Definition v_same (manager : Address) (validator : string) (vote : ValidatorVote) : Prop :=
  vv_Manager vote = manager /\ vv_Validator vote = validator.
#[export] Instance m_same_dec a c v : Decision (m_same a c v).
Proof. unfold m_same. apply _. Defined.
#[export] Instance v_same_dec a c v : Decision (v_same a c v).
Proof. unfold v_same. apply _. Defined.

(** The first loop of [applyMVotes]: take back the manager's earlier vote on
    the candidate. *)
Definition revokeM (manager candidate : Address) : prog VState unit :=
  s ← gets vsnap;
  match list_find (m_same manager candidate) (mVotes s) with
  | Some (i, vote) =>
      uncastM (mv_Candidate vote) (mv_Authorize vote);;
      s ← gets vsnap;
      l ← lift (slice_remove i (mVotes s));
      upd_snap (set_mVotes l)
  | None => mret tt
  end.

(** The discarding loop of [applyMVotes]: [kept] are the votes before the
    index of the loop, [todo] those from it on. *)
Fixpoint discardM (candidate : Address) (kept todo : list ManagementVote) : prog VState unit :=
  match todo with
  | [] => mret tt
  | vote :: todo' =>
      if bool_decide (mv_Candidate vote = candidate) then
        uncastM (mv_Candidate vote) (mv_Authorize vote);;
        upd_snap (set_mVotes (kept ++ todo'));;
        discardM candidate kept todo'
      else discardM candidate (kept ++ [vote]) todo'
  end.

(** The update of [applyMVotes] when the votes exceed half of the managers. *)
Definition decideM (candidate : Address) : prog VState unit :=
  s ← gets vsnap;
  let tally := default zero_Tally (map_get (mTally s) candidate) in
  when (set_len (Managers s) / 2 <? ty_Votes tally)
    ((if ty_Authorize tally then
        ms ← lift (set_put (Managers s) candidate);
        upd_snap (set_Managers ms)
      else
        upd_snap (set_Managers (set_del (Managers s) candidate));;
        discardM candidate [] (mVotes s));;
     upd_snap (fun s => set_mTally (map_del (mTally s) candidate) s)).

Definition applyMVotes (MVote : option ManagementVote) : prog VState unit :=
  match MVote with
  | None => mret tt
  | Some mVote =>
      let candidate := mv_Candidate mVote in
      revokeM (mv_Manager mVote) candidate;;
      ok ← castM candidate (mv_Authorize mVote);
      when ok (upd_snap (fun s => set_mVotes (mVotes s ++ [mVote]) s));;
      decideM candidate
  end.

(** The first loop of [applyVVotes]; it removes an entry of [mVotes]. *)
Definition revokeV (manager : Address) (validator : string) : prog VState unit :=
  s ← gets vsnap;
  match list_find (v_same manager validator) (vVotes s) with
  | Some (i, vote) =>
      uncastV (vv_Validator vote) (vv_Authorize vote);;
      s ← gets vsnap;
      l ← lift (slice_remove i (mVotes s));
      upd_snap (set_mVotes l)
  | None => mret tt
  end.

Fixpoint discardV (validator : string) (authorize : bool) (kept todo : list ValidatorVote)
    : prog VState unit :=
  match todo with
  | [] => mret tt
  | vote :: todo' =>
      if bool_decide (vv_Validator vote = validator) then
        uncastV validator authorize;;
        upd_snap (set_vVotes (kept ++ todo'));;
        discardV validator authorize kept todo'
      else discardV validator authorize (kept ++ [vote]) todo'
  end.

(** [s.ValSet.AddValidator(id)] and [s.ValSet.RemoveValidator(id)] change the
    set in place. *)
Definition upd_ValSet (f : Default.defaultValidatorSet -> Default.defaultValidatorSet)
    : prog VState unit :=
  st ← get_state;
  vs ← lift (heap_get (vheap st) (ValSet (vsnap st)));
  modify (fun st => mkVState (vsnap st) (heap_put (vheap st) (ValSet (vsnap st)) (f vs))).

Definition decideV (validator : string) : prog VState unit :=
  st ← get_state;
  let s := vsnap st in
  let tally := default zero_Tally (map_get (vTally s) validator) in
  vs ← lift (heap_get (vheap st) (ValSet s));
  when (Default.Size vs / 2 <? ty_Votes tally)
    ((if ty_Authorize tally then
        upd_ValSet (fun vs => (Default.AddValidator vs validator).2)
      else
        upd_ValSet (fun vs => (Default.RemoveValidator vs validator).2);;
        discardV validator (ty_Authorize tally) [] (vVotes s));;
     upd_snap (fun s => set_vTally (map_del (vTally s) validator) s)).

Definition applyVVotes (VVote : option ValidatorVote) : prog VState unit :=
  match VVote with
  | None => mret tt
  | Some vVote =>
      let validator := vv_Validator vVote in
      revokeV (vv_Manager vVote) validator;;
      ok ← castV validator (vv_Authorize vVote);
      when ok (upd_snap (fun s => set_vVotes (vVotes s ++ [vVote]) s));;
      decideV validator
  end.

(** ** Reset, copy and the stored form *)

Definition voteSnapshot_reset (s : voteSnapshot) : voteSnapshot :=
  mkVoteSnapshot (ValSet s) (Managers s) [] [] (Some ∅) (Some ∅).

(** [copy] makes its maps, so a copy has no nil map. *)
Definition voteSnapshot_copy (h : heap) (s : voteSnapshot) : outcome (voteSnapshot * heap) :=
  vs ← heap_get h (ValSet s);
  let '(p, h') := heap_alloc h (Default.Copy vs) in
  mret (mkVoteSnapshot (Some p) (Some (default ∅ (Managers s))) (vVotes s) (mVotes s)
          (Some (default ∅ (vTally s))) (Some (default ∅ (mTally s))), h').

(** The inner loop of the exchange sort of [validators]: [x] is the element
    at [i], [l] the elements after it. *)
Fixpoint exchange (x : string) (l : list string) : string * list string :=
  match l with
  | [] => (x, [])
  | y :: l' =>
      let '(x', y') := match String.compare x y with Gt => (y, x) | _ => (x, y) end in
      let '(m, l'') := exchange x' l' in (m, y' :: l'')
  end.

(** The outer loop, for [n] positions. *)
Fixpoint exchange_sort (n : nat) (l : list string) : list string :=
  match n, l with
  | S n', x :: l' => let '(m, l'') := exchange x l' in m :: exchange_sort n' l''
  | _, _ => l
  end.

Definition voteSnapshot_validators (vs : Default.defaultValidatorSet) : list string :=
  let l := Default.id <$> Default.List vs in exchange_sort (length l) l.

Record extVoteSnapshot := mkExtVoteSnapshot {
  x_Validators : list string;
  x_Managers : option (gset Address);
  x_VVotes : list ValidatorVote;
  x_MVotes : list ManagementVote;
  x_MTally : option (gmap Address Tally);
  x_VTally : option (gmap string Tally);
  x_Policy : ProposerPolicy;
}.

Definition toJSONStruct (h : heap) (s : voteSnapshot) : outcome extVoteSnapshot :=
  vs ← heap_get h (ValSet s);
  mret (mkExtVoteSnapshot (voteSnapshot_validators vs) (Managers s) (vVotes s) (mVotes s)
          (mTally s) (vTally s) (Default.Policy vs)).

(** The fields that [json.Marshal] writes.  All but [managers] and [policy] are
    [omitempty], so an empty map of tallies is left out, and is nil when the
    text is read back; an empty list is nil, too, which makes no difference
    to what reads it.  (The tag of [managers] is malformed: its option is not
    [omitempty] but [omitempty rlp:], so that an empty map is written.) *)
Definition omitempty_map `{Countable K} {V} (m : option (gmap K V)) : option (gmap K V) :=
  match m with
  | Some m => if (size m =? 0)%nat then None else Some m
  | None => None
  end.

Definition json_fields (j : extVoteSnapshot) : extVoteSnapshot :=
  mkExtVoteSnapshot (x_Validators j) (x_Managers j) (x_VVotes j) (x_MVotes j)
    (omitempty_map (x_MTally j)) (omitempty_map (x_VTally j)) (x_Policy j).

(** Strings that are their own JSON text: [json.Marshal] replaces bytes that
    are not UTF-8. *)
Definition is_ascii (s : string) : bool :=
  forallb (fun c => Ascii.nat_of_ascii c <? 128)%nat (String.list_ascii_of_string s).

Definition json_text (j : extVoteSnapshot) : bool :=
  forallb is_ascii (x_Validators j) &&
  forallb (fun v => is_ascii (vv_Validator v)) (x_VVotes j) &&
  forallb (fun kt => is_ascii kt.1) (map_to_list (default ∅ (x_VTally j))).

(** The assignments of [UnmarshalJSON] from the decoded struct;
    [validator.NewSet] allocates a set. *)
Definition fromJSONStruct (h : heap) (j : extVoteSnapshot) : voteSnapshot * heap :=
  let '(p, h') := heap_alloc h (Default.newDefaultSet (x_Validators j) (x_Policy j)) in
  (mkVoteSnapshot (Some p) (x_Managers j) (x_VVotes j) (x_MVotes j) (x_VTally j) (x_MTally j),
   h').
End Votes.
