(* ===== verification/VotesSpec.v ===== *)
(** * VotesSpec: what the votes promise, and that [applyMVotes] keeps it

    The abstract ballot box has no tallies: it counts the recorded votes.
    [exact] says that a map of tallies is the count of the votes that can
    still change the membership of their candidate; [spec_applyM] and
    [spec_applyV] are the meaning of one vote. *)

From S2P Require Import Prelude Types ValidatorSet Votes.

(** ** Tallies count votes *)

Section Tallies.
Context {K V : Type} `{Countable K} (cand : V -> K) (auth : V -> bool).

(** The votes of [l] on [k] in direction [a]. *)
Definition ballots (k : K) (a : bool) (l : list V) : nat :=
  length (filter (fun v => cand v = k /\ auth v = a) l).

Definition exact_tally (a : bool) (n : nat) : option Tally :=
  match n with O => None | S _ => Some (mkTally a (Z.of_nat n)) end.

(** [want k] is the direction of the votes that [k] can receive: [true] when
    it is not a member.  A non-member has no votes against it. *)
Definition exact (want : K -> bool) (t : gmap K Tally) (l : list V) : Prop :=
  (forall k, t !! k = exact_tally (want k) (ballots k (want k) l)) /\
  (forall v, v ∈ l -> want (cand v) = true -> auth v = true).

Lemma ballots_perm k a (l l' : list V) : l ≡ₚ l' -> ballots k a l = ballots k a l'.
Proof. intros Hp. unfold ballots. by rewrite Hp. Qed.

Lemma ballots_cons k a v l :
  ballots k a (v :: l) =
    ((if decide (cand v = k /\ auth v = a) then 1 else 0) + ballots k a l)%nat.
Proof. unfold ballots. rewrite filter_cons. by destruct (decide _). Qed.

Lemma ballots_none k a l : (forall v, v ∈ l -> cand v = k -> auth v <> a) -> ballots k a l = 0%nat.
Proof.
  induction l as [|v l IH]; intros Hl; [done|]. rewrite ballots_cons, decide_False.
  - apply IH. set_solver.
  - intros [Hc Ha]. by apply (Hl v); [constructor|..].
Qed.

Lemma ballots_filter_other k c a l :
  k <> c -> ballots k a (filter (fun v => cand v <> c) l) = ballots k a l.
Proof.
  intros Hk. unfold ballots. rewrite list_filter_filter. f_equal.
  apply list_filter_iff. intros v. naive_solver.
Qed.

Lemma exact_perm want t (l l' : list V) : l ≡ₚ l' -> exact want t l -> exact want t l'.
Proof.
  intros Hp [H1 H2]. split; intros k.
  - by rewrite <- (ballots_perm _ _ _ _ Hp).
  - rewrite <- Hp. apply H2.
Qed.

(** Taking back a recorded vote. *)
Lemma exact_uncast_cons want t v l :
  exact want t (v :: l) ->
  exists b t', uncast_tally (Some t) (cand v) (auth v) = Ret (b, Some t') /\ exact want t' l.
Proof.
  intros [H1 H2].
  assert (Hrest : forall w, w ∈ l -> want (cand w) = true -> auth w = true)
    by (intros; apply H2; set_solver).
  assert (Hother : forall k, (cand v <> k \/ auth v <> want k) ->
                     t !! k = exact_tally (want k) (ballots k (want k) l)).
  { intros k Hk. rewrite H1, ballots_cons, decide_False; [done|]. naive_solver. }
  unfold uncast_tally, map_get; simpl.
  destruct (decide (auth v = want (cand v))) as [Ha|Ha].
  - rewrite H1, ballots_cons, decide_True by done.
    destruct (ballots (cand v) (want (cand v)) l) as [|n] eqn:En; cbn [exact_tally Nat.add].
    + rewrite Ha. cbn. rewrite Bool.eqb_reflx. cbn. eexists _, _. split; [reflexivity|].
      split; [|done]. intros k. destruct (decide (k = cand v)) as [->|Hk].
      * by rewrite lookup_delete_eq, En.
      * rewrite lookup_delete_ne by done. apply Hother. by left.
    + cbn [ty_Authorize ty_Votes]. rewrite Ha, Bool.eqb_reflx, (proj2 (Z.ltb_lt _ _)) by lia.
      cbn. eexists _, _. split; [reflexivity|].
      split; [|done]. intros k. destruct (decide (k = cand v)) as [->|Hk].
      * rewrite lookup_insert_eq, En. cbn [exact_tally]. do 2 f_equal. lia.
      * rewrite lookup_insert_ne by done. apply Hother. by left.
  - exists false, t. split; [|split; [|done]].
    + rewrite Hother by naive_solver. destruct (ballots _ _ l); simpl; [done|].
      destruct (want (cand v)), (auth v); done.
    + intros k. apply Hother. destruct (decide (cand v = k)) as [<-|]; naive_solver.
Qed.

Lemma exact_uncast want t v i l :
  exact want t l -> l !! i = Some v ->
  exists b t', uncast_tally (Some t) (cand v) (auth v) = Ret (b, Some t') /\
    exact want t' (delete i l).
Proof.
  intros He Hi. apply exact_uncast_cons. eapply exact_perm, He. by apply delete_Permutation.
Qed.

(** Recording a vote in the wanted direction. *)
Lemma exact_cast want t v l :
  exact want t l -> auth v = want (cand v) ->
  exists t', cast_tally (Some t) (cand v) (auth v) = Ret (Some t') /\ exact want t' (l ++ [v]).
Proof.
  intros [H1 H2] Ha.
  assert (Hp : l ++ [v] ≡ₚ v :: l) by by rewrite Permutation_app_comm.
  unfold cast_tally, map_get; simpl. rewrite H1.
  set (n := ballots (cand v) (want (cand v)) l).
  exists (<[cand v := mkTally (want (cand v)) (Z.of_nat (S n))]> t). split.
  - destruct n; simpl; [by rewrite Ha|]. do 4 f_equal. lia.
  - apply (exact_perm _ _ (v :: l)); [done|]. split.
    + intros k. rewrite ballots_cons. destruct (decide (k = cand v)) as [->|Hk].
      * by rewrite lookup_insert_eq, decide_True by done.
      * rewrite lookup_insert_ne by done. rewrite decide_False by naive_solver. apply H1.
    + intros w [->|Hw]%elem_of_cons; [congruence|]. by apply H2.
Qed.

(** [k] becomes a member: votes against it start at zero. *)
Lemma exact_join (want want' : K -> bool) t l k :
  exact want t l -> want k = true -> want' k = false ->
  (forall j, j <> k -> want' j = want j) ->
  exact want' (delete k t) l.
Proof.
  intros [H1 H2] Hk Hk' Ho. split.
  - intros j. destruct (decide (j = k)) as [->|Hj].
    + rewrite lookup_delete_eq, Hk', ballots_none; [done|].
      intros v Hv <-. rewrite (H2 v Hv Hk). done.
    + rewrite lookup_delete_ne, Ho by done. apply H1.
  - intros v Hv Hw. apply H2; [done|]. rewrite <- (Ho (cand v)); [done|]. intros E. congruence.
Qed.

(** [k] is removed together with all votes on it. *)
Lemma exact_leave (want want' : K -> bool) t t' l k :
  exact want t l -> (forall j, j <> k -> t' !! j = t !! j) -> want' k = true ->
  (forall j, j <> k -> want' j = want j) ->
  exact want' (delete k t') (filter (fun v => cand v <> k) l).
Proof.
  intros [H1 H2] Ht Hk Ho. split.
  - intros j. destruct (decide (j = k)) as [->|Hj].
    + rewrite lookup_delete_eq, ballots_none; [done|].
      intros v [Hne _]%list_elem_of_filter Hc. done.
    + rewrite lookup_delete_ne, Ho, ballots_filter_other, Ht by done. apply H1.
  - intros v [Hne Hv]%list_elem_of_filter Hw. apply H2; [done|]. by rewrite <- (Ho (cand v)).
Qed.

(** [uncast_tally] touches one key only. *)
Lemma uncast_tally_some (t : gmap K Tally) k a :
  exists b t', uncast_tally (Some t) k a = Ret (b, Some t') /\
    forall j, j <> k -> t' !! j = t !! j.
Proof.
  unfold uncast_tally, map_get, map_del; simpl.
  destruct (t !! k) as [ty|]; [|by eexists _, _]. destruct (negb _); [by eexists _, _|].
  destruct (1 <? _); simpl; eexists _, _; (split; [reflexivity|]); intros j Hj.
  - by rewrite lookup_insert_ne.
  - by rewrite lookup_delete_ne.
Qed.

Lemma exact_votes want t l k :
  exact want t l ->
  default zero_Tally (t !! k) =
    mkTally (match ballots k (want k) l with O => false | _ => want k end)
      (Z.of_nat (ballots k (want k) l)).
Proof. intros [H1 _]. rewrite H1. by destruct (ballots _ _ _). Qed.
End Tallies.

Lemma votable_want present a : votable present a = Bool.eqb a (negb present).
Proof. by destruct present, a. Qed.

(** Runs the state-passing code of a goal. *)
Ltac run :=
  unfold upd_snap, gets, get_state, modify, lift, mbind, prog_bind, outcome_bind, mret, prog_ret,
    outcome_ret;
  cbn [vsnap vheap ValSet Managers vVotes mVotes vTally mTally set_mTally set_mVotes
       set_Managers set_vTally set_vVotes fst snd].

(** ** The meaning of a vote on a manager *)

Section Managers.
Context {Address : Type} `{Countable Address}.
Implicit Types (ms : gset Address) (v : @ManagementVote Address) (s : @voteSnapshot Address _ _)
  (st : @VState Address _ _).

Definition wantM ms (c : Address) : bool := negb (bool_decide (c ∈ ms)).

(** Managers and votes after the vote [v]: a manager's earlier vote on the
    candidate is void; the vote counts when it would change the candidate's
    membership; more than half of the managers decide. *)
Definition spec_applyM v ms (votes : list ManagementVote) : gset Address * list ManagementVote :=
  let c := mv_Candidate v in
  let votes1 := filter (fun w => ~ m_same (mv_Manager v) c w) votes in
  let votes2 := if Bool.eqb (mv_Authorize v) (wantM ms c) then votes1 ++ [v] else votes1 in
  let n := Z.of_nat (ballots mv_Candidate mv_Authorize c (wantM ms c) votes2) in
  if Z.of_nat (size ms) / 2 <? n then
    if wantM ms c then ({[c]} ∪ ms, votes2)
    else (ms ∖ {[c]}, filter (fun w => mv_Candidate w <> c) votes2)
  else (ms, votes2).

Definition m_ballot v : Address * Address := (mv_Manager v, mv_Candidate v).

(** The invariant: no map is nil, the tallies are exact, and no manager has
    two votes on a candidate. *)
Definition m_ok s : Prop :=
  exists ms t, Managers s = Some ms /\ mTally s = Some t /\
    exact mv_Candidate mv_Authorize (wantM ms) t (mVotes s) /\
    NoDup (m_ballot <$> mVotes s).

Lemma checkMVote_want s ms c a :
  Managers s = Some ms -> checkMVote s c a = Bool.eqb a (wantM ms c).
Proof. intros E. unfold checkMVote, set_has. by rewrite E, votable_want. Qed.

(** Two snapshots that differ in the management part only. *)
Definition same_v s s' : Prop :=
  ValSet s' = ValSet s /\ vVotes s' = vVotes s /\ vTally s' = vTally s.


(** A state of the vote methods, by its management part. *)
Definition m_st st ms (t : gmap Address Tally) (votes : list ManagementVote)
    : @VState Address _ _ :=
  mkVState (mkVoteSnapshot (ValSet (vsnap st)) (Some ms) (vVotes (vsnap st)) votes
              (vTally (vsnap st)) (Some t)) (vheap st).

Lemma one_vote (votes : list ManagementVote) a c i j x y :
  NoDup (m_ballot <$> votes) -> votes !! i = Some x -> votes !! j = Some y ->
  m_same a c x -> m_same a c y -> j = i.
Proof.
  intros Hn Hi Hj [E1 E2] [E3 E4].
  eapply NoDup_lookup; [exact Hn|..]; rewrite list_lookup_fmap, ?Hi, ?Hj; simpl;
    [reflexivity|]. unfold m_ballot. by rewrite E1, E2, E3, E4.
Qed.

Ltac mrun := unfold m_st; run.

Lemma revokeM_spec st ms t votes a c :
  exact mv_Candidate mv_Authorize (wantM ms) t votes -> NoDup (m_ballot <$> votes) ->
  exists t', let votes' := filter (fun w => ~ m_same a c w) votes in
    revokeM a c (m_st st ms t votes) = Ret (tt, m_st st ms t' votes') /\
    exact mv_Candidate mv_Authorize (wantM ms) t' votes'.
Proof.
  intros He Hn. unfold revokeM. mrun.
  destruct (list_find (m_same a c) votes) as [[i x]|] eqn:Ef.
  - destruct (list_find_Some (m_same a c) votes i x) as [Hf _].
    destruct (Hf Ef) as (Hi & Hx & _).
    destruct (exact_uncast _ _ _ _ _ _ _ He Hi) as (b & t' & Eu & He').
    exists t'. unfold uncastM. mrun. rewrite Eu. mrun. unfold slice_remove. apply lookup_lt_Some in Hi as Hlt.
    rewrite (proj2 (Nat.ltb_lt _ _) Hlt).
    rewrite <- (delete_first_unique (m_same a c) votes i x Ef); [done|].
    intros j y Hj Hy. by eapply one_vote.
  - exists t. mrun. apply list_find_None in Ef. rewrite Forall_forall in Ef.
    by rewrite list_filter_all.
Qed.

Lemma discardM_spec st ms c todo kept t :
  exists t', discardM c kept todo (m_st st ms t (kept ++ todo)) =
    Ret (tt, m_st st ms t' (kept ++ filter (fun w => mv_Candidate w <> c) todo)) /\
    forall j, j <> c -> t' !! j = t !! j.
Proof.
  revert kept t. induction todo as [|w todo IH]; intros kept t; [by exists t|].
  cbn [discardM]. rewrite filter_cons.
  destruct (decide (mv_Candidate w = c)) as [Hw|Hw].
  - rewrite bool_decide_true, (decide_False (P := mv_Candidate w <> c)) by tauto.
    unfold uncastM. mrun. rewrite Hw.
    destruct (uncast_tally_some t c (mv_Authorize w)) as (b & t' & Eu & Ho). rewrite Eu. mrun.
    destruct (IH kept t') as (t'' & E & Ho'). exists t''. split; [exact E|].
    intros j Hj. by rewrite Ho', Ho.
  - rewrite bool_decide_false, (decide_True (P := mv_Candidate w <> c)) by tauto.
    destruct (IH (kept ++ [w]) t) as (t' & E & Ho). rewrite <- !app_assoc in E. by exists t'.
Qed.

Lemma castM_spec st ms t votes v :
  exact mv_Candidate mv_Authorize (wantM ms) t votes ->
  let ok := Bool.eqb (mv_Authorize v) (wantM ms (mv_Candidate v)) in
  let votes' := if ok then votes ++ [v] else votes in
  exists t', castM (mv_Candidate v) (mv_Authorize v) (m_st st ms t votes) =
      Ret (ok, m_st st ms t' votes) /\
    exact mv_Candidate mv_Authorize (wantM ms) t' votes'.
Proof.
  intros He ok votes'. unfold castM. mrun.
  rewrite (checkMVote_want _ ms) by done. fold ok. destruct ok eqn:Eok; cbn [negb]; [|by exists t].
  apply Bool.eqb_prop in Eok.
  destruct (exact_cast _ _ _ _ _ _ He Eok) as (t' & E & He'). mrun. rewrite E. by exists t'.
Qed.

Lemma wantM_join ms c j : wantM ({[c]} ∪ ms) j = if decide (j = c) then false else wantM ms j.
Proof. unfold wantM. destruct (decide _); repeat case_bool_decide; set_solver. Qed.

Lemma wantM_leave ms c j : wantM (ms ∖ {[c]}) j = if decide (j = c) then true else wantM ms j.
Proof. unfold wantM. destruct (decide _); repeat case_bool_decide; set_solver. Qed.

Lemma decideM_spec st ms t votes c :
  exact mv_Candidate mv_Authorize (wantM ms) t votes ->
  let n := Z.of_nat (ballots mv_Candidate mv_Authorize c (wantM ms c) votes) in
  let r := if Z.of_nat (size ms) / 2 <? n then
             if wantM ms c then ({[c]} ∪ ms, votes)
             else (ms ∖ {[c]}, filter (fun w => mv_Candidate w <> c) votes)
           else (ms, votes) in
  exists t', decideM c (m_st st ms t votes) = Ret (tt, m_st st r.1 t' r.2) /\
    exact mv_Candidate mv_Authorize (wantM r.1) t' r.2.
Proof.
  intros He. unfold decideM. mrun. unfold map_get, set_len. cbn [mbind option_bind].
  rewrite (exact_votes _ _ _ _ _ c He). cbn [ty_Votes ty_Authorize].
  set (k := ballots _ _ c (wantM ms c) votes).
  destruct (Z.ltb_spec (Z.of_nat (size ms) / 2) (Z.of_nat k)) as [Hlt|_]; [|by exists t].
  assert (Hk : match k with O => false | _ => wantM ms c end = wantM ms c).
  { destruct k; [|done]. pose proof (Z.div_pos (Z.of_nat (size ms)) 2). lia. }
  rewrite Hk. unfold when. destruct (wantM ms c) eqn:Ew; cbn [fst snd].
  - exists (delete c t). split; [done|]. apply (exact_join _ _ (wantM ms)); [done|done|..].
    + by rewrite wantM_join, decide_True.
    + intros j Hj. by rewrite wantM_join, decide_False.
  - destruct (discardM_spec st (ms ∖ {[c]}) c votes [] t) as (t' & E & Ho).
    exists (delete c t'). split.
    + revert E. mrun. cbn [app]. intros E. cbv beta. cbn [vsnap vheap]. unfold set_Managers, set_del.
      cbn [fmap option_fmap option_map ValSet Managers vVotes mVotes vTally mTally].
      by rewrite E.
    + eapply exact_leave; [exact He|exact Ho|..].
      * by rewrite wantM_leave, decide_True.
      * intros j Hj. by rewrite wantM_leave, decide_False.
Qed.

(** Replacing a vote leaves one vote per manager and candidate. *)
Lemma revoted_NoDup (votes : list ManagementVote) v (ok : bool) :
  NoDup (m_ballot <$> votes) ->
  let votes1 := filter (fun w => ~ m_same (mv_Manager v) (mv_Candidate v) w) votes in
  NoDup (m_ballot <$> (if ok then votes1 ++ [v] else votes1)).
Proof.
  intros Hn votes1. assert (NoDup (m_ballot <$> votes1)) by by apply NoDup_fmap_filter.
  destruct ok; [|done]. rewrite fmap_app. apply NoDup_app. split; [done|].
  split; [|apply NoDup_singleton]. intros b (w & -> & [Hw _]%list_elem_of_filter)%list_elem_of_fmap.
  intros [= E1 E2]%list_elem_of_singleton. by apply Hw.
Qed.

(** One vote. *)
Lemma applyMVotes_spec st v ms :
  m_ok (vsnap st) -> Managers (vsnap st) = Some ms ->
  let r := spec_applyM v ms (mVotes (vsnap st)) in
  exists st', applyMVotes (Some v) st = Ret (tt, st') /\ m_ok (vsnap st') /\
    Managers (vsnap st') = Some r.1 /\ mVotes (vsnap st') = r.2 /\
    same_v (vsnap st) (vsnap st') /\ vheap st' = vheap st.
Proof.
  intros (ms' & t & E1 & E2 & He & Hn) E3 r.
  assert (ms' = ms) as -> by congruence.
  assert (Est : st = m_st st ms t (mVotes (vsnap st))).
  { destruct st as [[] h]; simpl in *; subst. done. }
  set (c := mv_Candidate v). set (votes := mVotes (vsnap st)) in *.
  destruct (revokeM_spec st ms t votes (mv_Manager v) c He Hn) as (t1 & Er & He1).
  destruct (castM_spec st ms t1 _ v He1) as (t2 & Ec & He2).
  set (ok := Bool.eqb _ _) in *. cbv zeta in *.
  set (votes1 := filter _ votes) in *.
  destruct (decideM_spec st ms t2 (if ok then votes1 ++ [v] else votes1) c He2) as (t3 & Ed & He3).
  set (votes2 := if ok then _ else _) in *. cbv zeta in *.
  assert (Hr : r = (if Z.of_nat (size ms) / 2 <?
      Z.of_nat (ballots mv_Candidate mv_Authorize c (wantM ms c) votes2) then
      if wantM ms c then ({[c]} ∪ ms, votes2)
      else (ms ∖ {[c]}, filter (fun w => mv_Candidate w <> c) votes2) else (ms, votes2)))
    by reflexivity.
  rewrite <- Hr in *. exists (m_st st r.1 t3 r.2). split; [|split; [|done]].
  - rewrite Est at 1. cbn [applyMVotes]. fold c.
    change (mv_Candidate v) with c in Ec. rewrite <- Ed. clear -Er Ec.
    rewrite (prog_bind_ret _ _ _ _ _ Er), (prog_bind_ret _ _ _ _ _ Ec). by destruct ok.
  - exists r.1, t3. repeat split; try done; try apply He3.
    assert (Hn2 : NoDup (m_ballot <$> votes2)) by by apply revoted_NoDup.
    rewrite Hr. destruct (_ <? _); [destruct (wantM ms c)|]; [done| |done].
    by apply NoDup_fmap_filter.
Qed.
(** [applyMVotes] for each vote of a list, and its meaning. *)
Definition applyMVotes_all (votes : list (@ManagementVote Address))
    : prog (@VState Address _ _) unit :=
  foldr (fun v m => applyMVotes (Some v);; m) (mret tt) votes.

Definition spec_applyM_all (votes : list (@ManagementVote Address)) (r : gset Address * list ManagementVote) :=
  foldl (fun r v => spec_applyM v r.1 r.2) r votes.

(** C7. From a state with exact tallies [applyMVotes] returns for every
    sequence of votes and computes their meaning, which knows no tallies:
    the managers and recorded votes are those of the ballot box, the tallies
    stay exact, and the votes on validators and the sets are not touched. *)
Theorem applyMVotes_refines st votes ms :
  m_ok (vsnap st) -> Managers (vsnap st) = Some ms ->
  let r := spec_applyM_all votes (ms, mVotes (vsnap st)) in
  exists st', applyMVotes_all votes st = Ret (tt, st') /\ m_ok (vsnap st') /\
    Managers (vsnap st') = Some r.1 /\ mVotes (vsnap st') = r.2 /\
    same_v (vsnap st) (vsnap st') /\ vheap st' = vheap st.
Proof.
  revert st ms. induction votes as [|v votes IH]; intros st ms Hok Hms; [by exists st|].
  destruct (applyMVotes_spec st v ms Hok Hms) as (st1 & E1 & Hok1 & Hms1 & Hv1 & Hs1 & Hh1).
  destruct (IH st1 _ Hok1 Hms1) as (st2 & E2 & Hok2 & Hms2 & Hv2 & Hs2 & Hh2).
  rewrite Hv1, <- surjective_pairing in Hms2, Hv2.
  exists st2. split.
  { unfold applyMVotes_all. cbn [foldr]. rewrite (prog_bind_ret _ _ _ _ _ E1). exact E2. }
  split; [done|]. split; [exact Hms2|]. split; [exact Hv2|]. unfold same_v in *.
  split; [|congruence].
  destruct Hs1 as (? & ? & ?), Hs2 as (? & ? & ?). repeat split; congruence.
Qed.
End Managers.
