(* ===== verification/VotesLaws.v ===== *)
(** * VotesLaws: votes on validators, first votes, proposals and storage

    The refinement of [applyVVotes] for a manager's first vote on a
    validator, what it does to a repeated vote, the votes on a snapshot that
    was just created, the choice of [getVotes], and the stored form. *)

From S2P Require Import Prelude Types ValidatorSet Votes VotesSpec.

Section Validators.
Context {Address : Type} `{Countable Address}.
Implicit Types (v : @ValidatorVote Address) (s : @voteSnapshot Address _ _)
  (st : @VState Address _ _) (vs : Default.defaultValidatorSet).

Definition wantV vs (c : string) : bool := negb (bool_decide (is_Some (Default.GetById vs c).2)).

(** The validator set and the votes after a manager's first vote [v]. *)
Definition spec_applyV v vs (votes : list ValidatorVote)
    : Default.defaultValidatorSet * list ValidatorVote :=
  let c := vv_Validator v in
  let votes' := if Bool.eqb (vv_Authorize v) (wantV vs c) then votes ++ [v] else votes in
  let n := Z.of_nat (ballots vv_Validator vv_Authorize c (wantV vs c) votes') in
  if Default.Size vs / 2 <? n then
    if wantV vs c then ((Default.AddValidator vs c).2, votes')
    else ((Default.RemoveValidator vs c).2, filter (fun w => vv_Validator w <> c) votes')
  else (vs, votes').

(** The set the snapshot refers to. *)
Definition the_set st : option Default.defaultValidatorSet :=
  ValSet (vsnap st) ≫= fun p => hp_sets (vheap st) !! p.

Definition v_ok st : Prop :=
  exists vs t, the_set st = Some vs /\ Default.wf vs /\ vTally (vsnap st) = Some t /\
    exact vv_Validator vv_Authorize (wantV vs) t (vVotes (vsnap st)).

Lemma wantV_elem vs c : wantV vs c = negb (bool_decide (c ∈ Default.ids vs)).
Proof.
  unfold wantV. f_equal. apply bool_decide_ext. pose proof (Default.GetById_None vs c) as E.
  rewrite <- not_eq_None_Some, E. unfold Default.ids.
  destruct (decide (c ∈ Default.id <$> Default.validators vs)); tauto.
Qed.

Lemma AddValidator_ids vs c j :
  j ∈ Default.ids (Default.AddValidator vs c).2 <-> j = c \/ j ∈ Default.ids vs.
Proof.
  destruct (Default.AddValidator_cases vs c) as [[Hin ->]|(Hin & _ & Hp & _)]; simpl; [set_solver|].
  unfold Default.ids. rewrite !Default.elem_of_ids, Hp, elem_of_cons. naive_solver.
Qed.

Lemma AddValidator_wf vs c : Default.wf vs -> Default.wf (Default.AddValidator vs c).2.
Proof.
  intros [Hs Hn]. destruct (Default.AddValidator_cases vs c) as [[_ ->]|(Hin & _ & Hp & Hs' & _)];
    [done|]. split; [done|]. rewrite Hp. constructor; [|done]. by rewrite <- Default.elem_of_ids.
Qed.

Lemma RemoveValidator_ids vs c j :
  Default.wf vs -> j ∈ Default.ids (Default.RemoveValidator vs c).2 <-> j <> c /\ j ∈ Default.ids vs.
Proof.
  intros [Hs Hn]. unfold Default.RemoveValidator. pose proof (Default.remove_first_spec
    (Default.validators vs) c) as Hr.
  destruct (Default.remove_first _ c) as [l'|]; simpl; [|unfold Default.ids; naive_solver].
  destruct Hr as [Hp _]. rewrite <- Hp in Hn. apply NoDup_cons in Hn as [Hc _].
  unfold Default.ids; simpl. rewrite !Default.elem_of_ids, <- Hp, elem_of_cons. naive_solver.
Qed.

Lemma RemoveValidator_wf vs c : Default.wf vs -> Default.wf (Default.RemoveValidator vs c).2.
Proof.
  intros [Hs Hn]. unfold Default.RemoveValidator. pose proof (Default.remove_first_spec
    (Default.validators vs) c) as Hr.
  destruct (Default.remove_first _ c) as [l'|]; simpl; [|done].
  destruct Hr as [Hp Hsub]. rewrite <- Hp in Hn. apply NoDup_cons in Hn as [_ Hn].
  split; [by eapply Default.StronglySorted_sublist|done].
Qed.

Lemma wantV_add vs c j :
  wantV (Default.AddValidator vs c).2 j = if decide (j = c) then false else wantV vs j.
Proof.
  rewrite !wantV_elem. pose proof (AddValidator_ids vs c j).
  destruct (decide (j = c)); repeat case_bool_decide; naive_solver.
Qed.

Lemma wantV_remove vs c j : Default.wf vs ->
  wantV (Default.RemoveValidator vs c).2 j = if decide (j = c) then true else wantV vs j.
Proof.
  intros Hw. rewrite !wantV_elem. pose proof (RemoveValidator_ids vs c j Hw).
  destruct (decide (j = c)); repeat case_bool_decide; naive_solver.
Qed.

(** A state of the vote methods, by its validator part; [p] refers to the set. *)
Definition v_st st (p : nat) vs (t : gmap string Tally) (votes : list ValidatorVote)
    : @VState Address _ _ :=
  mkVState (mkVoteSnapshot (Some p) (Managers (vsnap st)) votes (mVotes (vsnap st))
              (Some t) (mTally (vsnap st)))
    (mkHeap (<[p := vs]> (hp_sets (vheap st))) (hp_next (vheap st))).

Lemma heap_get_v_st st p vs t votes :
  heap_get (vheap (v_st st p vs t votes)) (Some p) = Ret vs.
Proof. unfold heap_get, deref, mbind, outcome_bind; simpl. by rewrite lookup_insert_eq. Qed.

Lemma discardV_spec st p vs c a todo kept t :
  exists t', discardV c a kept todo (v_st st p vs t (kept ++ todo)) =
    Ret (tt, v_st st p vs t' (kept ++ filter (fun w => vv_Validator w <> c) todo)) /\
    forall j, j <> c -> t' !! j = t !! j.
Proof.
  revert kept t. induction todo as [|w todo IH]; intros kept t; [by exists t|].
  cbn [discardV]. rewrite filter_cons.
  destruct (decide (vv_Validator w = c)) as [Hw|Hw].
  - rewrite bool_decide_true, (decide_False (P := vv_Validator w <> c)) by tauto.
    destruct (uncast_tally_some t c a) as (b & t' & Eu & Ho).
    unfold uncastV, v_st. run. rewrite Eu. run.
    destruct (IH kept t') as (t'' & E & Ho'). exists t''. split; [exact E|].
    intros j Hj. by rewrite Ho', Ho.
  - rewrite bool_decide_false, (decide_True (P := vv_Validator w <> c)) by tauto.
    destruct (IH (kept ++ [w]) t) as (t' & E & Ho). rewrite <- !app_assoc in E. by exists t'.
Qed.

Lemma castV_spec st p vs t votes v :
  exact vv_Validator vv_Authorize (wantV vs) t votes ->
  let ok := Bool.eqb (vv_Authorize v) (wantV vs (vv_Validator v)) in
  let votes' := if ok then votes ++ [v] else votes in
  exists t', castV (vv_Validator v) (vv_Authorize v) (v_st st p vs t votes) =
      Ret (ok, v_st st p vs t' votes) /\
    exact vv_Validator vv_Authorize (wantV vs) t' votes'.
Proof.
  intros He ok votes'.
  assert (Ek : checkVVote (vheap (v_st st p vs t votes)) (vsnap (v_st st p vs t votes))
                 (vv_Validator v) (vv_Authorize v) = Ret ok).
  { unfold checkVVote. cbn [ValSet vsnap v_st]. rewrite heap_get_v_st.
    unfold mbind, outcome_bind. by rewrite votable_want. }
  unfold castV, mbind at 1, prog_bind at 1, get_state at 1, lift. rewrite Ek.
  unfold mbind at 1, prog_bind at 1. destruct ok eqn:Eok; cbn [negb]; [|by exists t].
  apply Bool.eqb_prop in Eok.
  destruct (exact_cast _ _ _ _ _ _ He Eok) as (t' & E & He'). exists t'. split; [|done].
  unfold v_st. run. by rewrite E.
Qed.

Lemma upd_ValSet_spec st p vs t votes f :
  upd_ValSet f (v_st st p vs t votes) = Ret (tt, v_st st p (f vs) t votes).
Proof.
  unfold upd_ValSet, mbind, prog_bind, get_state, lift. cbn [ValSet vsnap v_st].
  rewrite heap_get_v_st. unfold modify, heap_put, v_st; cbn. by rewrite insert_insert_eq.
Qed.

Lemma decideV_spec st p vs t votes c :
  Default.wf vs -> exact vv_Validator vv_Authorize (wantV vs) t votes ->
  let n := Z.of_nat (ballots vv_Validator vv_Authorize c (wantV vs c) votes) in
  let r := if Default.Size vs / 2 <? n then
             if wantV vs c then ((Default.AddValidator vs c).2, votes)
             else ((Default.RemoveValidator vs c).2, filter (fun w => vv_Validator w <> c) votes)
           else (vs, votes) in
  exists t', decideV c (v_st st p vs t votes) = Ret (tt, v_st st p r.1 t' r.2) /\
    Default.wf r.1 /\ exact vv_Validator vv_Authorize (wantV r.1) t' r.2.
Proof.
  intros Hw He. unfold decideV, mbind at 1, prog_bind at 1, get_state at 1.
  unfold mbind at 1, prog_bind at 1, lift at 1. cbn [ValSet vsnap vTally v_st].
  rewrite heap_get_v_st. unfold map_get. cbn [mbind option_bind].
  rewrite (exact_votes _ _ _ _ _ c He). cbn [ty_Votes ty_Authorize].
  set (k := ballots _ _ c (wantV vs c) votes).
  destruct (Z.ltb_spec (Default.Size vs / 2) (Z.of_nat k)) as [Hlt|_]; [|by exists t].
  assert (Hk : match k with O => false | _ => wantV vs c end = wantV vs c).
  { destruct k; [|done]. pose proof (Z.div_pos (Default.Size vs) 2).
    unfold Default.Size in *. lia. }
  rewrite Hk. unfold when. destruct (wantV vs c) eqn:Ew; cbn [fst snd].
  - exists (delete c t). split; [|split; [by apply AddValidator_wf|]].
    + unfold mbind, prog_bind. by rewrite upd_ValSet_spec.
    + apply (exact_join _ _ (wantV vs)); [done|done|..].
      * by rewrite wantV_add, decide_True.
      * intros j Hj. by rewrite wantV_add, decide_False.
  - destruct (discardV_spec st p (Default.RemoveValidator vs c).2 c false votes [] t)
      as (t' & E & Ho).
    exists (delete c t'). split; [|split; [by apply RemoveValidator_wf|]].
    + unfold mbind, prog_bind. rewrite upd_ValSet_spec. cbn [app vVotes] in E |- *. by rewrite E.
    + eapply exact_leave; [exact He|exact Ho|..].
      * by rewrite wantV_remove, decide_True.
      * intros j Hj. by rewrite wantV_remove, decide_False.
Qed.

(** For a manager's first vote on a validator [applyVVotes] computes the
    meaning of the vote, keeps the tallies exact and the set sorted and free
    of duplicates, and does not touch the managers and their votes. *)
Theorem applyVVotes_first st v vs :
  v_ok st -> the_set st = Some vs ->
  (forall w, w ∈ vVotes (vsnap st) -> ~ v_same (vv_Manager v) (vv_Validator v) w) ->
  let r := spec_applyV v vs (vVotes (vsnap st)) in
  exists st', applyVVotes (Some v) st = Ret (tt, st') /\ v_ok st' /\
    the_set st' = Some r.1 /\ vVotes (vsnap st') = r.2 /\
    Managers (vsnap st') = Managers (vsnap st) /\ mVotes (vsnap st') = mVotes (vsnap st) /\
    mTally (vsnap st') = mTally (vsnap st).
Proof.
  intros (vs' & t & E1 & Hw & E2 & He) E3 Hnew r. assert (vs' = vs) as -> by congruence.
  set (c := vv_Validator v). set (votes := vVotes (vsnap st)) in *.
  unfold the_set in E1. destruct (ValSet (vsnap st)) as [p|] eqn:Ep; [|done]. simpl in E1.
  assert (Est : st = v_st st p vs t votes).
  { unfold v_st. rewrite insert_id by done. destruct st as [[] []]; simpl in *; by subst. }
  destruct (castV_spec st p vs t votes v He) as (t1 & Ec & He1).
  set (ok := Bool.eqb _ _) in *. cbv zeta in *.
  destruct (decideV_spec st p vs t1 (if ok then votes ++ [v] else votes) c Hw He1)
    as (t2 & Ed & Hw2 & He2).
  set (votes2 := if ok then _ else _) in *. cbv zeta in *.
  assert (Hr : r = (if Default.Size vs / 2 <?
      Z.of_nat (ballots vv_Validator vv_Authorize c (wantV vs c) votes2) then
      if wantV vs c then ((Default.AddValidator vs c).2, votes2)
      else ((Default.RemoveValidator vs c).2, filter (fun w => vv_Validator w <> c) votes2)
      else (vs, votes2))) by reflexivity.
  rewrite <- Hr in *. exists (v_st st p r.1 t2 r.2).
  assert (Eset : the_set (v_st st p r.1 t2 r.2) = Some r.1).
  { unfold the_set; simpl. by rewrite lookup_insert_eq. }
  split; [|split; [by exists r.1, t2|done]].
  rewrite Est at 1. cbn [applyVVotes]. fold c. change (vv_Validator v) with c in Ec.
  assert (Er : revokeV (vv_Manager v) c (v_st st p vs t votes) = Ret (tt, v_st st p vs t votes)).
  { unfold revokeV. erewrite prog_bind_ret by reflexivity. cbn [vVotes vsnap v_st].
    rewrite (proj2 (list_find_None _ _)); [done|]. apply Forall_forall. intros w Hw'.
    by apply Hnew. }
  rewrite <- Ed, (prog_bind_ret _ _ _ _ _ Er), (prog_bind_ret _ _ _ _ _ Ec). by destruct ok.
Qed.
End Validators.

(** ** What the methods leave alone; repeated votes and new snapshots *)

Section Defects.
Context {Address : Type} `{Countable Address}.
Implicit Types (s : @voteSnapshot Address _ _) (st : @VState Address _ _).

Definition observe_mVotes st := mVotes (vsnap st).

Lemma keeps_upd_snap {B} (f : VState -> B) (g : voteSnapshot -> voteSnapshot) :
  (forall s h, f (mkVState (g s) h) = f (mkVState s h)) -> keeps f (upd_snap g).
Proof. intros Hg. apply keeps_modify. by intros []. Qed.

(** The vote methods of the validator part leave [f] alone when updates of
    the validator votes, the validator tallies and the sets do. *)
Section Frame.
Context {B : Type} (f : @VState Address _ _ -> B).
Context (f_vTally : forall t s h, f (mkVState (set_vTally t s) h) = f (mkVState s h)).
Context (f_vVotes : forall l s h, f (mkVState (set_vVotes l s) h) = f (mkVState s h)).
Context (f_sets : forall g, keeps f (upd_ValSet g)).

Local Hint Extern 1 (keeps _ (upd_snap _)) => apply keeps_upd_snap; intros [] ? : pbft.

Lemma keeps_uncastV id a : keeps f (uncastV id a).
Proof.
  unfold uncastV. apply keeps_bind; [auto with pbft|]. intros s.
  apply keeps_bind; [auto with pbft|]. intros r.
  apply keeps_bind; [|auto with pbft]. by apply keeps_upd_snap.
Qed.

Lemma keeps_castV id a : keeps f (castV id a).
Proof.
  unfold castV. apply keeps_bind; [auto with pbft|]. intros st.
  apply keeps_bind; [auto with pbft|]. intros ok. destruct (negb ok); [auto with pbft|].
  apply keeps_bind; [auto with pbft|]. intros t.
  apply keeps_bind; [by apply keeps_upd_snap|auto with pbft].
Qed.

Lemma keeps_discardV id a kept todo : keeps f (discardV id a kept todo).
Proof.
  revert kept. induction todo as [|w todo IH]; intros kept; [apply keeps_ret|]. cbn [discardV].
  destruct (bool_decide _); [|apply IH].
  apply keeps_bind; [apply keeps_uncastV|]. intros _.
  apply keeps_bind; [by apply keeps_upd_snap|]. intros _. apply IH.
Qed.

Lemma keeps_decideV id : keeps f (decideV id).
Proof.
  unfold decideV. apply keeps_bind; [auto with pbft|]. intros st.
  apply keeps_bind; [auto with pbft|]. intros vs. apply keeps_when.
  apply keeps_bind.
  - destruct (ty_Authorize _); [done|]. apply keeps_bind; [done|]. intros _.
    apply keeps_discardV.
  - intros _. apply keeps_upd_snap. intros s h. apply f_vTally.
Qed.

(** [applyVVotes] after its first loop. *)
Lemma keeps_count_vote id a vote :
  keeps f (ok ← castV id a;
           when ok (upd_snap (fun s => set_vVotes (vVotes s ++ [vote]) s));; decideV id).
Proof.
  apply keeps_bind; [apply keeps_castV|]. intros ok.
  apply keeps_bind; [|intros _; apply keeps_decideV]. apply keeps_when, keeps_upd_snap.
  intros s h. apply f_vVotes.
Qed.
End Frame.

(** The methods of the management part, and the first loops of both. *)
Section FrameM.
Context {B : Type} (f : @VState Address _ _ -> B).
Context (f_mTally : forall t s h, f (mkVState (set_mTally t s) h) = f (mkVState s h)).
Context (f_mVotes : forall l s h, f (mkVState (set_mVotes l s) h) = f (mkVState s h)).
Context (f_Managers : forall m s h, f (mkVState (set_Managers m s) h) = f (mkVState s h)).

Lemma keeps_uncastM a b : keeps f (uncastM a b).
Proof.
  apply keeps_bind; [auto with pbft|]. intros s.
  apply keeps_bind; [auto with pbft|]. intros r.
  apply keeps_bind; [by apply keeps_upd_snap|auto with pbft].
Qed.

Lemma keeps_discardM c kept todo : keeps f (discardM c kept todo).
Proof.
  revert kept. induction todo as [|w todo IH]; intros kept; [apply keeps_ret|]. cbn [discardM].
  destruct (bool_decide _); [|apply IH].
  apply keeps_bind; [apply keeps_uncastM|]. intros _.
  apply keeps_bind; [by apply keeps_upd_snap|]. intros _. apply IH.
Qed.

(** The removal of an entry of [mVotes], which both first loops end with. *)
Lemma keeps_slice_remove i :
  keeps f (s ← gets vsnap; l ← lift (slice_remove i (mVotes s)); upd_snap (set_mVotes l)).
Proof.
  apply keeps_bind; [auto with pbft|]. intros s.
  apply keeps_bind; [auto with pbft|]. intros l. by apply keeps_upd_snap.
Qed.

Lemma keeps_applyMVotes o : keeps f (applyMVotes o).
Proof.
  destruct o as [v|]; [|apply keeps_ret]. cbn [applyMVotes].
  apply keeps_bind; [|intros _; apply keeps_bind; [|intros ok; apply keeps_bind; [|intros _]]].
  - apply keeps_bind; [auto with pbft|]. intros s.
    destruct (list_find _ _) as [[i w]|]; [|apply keeps_ret].
    apply keeps_bind; [apply keeps_uncastM|]. intros _. apply keeps_slice_remove.
  - apply keeps_bind; [auto with pbft|]. intros s. destruct (negb _); [apply keeps_ret|].
    apply keeps_bind; [auto with pbft|]. intros t.
    apply keeps_bind; [by apply keeps_upd_snap|auto with pbft].
  - apply keeps_when, keeps_upd_snap. intros s h. apply f_mVotes.
  - apply keeps_bind; [auto with pbft|]. intros s. apply keeps_when.
    apply keeps_bind; [|intros _; apply keeps_upd_snap; intros; apply f_mTally].
    destruct (ty_Authorize _); apply keeps_bind; [auto with pbft| |by apply keeps_upd_snap|].
    + intros ms. by apply keeps_upd_snap.
    + intros _. apply keeps_discardM.
Qed.

Lemma keeps_applyVVotes o :
  (forall t s h, f (mkVState (set_vTally t s) h) = f (mkVState s h)) ->
  (forall l s h, f (mkVState (set_vVotes l s) h) = f (mkVState s h)) ->
  (forall g, keeps f (upd_ValSet g)) ->
  keeps f (applyVVotes o).
Proof.
  intros f_vTally f_vVotes f_sets. destruct o as [v|]; [|apply keeps_ret]. cbn [applyVVotes].
  apply keeps_bind; [|intros _; by apply keeps_count_vote].
  apply keeps_bind; [auto with pbft|]. intros s.
  destruct (list_find _ _) as [[i w]|]; [|apply keeps_ret].
  apply keeps_bind; [by apply keeps_uncastV|]. intros _. apply keeps_slice_remove.
Qed.
End FrameM.

Lemma uncast_tally_returns `{Countable K} (t : option (gmap K Tally)) k a :
  exists r, uncast_tally t k a = Ret r.
Proof.
  unfold uncast_tally, map_get, map_put. destruct t as [t|]; simpl; [|by eexists].
  destruct (t !! k); [|by eexists]. destruct (negb _); [by eexists|].
  destruct (1 <? _); by eexists.
Qed.

Lemma keeps_mVotes_sets g : keeps observe_mVotes (upd_ValSet g).
Proof.
  apply keeps_bind; [auto with pbft|]. intros st.
  apply keeps_bind; [auto with pbft|]. intros vs. by apply keeps_modify.
Qed.

(** The first loop on a repeated vote. *)
Lemma revokeV_spec st a c i w :
  list_find (v_same a c) (vVotes (vsnap st)) = Some (i, w) ->
  exists t, revokeV a c st =
    if (i <? length (mVotes (vsnap st)))%nat then
      Ret (tt, mkVState (set_mVotes (delete i (mVotes (vsnap st))) (set_vTally t (vsnap st)))
                 (vheap st))
    else Panic.
Proof.
  intros Ef. destruct (uncast_tally_returns (vTally (vsnap st)) (vv_Validator w) (vv_Authorize w))
    as [[b t] Eu].
  exists t. unfold revokeV. erewrite prog_bind_ret by reflexivity. rewrite Ef.
  unfold uncastV. run. rewrite Eu. run. unfold slice_remove.
  by destruct (i <? length _)%nat.
Qed.

(** C37. A manager's repeated vote on a validator takes an entry out of the
    votes on managers, at the index of the earlier vote among the votes on
    validators; without an entry at that index the node panics. *)
Theorem applyVVotes_revote st v i w :
  list_find (v_same (vv_Manager v) (vv_Validator v)) (vVotes (vsnap st)) = Some (i, w) ->
  ((length (mVotes (vsnap st)) <= i)%nat -> applyVVotes (Some v) st = Panic) /\
  (forall st', applyVVotes (Some v) st = Ret (tt, st') ->
     (i < length (mVotes (vsnap st)))%nat /\
     mVotes (vsnap st') = delete i (mVotes (vsnap st))).
Proof.
  intros Ef. destruct (revokeV_spec st _ _ _ _ Ef) as [t Er]. cbn [applyVVotes].
  unfold mbind at 1 4, prog_bind at 1 4. rewrite Er.
  destruct (Nat.ltb_spec i (length (mVotes (vsnap st)))) as [Hi|Hi]; [|by split].
  split; [lia|]. intros st' E. split; [done|].
  eapply (keeps_count_vote observe_mVotes) in E; try done. apply keeps_mVotes_sets.
Qed.

(** A vote on a manager that can be counted panics where there is no map for
    the tallies. *)
Lemma applyMVotes_nil st v :
  mTally (vsnap st) = None -> checkMVote (vsnap st) (mv_Candidate v) (mv_Authorize v) = true ->
  applyMVotes (Some v) st = Panic.
Proof.
  intros Ht Hc. cbn [applyMVotes].
  assert (exists l, revokeM (mv_Manager v) (mv_Candidate v) st =
    Ret (tt, mkVState (set_mVotes l (vsnap st)) (vheap st))) as [l El].
  { unfold revokeM. erewrite prog_bind_ret by reflexivity.
    destruct (list_find _ _) as [[i w]|] eqn:Ef.
    - exists (delete i (mVotes (vsnap st))). unfold uncastM. run. rewrite Ht. unfold uncast_tally, map_get.
      cbn [mbind option_bind]. run.
      apply list_find_Some in Ef as (Hi%lookup_lt_Some & _ & _). unfold slice_remove.
      cbn [mVotes set_mTally]. apply Nat.ltb_lt in Hi. rewrite Hi, <- Ht. by destruct st as [[] ?].
    - exists (mVotes (vsnap st)). by destruct st as [[] ?]. }
  rewrite (prog_bind_ret _ _ _ _ _ El). unfold mbind, prog_bind, castM. run.
  change (checkMVote (set_mVotes l (vsnap st))) with (checkMVote (vsnap st)). rewrite Hc. cbn [negb].
  unfold lift, cast_tally, map_get. cbn. by rewrite Ht.
Qed.

Lemma half_nonneg n : (Z.of_nat n / 2 <? 0) = false.
Proof. apply Z.ltb_ge, Z.div_pos; lia. Qed.

Lemma applyMVotes_new p (ms : list Address) h v :
  let s := newVoteSnapshot p ms in
  applyMVotes (Some v) (mkVState s h) =
    if checkMVote s (mv_Candidate v) (mv_Authorize v) then Panic else Ret (tt, mkVState s h).
Proof.
  intros s. cbn [applyMVotes].
  assert (Er : revokeM (mv_Manager v) (mv_Candidate v) (mkVState s h) = Ret (tt, mkVState s h))
    by reflexivity.
  rewrite (prog_bind_ret _ _ _ _ _ Er).
  assert (Ec : castM (mv_Candidate v) (mv_Authorize v) (mkVState s h) =
    if checkMVote s (mv_Candidate v) (mv_Authorize v) then Panic else Ret (false, mkVState s h)).
  { unfold castM. run. by destruct (checkMVote _ _ _). }
  destruct (checkMVote _ _ _); [unfold mbind, prog_bind; by rewrite Ec|].
  rewrite (prog_bind_ret _ _ _ _ _ Ec). unfold decideM, set_len. run. unfold when at 1. run.
  cbn. by rewrite half_nonneg.
Qed.

Lemma applyVVotes_new p (ms : list Address) h vs v :
  heap_get h p = Ret vs ->
  let s := newVoteSnapshot p ms in
  applyVVotes (Some v) (mkVState s h) =
    match checkVVote h s (vv_Validator v) (vv_Authorize v) with
    | Ret false => Ret (tt, mkVState s h)
    | Ret true => Panic
    | Fail who => Fail who
    end.
Proof.
  intros Ep s. cbn [applyVVotes].
  assert (Er : revokeV (vv_Manager v) (vv_Validator v) (mkVState s h) = Ret (tt, mkVState s h))
    by reflexivity.
  rewrite (prog_bind_ret _ _ _ _ _ Er).
  assert (Ec : castV (vv_Validator v) (vv_Authorize v) (mkVState s h) =
    match checkVVote h s (vv_Validator v) (vv_Authorize v) with
    | Ret false => Ret (false, mkVState s h) | Ret true => Panic | Fail who => Fail who end).
  { unfold castV. run. by destruct (checkVVote _ _ _ _) as [[]|]. }
  destruct (checkVVote _ _ _ _) as [[]|]; try (unfold mbind, prog_bind; by rewrite Ec).
  rewrite (prog_bind_ret _ _ _ _ _ Ec). unfold decideV. run. unfold when at 1. run.
  cbn [ValSet newVoteSnapshot s]. rewrite Ep. unfold Default.Size, when, map_get. cbn.
  by rewrite half_nonneg.
Qed.

(** On a snapshot that was just created, a vote that can be counted
    panics, since [newVoteSnapshot] makes no tallies; any other vote is
    ignored. *)
Theorem newVoteSnapshot_votes p (ms : list Address) h vs :
  heap_get h p = Ret vs ->
  let s := newVoteSnapshot p ms in
  (forall v, applyMVotes (Some v) (mkVState s h) =
     if checkMVote s (mv_Candidate v) (mv_Authorize v) then Panic
     else Ret (tt, mkVState s h)) /\
  (forall v, applyVVotes (Some v) (mkVState s h) =
     if Bool.eqb (vv_Authorize v) (wantV vs (vv_Validator v)) then Panic
     else Ret (tt, mkVState s h)).
Proof.
  intros Ep s. split; intros v; [apply applyMVotes_new|].
  unfold s. rewrite (applyVVotes_new _ _ _ vs) by done. unfold checkVVote; cbn [ValSet newVoteSnapshot].
  rewrite Ep. unfold mbind, outcome_bind. rewrite votable_want. fold (wantV vs (vv_Validator v)).
  by destruct (Bool.eqb _ _).
Qed.
End Defects.

(** ** The votes a node proposes *)

Section Proposals.
Context {Address : Type} `{Countable Address}.

(** What a loop of [getVotes] leaves: only unusable entries are dropped, and
    the vote picked is usable and kept; without one the map is emptied. *)
Definition picked {K V} `{Countable K} (usable : K -> V -> bool)
    (m : gmap K V) (r : option V) (m' : gmap K V) : Prop :=
  m' ⊆ m /\
  (forall k v, m !! k = Some v -> m' !! k = None -> usable k v = false) /\
  match r with
  | Some v => exists k, m' !! k = Some v /\ usable k v = true
  | None => m' = ∅ /\ forall k v, m !! k = Some v -> usable k v = false
  end.

Lemma pick_vote_spec {K V} `{Countable K} (check : K -> V -> outcome bool)
    (usable : K -> V -> bool) order m :
  (forall k v, m !! k = Some v -> check k v = Ret (usable k v)) ->
  exists r m', pick_vote check order m = Ret (r, m') /\ m' ⊆ m /\
    (forall k v, m !! k = Some v -> m' !! k = None -> usable k v = false) /\
    match r with
    | Some v => exists k, m' !! k = Some v /\ usable k v = true
    | None => forall k, k ∈ order -> m' !! k = None
    end.
Proof.
  revert m. induction order as [|k order IH]; intros m Hc.
  { exists None, m. split; [done|]. split; [done|]. split; [congruence|]. set_solver. }
  cbn [pick_vote]. destruct (m !! k) as [v|] eqn:Ek.
  - rewrite (Hc _ _ Ek). unfold mbind, outcome_bind. destruct (usable k v) eqn:Eu.
    { exists (Some v), m. split; [done|]. split; [done|]. split; [congruence|]. by exists k. }
    destruct (IH (delete k m)) as (r & m' & E & Hs & Hd & Hr).
    { intros j w [_ Hj]%lookup_delete_Some. by apply Hc. }
    pose proof (delete_subseteq m k) as Hk. exists r, m'. split; [done|].
    split; [by etrans|]. split.
    + intros j w Hj Hn. destruct (decide (j = k)) as [->|Hne]; [congruence|].
      apply Hd; [|done]. by rewrite lookup_delete_ne.
    + destruct r; [done|]. intros j [->|Hj]%elem_of_cons; [|by apply Hr].
      eapply lookup_weaken_None; [|exact Hs]. apply lookup_delete_eq.
  - destruct (IH m Hc) as (r & m' & E & Hs & Hd & Hr). exists r, m'. split; [done|].
    split; [done|]. split; [done|]. destruct r; [done|].
    intros j [->|Hj]%elem_of_cons; [|by apply Hr]. by eapply lookup_weaken_None.
Qed.

Lemma pick_vote_picked {K V} `{Countable K} (check : K -> V -> outcome bool)
    (usable : K -> V -> bool) order m :
  (forall k v, m !! k = Some v -> check k v = Ret (usable k v)) ->
  (forall k, is_Some (m !! k) -> k ∈ order) ->
  exists r m', pick_vote check order m = Ret (r, m') /\ picked usable m r m'.
Proof.
  intros Hc Ho. destruct (pick_vote_spec check usable order m Hc) as (r & m' & E & Hs & Hd & Hr).
  exists r, m'. split; [done|]. split; [done|]. split; [done|]. destruct r; [done|].
  assert (m' = ∅) as ->.
  { apply map_empty. intros k. destruct (m' !! k) as [v|] eqn:Ek; [|done].
    rewrite <- Ek. apply Hr, Ho. exists v. by eapply lookup_weaken. }
  split; [done|]. intros k v Hk. by eapply Hd.
Qed.

(** [getVotes], in whatever order its maps are enumerated: each vote it
    returns passes the check and its deadline is after the height; it finds
    one when there is one; the entries it deletes are unusable. *)
Theorem getVotes_correct (m : manager) height (cM : Address -> bool -> bool)
    (cV : string -> bool -> bool) (m_order : list Address) (v_order : list string)
    (dM : @ManagementVote Address -> Z) (dV : @ValidatorVote Address -> Z) :
  (forall a v, mCandidate m !! a = Some v -> mv_DeadlineHeight v = Some (dM v)) ->
  (forall i v, vCandidate m !! i = Some v -> vv_DeadlineHeight v = Some (dV v)) ->
  (forall a, is_Some (mCandidate m !! a) -> a ∈ m_order) ->
  (forall i, is_Some (vCandidate m !! i) -> i ∈ v_order) ->
  exists mv vv m',
    getVotes m height (fun a b => Ret (cM a b)) (fun i b => Ret (cV i b)) m_order v_order =
      Ret ((mv, vv), m') /\
    picked (fun a v => cM a (mv_Authorize v) && (height <? big_Uint64 (dM v)))
      (mCandidate m) mv (mCandidate m') /\
    picked (fun i v => cV i (vv_Authorize v) && (height <? big_Uint64 (dV v)))
      (vCandidate m) vv (vCandidate m').
Proof.
  intros HdM HdV HoM HoV. unfold getVotes.
  edestruct (pick_vote_picked (fun address vote =>
      ok ← Ret (cM address (mv_Authorize vote));
      vote_current ok (mv_DeadlineHeight vote) height)
    (fun a v => cM a (mv_Authorize v) && (height <? big_Uint64 (dM v))) m_order (mCandidate m))
    as (mv & mc & E1 & P1); [|done|].
  { intros a v Hv. cbn. unfold vote_current. rewrite (HdM _ _ Hv). by destruct (cM _ _). }
  edestruct (pick_vote_picked (fun id vote =>
      ok ← Ret (cV id (vv_Authorize vote));
      vote_current ok (vv_DeadlineHeight vote) height)
    (fun i v => cV i (vv_Authorize v) && (height <? big_Uint64 (dV v))) v_order (vCandidate m))
    as (vv & vc & E2 & P2); [|done|].
  { intros a v Hv. cbn. unfold vote_current. rewrite (HdV _ _ Hv). by destruct (cV _ _). }
  exists mv, vv, (mkManager mc vc). split; [|done].
  unfold mbind, outcome_bind in *. by rewrite E1, E2.
Qed.
End Proposals.

(** ** Sorting and the stored form *)

Section Storage.
Context {Address : Type} `{Countable Address}.
Implicit Types (s : @voteSnapshot Address _ _).

Lemma compare_le x y : String.compare x y <> Gt -> String.le x y.
Proof. unfold String.le, String.leb. by destruct (String.compare x y). Qed.

Lemma compare_gt x y : String.compare x y = Gt -> String.le y x.
Proof.
  intros E. unfold String.le, String.leb. rewrite String.compare_antisym, E. done.
Qed.

(** One pass moves a least element to the front. *)
Lemma exchange_spec x l :
  let r := exchange x l in
  (r.1 :: r.2) ≡ₚ (x :: l) /\ length r.2 = length l /\ forall y, y ∈ x :: l -> String.le r.1 y.
Proof.
  revert x. induction l as [|y l IH]; intros x; simpl.
  { split; [done|]. split; [done|]. intros y ->%list_elem_of_singleton. done. }
  destruct (String.compare x y) eqn:Ec;
    match goal with |- context [exchange ?z l] => specialize (IH z); set (r := exchange z l) in * end;
    destruct r as [m l'']; simpl in *; destruct IH as (Hp & Hlen & Hm);
    (split; [rewrite Permutation_swap, Hp; try done; apply Permutation_swap|]);
    (split; [by rewrite Hlen|]); intros w Hw;
    assert (Hx := Hm _ ltac:(constructor)).
  - apply String.compare_eq_iff in Ec as <-. set_solver.
  - assert (String.le x y) by (apply compare_le; congruence).
    apply elem_of_cons in Hw as [->|[->|Hw]%elem_of_cons]; [done|by etrans|set_solver].
  - assert (String.le y x) by by apply compare_gt.
    apply elem_of_cons in Hw as [->|[->|Hw]%elem_of_cons]; [by etrans|done|set_solver].
Qed.

Lemma exchange_sort_spec n l :
  (length l <= n)%nat -> exchange_sort n l ≡ₚ l /\ StronglySorted String.le (exchange_sort n l).
Proof.
  revert l. induction n as [|n IH]; intros [|x l] Hl; simpl in *;
    [by split; [|constructor]|lia|by split; [|constructor]|].
  pose proof (exchange_spec x l) as (Hp & Hlen & Hm). destruct (exchange x l) as [m l''].
  simpl in *. destruct (IH l'') as [Hp' Hs]; [lia|]. split; [by rewrite Hp'|].
  constructor; [done|]. apply Forall_forall. intros y. rewrite Hp'. intros Hy.
  apply Hm. rewrite <- Hp. by constructor.
Qed.

Lemma ids_sorted vs : Default.wf vs -> StronglySorted String.le (Default.id <$> Default.validators vs).
Proof.
  intros [Hw _]. revert Hw. generalize (Default.validators vs). intros l.
  induction 1 as [|x l Hl IH Hx]; csimpl; constructor; [done|]. rewrite Forall_fmap. exact Hx.
Qed.

(** [validators] lists the ids of a validator set in increasing order,
    each as often as it occurs; on a well-formed set that is the order the
    set already has. *)
Theorem voteSnapshot_validators_sorted vs :
  StronglySorted String.le (voteSnapshot_validators vs) /\
  voteSnapshot_validators vs ≡ₚ Default.ids vs /\
  (Default.wf vs -> voteSnapshot_validators vs = Default.ids vs).
Proof.
  unfold voteSnapshot_validators, Default.List. fold (Default.ids vs).
  destruct (exchange_sort_spec (length (Default.ids vs)) (Default.ids vs)) as [Hp Hs]; [done|].
  split; [done|]. split; [done|]. intros Hw.
  apply (StronglySorted_unique String.le); [done|by apply ids_sorted|done].
Qed.
End Storage.
