(* ===== verification/Snapshot.v ===== *)
(** * Snapshot: the votes and validators at a block

    Models [snapshot.go], [ConsensusData] of [types.go] and the errors of
    [errorx.go].  A block header, the codec, the JSON package and the key-value
    store belong to other modules: the class [Chain] has what the code uses
    of them.  A [*Snapshot] in use is a state, its validator set a reference
    into the [heap] shared by all snapshots; its [voteSnapshot] belongs to it
    alone. *)

From S2P Require Import Prelude Types ValidatorSet Votes.

(** ** Errors (errorx.go)

    [errProtocol] is an error of [protocol/errors.go], [errOther] one that an
    imported package returns. *)

Inductive engine_error :=
| errInvalidProposal
| errInvalidCommittedSeals
| errEmptyCommittedSeals
| errMismatchTxRoot
| errBlockIsGenesis
| errUnknownBlock
| errInvalidConsensusData
| errInvalidTimestamp
| errInvalidSignature
| errInvalidVotingChain
| errBlockSmall
| errProtocol (e : error)
| errOther (message : string).

#[export] Instance engine_error_eq_dec : EqDecision engine_error.
Proof. solve_decision. Defined.

(** [strings.EqualFold(name, "pbft")]: no letter of "pbft" folds to a
    character outside ASCII. *)
Definition lower (c : Ascii.ascii) : Ascii.ascii :=
  let n := Ascii.nat_of_ascii c in
  if (65 <=? n)%nat && (n <=? 90)%nat then Ascii.ascii_of_nat (n + 32) else c.

Fixpoint lower_string (s : string) : string :=
  match s with
  | EmptyString => EmptyString
  | String c s' => String (lower c) (lower_string s')
  end.

Definition EqualFold_pbft (name : string) : bool := String.eqb (lower_string name) "pbft".

Section Snapshots.
Context `{PF : Platform} {Address : Type} `{Countable Address}.

Record ConsensusData := mkConsensusData {
  CommittedSeal : list (option SignResult);
  cd_Managers : list Address;
  cd_Validators : list string;
  MVote : option (@ManagementVote Address);
  VVote : option (@ValidatorVote Address);
}.

Record snapshotJSON := mkSnapshotJSON {
  j_Epoch : Z;
  j_Height : Z;
  j_Hash : Hash;
  j_VoteManager : @extVoteSnapshot Address _ _;
}.

(** Headers ([models.Header], with [Consensus] as its name and payload), the
    decoding of a payload, JSON (the text of an object with given fields, and
    the struct that a text decodes to) and the database. *)
Class Chain := {
  Header : Type;
  hd_Height : Header -> Z;
  hd_Hash : Header -> Hash;
  hd_Consensus : Header -> option (string * string);
  Deserialize : string -> engine_error + ConsensusData;
  json_Marshal : snapshotJSON -> engine_error + string;
  json_Unmarshal : string -> engine_error + snapshotJSON;
  Database : Type;
  db_Get : Database -> string -> engine_error + string;
  db_Put : Database -> string -> string -> option engine_error * Database;
}.

(** The struct as it is written. *)
Definition written (j : snapshotJSON) : snapshotJSON :=
  mkSnapshotJSON (j_Epoch j) (j_Height j) (j_Hash j) (json_fields (j_VoteManager j)).

(** What is read back from JSON is what was written, the hash in any case, the
    rest when the strings are text; what is read from the database is what
    was put there; a failed write may have happened. *)
Class ChainLaws `{Chain} := {
  json_hash (j j' : snapshotJSON) b :
    json_Marshal (written j) = inr b -> json_Unmarshal b = inr j' -> j_Hash j' = j_Hash j;
  json_roundtrip (j : snapshotJSON) b :
    json_text (j_VoteManager j) = true ->
    json_Marshal (written j) = inr b -> json_Unmarshal b = inr (written j);
  db_Get_Put db k v db' : db_Put db k v = (None, db') -> db_Get db' k = inr v;
  db_Put_other db k v e db' k' : db_Put db k v = (e, db') -> k' <> k -> db_Get db' k' = db_Get db k';
  db_Put_failed db k v e db' : db_Put db k v = (Some e, db') ->
    db_Get db' k = db_Get db k \/ db_Get db' k = inr v;
}.

Context `{CH : Chain}.

(** [ConsensusData.FromConsensus] on a new [ConsensusData]. *)
Definition FromConsensus (consensus : option (string * string)) : engine_error + ConsensusData :=
  match consensus with
  | None => inl errInvalidConsensusData
  | Some (Name, payload) =>
      if negb (EqualFold_pbft Name) then inl errInvalidConsensusData
      else if (String.length payload =? 0)%nat then inl errInvalidConsensusData
      else Deserialize payload
  end.

(** ** Snapshots *)

(** [sn_log] says whether the logger is set; [Store] calls it. *)
Record Snapshot := mkSnapshot {
  sn_log : option unit;
  Epoch : Z;
  sn_Height : Z;
  sn_Hash : Hash;
  sn_vote : @voteSnapshot Address _ _;
  sn_ValSet : option nat;
}.

Definition newSnapshot (epoch height : Z) (hash : Hash) (valSet : option nat)
    (managers : list Address) : Snapshot :=
  mkSnapshot (Some tt) epoch height hash (newVoteSnapshot valSet managers) valSet.

Definition Snapshot_checkMVote (s : Snapshot) (address : Address) (authorize : bool) : bool :=
  checkMVote (sn_vote s) address authorize.

Definition Snapshot_checkVVote (h : heap) (s : Snapshot) (id : string) (authorize : bool)
    : outcome bool :=
  checkVVote h (sn_vote s) id authorize.

(** [Snapshot.copy] copies the votes; the validator set stays shared. *)
Definition Snapshot_copy (h : heap) (s : Snapshot) : outcome (Snapshot * heap) :=
  '(v, h') ← voteSnapshot_copy h (sn_vote s);
  mret (mkSnapshot (sn_log s) (Epoch s) (sn_Height s) (sn_Hash s) v (sn_ValSet s), h').

Record SState := mkSState {
  ssnap : Snapshot;
  sheap : heap;
}.

Definition set_Epoch (e : Z) (s : Snapshot) : Snapshot :=
  mkSnapshot (sn_log s) e (sn_Height s) (sn_Hash s) (sn_vote s) (sn_ValSet s).
Definition set_vote v (s : Snapshot) : Snapshot :=
  mkSnapshot (sn_log s) (Epoch s) (sn_Height s) (sn_Hash s) v (sn_ValSet s).

(** A method of the receiver's [voteSnapshot]. *)
Definition on_votes {A} (m : prog VState A) : prog SState A := fun st =>
  '(a, vst) ← m (mkVState (sn_vote (ssnap st)) (sheap st));
  mret (a, mkSState (set_vote (vsnap vst) (ssnap st)) (vheap vst)).

(** The first loop of [Apply]. *)
Fixpoint consecutive (headers : list Header) : bool :=
  match headers with
  | h1 :: ((h2 :: _) as hs) =>
      (hd_Height h2 =? u64 (hd_Height h1 + 1)) && consecutive hs
  | _ => true
  end.

(** The main loop of [Apply]; [snap] is the copy. *)
Fixpoint apply_headers (headers : list Header) (snap : Snapshot)
    : prog SState (engine_error + Snapshot) :=
  match headers with
  | [] => mret (inr snap)
  | header :: hs =>
      modify (fun st => mkSState
        (if Epoch (ssnap st) =? 0 then set_Epoch 1 (ssnap st) else ssnap st) (sheap st));;
      s ← gets ssnap;
      let snap' := if hd_Height header mod Epoch s =? 0
                   then set_vote (voteSnapshot_reset (sn_vote snap)) snap else snap in
      match FromConsensus (hd_Consensus header) with
      | inl e => mret (inl e)
      | inr consensusData =>
          on_votes (applyMVotes (MVote consensusData));;
          on_votes (applyVVotes (VVote consensusData));;
          apply_headers hs snap'
      end
  end.

(** [Apply]: the result [inr None] is the receiver itself. *)
Definition Apply (headers : list Header) : prog SState (engine_error + option Snapshot) :=
  match headers, last headers with
  | header0 :: _, Some header_last =>
      if negb (consecutive headers) then mret (inl errInvalidVotingChain)
      else
        s ← gets ssnap;
        if negb (hd_Height header0 =? u64 (sn_Height s + 1)) then mret (inl errInvalidVotingChain)
        else
          h ← gets sheap;
          r ← lift (Snapshot_copy h s);
          modify (fun st => mkSState (ssnap st) r.2);;
          res ← apply_headers headers r.1;
          match res with
          | inl e => mret (inl e)
          | inr snap =>
              mret (inr (Some (mkSnapshot (sn_log snap) (Epoch snap)
                (u64 (sn_Height snap + Z.of_nat (length headers))) (hd_Hash header_last)
                (sn_vote snap) (sn_ValSet snap))))
          end
  | _, _ => mret (inr None)
  end.

(** ** The stored form *)

Definition Snapshot_toJSONStruct (h : heap) (s : Snapshot) : outcome snapshotJSON :=
  v ← toJSONStruct h (sn_vote s);
  mret (mkSnapshotJSON (Epoch s) (sn_Height s) (sn_Hash s) v).

(** [UnmarshalJSON] into a new [Snapshot], whose [ValSet] and logger are nil. *)
Definition Snapshot_UnmarshalJSON (h : heap) (b : string) : engine_error + (Snapshot * heap) :=
  match json_Unmarshal b with
  | inl e => inl e
  | inr j =>
      let '(v, h') := fromJSONStruct h (j_VoteManager j) in
      inr (mkSnapshot None (j_Epoch j) (j_Height j) (j_Hash j) v None, h')
  end.

Definition db_key (hash : Hash) : string := ("pbft-snapshot" +:+ Hash_Bytes hash)%string.

Definition loadSnapshot (epoch : Z) (db : Database) (hash : Hash) (h : heap)
    : engine_error + (Snapshot * heap) :=
  match db_Get db (db_key hash) with
  | inl e => inl e
  | inr blob =>
      match Snapshot_UnmarshalJSON h blob with
      | inl e => inl e
      | inr (snap, h') => inr (set_Epoch epoch snap, h')
      end
  end.

Definition Store (h : heap) (s : Snapshot) (db : Database)
    : outcome (option engine_error * Database) :=
  j ← Snapshot_toJSONStruct h s;
  match json_Marshal (written j) with
  | inl e => mret (Some e, db)
  | inr blob => deref (sn_log s);; mret (db_Put db (db_key (sn_Hash s)) blob)
  end.
End Snapshots.
