(* ===== verification/SnapshotLaws.v ===== *)
(** * SnapshotLaws: what [Apply], [Store] and [loadSnapshot] do

    [Apply_correct] gives the snapshot that [Apply] returns;
    [genesis_validators_forever] follows every snapshot of a node that
    starts from genesis; [Store_loadSnapshot] gives what is stored. *)

From S2P Require Import Prelude Types ValidatorSet Votes VotesSpec VotesLaws Snapshot.

Section SnapshotLaws.
Context `{PF : Platform} {Address : Type} `{Countable Address} {CH : @Chain PF Address _ _}.
Implicit Types (s snap : @Snapshot PF Address _ _) (st : @SState PF Address _ _).

(** The epoch [Apply] works with. *)
Definition epoch_of s : Z := if Epoch s =? 0 then 1 else Epoch s.

(** Some header is a checkpoint. *)
Definition checkpoint (e : Z) (headers : list Header) : bool :=
  existsb (fun hd => hd_Height hd mod e =? 0) headers.

Definition extends (n : Z) (headers : list Header) : bool :=
  match headers with
  | [] => true
  | hd :: _ => (hd_Height hd =? u64 (n + 1)) && consecutive headers
  end.

(** What a run of [apply_headers] does not change in the receiver. *)
Definition receiver st : option unit * Z * Hash * option nat :=
  (sn_log (ssnap st), sn_Height (ssnap st), sn_Hash (ssnap st), sn_ValSet (ssnap st)).

Lemma keeps_on_votes {A B} (f : SState -> B) (m : prog VState A) :
  (forall st vst, m (mkVState (sn_vote (ssnap st)) (sheap st)) = Ret vst ->
     f (mkSState (set_vote (vsnap vst.2) (ssnap st)) (vheap vst.2)) = f st) ->
  keeps f (on_votes m).
Proof.
  intros Hf st a st'. unfold on_votes, mbind, outcome_bind.
  destruct (m _) as [[b vst]|] eqn:E; [|done]. intros [= _ <-]. by apply (Hf _ (b, vst)).
Qed.

Lemma keeps_apply_headers {B} (f : SState -> B) headers snap :
  (forall st, f (mkSState (set_Epoch 1 (ssnap st)) (sheap st)) = f st) ->
  (forall o, keeps f (on_votes (applyMVotes o))) ->
  (forall o, keeps f (on_votes (applyVVotes o))) ->
  keeps f (apply_headers headers snap).
Proof.
  intros He HM HV. revert snap. induction headers as [|hd hs IH]; intros snap; [apply keeps_ret|].
  cbn [apply_headers]. apply keeps_bind.
  { apply keeps_modify. intros st. destruct (_ =? 0); [apply He|by destruct st]. }
  intros _. apply keeps_bind; [auto with pbft|]. intros s.
  destruct (FromConsensus _) as [e|data]; [apply keeps_ret|].
  apply keeps_bind; [done|]. intros _. apply keeps_bind; [done|]. intros _. apply IH.
Qed.

Lemma reset_twice s :
  set_vote (voteSnapshot_reset (sn_vote (set_vote (voteSnapshot_reset (sn_vote s)) s)))
    (set_vote (voteSnapshot_reset (sn_vote s)) s) = set_vote (voteSnapshot_reset (sn_vote s)) s.
Proof. done. Qed.

Lemma keeps_epoch (o1 : option (@ManagementVote Address)) o2 :
  keeps (fun st => Epoch (ssnap st)) (on_votes (applyMVotes o1)) /\
  keeps (fun st => Epoch (ssnap st)) (on_votes (applyVVotes (Address:=Address) o2)).
Proof. split; by apply keeps_on_votes. Qed.

(** The returned copy depends on the heights only, not on the votes. *)
Lemma apply_headers_result headers snap st r st' :
  apply_headers headers snap st = Ret (r, st') ->
  match r with
  | inl e => exists hd, hd ∈ headers /\ FromConsensus (hd_Consensus hd) = inl e
  | inr snap' => snap' = if checkpoint (epoch_of (ssnap st)) headers
                         then set_vote (voteSnapshot_reset (sn_vote snap)) snap else snap
  end.
Proof.
  revert snap st. induction headers as [|hd hs IH]; intros snap st; [by intros [= <- _]|].
  cbn [apply_headers]. unfold mbind at 1, prog_bind at 1, modify at 1.
  set (st1 := mkSState _ _).
  unfold mbind at 1, prog_bind at 1, gets at 1. fold (epoch_of (ssnap st)).
  assert (Ee : Epoch (ssnap st1) = epoch_of (ssnap st)).
  { unfold st1, epoch_of; simpl. by destruct (Epoch (ssnap st) =? 0). }
  assert (Ee' : epoch_of (ssnap st1) = epoch_of (ssnap st)).
  { unfold epoch_of at 1. rewrite Ee. unfold epoch_of. repeat case_match; lia. }
  destruct (FromConsensus (hd_Consensus hd)) as [e|data] eqn:Ec.
  { intros [= <- _]. exists hd. split; [constructor|done]. }
  destruct (keeps_epoch (MVote data) (VVote data)) as [KM KV].
  unfold mbind at 1, prog_bind at 1.
  destruct (on_votes (applyMVotes _) st1) as [[[] st2]|] eqn:EM; [|done]. apply KM in EM.
  unfold mbind at 1, prog_bind at 1.
  destruct (on_votes (applyVVotes _) st2) as [[[] st3]|] eqn:EV; [|done]. apply KV in EV.
  intros E. apply IH in E.
  assert (Ee3 : epoch_of (ssnap st3) = epoch_of (ssnap st)).
  { rewrite <- Ee'. unfold epoch_of. by rewrite EV, EM. }
  rewrite Ee3, Ee in E. destruct r as [e|snap'].
  - destruct E as (hd' & Hin & E). exists hd'. split; [by right|done].
  - rewrite E. unfold checkpoint. cbn [existsb].
    destruct (hd_Height hd mod epoch_of (ssnap st) =? 0); [|done].
    simpl. destruct (existsb _ _); [apply reset_twice|done].
Qed.

(** The data of a header is readable and has no vote on a validator. *)
Definition manager_votes_only (hd : Header) : Prop :=
  exists data, FromConsensus (hd_Consensus hd) = inr data /\ VVote data = None.

Lemma apply_headers_returns headers snap st :
  m_ok (sn_vote (ssnap st)) -> Forall manager_votes_only headers ->
  exists snap' st', apply_headers headers snap st = Ret (inr snap', st').
Proof.
  intros Hok Hh. revert snap st Hok.
  induction Hh as [|hd hs (data & Ed & Ev) _ IH]; intros snap st Hok; [by eexists _, _|].
  cbn [apply_headers]. rewrite Ed, Ev. unfold mbind at 1, prog_bind at 1, modify at 1.
  set (st1 := mkSState _ _).
  assert (Hok1 : m_ok (sn_vote (ssnap st1))).
  { unfold st1; simpl. by destruct (_ =? 0). }
  unfold mbind at 1, prog_bind at 1, gets at 1.
  assert (exists st2, on_votes (applyMVotes (MVote data)) st1 = Ret (tt, st2) /\
            m_ok (sn_vote (ssnap st2))) as (st2 & E & Hok2).
  { destruct (MVote data) as [v|]; [|by eexists].
    destruct Hok1 as (ms & Hok1).
    destruct (applyMVotes_spec (mkVState (sn_vote (ssnap st1)) (sheap st1)) v ms)
      as (vst & E & Hok2 & _); [by exists ms|by destruct Hok1 as (? & ? & _)|].
    eexists. unfold on_votes, mbind, outcome_bind. rewrite E. by split. }
  rewrite (prog_bind_ret _ _ _ _ _ E). apply IH. exact Hok2.
Qed.

(** The receiver's votes when [Apply] copied them, with a new validator set. *)
Definition copied_votes s (q : nat) : voteSnapshot :=
  mkVoteSnapshot (Some q) (Some (default ∅ (Managers (sn_vote s)))) (vVotes (sn_vote s))
    (mVotes (sn_vote s)) (Some (default ∅ (vTally (sn_vote s))))
    (Some (default ∅ (mTally (sn_vote s)))).

Definition the_copy s (q : nat) : Snapshot := set_vote (copied_votes s q) s.

(** [Apply] with headers that extend the receiver. *)
Lemma Apply_run headers hl st :
  extends (sn_Height (ssnap st)) headers = true -> last headers = Some hl ->
  Apply headers st =
    match heap_get (sheap st) (ValSet (sn_vote (ssnap st))) with
    | Fail who => Fail who
    | Ret vs =>
        match apply_headers headers (the_copy (ssnap st) (hp_next (sheap st)))
                (mkSState (ssnap st) (heap_alloc (sheap st) (Default.Copy vs)).2) with
        | Fail who => Fail who
        | Ret (inl e, st') => Ret (inl e, st')
        | Ret (inr snap, st') => Ret (inr (Some (mkSnapshot (sn_log snap) (Epoch snap)
            (u64 (sn_Height snap + Z.of_nat (length headers))) (hd_Hash hl)
            (sn_vote snap) (sn_ValSet snap))), st')
        end
    end.
Proof.
  intros He El. destruct headers as [|hd hs]; [done|].
  unfold Apply, extends in *. rewrite El. cbv iota.
  set (headers := hd :: hs) in *. clearbody headers. apply andb_true_iff in He as [He Hc].
  unfold gets, lift, modify, mbind, prog_bind. rewrite Hc. cbn. rewrite He. cbn.
  unfold Snapshot_copy, voteSnapshot_copy, heap_alloc, mbind, outcome_bind.
  destruct (heap_get _ _) as [vs|]; [|done]. cbn.
  fold (copied_votes (ssnap st) (hp_next (sheap st))). unfold the_copy, set_vote.
  by destruct (apply_headers headers _ _) as [[[e|snap'] st']|].
Qed.

Lemma Apply_refused headers st :
  headers <> [] -> extends (sn_Height (ssnap st)) headers = false ->
  Apply headers st = Ret (inl errInvalidVotingChain, st).
Proof.
  intros Hne He. destruct (last headers) as [hl|] eqn:El; [|by apply last_None in El].
  destruct headers as [|hd hs]; [done|]. unfold Apply, extends in *. rewrite El. cbv iota.
  set (headers := hd :: hs) in *. clearbody headers.
  destruct (consecutive headers); [|done]. rewrite andb_true_r in He.
  unfold mbind, prog_bind, gets; cbn. by rewrite He.
Qed.

(** C26. [Apply], on every branch. Without headers it returns the receiver.
    Headers that do not extend it are refused and nothing changes. Else the
    snapshot it returns has the last header's height and hash, the
    receiver's validator set, and the receiver's managers and votes from
    before the call, cleared if there was a checkpoint: the votes of the
    headers go into the receiver and never reach the result. It fails only
    for a header whose data cannot be read, and returns for headers that
    vote on managers. *)
Theorem Apply_correct headers st :
  let s := ssnap st in
  (headers = [] -> Apply headers st = Ret (inr None, st)) /\
  (headers <> [] -> extends (sn_Height s) headers = false ->
     Apply headers st = Ret (inl errInvalidVotingChain, st)) /\
  (headers <> [] -> extends (sn_Height s) headers = true ->
     (forall r st', Apply headers st = Ret (r, st') ->
        match r with
        | inl e => exists hd, hd ∈ headers /\ FromConsensus (hd_Consensus hd) = inl e
        | inr None => False
        | inr (Some snap) =>
            Some snap = (hd ← last headers; Some (mkSnapshot (sn_log s) (Epoch s)
              (u64 (sn_Height s + Z.of_nat (length headers))) (hd_Hash hd)
              (let v := copied_votes s (hp_next (sheap st)) in
               if checkpoint (epoch_of s) headers then voteSnapshot_reset v else v)
              (sn_ValSet s)))
        end) /\
     (m_ok (sn_vote s) -> (exists vs, heap_get (sheap st) (ValSet (sn_vote s)) = Ret vs) ->
        Forall manager_votes_only headers ->
        exists snap st', Apply headers st = Ret (inr (Some snap), st'))).
Proof.
  intros s. split; [by intros ->|].
  destruct (last headers) as [hl|] eqn:El; [|by apply last_None in El as ->]. split.
  - apply Apply_refused.
  - intros _ He. split.
    + intros r st'. rewrite (Apply_run _ hl) by done. destruct (heap_get _ _) as [vs|]; [|done].
      destruct (apply_headers _ _ _) as [[[e|snap'] st2]|] eqn:E; [| |done];
        intros [= <- _]; apply apply_headers_result in E; [done|]. rewrite E. cbn [ssnap].
      fold s. by destruct (checkpoint (epoch_of s) headers).
    + intros Hok [vs Evs] Hh. unfold s in *. rewrite (Apply_run _ hl), Evs by done.
      destruct (apply_headers_returns headers (the_copy (ssnap st) (hp_next (sheap st)))
        (mkSState (ssnap st) (heap_alloc (sheap st) (Default.Copy vs)).2)) as (snap' & st' & E); [done..|].
      rewrite E. by eexists _, _.
Qed.

(** [Apply] hands the validator set on. *)
Lemma keeps_receiver (o1 : option (@ManagementVote Address)) o2 :
  keeps receiver (on_votes (applyMVotes o1)) /\
  keeps receiver (on_votes (applyVVotes (Address:=Address) o2)).
Proof. split; by apply keeps_on_votes. Qed.

Lemma Apply_fields headers st r st' :
  Apply headers st = Ret (r, st') ->
  receiver st' = receiver st /\ (r = inr None -> headers = []) /\
  forall snap, r = inr (Some snap) ->
    sn_ValSet snap = sn_ValSet (ssnap st) /\ sn_log snap = sn_log (ssnap st) /\
    Some (sn_Hash snap) = hd_Hash <$> last headers.
Proof.
  destruct (last headers) as [hl|] eqn:El.
  2:{ apply last_None in El as ->. by intros [= <- <-]. }
  destruct (extends (sn_Height (ssnap st)) headers) eqn:He.
  2:{ rewrite Apply_refused; [by intros [= <- <-]|by intros ->|done]. }
  rewrite (Apply_run _ hl) by done. destruct (heap_get _ _) as [vs|]; [|done].
  destruct (apply_headers _ _ _) as [[res st2]|] eqn:E; [|done].
  assert (Er : receiver st2 = receiver st).
  { eapply (keeps_apply_headers receiver) in E; [exact E|done|..]; intros o;
      [apply (keeps_receiver o None)|apply (keeps_receiver None o)]. }
  destruct res as [e|snap']; intros [= <- <-]; [done|]. split; [done|]. split; [done|].
  intros snap [= <-]. apply apply_headers_result in E. subst snap'. by destruct (checkpoint _ _).
Qed.

(** ** The validators in force *)

(** The set behind reference [p], where reference [q] is another one. *)
Definition other_set (p : nat) (h : heap) (q : option nat) : option (option Default.defaultValidatorSet) :=
  if decide (q = Some p) then None else Some (hp_sets h !! p).

Definition observe_set (p : nat) (st : @VState Address _ _) :=
  (ValSet (vsnap st), hp_next (vheap st), other_set p (vheap st) (ValSet (vsnap st))).

Lemma keeps_observe_set p o1 o2 :
  keeps (observe_set p) (applyMVotes o1) /\ keeps (observe_set p) (applyVVotes o2).
Proof.
  split; [by apply keeps_applyMVotes|]. apply keeps_applyVVotes; try done.
  intros g. unfold upd_ValSet. apply keeps_bind; [auto with pbft|]. intros st.
  apply keeps_bind; [auto with pbft|]. intros vs. apply keeps_modify. intros [s h].
  unfold observe_set, other_set, heap_put; simpl. destruct (ValSet s) as [q|]; [|done]. simpl.
  destruct (decide (Some q = Some p)) as [|Hne]; [done|]. f_equal. f_equal.
  apply lookup_insert_ne. congruence.
Qed.

(** A set with another proposer. *)
Definition with_proposer (pr : option Default.defaultValidator) (vs : Default.defaultValidatorSet)
    : Default.defaultValidatorSet :=
  Default.mkSet (Default.policy vs) pr (Default.validators vs) (Default.selector vs).

Lemma with_proposer_id vs : with_proposer (Default.proposer vs) vs = vs.
Proof. by destruct vs. Qed.

(** The sets behind [B] are the sets in force; each of them is [vs] with
    whatever proposer the core has computed in it. *)
Definition bases (B : gset nat) (vs : Default.defaultValidatorSet) (h : heap) : Prop :=
  forall p, p ∈ B ->
    (exists pr, hp_sets h !! p = Some (with_proposer pr vs)) /\ (p < hp_next h)%nat.

Lemma bases_get B vs h p : bases B vs h -> p ∈ B ->
  exists pr, heap_get h (Some p) = Ret (with_proposer pr vs).
Proof.
  intros HB Hp. destruct (HB p Hp) as [[pr E] _]. exists pr.
  unfold heap_get, mbind, outcome_bind; simpl. by rewrite E.
Qed.

(** [CalcProposer] on a set, in place: what the core does to the set that
    [Validators] gave it. *)
Definition heap_CalcProposer (q : nat) (last : string) (round : Z) (h : heap) : heap :=
  mkHeap (alter (fun vs => Default.CalcProposer vs last round) q (hp_sets h)) (hp_next h).

Lemma bases_CalcProposer B vs h q last round :
  bases B vs h -> bases B vs (heap_CalcProposer q last round h).
Proof.
  intros HB p Hp. destruct (HB p Hp) as [[pr E] Hlt]. split; [|done].
  unfold heap_CalcProposer; simpl. destruct (decide (p = q)) as [->|Hne].
  - rewrite lookup_alter_eq, E. by eexists.
  - rewrite lookup_alter_ne by done. by exists pr.
Qed.

(** [s] uses a set in force, or lost it to the database, and its votes
    either work on another set or are those of a new snapshot. *)
Definition frozen (B : gset nat) (h : heap) s : Prop :=
  (forall p, sn_ValSet s = Some p -> p ∈ B) /\
  ((exists p ms, p ∈ B /\ sn_vote s = newVoteSnapshot (Some p) ms) \/
   (exists q, ValSet (sn_vote s) = Some q /\ (q ∉ B) /\ (q < hp_next h)%nat)).

Lemma frozen_mono B h h' s : frozen B h s -> (hp_next h <= hp_next h')%nat -> frozen B h' s.
Proof.
  intros [E [Hv|(q & Hq & Hne & Hqn)]] Hle; (split; [done|]); [by left|].
  right. exists q. repeat split; [done..|lia].
Qed.

Lemma bases_fresh B vs h q vs' : bases B vs h -> (q ∉ B) -> (q <= hp_next h)%nat ->
  bases B vs (mkHeap (<[q := vs']> (hp_sets h)) (S (hp_next h))).
Proof.
  intros HB Hq Hle p Hp. destruct (HB p Hp) as [E Hlt]. simpl.
  rewrite lookup_insert_ne by congruence. split; [done|lia].
Qed.

Lemma bases_next B vs h : bases B vs h -> hp_next h ∉ B.
Proof. intros HB Hin. destruct (HB _ Hin). lia. Qed.

Definition frozen_st B vs (st : @SState PF Address _ _) : Prop :=
  bases B vs (sheap st) /\ frozen B (sheap st) (ssnap st).

(** A vote keeps a frozen snapshot frozen, and allocates nothing. *)
Lemma frozen_votes B vs st (m : prog VState unit) st' :
  (exists o, m = applyMVotes o) \/ (exists o, m = applyVVotes o) ->
  frozen_st B vs st -> on_votes m st = Ret (tt, st') ->
  frozen_st B vs st' /\ hp_next (sheap st') = hp_next (sheap st).
Proof.
  intros Hm (HB & Hp & Hv) E. unfold on_votes, mbind, outcome_bind in E.
  destruct (m _) as [[[] [s' h']]|] eqn:Em; [|done]. injection E as <-.
  destruct Hv as [(p & ms & Hpb & Hv)|(q & Hq & Hne & Hqn)].
  - assert (s' = newVoteSnapshot (Some p) ms /\ h' = sheap st) as [-> ->].
    { rewrite Hv in Em. cbn [vsnap] in Em.
      destruct (bases_get _ _ _ _ HB Hpb) as [pr Eg].
      destruct Hm as [[[v|] ->]|[[v|] ->]]; [| |rewrite (applyVVotes_new _ _ _ _ _ Eg) in Em|];
        [rewrite applyMVotes_new in Em| | |];
        repeat case_match; try done; by inversion Em. }
    split; [|done]. split; [done|]. split; [done|]. left. by exists p, ms.
  - assert (Ho : forall p, observe_set p (mkVState s' h') =
                 observe_set p (mkVState (sn_vote (ssnap st)) (sheap st))).
    { intros p. destruct Hm as [[o ->]|[o ->]].
      - by eapply (proj1 (keeps_observe_set p o None)).
      - by eapply (proj2 (keeps_observe_set p None o)). }
    unfold observe_set, other_set in Ho; simpl in Ho.
    pose proof (Ho 0%nat) as Ho0. injection Ho0 as E1 E2 _. rewrite Hq in E1.
    split; [|done]. split; simpl.
    + intros p Hpb. specialize (Ho p). injection Ho as _ _ E3. rewrite E1, Hq in E3.
      rewrite !decide_False in E3 by congruence. injection E3 as E3. rewrite E3, E2. by apply HB.
    + split; [done|]. right. exists q. simpl. rewrite E2. done.
Qed.

Lemma frozen_apply_headers B vs headers snap st r st' :
  frozen_st B vs st -> apply_headers headers snap st = Ret (r, st') ->
  frozen_st B vs st' /\ hp_next (sheap st') = hp_next (sheap st).
Proof.
  revert snap st. induction headers as [|hd hs IH]; intros snap st Hf; [by intros [= _ <-]|].
  cbn [apply_headers]. unfold mbind at 1, prog_bind at 1, modify at 1. set (st1 := mkSState _ _).
  assert (Hf1 : frozen_st B vs st1).
  { unfold st1, frozen_st in *; simpl. by destruct (_ =? 0). }
  unfold mbind at 1, prog_bind at 1, gets at 1.
  destruct (FromConsensus _) as [e|data]; [by intros [= _ <-]|].
  unfold mbind at 1, prog_bind at 1. destruct (on_votes _ st1) as [[[] st2]|] eqn:E1; [|done].
  eapply frozen_votes in E1 as [Hf2 En2]; [|by eauto|done].
  unfold mbind at 1, prog_bind at 1. destruct (on_votes _ st2) as [[[] st3]|] eqn:E2; [|done].
  eapply frozen_votes in E2 as [Hf3 En3]; [|by eauto|done].
  intros E. eapply IH in E as [Hf4 En4]; [|done]. split; [done|]. by rewrite En4, En3, En2.
Qed.

Lemma frozen_Apply B vs headers st r st' :
  frozen_st B vs st -> Apply headers st = Ret (r, st') ->
  frozen_st B vs st' /\ (hp_next (sheap st) <= hp_next (sheap st'))%nat /\
  forall snap, r = inr (Some snap) -> frozen B (sheap st') snap.
Proof.
  intros Hf. destruct (last headers) as [hl|] eqn:El.
  2:{ apply last_None in El as ->. intros [= <- <-]. split; [done|]. split; [lia|done]. }
  destruct (extends (sn_Height (ssnap st)) headers) eqn:He.
  - rewrite (Apply_run _ hl) by done. destruct (heap_get _ _) as [vs0|]; [|done].
    set (st0 := mkSState (ssnap st) _). destruct Hf as (HB & Hs).
    assert (Hf0 : frozen_st B vs st0).
    { split; [apply bases_fresh; [done|by eapply bases_next|done]|].
      eapply frozen_mono; [done|]. simpl. lia. }
    destruct (apply_headers _ _ _) as [[[e|snap'] st2]|] eqn:E; [| |done]; intros [= <- <-];
      pose proof E as E'; eapply frozen_apply_headers in E as [Hf2 En]; try done;
      cbn in En; (split; [done|]); (split; [lia|]); [done|].
    intros snap [= <-]. apply apply_headers_result in E'.
    split.
    { intros p Hp. apply (proj1 Hs). rewrite <- Hp. subst snap'. by destruct (checkpoint _ _). }
    right. exists (hp_next (sheap st)). split; [by subst snap'; destruct (checkpoint _ _)|].
    split; [by eapply bases_next|lia].
  - rewrite Apply_refused; [|by intros ->|done].
    intros [= <- <-]. split; [done|]. split; [lia|done].
Qed.

(** The snapshots of a node and the validator sets they share. A step
    applies headers to one of them, and a new snapshot joins the others; or
    the core computes a proposer in one of the sets. *)
Definition Snapshots : Type := list (@Snapshot PF Address _ _) * heap.

Inductive node_step : Snapshots -> Snapshots -> Prop :=
| step_propose snaps h q last round :
    node_step (snaps, h) (snaps, heap_CalcProposer q last round h)
| step_apply snaps h i s headers r st' :
    snaps !! i = Some s -> Apply headers (mkSState s h) = Ret (r, st') ->
    node_step (snaps, h)
      (<[i := ssnap st']> snaps ++ match r with inr (Some snap) => [snap] | _ => [] end,
       sheap st').

Definition all_frozen B vs (p : nat) (n : Snapshots) : Prop :=
  bases B vs n.2 /\ forall s, s ∈ n.1 -> frozen B n.2 s /\ sn_ValSet s = Some p.

Lemma node_step_frozen B vs p n n' : node_step n n' -> all_frozen B vs p n -> all_frozen B vs p n'.
Proof.
  intros [snaps h q last round|snaps h i s headers r st' Hi E] [HB Hf]; simpl in *.
  { split; [by apply bases_CalcProposer|]. intros s Hs. destruct (Hf s Hs). split; [|done].
    by eapply frozen_mono. }
  assert (Hs : s ∈ snaps) by by eapply list_elem_of_lookup_2.
  destruct (Hf s Hs) as [Hfs Hps].
  pose proof (Apply_fields _ _ _ _ E) as (Hp1 & _ & Hp2). injection Hp1 as _ _ _ Hp1.
  simpl in Hp1, Hp2.
  eapply frozen_Apply in E as ([HB' Hf'] & Hle & Hres); [|by split].
  split; [done|]. intros s0 [Hin|Hin]%elem_of_app.
  - apply list_elem_of_lookup in Hin as [j Hj]. destruct (decide (j = i)) as [->|Hji].
    + rewrite list_lookup_insert_eq in Hj by by eapply lookup_lt_Some.
      injection Hj as <-. split; [done|congruence].
    + rewrite list_lookup_insert_ne in Hj by done.
      destruct (Hf s0) as [Hf0 Hp0]; [by eapply list_elem_of_lookup_2|].
      split; [by eapply frozen_mono|done].
  - destruct r as [e|[snap|]]; [set_solver| |set_solver].
    apply list_elem_of_singleton in Hin as ->. split; [by apply Hres|].
    rewrite (proj1 (Hp2 snap eq_refl)). done.
Qed.

(** C9. Votes on validators are without effect: whatever headers a node
    applies to the genesis snapshot and to the snapshots made from it, and
    whatever proposers its core computes in their sets, each of them uses
    the validators of genesis. *)
Theorem genesis_validators_forever epoch height hash p vs ms h snaps h' :
  hp_sets h !! p = Some vs -> (p < hp_next h)%nat ->
  rtc node_step ([newSnapshot epoch height hash (Some p) ms], h) (snaps, h') ->
  forall s, s ∈ snaps -> exists pr, heap_get h' (sn_ValSet s) = Ret (with_proposer pr vs).
Proof.
  intros Hvs Hlt Hr.
  assert (Hinv : all_frozen {[p]} vs p (snaps, h')).
  { revert Hr. apply rtc_ind_r with (P := fun n => all_frozen {[p]} vs p n).
    - split; simpl.
      + intros q ->%elem_of_singleton. split; [|done]. exists (Default.proposer vs).
        by rewrite with_proposer_id.
      + intros s ->%list_elem_of_singleton. split; [|done]. split.
        * intros q [= <-]. set_solver.
        * left. exists p, ms. set_solver.
    - intros n n' _ Hs. by apply node_step_frozen. }
  intros s Hs. destruct Hinv as [HB Hf]. destruct (Hf s Hs) as [_ ->].
  eapply bases_get; [exact HB|set_solver].
Qed.

(** ** Storage *)

(** The votes, with nil for empty tallies. *)
Definition without_empty (v : @voteSnapshot Address _ _) : voteSnapshot :=
  set_vTally (omitempty_map (vTally v)) (set_mTally (omitempty_map (mTally v)) v).

Lemma fromJSONStruct_toJSONStruct h h0 vs (v : @voteSnapshot Address _ _) j :
  heap_get h (ValSet v) = Ret vs -> Default.wf vs -> toJSONStruct h v = Ret j ->
  fromJSONStruct h0 (json_fields j) =
    (set_ValSet (Some (hp_next h0)) (without_empty v), (heap_alloc h0 (Default.Copy vs)).2).
Proof.
  unfold toJSONStruct. intros -> Hw. cbn. intros [= <-]. unfold fromJSONStruct; cbn.
  assert (E : voteSnapshot_validators vs = Default.id <$> Default.validators vs).
  { unfold voteSnapshot_validators, Default.List.
    apply (StronglySorted_unique String.le); [by apply exchange_sort_spec|by apply ids_sorted|].
    by apply exchange_sort_spec. }
  by rewrite E.
Qed.

Lemma Store_loadSnapshot_lemma `{!ChainLaws} h s vs db db' epoch h0 :
  heap_get h (ValSet (sn_vote s)) = Ret vs -> Default.wf vs ->
  (forall j, toJSONStruct h (sn_vote s) = Ret j -> json_text j = true) ->
  Store h s db = Ret (None, db') ->
  loadSnapshot epoch db' (sn_Hash s) h0 =
    inr (mkSnapshot None epoch (sn_Height s) (sn_Hash s)
           (set_ValSet (Some (hp_next h0)) (without_empty (sn_vote s))) None,
         (heap_alloc h0 (Default.Copy vs)).2).
Proof.
  intros Hg Hw Htext. unfold Store, Snapshot_toJSONStruct.
  destruct (toJSONStruct h (sn_vote s)) as [j|] eqn:Ej; [|done]. cbn.
  destruct (json_Marshal _) as [e|blob] eqn:Em; [done|]. destruct (sn_log s); [|done].
  cbn. intros [= Ep]. unfold loadSnapshot. rewrite (db_Get_Put _ _ _ _ Ep).
  apply json_roundtrip in Em; [|by apply Htext]. unfold Snapshot_UnmarshalJSON. rewrite Em.
  cbn [j_VoteManager written]. by rewrite (fromJSONStruct_toJSONStruct h h0 vs _ j Hg Hw Ej).
Qed.

(** C34. A stored snapshot can be read back in any heap, if its strings are
    text: the votes, managers, tallies, height and hash are those stored, the
    votes' validator set is a copy of the old one. The epoch is the one asked
    for. What is lost: an empty tally comes back as a nil map, on which the
    next vote panics ([loaded_vote_panics]), and the validator set in force
    and the logger are nil, so that a lookup in the set and storing a
    snapshot made from it panic. *)
Theorem Store_loadSnapshot `{!ChainLaws} h s vs db db' epoch h0 :
  heap_get h (ValSet (sn_vote s)) = Ret vs -> Default.wf vs ->
  (forall j, toJSONStruct h (sn_vote s) = Ret j -> json_text j = true) ->
  Store h s db = Ret (None, db') ->
  loadSnapshot epoch db' (sn_Hash s) h0 =
    inr (mkSnapshot None epoch (sn_Height s) (sn_Hash s)
           (set_ValSet (Some (hp_next h0)) (without_empty (sn_vote s))) None,
         (heap_alloc h0 (Default.Copy vs)).2).
Proof. apply Store_loadSnapshot_lemma. Qed.

(** Without a map for the tallies the first header with a manager's vote
    panics. *)
Lemma apply_headers_nil header hs snap st data v :
  FromConsensus (hd_Consensus header) = inr data -> MVote data = Some v ->
  mTally (sn_vote (ssnap st)) = None ->
  checkMVote (sn_vote (ssnap st)) (mv_Candidate v) (mv_Authorize v) = true ->
  apply_headers (header :: hs) snap st = Panic.
Proof.
  intros Hd Hv Ht Hc. cbn [apply_headers]. rewrite Hd, Hv.
  unfold mbind, prog_bind, modify, gets, on_votes. cbn [ssnap sheap]. unfold outcome_bind.
  rewrite applyMVotes_nil; [done|..]; cbn [vsnap]; by destruct (Epoch (ssnap st) =? 0).
Qed.

(** C35. A node that goes on from a snapshot it stored cannot apply the votes
    that it could apply to the snapshot itself: with no manager's vote being
    counted (as after every checkpoint), the next header with a vote that can
    be counted panics on the snapshot read from the database, while the
    snapshot that was stored takes it (if no vote on validators comes with
    it). *)
Theorem loaded_vote_panics `{!ChainLaws} h s vs db db' epoch h0 snap h1 header data v :
  heap_get h (ValSet (sn_vote s)) = Ret vs -> Default.wf vs ->
  (forall j, toJSONStruct h (sn_vote s) = Ret j -> json_text j = true) ->
  Store h s db = Ret (None, db') -> loadSnapshot epoch db' (sn_Hash s) h0 = inr (snap, h1) ->
  m_ok (sn_vote s) -> mTally (sn_vote s) = Some ∅ ->
  hd_Height header = u64 (sn_Height s + 1) ->
  FromConsensus (hd_Consensus header) = inr data -> VVote data = None -> MVote data = Some v ->
  checkMVote (sn_vote s) (mv_Candidate v) (mv_Authorize v) = true ->
  Apply [header] (mkSState snap h1) = Panic /\
  exists r st, Apply [header] (mkSState s h) = Ret (inr (Some r), st).
Proof.
  intros Hg Hw Htext Hst Hl Hok Ht Hh Hd Hvv Hmv Hc.
  assert (He : extends (sn_Height s) [header] = true) by (unfold extends; simpl; rewrite Hh; by rewrite Z.eqb_refl).
  rewrite (Store_loadSnapshot_lemma h s vs db db' epoch h0 Hg Hw Htext Hst) in Hl.
  assert (Hget : heap_get (heap_alloc h0 (Default.Copy vs)).2 (Some (hp_next h0)) = Ret (Default.Copy vs)).
  { unfold heap_get, mbind, outcome_bind. cbn. by rewrite lookup_insert_eq. }
  revert Hl Hget. generalize (heap_alloc h0 (Default.Copy vs)).2. intros h2 [= <- <-] Hget. split.
  - rewrite (Apply_run [header] header) by done. cbn [ssnap sheap sn_vote ValSet set_ValSet].
    rewrite Hget, (apply_headers_nil header [] _ _ data v Hd Hmv); [done| |exact Hc].
    cbn. by rewrite Ht.
  - rewrite (Apply_run [header] header) by done. cbn [ssnap sheap]. rewrite Hg.
    destruct (apply_headers_returns [header] (the_copy s (hp_next h))
      (mkSState s (heap_alloc h (Default.Copy vs)).2)) as (snap' & st' & ->); [done| |by eexists _, _].
    repeat constructor. by exists data.
Qed.

(** What a snapshot read from the database cannot do: its validators
    cannot be looked up, and the snapshots [Apply] makes from it cannot be
    stored unless their encoding fails. *)
Theorem loadSnapshot_unusable epoch db hash h snap h' :
  loadSnapshot epoch db hash h = inr (snap, h') ->
  heap_get h' (sn_ValSet snap) = Panic /\
  forall headers r st', Apply headers (mkSState snap h') = Ret (r, st') ->
    match r with
    | inr (Some snap') => heap_get (sheap st') (sn_ValSet snap') = Panic /\
        forall db db', Store (sheap st') snap' db <> Ret (None, db')
    | _ => True
    end.
Proof.
  unfold loadSnapshot, Snapshot_UnmarshalJSON. destruct (db_Get _ _) as [e|blob]; [done|].
  destruct (json_Unmarshal blob) as [e|j]; [done|].
  destruct (fromJSONStruct h (j_VoteManager j)) as [v h1]. intros [= <- <-]. split; [done|].
  intros headers r st' E. set (snap := set_Epoch _ _) in *.
  destruct (last headers) as [hl|] eqn:El; [|by apply last_None in El as ->; injection E as <- _].
  destruct (extends (sn_Height snap) headers) eqn:He.
  2:{ rewrite Apply_refused in E; [by injection E as <- _|by intros ->|done]. }
  rewrite (Apply_run _ hl) in E by done. destruct (heap_get _ _) as [vs|]; [|done].
  destruct (apply_headers _ _ _) as [[[e|snap'] st2]|] eqn:Ea; [| |done];
    injection E as <- <-; [done|]. apply apply_headers_result in Ea.
  assert (sn_ValSet snap' = None /\ sn_log snap' = None) as [-> Hlog].
  { subst snap'. by destruct (checkpoint _ _). }
  split; [done|]. intros db1 db2. unfold Store, Snapshot_toJSONStruct. cbn [sn_log sn_vote].
  destruct (toJSONStruct _ _) as [j'|]; [|done]. cbn. rewrite Hlog.
  by destruct (json_Marshal _).
Qed.
End SnapshotLaws.
