(* ===== verification/Engine.v ===== *)
(** * Engine: snapshots at a block and the verification of headers

    Models the part of [engine.go] that a node runs on headers: the search
    for the snapshot of a block ([snapshot]), the checks of a header
    ([VerifyHeader] and what it calls), [ecrecover] of [pbft.go] and
    [GetSignatureValidator] of [protocol/util.go].

    Headers, blocks, signatures and the node key belong to other modules
    (class [EngineI]); the ARC caches are those of [Interfaces].  The state of
    the engine is a record [EState]: a snapshot in use is an object behind a
    reference, because the cache hands out snapshots that [Apply] changes.
    The block reader and the clock are arguments of an operation. *)

From S2P Require Import Prelude Types Interfaces ValidatorSet Votes Snapshot.

Section Engine.
Context `{PF : Platform} {Address : Type} `{Countable Address} {CH : @Chain PF Address _ _}.

(** What the code uses of headers, blocks and signatures. *)
Class EngineI := {
  hd_Timestamp : Header -> Z;
  hd_ParentHash : Header -> Hash;
  hd_HashNoSign : Header -> Hash;
  hd_Signature : Header -> option SignResult;
  hd_set_Consensus : option (string * string) -> Header -> Header;
  hd_set_Timestamp : Z -> Header -> Header;
  hd_set_Signature : option SignResult -> Header -> Header;
  Serialize : @ConsensusData PF Address -> engine_error + string;
  Block : Type;
  bk_Header : Block -> Header;
  bk_Hash : Block -> Hash;
  bk_WithSeal : Block -> Header -> Block;
  (** [nodeKey.RecoverId] with the id as a string, [nodeKey.RecoverPub],
      [PubkeyToAddress], [nodeKey.Sign] and [SignResult.Deserialize] *)
  RecoverId : string -> option SignResult -> engine_error + string;
  PubKey : Type;
  RecoverPub : string -> SignResult -> engine_error + PubKey;
  PubkeyToAddress : PubKey -> engine_error + Address;
  nodeKey_Sign : string -> engine_error + option SignResult;
  sig_Deserialize : string -> engine_error + SignResult;
  (** the encodings of ["propose"], a candidate, the authorization and the
      deadline, whose error the code ignores *)
  encode_propose_manager : Address -> bool -> option Z -> string;
  encode_propose_validator : string -> bool -> option Z -> string;
  ECache : Type -> Type -> Type;
  engine_cache :: CacheI ECache;
}.

(** The chain configuration and [PBFTConfig]. *)
Class EngineConfig := {
  GenesisHeight : Z;
  cfg_Epoch : Z;
  BlockPeriod : Z;
  cfg_ProposerPolicy : ProposerPolicy;
  cfg_Managers : list Address;
  cfg_Validators : list string;
  nodeId : string;
}.

Context {EI : EngineI} {CFG : EngineConfig}.

(** [protocol.BlockReader] at the time of a call. *)
Record BlockReader := mkReader {
  GetHeader : Hash -> Z -> option Header;
  GetHeaderByNumber : Z -> option Header;
  CurrentBlock : Block;
}.

Definition checkpointInterval : Z := 1024.
Definition faultTolerantTime : Z := 5 * 1000.

(** ** The state of the engine *)

Record EState := mkEState {
  es_snaps : gmap nat (@Snapshot PF Address _ _);
  es_next : nat;
  es_heap : heap;
  es_db : Database;
  recentSnapshotCache : ECache Hash nat;
  recentValidatorCache : ECache Hash string;
  voteManager : @manager Address _ _;
  proposedBlockHash : Hash;
}.

Definition set_snaps f n h st := mkEState (f (es_snaps st)) n h (es_db st)
  (recentSnapshotCache st) (recentValidatorCache st) (voteManager st) (proposedBlockHash st).
Definition set_db db st := mkEState (es_snaps st) (es_next st) (es_heap st) db
  (recentSnapshotCache st) (recentValidatorCache st) (voteManager st) (proposedBlockHash st).
Definition set_snapCache c st := mkEState (es_snaps st) (es_next st) (es_heap st) (es_db st)
  c (recentValidatorCache st) (voteManager st) (proposedBlockHash st).
Definition set_valCache c st := mkEState (es_snaps st) (es_next st) (es_heap st) (es_db st)
  (recentSnapshotCache st) c (voteManager st) (proposedBlockHash st).
Definition set_voteManager v st := mkEState (es_snaps st) (es_next st) (es_heap st) (es_db st)
  (recentSnapshotCache st) (recentValidatorCache st) v (proposedBlockHash st).
Definition set_proposed b st := mkEState (es_snaps st) (es_next st) (es_heap st) (es_db st)
  (recentSnapshotCache st) (recentValidatorCache st) (voteManager st) b.

(** The snapshot behind a reference. *)
Definition load_snap (p : nat) : prog EState Snapshot :=
  st ← get_state; load (es_snaps st !! p).

Definition new_snap (s : Snapshot) (h : heap) : prog EState nat :=
  st ← get_state;
  modify (set_snaps (<[es_next st := s]>) (S (es_next st)) h);;
  mret (es_next st).

(** A method of the snapshot behind [p]. *)
Definition with_snap {A} (p : nat) (m : prog SState A) : prog EState A :=
  s ← load_snap p;
  st ← get_state;
  r ← lift (m (mkSState s (es_heap st)));
  modify (set_snaps (<[p := ssnap r.2]>) (es_next st) (sheap r.2));;
  mret r.1.

(** [snap.Store(b.db)] *)
Definition store_snap (s : Snapshot) : prog EState (option engine_error) :=
  st ← get_state;
  r ← lift (Store (es_heap st) s (es_db st));
  modify (set_db r.2);;
  mret r.1.

Definition snap_cache_Get (hash : Hash) : prog EState (option nat) :=
  st ← get_state;
  let r := cache_Get (recentSnapshotCache st) hash in
  modify (set_snapCache r.2);;
  mret r.1.

Definition snap_cache_Add (hash : Hash) (p : nat) : prog EState unit :=
  modify (fun st => set_snapCache (cache_Add (recentSnapshotCache st) hash p) st).

(** ** The snapshot of a block *)

(** Reading a snapshot from disk; an error is dropped. *)
Definition from_disk (height : Z) (hash : Hash) : prog EState (option nat) :=
  if height mod checkpointInterval =? 0 then
    st ← get_state;
    match loadSnapshot cfg_Epoch (es_db st) hash (es_heap st) with
    | inl _ => mret None
    | inr (s, h') => p ← new_snap s h'; mret (Some p)
    end
  else mret None.

(** The genesis branch; [verify] is [VerifyHeader]. *)
Definition from_genesis (verify : Header -> prog EState (option engine_error))
    (br : BlockReader) : prog EState (engine_error + nat) :=
  genesis ← load (GetHeaderByNumber br GenesisHeight);
  e ← verify genesis;
  if bool_decide (e <> None /\ e <> Some errBlockIsGenesis)
  then mret (inl (default errBlockIsGenesis e))
  else
    st ← get_state;
    let '(p, h') := heap_alloc (es_heap st)
                      (Default.newDefaultSet cfg_Validators cfg_ProposerPolicy) in
    let s := newSnapshot cfg_Epoch GenesisHeight (hd_Hash genesis) (Some p) cfg_Managers in
    q ← new_snap s h';
    e ← store_snap s;
    match e with Some e => mret (inl e) | None => mret (inr q) end.

(** The header at [height] with [hash]: from the explicit parents, else from
    the chain; with the parents that remain. *)
Definition next_header (br : BlockReader) (height : Z) (hash : Hash) (parents : list Header)
    : option (Header * list Header) :=
  match last parents with
  | Some header =>
      if bool_decide (hd_Hash header <> hash) || negb (hd_Height header =? height) then None
      else Some (header, take (length parents - 1) parents)
  | None => header ← GetHeader br hash height; Some (header, [])
  end.

(** The search loop: a snapshot and the headers on top of it, latest first.
    [None]: out of fuel. *)
Fixpoint search (verify : Header -> prog EState (option engine_error)) (br : BlockReader)
    (n : nat) (height : Z) (hash : Hash) (parents headers : list Header)
    : prog EState (option (engine_error + (nat * list Header))) :=
  match n with
  | O => mret None
  | S n' =>
      hit ← snap_cache_Get hash;
      match hit with
      | Some p => mret (Some (inr (p, headers)))
      | None =>
          found ← from_disk height hash;
          match found with
          | Some p => mret (Some (inr (p, headers)))
          | None =>
              if height <? GenesisHeight then mret (Some (inl errBlockSmall))
              else if height =? GenesisHeight then
                r ← from_genesis verify br;
                match r with
                | inl e => mret (Some (inl e))
                | inr p => mret (Some (inr (p, headers)))
                end
              else
                match next_header br height hash parents with
                | None => mret (Some (inl (errProtocol ErrUnknownAncestor)))
                | Some (header, parents') =>
                    search verify br n' (u64 (height - 1)) (hd_ParentHash header) parents'
                      (headers ++ [header])
                end
          end
      end
  end.

(** Heights from [height] down to genesis. *)
Definition search_fuel (height : Z) : nat := S (Z.to_nat (height - GenesisHeight)).

Definition snapshot_with (verify : Header -> prog EState (option engine_error))
    (br : BlockReader) (height : Z) (hash : Hash) (parents : list Header)
    : prog EState (engine_error + nat) :=
  r ← search verify br (search_fuel height) height hash parents [];
  match r with
  | None => lift Panic
  | Some (inl e) => mret (inl e)
  | Some (inr (p, headers)) =>
      res ← with_snap p (Apply (reverse headers));
      match res with
      | inl e => mret (inl e)
      | inr o =>
          st ← get_state;
          q ← match o with None => mret p | Some s => new_snap s (es_heap st) end;
          snap ← load_snap q;
          snap_cache_Add (sn_Hash snap) q;;
          if (sn_Height snap mod checkpointInterval =? 0) && (0 <? Z.of_nat (length headers)) then
            e ← store_snap snap;
            match e with Some e => mret (inl e) | None => mret (inr q) end
          else mret (inr q)
      end
  end.
End Engine.
