(* ===== verification/Verification.v ===== *)
(** * Verification: the checks of a header

    The second part of [engine.go] on headers: [verifyHeader] and the checks it
    calls, with the recursion between them and [snapshot] (which verifies
    the genesis header) bounded by a depth. *)

From S2P Require Import Prelude Types Interfaces ValidatorSet Votes Snapshot Engine.

Section Verification.
Context `{PF : Platform} {Address : Type} `{Countable Address} {CH : @Chain PF Address _ _}.
Context {EI : EngineI} {CFG : @EngineConfig Address}.
Abbreviation M := (prog (@EState PF Address _ _ CH EI)).

(** [GetSignatureValidator] *)
Definition GetSignatureValidator (data : string) (sig : option SignResult)
    : string * option engine_error :=
  match RecoverId data sig with
  | inl e => (""%string, Some e)
  | inr id => (id, None)
  end.

(** [ecrecover]: the signer of a header, remembered in a cache. *)
Definition ecrecover (h : Header) : M (string * option engine_error) :=
  let hash := hd_HashNoSign h in
  st ← get_state;
  let r := cache_Get (recentValidatorCache st) hash in
  modify (set_valCache r.2);;
  match r.1 with
  | Some id => mret (id, None)
  | None =>
      match GetSignatureValidator (Hash_Bytes hash) (hd_Signature h) with
      | (peerId, Some e) => mret (peerId, Some e)
      | (peerId, None) =>
          modify (fun st => set_valCache (cache_Add (recentValidatorCache st) hash peerId) st);;
          mret (peerId, None)
      end
  end.

Definition ecrecoverVote (data : string) (sig : SignResult) : engine_error + Address :=
  match RecoverPub data sig with
  | inl e => inl e
  | inr pub => PubkeyToAddress pub
  end.

(** The signature of a vote on [data] by [manager]. *)
Definition check_vote (data sig : string) (manager : Address) : option engine_error :=
  match sig_Deserialize sig with
  | inl e => Some e
  | inr signResult =>
      match ecrecoverVote data signResult with
      | inl e => Some e
      | inr addr => if bool_decide (addr <> manager) then Some errInvalidSignature else None
      end
  end.

Definition check_MVote (v : @ManagementVote Address) : option engine_error :=
  check_vote (encode_propose_manager (mv_Candidate v) (mv_Authorize v) (mv_DeadlineHeight v))
    (mv_Signature v) (mv_Manager v).
Definition check_VVote (v : @ValidatorVote Address) : option engine_error :=
  check_vote (encode_propose_validator (vv_Validator v) (vv_Authorize v) (vv_DeadlineHeight v))
    (vv_Signature v) (vv_Manager v).

(** The loop over the committed seals: each signer is taken out of
    [validators]; the result is the number of seals. *)
Fixpoint count_seals (data : string) (validators : Default.defaultValidatorSet)
    (seals : list (option SignResult)) (validSeal : Z) : engine_error + Z :=
  match seals with
  | [] => inr validSeal
  | seal :: seals' =>
      match GetSignatureValidator data seal with
      | (_, Some _) => inl errInvalidSignature
      | (id, None) =>
          let '(removed, validators') := Default.RemoveValidator validators id in
          if (removed : bool) then count_seals data validators' seals' (validSeal + 1)
          else inl errInvalidCommittedSeals
      end
  end.

(** The seals of a block with hash [hash] against the validators [vs]. *)
Definition check_seals (vs : Default.defaultValidatorSet) (hash : Hash) (seals : list (option SignResult))
    : option engine_error :=
  match count_seals (PrepareCommittedSeal hash) (Default.Copy vs) seals 0 with
  | inl e => Some e
  | inr validSeal =>
      if validSeal <=? 2 * Default.FaultTolerantNum vs then Some errInvalidCommittedSeals else None
  end.

(** [snap.ValSet] of the snapshot behind [q]. *)
Definition snap_ValSet (q : nat) : M Default.defaultValidatorSet :=
  s ← load_snap q;
  st ← get_state;
  lift (heap_get (es_heap st) (sn_ValSet s)).

Section With_snapshot.
(** [b.snapshot] *)
Context (snapshot : Z -> Hash -> list Header -> M (engine_error + nat)).
Context (br : BlockReader).

Definition verifySigner (header : Header) (parents : list Header) : M (option engine_error) :=
  let height := hd_Height header in
  if height =? GenesisHeight then mret (Some errUnknownBlock)
  else
    snap ← snapshot (u64 (height - 1)) (hd_ParentHash header) parents;
    match snap with
    | inl e => mret (Some e)
    | inr q =>
        r ← ecrecover header;
        match r with
        | (_, Some e) => mret (Some e)
        | (signer, None) =>
            vs ← snap_ValSet q;
            match (Default.GetById vs signer).2 with
            | None => mret (Some (errProtocol ErrUnauthorized))
            | Some _ => mret None
            end
        end
    end.

Definition verifyCommittedSeals (header : Header) (parents : list Header)
    : M (option engine_error) :=
  let height := hd_Height header in
  if height =? GenesisHeight then mret None
  else
    match FromConsensus (hd_Consensus header) with
    | inl e => mret (Some e)
    | inr data =>
        if (length (CommittedSeal data) =? 0)%nat then mret (Some errEmptyCommittedSeals)
        else
          match MVote data ≫= check_MVote, VVote data ≫= check_VVote with
          | Some e, _ | None, Some e => mret (Some e)
          | None, None =>
              snap ← snapshot (u64 (height - 1)) (hd_ParentHash header) parents;
              match snap with
              | inl e => mret (Some e)
              | inr q =>
                  vs ← snap_ValSet q;
                  mret (check_seals vs (hd_Hash header) (CommittedSeal data))
              end
          end
    end.

Definition verifyCascadingFields (header : Header) (parents : list Header)
    : M (option engine_error) :=
  let height := hd_Height header in
  if height =? GenesisHeight then mret None
  else
    let parent := match last parents with
                  | Some p => Some p
                  | None => GetHeader br (hd_ParentHash header) (u64 (height - 1))
                  end in
    match parent with
    | None => mret (Some (errProtocol ErrUnknownAncestor))
    | Some parent =>
        if negb (hd_Height parent =? u64 (height - 1)) ||
           bool_decide (hd_Hash parent <> hd_ParentHash header)
        then mret (Some (errProtocol ErrUnknownAncestor))
        else
          let period := if BlockPeriod =? 0 then 1 else BlockPeriod in
          if hd_Timestamp header <? u64 (hd_Timestamp parent + period)
          then mret (Some errInvalidTimestamp)
          else
            e ← verifySigner header parents;
            match e with
            | Some e => mret (Some e)
            | None => verifyCommittedSeals header parents
            end
    end.

(** [now] is [dateutil.CurrentTime()], in milliseconds. *)
Definition verifyHeader (now : Z) (header : Header) (parents : list Header)
    : M (option engine_error) :=
  if hd_Height header =? GenesisHeight then mret (Some errBlockIsGenesis)
  else if u64 (i64 (now + faultTolerantTime)) <? hd_Timestamp header
  then mret (Some (errProtocol ErrFutureBlock))
  else
    match FromConsensus (hd_Consensus header) with
    | inl e => mret (Some e)
    | inr _ => verifyCascadingFields header parents
    end.
End With_snapshot.

(** [snapshot] verifies the genesis header, and the verification of a header
    asks for a snapshot: [depth] bounds the nesting. *)
Fixpoint snapshot_depth (depth : nat) (br : BlockReader) (now : Z)
    (height : Z) (hash : Hash) (parents : list Header) : M (engine_error + nat) :=
  match depth with
  | O => lift Panic
  | S d =>
      snapshot_with (fun h => verifyHeader (snapshot_depth d br now) br now h [])
        br height hash parents
  end.

Definition snapshot : BlockReader -> Z -> Z -> Hash -> list Header -> M (engine_error + nat) :=
  snapshot_depth 1.

(** [VerifyHeader] *)
Definition VerifyHeader (br : BlockReader) (now : Z) (header : Header) : M (option engine_error) :=
  verifyHeader (snapshot br now) br now header [].
End Verification.
