(* ===== verification/EngineSpec.v ===== *)
(** * EngineSpec: the snapshots of the engine

    The invariant of the engine's state ([e_ok]), that the search for a
    snapshot terminates with the fuel it is given, and what [snapshot]
    returns. *)

From S2P Require Import Prelude Types Interfaces ValidatorSet Votes Snapshot SnapshotLaws Engine Verification.

Section EngineSpec.
Context `{PF : Platform} {Address : Type} `{Countable Address} {CH : @Chain PF Address _ _}.
Context {EI : EngineI} {CFG : @EngineConfig Address}.
Abbreviation M := (prog (@EState PF Address _ _ CH EI)).
Implicit Types (st : @EState PF Address _ _ CH EI) (br : BlockReader)
  (s : @Snapshot PF Address _ _).

(** Caches forget or repeat what was put in, hashes are known by their
    bytes, and the database and JSON keep what is stored. *)
Class EngineLaws := {
  engine_cache_laws :: @CacheLaws ECache _;
  engine_chain_laws :: @ChainLaws PF Address _ _ CH;
  Hash_Bytes_inj (h h' : Hash) : Hash_Bytes h = Hash_Bytes h' -> h = h';
}.
Context {EL : EngineLaws}.

(** A block reader answers with the header asked for. *)
Definition reader_ok br : Prop :=
  (forall hash n h, GetHeader br hash n = Some h -> hd_Hash h = hash /\ hd_Height h = n) /\
  (forall n h, GetHeaderByNumber br n = Some h -> hd_Height h = n).

Definition genesis_set : Default.defaultValidatorSet :=
  Default.newDefaultSet cfg_Validators cfg_ProposerPolicy.

(** ** Termination *)

Lemma search_enough verify br n1 n2 height hash parents headers st :
  0 <= GenesisHeight -> height < 2 ^ 64 ->
  (search_fuel height <= n1)%nat -> (search_fuel height <= n2)%nat ->
  search verify br n1 height hash parents headers st =
  search verify br n2 height hash parents headers st.
Proof.
  intros Hg. revert n2 height hash parents headers st.
  induction n1 as [|n1 IH]; intros [|n2] height hash parents headers st Hh Hn1 Hn2;
    try (unfold search_fuel in *; lia).
  cbn [search]. unfold mbind, prog_bind.
  destruct (snap_cache_Get hash st) as [[[p|] st1]|]; [done| |done].
  destruct (from_disk height hash st1) as [[[p|] st2]|]; [done| |done].
  destruct (Z.ltb_spec height GenesisHeight); [done|].
  destruct (Z.eqb_spec height GenesisHeight); [done|].
  destruct (next_header br height hash parents) as [[header parents']|]; [|done].
  assert (E : u64 (height - 1) = height - 1) by (apply u64_small; unfold in_u64; lia).
  rewrite E. apply IH; unfold search_fuel in *; lia.
Qed.

Lemma search_not_None verify br n height hash parents headers st st' :
  0 <= GenesisHeight -> height < 2 ^ 64 -> (search_fuel height <= n)%nat ->
  search verify br n height hash parents headers st <> Ret (None, st').
Proof.
  intros Hg. revert height hash parents headers st.
  induction n as [|n IH]; intros height hash parents headers st Hh Hn; [unfold search_fuel in Hn; lia|].
  cbn [search]. unfold mbind, prog_bind.
  destruct (snap_cache_Get hash st) as [[[p|] st1]|]; [done| |done].
  destruct (from_disk height hash st1) as [[[p|] st2]|]; [done| |done].
  destruct (Z.ltb_spec height GenesisHeight); [done|].
  destruct (Z.eqb_spec height GenesisHeight) as [Eg|Eg].
  { destruct (from_genesis verify br st2) as [[[e|p] st3]|]; done. }
  destruct (next_header br height hash parents) as [[header parents']|]; [|done].
  assert (E : u64 (height - 1) = height - 1) by (apply u64_small; unfold in_u64; lia).
  rewrite E. apply IH; [lia|]. unfold search_fuel in *. lia.
Qed.

(** The search asks [verify] about the genesis header only. *)
Lemma search_verify_ext verify1 verify2 br n height hash parents headers st :
  (forall h st, GetHeaderByNumber br GenesisHeight = Some h -> verify1 h st = verify2 h st) ->
  search verify1 br n height hash parents headers st =
  search verify2 br n height hash parents headers st.
Proof.
  intros Hv. revert height hash parents headers st.
  induction n as [|n IH]; intros height hash parents headers st; [done|].
  cbn [search]. unfold mbind, prog_bind.
  destruct (snap_cache_Get hash st) as [[[p|] st1]|]; [done| |done].
  destruct (from_disk height hash st1) as [[[p|] st2]|]; [done| |done].
  destruct (height <? GenesisHeight); [done|].
  destruct (height =? GenesisHeight).
  - assert (E : from_genesis verify1 br st2 = from_genesis verify2 br st2); [|by rewrite E].
    unfold from_genesis, load, lift, deref, mbind, prog_bind.
    destruct (GetHeaderByNumber br GenesisHeight) as [g|] eqn:Eg; [|done]. by rewrite (Hv g).
  - destruct (next_header br height hash parents) as [[header parents']|]; [|done]. apply IH.
Qed.

(** C11. The search for a snapshot ends: at any height it takes at most one
    iteration per height above genesis, the fuel it has is never used up and
    more fuel changes nothing; and one level of nesting between [snapshot]
    and [VerifyHeader] is enough. *)
Theorem snapshot_terminates br now height hash parents st :
  0 <= GenesisHeight -> height < 2 ^ 64 -> reader_ok br ->
  (forall verify n headers, (search_fuel height <= n)%nat ->
     search verify br n height hash parents headers st =
       search verify br (search_fuel height) height hash parents headers st /\
     forall st', search verify br n height hash parents headers st <> Ret (None, st')) /\
  (forall d, snapshot_depth (S d) br now height hash parents st =
             snapshot br now height hash parents st).
Proof.
  intros Hg Hh [_ Hn]. split.
  - intros verify n headers Hle. split; [by apply search_enough|].
    intros st'. by apply search_not_None.
  - intros d. unfold snapshot. cbn [snapshot_depth]. unfold snapshot_with, mbind at 1 5, prog_bind at 1 5.
    erewrite (search_verify_ext _ (fun h => verifyHeader (snapshot_depth 0 br now) br now h []));
      [reflexivity|].
    intros h st0 Eh. unfold verifyHeader. by rewrite (Hn _ _ Eh), Z.eqb_refl.
Qed.

(** ** The invariant *)

(** Every stored snapshot is filed under its hash. *)
Definition db_ok (db : Database) : Prop :=
  forall hash b j, db_Get db (db_key hash) = inr b -> json_Unmarshal b = inr j -> j_Hash j = hash.

(** [B] are the references of the validator sets in force. *)
Definition e_ok_at (B : gset nat) st : Prop :=
  bases B genesis_set (es_heap st) /\
  (forall p s, es_snaps st !! p = Some s -> (p < es_next st)%nat /\ frozen B (es_heap st) s) /\
  (forall k p, (k, p) ∈ cache_elems (recentSnapshotCache st) ->
     exists s, es_snaps st !! p = Some s /\ sn_Hash s = k) /\
  db_ok (es_db st) /\
  (forall k i, (k, i) ∈ cache_elems (recentValidatorCache st) ->
     exists sig, RecoverId (Hash_Bytes k) sig = inr i).

Definition e_ok st : Prop := exists B, e_ok_at B st.

Lemma db_key_inj (h h' : Hash) : db_key h = db_key h' -> h = h'.
Proof. intros E. apply Hash_Bytes_inj. by apply (inj (String.app "pbft-snapshot")) in E. Qed.

Lemma Store_db_ok h s db e db' : Store h s db = Ret (e, db') -> db_ok db -> db_ok db'.
Proof.
  unfold Store, Snapshot_toJSONStruct. destruct (toJSONStruct h (sn_vote s)) as [j|]; [|done]. cbn.
  destruct (json_Marshal _) as [e'|blob] eqn:Em; [by intros [= <- <-]|].
  destruct (sn_log s); [|done]. cbn. intros [= Ep] Hdb hash b j' Hg Hu.
  destruct (decide (hash = sn_Hash s)) as [->|Hne].
  - assert (db_Get db' (db_key (sn_Hash s)) = inr blob \/
            db_Get db' (db_key (sn_Hash s)) = db_Get db (db_key (sn_Hash s))) as [E|E].
    { destruct e as [e|]; [destruct (db_Put_failed _ _ _ _ _ Ep); by auto|].
      left. by apply (db_Get_Put _ _ _ _ Ep). }
    + rewrite E in Hg. injection Hg as <-. exact (json_hash _ _ _ Em Hu).
    + rewrite E in Hg. by eapply Hdb.
  - rewrite (db_Put_other _ _ _ _ _ _ Ep) in Hg; [by eapply Hdb|].
    by intros Ek%db_key_inj.
Qed.

Lemma load_db_ok epoch db hash h s h' :
  db_ok db -> loadSnapshot epoch db hash h = inr (s, h') ->
  sn_Hash s = hash /\ sn_ValSet s = None /\
  exists q vs', ValSet (sn_vote s) = Some (hp_next h) /\ h' = (heap_alloc h vs').2 /\ q = hp_next h.
Proof.
  intros Hdb. unfold loadSnapshot, Snapshot_UnmarshalJSON.
  destruct (db_Get _ _) as [e|b] eqn:Eg; [done|].
  destruct (json_Unmarshal b) as [e|j] eqn:Ej; [done|].
  unfold fromJSONStruct; cbn. intros [= <- <-]. simpl.
  split; [by apply (Hdb _ _ _ Eg)|]. split; [done|]. by eexists _, _.
Qed.

Lemma frozen_grow B h h' s :
  frozen B h s -> (hp_next h <= hp_next h')%nat -> frozen ({[hp_next h]} ∪ B) h' s.
Proof.
  intros [E Hv] Hle. split; [set_solver|].
  destruct Hv as [(p & ms & Hp & Hv)|(q & Hq & HqB & Hqn)]; [left; exists p, ms; set_solver|].
  right. exists q. split; [done|]. split; [|lia].
  rewrite elem_of_union, elem_of_singleton. intros [->|]; [lia|done].
Qed.

(** A new snapshot object, with a heap that keeps the sets in force. *)
Lemma e_ok_new_snap B B' st s h :
  e_ok_at B st -> bases B' genesis_set h ->
  (forall s', frozen B (es_heap st) s' -> frozen B' h s') -> frozen B' h s ->
  e_ok_at B' (set_snaps (<[es_next st := s]>) (S (es_next st)) h st).
Proof.
  intros (HB & Hs & Hc & Hdb & Hv) HB' Hf Hfs. split; [done|]. split; [|split; [|done]]; simpl.
  - intros p s'. destruct (decide (p = es_next st)) as [->|Hp].
    + rewrite lookup_insert_eq. intros [= <-]. split; [lia|done].
    + rewrite lookup_insert_ne by done. intros E. destruct (Hs _ _ E). split; [lia|by apply Hf].
  - intros k p Hk. destruct (Hc _ _ Hk) as (s' & E & Hh). exists s'. split; [|done].
    rewrite lookup_insert_ne; [done|]. apply Hs in E as [Hlt _]. lia.
Qed.

(** Replacing a snapshot by one with the same hash. *)
Lemma e_ok_set_snap B st p s s' h :
  e_ok_at B st -> es_snaps st !! p = Some s -> sn_Hash s' = sn_Hash s ->
  bases B genesis_set h -> (hp_next (es_heap st) <= hp_next h)%nat -> frozen B h s' ->
  e_ok_at B (set_snaps (<[p := s']>) (es_next st) h st).
Proof.
  intros (HB & Hs & Hc & Hdb & Hv) Ep Eh HB' Hle Hfs. split; [done|]. split; [|split; [|done]]; simpl.
  - intros q s0. destruct (decide (q = p)) as [->|Hq].
    + rewrite lookup_insert_eq. intros [= <-]. split; [by apply Hs in Ep as []|done].
    + rewrite lookup_insert_ne by done. intros E. destruct (Hs _ _ E). split; [done|].
      by eapply frozen_mono.
  - intros k q Hk. destruct (Hc _ _ Hk) as (s0 & E & Hh). destruct (decide (q = p)) as [->|Hq].
    + exists s'. rewrite lookup_insert_eq. split; [done|congruence].
    + exists s0. by rewrite lookup_insert_ne.
Qed.

Lemma wlp_snap_cache_Get hash st B :
  e_ok_at B st -> wlp (snap_cache_Get hash) st (fun hit st' => e_ok_at B st' /\
    forall p, hit = Some p -> exists s, es_snaps st' !! p = Some s /\ sn_Hash s = hash).
Proof.
  intros (HB & Hs & Hc & Hdb & Hv). unfold snap_cache_Get. wlp_steps.
  destruct (cache_Get (recentSnapshotCache st) hash) as [o c] eqn:E. simpl. split.
  - split; [done|]. split; [done|]. split; [|done]. simpl. intros k p Hk. apply Hc.
    by eapply cache_Get_elems.
  - intros p ->. apply Hc. by eapply cache_Get_elem.
Qed.

Lemma wlp_store_snap s st B :
  e_ok_at B st -> wlp (store_snap s) st (fun _ st' => e_ok_at B st' /\ es_snaps st' = es_snaps st).
Proof.
  intros (HB & Hs & Hc & Hdb & Hv). unfold store_snap. wlp_steps. destruct a as [e db'].
  split; [|done]. split; [done|]. split; [done|]. split; [done|]. split; [|done]. simpl.
  by eapply Store_db_ok.
Qed.

Lemma wlp_from_disk height hash st B :
  e_ok_at B st -> wlp (from_disk height hash) st (fun found st' => e_ok_at B st' /\
    forall p, found = Some p -> exists s, es_snaps st' !! p = Some s /\ sn_Hash s = hash).
Proof.
  intros Hok. unfold from_disk. destruct (_ =? 0); [|wlp_steps; by split].
  apply wlp_bind, wlp_get_state.
  destruct (loadSnapshot _ _ _ _) as [e|[s h']] eqn:El; [wlp_steps; by split|].
  pose proof Hok as (HB & _ & _ & Hdb & _).
  destruct (load_db_ok _ _ _ _ _ _ Hdb El) as (Eh & Ev & q & vs' & Eq & -> & _).
  unfold new_snap. wlp_steps. split.
  - apply (e_ok_new_snap B); [done|by apply bases_fresh; [|eapply bases_next|]|..].
    + intros s' Hf. eapply frozen_mono; [done|]. simpl. lia.
    + split; [by rewrite Ev|]. right. exists (hp_next (es_heap st)). split; [done|].
      split; [by eapply bases_next|simpl; lia].
  - intros p [= <-]. exists s. simpl. by rewrite lookup_insert_eq.
Qed.

(** ** What [snapshot] returns *)

(** [s] is the snapshot of the block with [hash]; at the genesis height the
    code does not compare hashes. *)
Definition asked br (height : Z) (hash : Hash) s : Prop :=
  sn_Hash s = hash \/
  (height = GenesisHeight /\
   exists g, GetHeaderByNumber br GenesisHeight = Some g /\ sn_Hash s = hd_Hash g).

(** The validators [s] uses: those of genesis, unless [s] was read from disk. *)
Definition genesis_in_force st s : Prop :=
  sn_ValSet s = None \/
  exists pr, heap_get (es_heap st) (sn_ValSet s) = Ret (with_proposer pr genesis_set).

Definition genesis_refused br (verify : Header -> M (option engine_error)) : Prop :=
  forall h st, GetHeaderByNumber br GenesisHeight = Some h ->
    verify h st = Ret (Some errBlockIsGenesis, st).

Lemma wlp_from_genesis verify br st :
  genesis_refused br verify -> e_ok st ->
  wlp (from_genesis verify br) st (fun r st' => e_ok st' /\
    forall p, r = inr p -> exists s, es_snaps st' !! p = Some s /\
      asked br GenesisHeight (sn_Hash s) s /\
      exists g, GetHeaderByNumber br GenesisHeight = Some g /\ sn_Hash s = hd_Hash g).
Proof.
  intros Hv (B & Hok). pose proof Hok as (HB & _). unfold from_genesis.
  apply wlp_bind, wlp_load. intros g Eg. apply wlp_bind.
  intros e st1. rewrite (Hv _ _ Eg). intros [= <- <-]. cbn -[heap_alloc bool_decide].
  rewrite bool_decide_false by (intros [_ Hne]; by apply Hne).
  apply wlp_bind, wlp_get_state. unfold heap_alloc. fold genesis_set.
  set (h' := mkHeap _ _). set (s := newSnapshot _ _ _ _ _).
  unfold new_snap. wlp_steps. set (st1 := set_snaps _ _ _ _).
  assert (Hok1 : e_ok_at ({[hp_next (es_heap st)]} ∪ B) st1).
  { apply (e_ok_new_snap B); [done| |intros s' Hf; apply (frozen_grow _ _ _ _ Hf); simpl; lia|].
    - intros p. rewrite elem_of_union, elem_of_singleton. simpl. intros [->|Hp].
      + split; [|lia]. exists (Default.proposer genesis_set).
        by rewrite lookup_insert_eq, with_proposer_id.
      + by apply (bases_fresh B genesis_set (es_heap st) _ genesis_set HB);
          [eapply bases_next| |].
    - split; [set_solver|]. left. eexists _, _. split; [|done]. set_solver. }
  eapply wlp_mono; [by apply wlp_store_snap|]. intros e st2 [Hok2 Es].
  destruct e as [e|]; wlp_steps; (split; [by eexists|]); [done|].
  intros p [= <-]. exists s. rewrite Es. unfold st1. simpl. rewrite lookup_insert_eq.
  split; [done|]. split; [by left|]. by exists g.
Qed.

Lemma next_header_hash br height hash parents h parents' :
  reader_ok br -> next_header br height hash parents = Some (h, parents') -> hd_Hash h = hash.
Proof.
  intros [Hg _]. unfold next_header. destruct (last parents) as [p|].
  - destruct (bool_decide _ || _) eqn:E; [done|]. intros [= <- _].
    apply orb_false_iff in E as [E _]. apply bool_decide_eq_false in E.
    destruct (decide (hd_Hash p = hash)); tauto.
  - destruct (GetHeader br hash height) as [h'|] eqn:E; [|done]. intros [= <- _].
    by apply Hg in E as [].
Qed.

Lemma wlp_search verify br n height hash parents headers st :
  reader_ok br -> genesis_refused br verify -> e_ok st ->
  wlp (search verify br n height hash parents headers) st (fun r st' => e_ok st' /\
    forall p hs', r = Some (inr (p, hs')) ->
      exists hs s, hs' = headers ++ hs /\ es_snaps st' !! p = Some s /\
        match hs with [] => asked br height hash s | h :: _ => hd_Hash h = hash end).
Proof.
  intros Hbr Hv. revert height hash parents headers st.
  induction n as [|n IH]; intros height hash parents headers st (B & Hok).
  { apply wlp_ret. split; [by exists B|done]. }
  cbn [search]. apply wlp_bind. eapply wlp_mono; [by apply wlp_snap_cache_Get|].
  intros hit st1 [Hok1 Hhit]. destruct hit as [p|].
  { wlp_steps. split; [by exists B|]. intros q hs' [= <- <-].
    destruct (Hhit p eq_refl) as (s & Es & Eh). exists [], s. rewrite app_nil_r.
    split; [done|]. split; [done|]. by left. }
  apply wlp_bind. eapply wlp_mono; [by apply wlp_from_disk|].
  intros found st2 [Hok2 Hfound]. destruct found as [p|].
  { wlp_steps. split; [by exists B|]. intros q hs' [= <- <-].
    destruct (Hfound p eq_refl) as (s & Es & Eh). exists [], s. rewrite app_nil_r.
    split; [done|]. split; [done|]. by left. }
  destruct (height <? GenesisHeight); [wlp_steps; split; [by exists B|done]|].
  destruct (Z.eqb_spec height GenesisHeight) as [->|Hne].
  - apply wlp_bind. eapply wlp_mono; [apply wlp_from_genesis; [done|by exists B]|].
    intros [e|p] st3 [Hok3 Hp]; wlp_steps; (split; [done|]); [done|]. intros q hs' [= <- <-].
    destruct (Hp p eq_refl) as (s & Es & _ & g & Eg & Eh). exists [], s. rewrite app_nil_r.
    split; [done|]. split; [done|]. right. split; [done|]. by exists g.
  - destruct (next_header br height hash parents) as [[h parents']|] eqn:En.
    + eapply wlp_mono; [apply IH; by exists B|]. intros r st3 [Hok3 Hr]. split; [done|].
      intros p hs' Ers. destruct (Hr p hs' Ers) as (hs & s & -> & Es & _).
      exists (h :: hs), s. rewrite <- app_assoc. split; [done|]. split; [done|].
      by eapply next_header_hash.
    + wlp_steps. split; [by exists B|done].
Qed.

Lemma wlp_Apply B p headers st :
  e_ok_at B st ->
  wlp (with_snap p (Apply headers)) st (fun r st' => e_ok_at B st' /\
    (exists s s', es_snaps st !! p = Some s /\ es_snaps st' !! p = Some s' /\
                  sn_Hash s' = sn_Hash s) /\
    (r = inr None -> headers = []) /\
    forall snap, r = inr (Some snap) ->
      frozen B (es_heap st') snap /\ Some (sn_Hash snap) = hd_Hash <$> last headers).
Proof.
  intros Hok. unfold with_snap, load_snap. wlp_steps.
  match goal with E : es_snaps st !! p = Some ?x |- _ => rename x into s, E into Es end.
  match goal with E : Apply _ _ = Ret ?x |- _ => destruct x as [r st1]; rename E into Ea end.
  pose proof Hok as (HB & Hs & _). destruct (Hs _ _ Es) as [_ Hf]. simpl.
  destruct (Apply_fields _ _ _ _ Ea) as (Er & Hnil & Hsnap).
  injection Er as _ _ Eh _. simpl in Eh.
  apply (frozen_Apply B genesis_set) in Ea as ([HB' Hf'] & Hle & Hres); [|by split].
  split; [by eapply e_ok_set_snap|]. split; [|split; [done|]].
  - exists s, (ssnap st1). by rewrite lookup_insert_eq.
  - intros snap E. split; [by apply Hres|by apply Hsnap].
Qed.

Lemma wlp_load_snap p st (Q : Snapshot -> EState -> Prop) :
  (forall s, es_snaps st !! p = Some s -> Q s st) -> wlp (load_snap p) st Q.
Proof. intros HQ. unfold load_snap. wlp_steps. by apply HQ. Qed.

(** The reference that [snapshot] returns: the receiver of [Apply] or a new
    object. *)
Lemma wlp_result B p o st s0 :
  e_ok_at B st -> es_snaps st !! p = Some s0 ->
  (forall snap, o = Some snap -> frozen B (es_heap st) snap) ->
  wlp (match o with None => mret p | Some s => new_snap s (es_heap st) end) st
    (fun q st' => e_ok_at B st' /\
       es_snaps st' !! q = Some (match o with None => s0 | Some s => s end)).
Proof.
  intros Hok Ep Ho. destruct o as [s|]; [|by wlp_steps].
  pose proof Hok as (HB & _). unfold new_snap. wlp_steps. split.
  - apply (e_ok_new_snap B); [done|done|done|]. by apply Ho.
  - simpl. by rewrite lookup_insert_eq.
Qed.

Lemma wlp_snap_cache_Add B p s st :
  e_ok_at B st -> es_snaps st !! p = Some s ->
  wlp (snap_cache_Add (sn_Hash s) p) st (fun _ st' => e_ok_at B st' /\ es_snaps st' = es_snaps st).
Proof.
  intros (HB & Hs & Hc & Hdb & Hv) Ep. unfold snap_cache_Add. wlp_steps. split; [|done].
  split; [done|]. split; [done|]. split; [|done]. simpl. intros k q Hk.
  apply cache_Add_elems in Hk as [[= -> ->]|Hk]%elem_of_cons; [by exists s|by apply Hc].
Qed.

Lemma wlp_snapshot_with verify br height hash parents st :
  reader_ok br -> genesis_refused br verify -> e_ok st ->
  wlp (snapshot_with verify br height hash parents) st (fun r st' => e_ok st' /\
    forall q, r = inr q -> exists s, es_snaps st' !! q = Some s /\ asked br height hash s).
Proof.
  intros Hbr Hv Hok. unfold snapshot_with. apply wlp_bind.
  eapply wlp_mono; [by apply wlp_search|]. intros r st1 [(B & Hok1) Hr].
  destruct r as [[e|[p headers]]|]; [| |by wlp_steps].
  { wlp_steps. split; [by exists B|done]. }
  destruct (Hr p headers eq_refl) as (hs & s & -> & Es & Hfirst). cbn [app] in *. clear Hr.
  apply wlp_bind. eapply wlp_mono; [by apply wlp_Apply|].
  intros res st2 (Hok2 & (s1 & s2 & Es1 & Es2 & Eh) & Hnil & Hsnap).
  destruct res as [e|o]; [wlp_steps; split; [by exists B|done]|].
  apply wlp_bind, wlp_get_state, wlp_bind. eapply wlp_mono.
  { apply (wlp_result B p o st2 s2); [done|done|]. intros snap ->. by apply Hsnap. }
  intros q st3 [Hok3 Eq]. set (snap := match o with None => s2 | Some s => s end) in *.
  assert (Hasked : asked br height hash snap).
  { simplify_eq. destruct o as [s'|]; simpl in snap; subst snap.
    - destruct (Hsnap s' eq_refl) as [_ El]. left. rewrite last_reverse in El.
      destruct hs as [|h hs]; [done|]. simpl in El. injection El as ->. done.
    - assert (hs = []) as ->. { apply (inj reverse). by rewrite (Hnil eq_refl). }
      destruct Hfirst as [Hh|(-> & g & Eg & Hh)]; [left; congruence|right].
      split; [done|]. exists g. split; [done|congruence]. }
  apply wlp_bind, wlp_load_snap. intros s' Es'. assert (s' = snap) as -> by congruence.
  apply wlp_bind. eapply wlp_mono; [by apply wlp_snap_cache_Add|]. intros _ st4 [Hok4 Es4].
  assert (Hfin : es_snaps st4 !! q = Some snap) by congruence.
  destruct (_ && _).
  - apply wlp_bind. eapply wlp_mono; [by apply wlp_store_snap|]. intros e st5 [Hok5 Es5].
    destruct e as [e|]; wlp_steps; (split; [by exists B|]); [done|].
    intros q' [= <-]. exists snap. by rewrite Es5.
  - wlp_steps. split; [by exists B|]. intros q' [= <-]. by exists snap.
Qed.

Lemma genesis_refused_verifyHeader snapshot_fn br now :
  reader_ok br -> genesis_refused br (fun h => verifyHeader snapshot_fn br now h []).
Proof. intros [_ Hn] h st Eg. unfold verifyHeader. by rewrite (Hn _ _ Eg), Z.eqb_refl. Qed.

Lemma e_ok_in_force st q s : e_ok st -> es_snaps st !! q = Some s -> genesis_in_force st s.
Proof.
  intros (B & HB & Hs & _) Eq. destruct (Hs _ _ Eq) as [_ [Hp _]].
  unfold genesis_in_force. destruct (sn_ValSet s) as [p|]; [|by left]. right.
  eapply bases_get; [exact HB|by apply Hp].
Qed.

Lemma wlp_snapshot br now height hash parents st :
  reader_ok br -> e_ok st ->
  wlp (snapshot br now height hash parents) st (fun r st' => e_ok st' /\
    forall q, r = inr q -> exists s, es_snaps st' !! q = Some s /\
      asked br height hash s /\ genesis_in_force st' s).
Proof.
  intros Hbr Hok. unfold snapshot. cbn [snapshot_depth]. eapply wlp_mono.
  { apply wlp_snapshot_with; [done| |done]. by apply genesis_refused_verifyHeader. }
  intros r st' [Hok' Hr]. split; [done|]. intros q E. destruct (Hr q E) as (s & Es & Ha).
  exists s. split; [done|]. split; [done|]. by eapply e_ok_in_force.
Qed.

(** C10. [snapshot], whatever the caches and the database hold and whatever
    headers it has to apply, keeps the engine's invariant; the snapshot it
    returns is that of the block asked for (at the genesis height, that of
    the genesis block), and the validators it uses are those of genesis,
    unless it comes from the database and has none. *)
Theorem snapshot_correct br now height hash parents st r st' :
  reader_ok br -> e_ok st ->
  snapshot br now height hash parents st = Ret (r, st') ->
  e_ok st' /\
  forall q, r = inr q -> exists s, es_snaps st' !! q = Some s /\
    asked br height hash s /\ genesis_in_force st' s.
Proof. intros Hbr Hok E. by apply (wlp_snapshot br now height hash parents st Hbr Hok). Qed.

(** The core computes proposers in the sets it was given; the engine does not
    notice. *)
Lemma e_ok_CalcProposer q last round st :
  e_ok st -> e_ok (set_snaps id (es_next st) (heap_CalcProposer q last round (es_heap st)) st).
Proof.
  intros (B & HB & Hs & Hc & Hdb & Hv). exists B. split; [by apply bases_CalcProposer|].
  split; [|split; [|by split]]; simpl; [|exact Hc].
  intros p s E. destruct (Hs p s E). split; [done|]. by eapply frozen_mono.
Qed.

(** The state of a new engine. *)
Definition new_engine (db : Database) : EState :=
  mkEState ∅ 0 (mkHeap ∅ 0) db cache_New cache_New newManager ZeroHash.

Lemma new_engine_ok db : db_ok db -> e_ok (new_engine db).
Proof.
  intros Hdb. exists ∅. split; [by intros p Hp|]. split; [by intros p s Hp|].
  split; [intros k p; simpl; rewrite cache_elems_New; set_solver|].
  split; [done|]. intros k i. simpl. rewrite cache_elems_New. set_solver.
Qed.
End EngineSpec.
