(* ===== verification/VerificationSpec.v ===== *)
(** * VerificationSpec: what an accepted header carries

    The committed seals are a quorum certificate of distinct validators
    ([check_seals_correct]), so accepted headers cannot disagree
    ([verified_headers_agree]) except for the small sets where the engine asks
    for less than the core ([one_seal_accepted]); [VerifyHeader_accepts]
    lists what all the checks together guarantee. *)

From S2P Require Import Prelude Types Interfaces ValidatorSet Quorum Votes VotesLaws Snapshot SnapshotLaws Engine Verification EngineSpec.

Section VerificationSpec.
Context `{PF : Platform} {Address : Type} `{Countable Address} {CH : @Chain PF Address _ _}.
Context {EI : EngineI} {CFG : @EngineConfig Address} {EL : EngineLaws}.
Abbreviation M := (prog (@EState PF Address _ _ CH EI)).
Implicit Types (st : @EState PF Address _ _ CH EI) (br : BlockReader)
  (vs : Default.defaultValidatorSet).

(** ** Committed seals *)

(** [seals] are the seals of the distinct validators [l] of [vs] on [hash]. *)
Definition sealed vs (hash : Hash) (seals : list (option SignResult)) (l : list string) : Prop :=
  Forall2 (fun seal i => RecoverId (PrepareCommittedSeal hash) seal = inr i) seals l /\
  NoDup l /\ forall i, i ∈ l -> i ∈ Default.ids vs.

Lemma RemoveValidator_removed vs i :
  (Default.RemoveValidator vs i).1 = bool_decide (i ∈ Default.ids vs).
Proof.
  unfold Default.RemoveValidator, Default.ids.
  destruct (decide (i ∈ Default.id <$> Default.validators vs)) as [Hi|Hi].
  - destruct (Default.remove_first_member _ _ Hi) as (l & -> & _). by rewrite bool_decide_true.
  - by rewrite (Default.remove_first_id _ _ Hi), bool_decide_false.
Qed.

Lemma count_seals_spec vs hash seals n :
  Default.wf vs ->
  match count_seals (PrepareCommittedSeal hash) vs seals n with
  | inr k => k = n + Z.of_nat (length seals) /\ exists l, sealed vs hash seals l
  | inl _ => ~ exists l, sealed vs hash seals l
  end.
Proof.
  revert vs n. induction seals as [|seal seals IH]; intros vs n Hw; cbn [count_seals].
  { split; [simpl; lia|]. exists []. split; [constructor|]. split; [constructor|set_solver]. }
  unfold GetSignatureValidator.
  destruct (RecoverId (PrepareCommittedSeal hash) seal) as [e|i] eqn:Er.
  { intros (l & Hf & _). apply Forall2_cons_inv_l in Hf as (i & l' & Hi & _ & _). congruence. }
  pose proof (RemoveValidator_removed vs i) as Hrm.
  pose proof (RemoveValidator_wf vs i Hw) as Hw'.
  assert (Hids : forall j, j ∈ Default.ids (Default.RemoveValidator vs i).2 <->
            j <> i /\ j ∈ Default.ids vs) by (intros j; by apply RemoveValidator_ids).
  destruct (Default.RemoveValidator vs i) as [removed vs']. simpl in *.
  destruct removed.
  - symmetry in Hrm. apply bool_decide_eq_true in Hrm. specialize (IH vs' (n + 1) Hw').
    destruct (count_seals _ vs' seals (n + 1)) as [e|k].
    + intros (l & Hf & Hn & Hl). apply Forall2_cons_inv_l in Hf as (i' & l' & Hi & Hf & ->).
      assert (i' = i) as -> by congruence. apply NoDup_cons in Hn as [Hni Hn].
      apply IH. exists l'. split; [done|]. split; [done|]. intros j Hj. apply Hids.
      split; [by intros ->|]. apply Hl. by right.
    + destruct IH as (-> & l & Hf & Hn & Hl). split; [simpl; lia|]. exists (i :: l).
      split; [by constructor|]. split.
      * constructor; [|done]. intros Hin. by apply Hl, Hids in Hin as [].
      * intros j [->|Hj]%elem_of_cons; [done|]. by apply Hids, Hl.
  - symmetry in Hrm. apply bool_decide_eq_false in Hrm.
    intros (l & Hf & _ & Hl). apply Forall2_cons_inv_l in Hf as (i' & l' & Hi & Hf & ->).
    assert (i' = i) as -> by congruence. apply Hrm, Hl. by left.
Qed.

Lemma Copy_wf vs : Default.wf vs ->
  Default.wf (Default.Copy vs) /\ Default.ids (Default.Copy vs) = Default.ids vs.
Proof.
  intros [Hs Hn]. unfold Default.Copy, Default.newDefaultSet, Default.wf, Default.ids; simpl.
  rewrite Default.fmap_mkValidator_id, (Default.sort_id _ Hs). done.
Qed.

Lemma sealed_ids vs vs' hash seals l :
  Default.ids vs = Default.ids vs' -> sealed vs hash seals l -> sealed vs' hash seals l.
Proof. unfold sealed. by intros ->. Qed.

Lemma check_seals_spec vs hash seals :
  Default.wf vs ->
  check_seals vs hash seals = None <->
    (exists l, sealed vs hash seals l) /\
    2 * Default.FaultTolerantNum vs < Z.of_nat (length seals).
Proof.
  intros Hw. destruct (Copy_wf vs Hw) as [Hc Hi]. unfold check_seals.
  pose proof (count_seals_spec (Default.Copy vs) hash seals 0 Hc) as Hcs.
  destruct (count_seals _ _ _ _) as [e|k].
  - split; [done|]. intros [(l & Hl) _]. exfalso. apply Hcs. exists l.
    by eapply sealed_ids.
  - destruct Hcs as (-> & l & Hl).
    destruct (Z.leb_spec (0 + Z.of_nat (length seals)) (2 * Default.FaultTolerantNum vs)).
    + split; [done|]. intros [_ Hlt]. lia.
    + split; [|done]. intros _. split; [|lia]. exists l. by eapply sealed_ids.
Qed.

Lemma sealed_length vs hash seals l :
  sealed vs hash seals l -> Z.of_nat (length seals) <= Default.Size vs.
Proof.
  intros (Hf & Hn & Hs). rewrite (Forall2_length _ _ _ Hf). unfold Default.Size.
  rewrite <- (length_fmap Default.id (Default.validators vs)).
  apply Nat2Z.inj_le, submseteq_length, NoDup_submseteq; [done|]. intros i. apply Hs.
Qed.

(** C17. The check of the committed seals passes exactly when the seals are
    those of distinct validators of the set on this block hash, and more
    than twice the number of faulty validators. *)
Theorem check_seals_correct vs hash seals :
  Default.wf vs ->
  check_seals vs hash seals = None <->
    (exists l, sealed vs hash seals l) /\
    2 * Default.FaultTolerantNum vs < Z.of_nat (length seals).
Proof. apply check_seals_spec. Qed.

(** The default set tolerates [(n + 2) / 3 - 1] faults among [n] validators. *)
Lemma FaultTolerantNum_div vs : Default.Size vs < 2 ^ 53 ->
  Default.FaultTolerantNum vs = (Default.Size vs + 2) / 3 - 1.
Proof.
  intros Hn. unfold Default.FaultTolerantNum. rewrite ceil_float64_div_3; [done|].
  unfold Default.Size in *. lia.
Qed.

(** More than [2f] of [3f + 1] validators, twice, share a correct one. *)
Lemma lists_share_correct vs (l1 l2 : list string) (F : gset string) :
  Default.Size vs < 2 ^ 53 -> Default.Size vs mod 3 = 1 ->
  Z.of_nat (size F) <= Default.FaultTolerantNum vs ->
  NoDup l1 -> (forall i, i ∈ l1 -> i ∈ Default.ids vs) ->
  NoDup l2 -> (forall i, i ∈ l2 -> i ∈ Default.ids vs) ->
  2 * Default.FaultTolerantNum vs < Z.of_nat (length l1) ->
  2 * Default.FaultTolerantNum vs < Z.of_nat (length l2) ->
  exists i, i ∈ l1 /\ i ∈ l2 /\ i ∉ F.
Proof.
  intros Hn Hmod HF N1 S1 N2 S2 L1 L2. rewrite FaultTolerantNum_div in * by done.
  set (Q1 := list_to_set l1 : gset string). set (Q2 := list_to_set l2 : gset string).
  assert (E1 : size Q1 = length l1) by by apply size_list_to_set.
  assert (E2 : size Q2 = length l2) by by apply size_list_to_set.
  assert (Hu : (size (Q1 ∪ Q2) <= length (Default.validators vs))%nat).
  { rewrite <- (length_fmap Default.id). rewrite <- (size_list_to_set_le (A:=string)).
    apply subseteq_size. intros i. unfold Q1, Q2. rewrite elem_of_union, !elem_of_list_to_set.
    intros [Hi|Hi]; [by apply S1|by apply S2]. }
  pose proof (size_union_intersection Q1 Q2) as Ei.
  destruct (decide (Q1 ∩ Q2 ⊆ F)) as [Hs|Hs].
  - apply subseteq_size in Hs. unfold Default.Size in *. exfalso. lia_div.
  - destruct (set_choose_or_empty ((Q1 ∩ Q2) ∖ F)) as [[i Hi]|He].
    + exists i. unfold Q1, Q2 in Hi.
      rewrite elem_of_difference, elem_of_intersection, !elem_of_list_to_set in Hi. tauto.
    + exfalso. apply Hs. intros i Hi. destruct (decide (i ∈ F)); [done|]. set_solver.
Qed.

(** C5. Two blocks whose committed seals are accepted against the same
    [3f + 1] validators are the same block, if at most [f] validators are
    faulty and no other one has sealed two different hashes. *)
Theorem verified_headers_agree vs hash1 hash2 seals1 seals2 (F : gset string) :
  Default.wf vs -> Default.Size vs < 2 ^ 53 -> Default.Size vs mod 3 = 1 ->
  Z.of_nat (size F) <= Default.FaultTolerantNum vs ->
  (forall i s1 s2, i ∉ F -> s1 ∈ seals1 -> s2 ∈ seals2 ->
     RecoverId (PrepareCommittedSeal hash1) s1 = inr i ->
     RecoverId (PrepareCommittedSeal hash2) s2 = inr i -> hash1 = hash2) ->
  check_seals vs hash1 seals1 = None -> check_seals vs hash2 seals2 = None ->
  hash1 = hash2.
Proof.
  intros Hw Hn Hmod HF Hone.
  intros ((l1 & F1 & N1 & S1) & L1)%check_seals_spec; [|done].
  intros ((l2 & F2 & N2 & S2) & L2)%check_seals_spec; [|done].
  rewrite (Forall2_length _ _ _ F1) in L1. rewrite (Forall2_length _ _ _ F2) in L2.
  destruct (lists_share_correct vs l1 l2 F) as (i & Hi1 & Hi2 & HiF); try done.
  apply list_elem_of_lookup in Hi1 as [k1 Hi1]. apply list_elem_of_lookup in Hi2 as [k2 Hi2].
  destruct (Forall2_lookup_r _ _ _ _ _ F1 Hi1) as (s1 & Hs1 & R1).
  destruct (Forall2_lookup_r _ _ _ _ _ F2 Hi2) as (s2 & Hs2 & R2).
  apply (Hone i s1 s2); [done|by eapply list_elem_of_lookup_2|by eapply list_elem_of_lookup_2|done|done].
Qed.

(** The seals that make the core commit, a quorum of validators, make the
    engine accept the block; and the engine accepts no less, unless there
    are two or three validators. *)
Theorem core_quorum_accepted (hi : HashI Hash) (pi : ProposalI Proposal Hash) vs hash seals l :
  let quorum := @reachThreshold (default_platform Hash SignResult Proposal hi pi) _
                  (default_valset Hash SignResult Proposal hi pi) vs in
  Default.wf vs -> 0 < Default.Size vs < 2 ^ 53 -> sealed vs hash seals l ->
  (quorum (Z.of_nat (length seals)) = true -> check_seals vs hash seals = None) /\
  (Default.Size vs = 1 \/ 3 < Default.Size vs ->
   check_seals vs hash seals = None -> quorum (Z.of_nat (length seals)) = true).
Proof.
  intros quorum Hw Hn Hl. rewrite check_seals_spec by done.
  unfold quorum, reachThreshold. cbn [FaultTolerantNum Interfaces.Size default_valset].
  rewrite FaultTolerantNum_div by lia. pose proof (sealed_length _ _ _ _ Hl).
  destruct (Z.eqb_spec ((Default.Size vs + 2) / 3 - 1) 0).
  - rewrite Z.eqb_eq. split; [|lia_div]. intros Hq. split; [by exists l|]. lia_div.
  - destruct (Z.ltb_spec (2 * ((Default.Size vs + 2) / 3 - 1)) (Z.of_nat (length seals)));
      (split; [|lia_div]); [|done]. intros _. split; [by exists l|done].
Qed.

(** With two or three validators the engine accepts a block with the seal
    of a single one, whichever it is; the core needs all of them. *)
Theorem one_seal_accepted vs hash seal i :
  Default.wf vs -> 1 < Default.Size vs <= 3 -> i ∈ Default.ids vs ->
  RecoverId (PrepareCommittedSeal hash) seal = inr i ->
  check_seals vs hash [seal] = None /\
  Default.FaultTolerantNum vs = 0 /\
  forall (hi : HashI Hash) (pi : ProposalI Proposal Hash) k,
    @reachThreshold (default_platform Hash SignResult Proposal hi pi) _
      (default_valset Hash SignResult Proposal hi pi) vs k = (k =? Default.Size vs).
Proof.
  intros Hw Hn Hi Hr.
  assert (Hf : Default.FaultTolerantNum vs = 0).
  { rewrite FaultTolerantNum_div by lia. lia_div. }
  split; [|split; [done|]].
  - apply check_seals_spec; [done|]. split; [|rewrite Hf; simpl; lia].
    exists [i]. split; [by repeat constructor|]. split; [apply NoDup_singleton|set_solver].
  - intros hi pi k. unfold reachThreshold. cbn [FaultTolerantNum default_valset].
    by rewrite Hf.
Qed.

(** ** Headers *)

Lemma genesis_set_wf : NoDup cfg_Validators -> Default.wf genesis_set.
Proof.
  intros Hn. unfold genesis_set, Default.newDefaultSet, Default.wf; simpl.
  split; [apply Default.sort_sorted|]. rewrite Default.sort_perm.
  apply (NoDup_fmap_1 Default.id). by rewrite Default.fmap_id_mkValidator.
Qed.

Lemma genesis_ids i : i ∈ Default.ids genesis_set <-> i ∈ cfg_Validators.
Proof.
  unfold Default.ids, genesis_set, Default.newDefaultSet; simpl.
  by rewrite Default.sort_perm, Default.fmap_id_mkValidator.
Qed.

(** [i] signed the header without its signature. *)
Definition signed_by (header : Header) (i : string) : Prop :=
  exists sig, RecoverId (Hash_Bytes (hd_HashNoSign header)) sig = inr i.

Lemma wlp_ecrecover B h st :
  e_ok_at B st ->
  wlp (ecrecover h) st (fun r st' => e_ok_at B st' /\
    es_snaps st' = es_snaps st /\ es_heap st' = es_heap st /\
    (r.2 = None -> signed_by h r.1)).
Proof.
  intros (HB & Hs & Hc & Hdb & Hv). unfold ecrecover. wlp_steps.
  destruct (cache_Get (recentValidatorCache st) (hd_HashNoSign h)) as [o c] eqn:Ec. simpl.
  assert (Hv' : forall k i, (k, i) ∈ cache_elems c ->
            exists sig, RecoverId (Hash_Bytes k) sig = inr i).
  { intros k i Hk. apply Hv. by eapply cache_Get_elems. }
  destruct o as [i|].
  { wlp_steps. split; [done|]. split; [done|]. split; [done|]. intros _. apply Hv.
    by eapply cache_Get_elem. }
  unfold GetSignatureValidator. destruct (RecoverId _ (hd_Signature h)) as [e|i] eqn:Er; wlp_steps.
  { split; [done|]. by split. }
  split; [|split; [done|split; [done|]]; intros _; by eexists].
  split; [done|]. split; [done|]. split; [done|]. split; [done|]. simpl. intros k j Hk.
  apply cache_Add_elems in Hk as [[= -> ->]|Hk]%elem_of_cons; [by eexists|by apply Hv'].
Qed.

Lemma wlp_snap_ValSet q s st (Q : Default.defaultValidatorSet -> EState -> Prop) :
  es_snaps st !! q = Some s -> genesis_in_force st s ->
  (forall pr, Q (with_proposer pr genesis_set) st) -> wlp (snap_ValSet q) st Q.
Proof.
  intros Eq Hg HQ. unfold snap_ValSet. apply wlp_bind, wlp_load_snap. intros s' Es.
  assert (s' = s) as -> by congruence. wlp_steps.
  destruct Hg as [Hg|[pr Hg]]; rewrite Hg in *; simplify_eq/=; done.
Qed.

Section Accepts.
Context (br : BlockReader) (now : Z) (Hbr : reader_ok br).

Lemma wlp_verifySigner header parents st :
  e_ok st ->
  wlp (verifySigner (snapshot br now) header parents) st (fun e st' => e_ok st' /\
    (e = None -> exists i, i ∈ Default.ids genesis_set /\ signed_by header i)).
Proof.
  intros Hok. unfold verifySigner. destruct (_ =? _); [by wlp_steps|].
  apply wlp_bind. eapply wlp_mono; [by apply wlp_snapshot|]. intros r st1 [Hok1 Hr].
  destruct r as [e|q]; [by wlp_steps|]. destruct (Hr q eq_refl) as (s & Es & _ & Hf).
  destruct Hok1 as [B Hok1]. apply wlp_bind. eapply wlp_mono; [by apply wlp_ecrecover|].
  intros [i [e|]] st2 (Hok2 & Esn & Ehp & Hi); [wlp_steps; split; [by exists B|done]|].
  apply wlp_bind. apply (wlp_snap_ValSet q s).
  { by rewrite Esn. }
  { unfold genesis_in_force. by rewrite Ehp. }
  intros pr. change (Default.GetById (with_proposer pr genesis_set) i)
    with (Default.GetById genesis_set i).
  destruct (Default.GetById genesis_set i).2 eqn:Eg; wlp_steps; (split; [by exists B|]); [|done].
  intros _. exists i. split; [|by apply Hi]. unfold Default.ids.
  destruct (decide (i ∈ Default.id <$> Default.validators genesis_set)) as [|Hn]; [done|].
  apply Default.GetById_None in Hn. congruence.
Qed.

(** The seals of [header] and the votes it carries. *)
Definition certified (header : Header) : Prop :=
  exists data, FromConsensus (hd_Consensus header) = inr data /\
    (forall v, MVote data = Some v -> check_MVote v = None) /\
    (forall v, VVote data = Some v -> check_VVote v = None) /\
    check_seals genesis_set (hd_Hash header) (CommittedSeal data) = None.

Lemma wlp_verifyCommittedSeals header parents st :
  hd_Height header <> GenesisHeight -> e_ok st ->
  wlp (verifyCommittedSeals (snapshot br now) header parents) st (fun e st' => e_ok st' /\
    (e = None -> certified header)).
Proof.
  intros Hne Hok. unfold verifyCommittedSeals. rewrite (proj2 (Z.eqb_neq _ _) Hne).
  destruct (FromConsensus _) as [e|data] eqn:Ec; [by wlp_steps|].
  destruct (_ =? _)%nat; [by wlp_steps|].
  destruct (MVote data ≫= check_MVote) as [e|] eqn:Em; [by wlp_steps|].
  destruct (VVote data ≫= check_VVote) as [e|] eqn:Ev; [by wlp_steps|].
  apply wlp_bind. eapply wlp_mono; [by apply wlp_snapshot|]. intros r st1 [Hok1 Hr].
  destruct r as [e|q]; [by wlp_steps|]. destruct (Hr q eq_refl) as (s & Es & _ & Hf).
  apply wlp_bind. apply (wlp_snap_ValSet q s); [done|done|]. intros pr. wlp_steps.
  split; [done|]. intros E. exists data. split; [done|]. split; [|split; [|done]].
  - intros v Hv. rewrite Hv in Em. exact Em.
  - intros v Hv. rewrite Hv in Ev. exact Ev.
Qed.

(** The parent that [verifyCascadingFields] looks at. *)
Definition parent_of (header : Header) (parents : list Header) : option Header :=
  match last parents with
  | Some p => Some p
  | None => GetHeader br (hd_ParentHash header) (u64 (hd_Height header - 1))
  end.

Definition block_period : Z := if BlockPeriod =? 0 then 1 else BlockPeriod.

Lemma wlp_verifyCascadingFields header parents st :
  hd_Height header <> GenesisHeight -> e_ok st ->
  wlp (verifyCascadingFields (snapshot br now) br header parents) st (fun e st' => e_ok st' /\
    (e = None ->
       (exists p, parent_of header parents = Some p /\
          hd_Height p = u64 (hd_Height header - 1) /\ hd_Hash p = hd_ParentHash header /\
          u64 (hd_Timestamp p + block_period) <= hd_Timestamp header) /\
       (exists i, i ∈ Default.ids genesis_set /\ signed_by header i) /\
       certified header)).
Proof.
  intros Hne Hok. unfold verifyCascadingFields. rewrite (proj2 (Z.eqb_neq _ _) Hne).
  fold (parent_of header parents) block_period.
  destruct (parent_of header parents) as [p|] eqn:Ep; [|by wlp_steps].
  destruct (negb (hd_Height p =? _) || _) eqn:El; [by wlp_steps|].
  apply orb_false_iff in El as [El1 El2].
  apply negb_false_iff, Z.eqb_eq in El1. apply bool_decide_eq_false in El2.
  destruct (Z.ltb_spec (hd_Timestamp header) (u64 (hd_Timestamp p + block_period)));
    [by wlp_steps|].
  apply wlp_bind. eapply wlp_mono; [by apply wlp_verifySigner|]. intros e st1 [Hok1 Hs].
  destruct e as [e|]; [by wlp_steps|].
  eapply wlp_mono; [by apply wlp_verifyCommittedSeals|]. intros e st2 [Hok2 Hc].
  split; [done|]. intros ->. split; [|split; [by apply Hs|by apply Hc]].
  exists p. split; [done|]. split; [done|]. split; [|done].
  destruct (decide (hd_Hash p = hd_ParentHash header)); tauto.
Qed.

(** C6. A header that [VerifyHeader] accepts is not that of genesis and not
    from the future; its parent is on the chain, directly below it and at
    least a period older; a genesis validator signed it; the votes it
    carries are signed by the managers they name; and its committed seals
    are those of more than [2f] distinct genesis validators on its hash. *)
Theorem VerifyHeader_accepts header st st' :
  NoDup cfg_Validators -> e_ok st ->
  VerifyHeader br now header st = Ret (None, st') ->
  hd_Height header <> GenesisHeight /\
  hd_Timestamp header <= u64 (i64 (now + 5000)) /\
  (exists p, GetHeader br (hd_ParentHash header) (u64 (hd_Height header - 1)) = Some p /\
     hd_Hash p = hd_ParentHash header /\
     u64 (hd_Timestamp p + block_period) <= hd_Timestamp header) /\
  (exists i, i ∈ cfg_Validators /\ signed_by header i) /\
  exists data, FromConsensus (hd_Consensus header) = inr data /\
    (forall v, MVote data = Some v -> check_MVote v = None) /\
    (forall v, VVote data = Some v -> check_VVote v = None) /\
    exists l, sealed genesis_set (hd_Hash header) (CommittedSeal data) l /\
      2 * Default.FaultTolerantNum genesis_set < Z.of_nat (length l).
Proof.
  intros Hn Hok. unfold VerifyHeader, verifyHeader, faultTolerantTime. change (5 * 1000) with 5000.
  destruct (Z.eqb_spec (hd_Height header) GenesisHeight) as [|Hne]; [done|].
  destruct (Z.ltb_spec (u64 (i64 (now + 5000))) (hd_Timestamp header)) as [|Hts]; [done|].
  destruct (FromConsensus (hd_Consensus header)) as [|data0] eqn:Ec; [done|]. intros E.
  apply (wlp_verifyCascadingFields header [] st Hne Hok) in E as [_ Hacc].
  destruct (Hacc eq_refl) as ((p & Hp & _ & Hph & Hpt) & (i & Hi & Hsig) & data & Ed & Hm & Hv & Hs).
  split; [done|]. split; [done|]. split; [by exists p|]. split.
  - exists i. split; [by apply genesis_ids|done].
  - exists data. split; [congruence|]. split; [done|]. split; [done|].
    apply check_seals_spec in Hs as [(l & Hl) Hlen]; [|by apply genesis_set_wf].
    exists l. split; [done|]. destruct Hl as (Hf & _). by rewrite <- (Forall2_length _ _ _ Hf).
Qed.
End Accepts.
End VerificationSpec.
