(* ===== verification/Backend.v ===== *)
(** * Backend: the engine as the core's backend, sealing and the API

    Models [pbft.go] (the methods the core calls through [PBFTBackend]), the
    preparation and sealing operations of [engine.go], [ToConsensus] of
    [types.go], and [api.go].  The part of [Seal] that waits for the
    committed block is in [Sealing.v]. *)

From S2P Require Import Prelude Types Interfaces ValidatorSet Votes Snapshot Engine Verification.

Section Backend.
Context `{PF : Platform} {Address : Type} `{Countable Address} {CH : @Chain PF Address _ _}.
Context {EI : EngineI} {CFG : @EngineConfig Address}.
Abbreviation M := (prog (@EState PF Address _ _ CH EI)).

(** More of [models.Block], the RPC package and the peer ids. *)
Class BackendE := {
  bk_Height : Block -> Z;
  bk_ParentHash : Block -> Hash;
  bk_New : Header -> Block;
  (** the type assertion [proposal.( *models.Block)] *)
  as_Block : Proposal -> option Block;
  of_Block : Block -> Proposal;
  (** [reflect.DeepEqual(block.Transactions(), block.Header().TxsRoot)] *)
  txs_DeepEqual_root : Block -> bool;
  LatestBlockNumber : Z;
  models_IDFromString : string -> option engine_error;
  (** [Height()] and [Hash()] of a nil [*models.Block] *)
  nil_Block_methods : outcome unit;
}.
Context {BE : BackendE}.

(** ** Validator sets and proposers *)

Definition Author (header : Header) : M (string * option engine_error) := ecrecover header.

(** A new set on the heap ([validator.NewSet]). *)
Definition new_ValSet (ids : list string) : M (option nat) :=
  st ← get_state;
  let '(p, h') := heap_alloc (es_heap st) (Default.newDefaultSet ids cfg_ProposerPolicy) in
  modify (set_snaps id (es_next st) h');;
  mret (Some p).

Definition getValidators (br : BlockReader) (now height : Z) (hash : Hash) : M (option nat) :=
  snap ← snapshot br now height hash [];
  match snap with
  | inl _ => new_ValSet []
  | inr q => s ← load_snap q; mret (sn_ValSet s)
  end.

Definition Validators (br : BlockReader) (now : Z) (proposal : Proposal) : M (option nat) :=
  getValidators br now (Height proposal) (HashOf proposal).

Definition ParentValidators (br : BlockReader) (now : Z) (proposal : Proposal) : M (option nat) :=
  match as_Block proposal with
  | Some block => getValidators br now (u64 (bk_Height block - 1)) (bk_ParentHash block)
  | None => new_ValSet []
  end.

Definition LastProposal (br : BlockReader) : M (option Proposal * string) :=
  let block := CurrentBlock br in
  if GenesisHeight <? bk_Height block then
    r ← Author (bk_Header block);
    match r with
    | (_, Some _) => mret (None, ""%string)
    | (proposer, None) => mret (Some (of_Block block), proposer)
    end
  else mret (Some (of_Block block), ""%string).

Definition HasProposal (br : BlockReader) (hash : Hash) (height : Z) : bool :=
  match GetHeader br hash height with Some _ => true | None => false end.

Definition pbftEngine_GetProposer (br : BlockReader) (height : Z) : M string :=
  match GetHeaderByNumber br height with
  | Some h => r ← Author h; mret r.1
  | None => mret ""%string
  end.

(** ** Verification, signatures and commit *)

Definition Verify (br : BlockReader) (now : Z) (proposal : Proposal) : M (option engine_error) :=
  match as_Block proposal with
  | None => mret (Some errInvalidProposal)
  | Some block =>
      if negb (txs_DeepEqual_root block) then mret (Some errMismatchTxRoot)
      else
        e ← VerifyHeader br now (bk_Header block);
        if bool_decide (e = None \/ e = Some errEmptyCommittedSeals) then mret None else mret e
  end.

Definition Sign (data : string) : engine_error + option SignResult := nodeKey_Sign data.

Definition CheckSignature (data nodeId : string) (sig : option SignResult) : option engine_error :=
  match GetSignatureValidator data sig with
  | (_, Some e) => Some e
  | (signer, None) => if bool_decide (signer <> nodeId) then Some errInvalidSignature else None
  end.

Definition ToConsensus (c : ConsensusData) : engine_error + option (string * string) :=
  match Serialize c with
  | inl e => inl e
  | inr payload => inr (Some ("pbft"%string, payload))
  end.

Definition set_committedSeals (seals : list (option SignResult)) (c : @ConsensusData PF Address)
    : ConsensusData :=
  mkConsensusData seals (cd_Managers c) (cd_Validators c) (MVote c) (VVote c).

Definition writeCommittedSeals (h : Header) (committedSeals : list (option SignResult))
    : engine_error + Header :=
  if (length committedSeals =? 0)%nat then inl errInvalidCommittedSeals
  else
    match FromConsensus (hd_Consensus h) with
    | inl e => inl e
    | inr consensusData =>
        match Serialize (set_committedSeals committedSeals consensusData) with
        | inl e => inl e
        | inr payload => inr (hd_set_Consensus (Some ("pbft"%string, payload)) h)
        end
    end.

(** [Commit]: an error, or the block that its goroutine sends. *)
Definition Commit (proposal : Proposal) (seals : list (option SignResult)) : engine_error + Block :=
  match as_Block proposal with
  | None => inl errInvalidProposal
  | Some block =>
      match writeCommittedSeals (bk_Header block) seals with
      | inl e => inl e
      | inr h => inr (bk_WithSeal block h)
      end
  end.

(** ** Preparing and sealing a block (engine.go) *)

(** [Prepare]: the header and the error. [now1] and [now2] are two readings
    of the clock, [m_order] and [v_order] the enumerations of [getVotes]. *)
Definition Prepare (br : BlockReader) (now now1 now2 : Z) (m_order : list Address)
    (v_order : list string) (header : Header) : M (Header * option engine_error) :=
  let height := hd_Height header in
  match GetHeader br (hd_ParentHash header) (u64 (height - 1)) with
  | None => mret (header, Some (errProtocol ErrUnknownAncestor))
  | Some parent =>
      snap ← snapshot br now (u64 (height - 1)) (hd_ParentHash header) [];
      match snap with
      | inl e => mret (header, Some e)
      | inr q =>
          s ← load_snap q;
          st ← get_state;
          r ← lift (getVotes (voteManager st) height
                (fun a b => Ret (Snapshot_checkMVote s a b))
                (Snapshot_checkVVote (es_heap st) s) m_order v_order);
          modify (set_voteManager r.2);;
          match ToConsensus (mkConsensusData [] [] [] r.1.1 r.1.2) with
          | inl e => mret (hd_set_Consensus None header, Some e)
          | inr c =>
              let period := if BlockPeriod =? 0 then 1 else BlockPeriod in
              let t := u64 (hd_Timestamp parent + period) in
              mret (hd_set_Timestamp (if t <? u64 now1 then u64 now2 else t)
                      (hd_set_Consensus c header), None)
          end
      end
  end.

Definition Finalize (header : Header) : Block := bk_New header.

Definition writeSeal (h : Header) (seal : option SignResult) : engine_error + Header :=
  match seal with
  | None => inl errInvalidSignature
  | Some _ => inr (hd_set_Signature seal h)
  end.

Definition updateBlock (block : Block) : engine_error + Block :=
  let header := bk_Header block in
  match Sign (Hash_Bytes (hd_HashNoSign header)) with
  | inl e => inl e
  | inr seal =>
      match writeSeal header seal with
      | inl e => inl e
      | inr header => inr (bk_WithSeal block header)
      end
  end.

(** [Seal] up to the wait for the block's time: the signed block. When
    [updateBlock] fails it returns a nil block, whose height and hash the
    error path logs. *)
Definition Seal_start (br : BlockReader) (now : Z) (block : Block) : M (engine_error + Block) :=
  let header := bk_Header block in
  let height := hd_Height header in
  snap ← snapshot br now (u64 (height - 1)) (hd_ParentHash header) [];
  match snap with
  | inl e => mret (inl e)
  | inr q =>
      vs ← snap_ValSet q;
      match (Default.GetById vs nodeId).2 with
      | None => mret (inl (errProtocol ErrUnauthorized))
      | Some _ =>
          match GetHeader br (hd_ParentHash header) (u64 (height - 1)) with
          | None => mret (inl (errProtocol ErrUnknownAncestor))
          | Some _ =>
              match updateBlock block with
              | inl e => lift nil_Block_methods;; mret (inl e)
              | inr block => mret (inr block)
              end
          end
      end
  end.

(** ** The API (api.go) *)

Definition GetSnapshot (br : BlockReader) (now : Z) (number : option Z) : M (engine_error + nat) :=
  let header := match number with
                | None => Some (bk_Header (CurrentBlock br))
                | Some n => if n =? LatestBlockNumber then Some (bk_Header (CurrentBlock br))
                            else GetHeaderByNumber br (u64 n)
                end in
  match header with
  | None => mret (inl errUnknownBlock)
  | Some header => snapshot br now (hd_Height header) (hd_Hash header) []
  end.

Definition checkApiVote (br : BlockReader) (now : Z) (data sig : string) (deadline : option Z)
    : M (engine_error + Address) :=
  match sig_Deserialize sig with
  | inl e => mret (inl e)
  | inr signResult =>
      match ecrecoverVote data signResult with
      | inl e => mret (inl e)
      | inr manager =>
          snap ← GetSnapshot br now (Some LatestBlockNumber);
          match snap with
          | inl e => mret (inl e)
          | inr q =>
              d ← load deadline;
              if big_Cmp d LatestBlockNumber <? 0
              then mret (inl (errOther "invalid deadline block number"))
              else
                s ← load_snap q;
                if negb (isManager (sn_vote s) manager)
                then mret (inl (errProtocol ErrUnauthorized))
                else mret (inr manager)
          end
      end
  end.

Definition ProposeManager (br : BlockReader) (now : Z) (address : Address) (auth : bool)
    (deadline : option Z) (sig : string) : M (option engine_error) :=
  r ← checkApiVote br now (encode_propose_manager address auth deadline) sig deadline;
  match r with
  | inl e => mret (Some e)
  | inr manager =>
      modify (fun st => set_voteManager (setMVote (voteManager st) address
        (mkManagementVote manager address auth deadline sig)) st);;
      mret None
  end.

Definition ProposeValidator (br : BlockReader) (now : Z) (i : string) (auth : bool)
    (deadline : option Z) (sig : string) : M (option engine_error) :=
  match models_IDFromString i with
  | Some e => mret (Some e)
  | None =>
      r ← checkApiVote br now (encode_propose_validator i auth deadline) sig deadline;
      match r with
      | inl e => mret (Some e)
      | inr manager =>
          modify (fun st => set_voteManager (setVVote (voteManager st) i
            (mkValidatorVote manager i auth deadline sig)) st);;
          mret None
      end
  end.
End Backend.
