(* ===== verification/BackendSpec.v ===== *)
(** * BackendSpec: validators, block preparation, commits and API votes

    What the core gets from the engine ([getValidators_correct]), what
    [Prepare] puts into a header ([Prepare_correct]), that a committed block
    carries its certificate ([Commit_certifies]), and what the API admits
    ([ProposeManager_correct]). *)

From S2P Require Import Prelude Types Interfaces ValidatorSet Votes VotesLaws Snapshot SnapshotLaws Engine Verification EngineSpec VerificationSpec Backend.

Section BackendSpec.
Context `{PF : Platform} {Address : Type} `{Countable Address} {CH : @Chain PF Address _ _}.
Context {EI : EngineI} {CFG : @EngineConfig Address} {EL : EngineLaws} {BE : BackendE}.
Abbreviation M := (prog (@EState PF Address _ _ CH EI)).
Implicit Types (st : @EState PF Address _ _ CH EI) (br : BlockReader).

(** Setters set, [WithSeal] replaces the header, and decoding inverts
    encoding unless there is a nil among the seals. *)
Class BackendLaws := {
  Timestamp_set t h : hd_Timestamp (hd_set_Timestamp t h) = t;
  Consensus_set c h : hd_Consensus (hd_set_Consensus c h) = c;
  Consensus_set_Timestamp t h : hd_Consensus (hd_set_Timestamp t h) = hd_Consensus h;
  Header_WithSeal b h : bk_Header (bk_WithSeal b h) = h;
  Deserialize_Serialize c p :
    Forall is_Some (Snapshot.CommittedSeal c) -> Serialize c = inr p ->
    Deserialize p = inr c /\ p <> ""%string;
}.
Context {BL : BackendLaws}.

(** ** What the operations on snapshots leave alone *)

Section Keeps.
Context {B : Type} (f : @EState PF Address _ _ CH EI -> B).
Context (f_snaps : forall g n h st, f (set_snaps g n h st) = f st).
Context (f_db : forall db st, f (set_db db st) = f st).
Context (f_snapCache : forall c st, f (set_snapCache c st) = f st).

Lemma keeps_store_snap s : keeps f (store_snap s).
Proof. unfold store_snap. keeps_steps. Qed.

Lemma keeps_new_snap s h : keeps f (new_snap s h).
Proof. unfold new_snap. keeps_steps. Qed.

Lemma keeps_search verify br n height hash parents headers :
  genesis_refused br verify -> keeps f (search verify br n height hash parents headers).
Proof.
  intros Hv. revert height hash parents headers.
  induction n as [|n IH]; intros height hash parents headers; [apply keeps_ret|]. cbn [search].
  apply keeps_bind; [unfold snap_cache_Get; keeps_steps|]. intros [p|]; [apply keeps_ret|].
  apply keeps_bind.
  { unfold from_disk. destruct (_ =? 0); [|apply keeps_ret].
    apply keeps_bind; [auto with pbft|]. intros st. destruct (loadSnapshot _ _ _ _) as [|[s h']];
      [apply keeps_ret|]. apply keeps_bind; [apply keeps_new_snap|auto with pbft]. }
  intros [p|]; [apply keeps_ret|]. destruct (_ <? _); [apply keeps_ret|].
  destruct (_ =? _).
  - apply keeps_bind; [|intros []; apply keeps_ret]. unfold from_genesis.
    intros st r st'. unfold load, lift, deref, mbind at 1, prog_bind at 1.
    destruct (GetHeaderByNumber br GenesisHeight) as [g|] eqn:Eg; [|done].
    unfold mbind at 1, prog_bind at 1. rewrite (Hv _ _ Eg).
    match goal with |- ?m st = _ -> _ => cut (keeps f m); [intros K; apply K|] end.
    destruct (bool_decide _); [apply keeps_ret|].
    apply keeps_bind; [auto with pbft|]. intros st0. cbn -[newSnapshot].
    apply keeps_bind; [apply keeps_new_snap|]. intros q.
    apply keeps_bind; [apply keeps_store_snap|]. intros []; apply keeps_ret.
  - destruct (next_header _ _ _ _) as [[h ps]|]; [apply IH|apply keeps_ret].
Qed.

Lemma keeps_snapshot br now height hash parents :
  reader_ok br -> keeps f (snapshot br now height hash parents).
Proof.
  intros Hbr. unfold snapshot. cbn [snapshot_depth]. unfold snapshot_with.
  apply keeps_bind; [by apply keeps_search, genesis_refused_verifyHeader|].
  intros [[e|[p headers]]|]; [apply keeps_ret| |apply keeps_lift].
  apply keeps_bind.
  { unfold with_snap, load_snap. keeps_steps. }
  intros [e|o]; [apply keeps_ret|]. apply keeps_bind; [auto with pbft|]. intros st.
  apply keeps_bind; [destruct o; [apply keeps_new_snap|apply keeps_ret]|]. intros q.
  apply keeps_bind; [unfold load_snap; keeps_steps|]. intros s.
  apply keeps_bind; [unfold snap_cache_Add; keeps_steps|]. intros _.
  destruct (_ && _); [|apply keeps_ret].
  apply keeps_bind; [apply keeps_store_snap|]. intros []; apply keeps_ret.
Qed.
End Keeps.

(** ** Validators *)

(** A set the engine hands to the core. *)
Definition handed_out st (p : option nat) : Prop :=
  p = None \/ (exists pr, heap_get (es_heap st) p = Ret (with_proposer pr genesis_set)) \/
  heap_get (es_heap st) p = Ret (Default.newDefaultSet [] cfg_ProposerPolicy).

Lemma wlp_new_ValSet ids st B :
  e_ok_at B st ->
  wlp (new_ValSet ids) st (fun p st' => e_ok_at B st' /\
    heap_get (es_heap st') p = Ret (Default.newDefaultSet ids cfg_ProposerPolicy)).
Proof.
  intros Hok. pose proof Hok as (HB & Hs & Hc & Hdb & Hv). unfold new_ValSet. wlp_steps.
  cbn -[Default.newDefaultSet]. wlp_steps. split.
  - split; [apply bases_fresh; [done|by eapply bases_next|done]|].
    split; [|split; [|by split]]; simpl.
    + intros p s E. destruct (Hs p s E). split; [done|]. eapply frozen_mono; [done|]. simpl. lia.
    + exact Hc.
  - unfold heap_get, mbind, outcome_bind; simpl. by rewrite lookup_insert_eq.
Qed.

Lemma wlp_getValidators br now height hash st :
  reader_ok br -> e_ok st ->
  wlp (getValidators br now height hash) st (fun p st' => e_ok st' /\ handed_out st' p).
Proof.
  intros Hbr Hok. unfold getValidators. apply wlp_bind.
  eapply wlp_mono; [by apply wlp_snapshot|]. intros r st1 [Hok1 Hr]. destruct r as [e|q].
  - destruct Hok1 as [B Hok1]. eapply wlp_mono; [by apply wlp_new_ValSet|].
    intros p st2 [Hok2 Ep]. split; [by exists B|]. by right; right.
  - destruct (Hr q eq_refl) as (s & Es & _ & Hf). apply wlp_bind, wlp_load_snap. intros s' Es'.
    assert (s' = s) as -> by congruence. wlp_steps. split; [done|].
    destruct Hf as [->|Hf]; [by left|by right; left].
Qed.

(** The validators the core is given are those of genesis, for the parent
    of a proposal as for the block itself; it gets an empty set when there is
    no snapshot, and none at all when the snapshot comes from the database. *)
Theorem getValidators_correct br now proposal st p st' :
  reader_ok br -> e_ok st ->
  Validators br now proposal st = Ret (p, st') \/
  ParentValidators br now proposal st = Ret (p, st') ->
  e_ok st' /\ handed_out st' p.
Proof.
  intros Hbr Hok [E|E].
  - by apply (wlp_getValidators _ _ _ _ _ Hbr Hok) in E.
  - unfold ParentValidators in E. destruct (as_Block proposal) as [b|].
    + by apply (wlp_getValidators _ _ _ _ _ Hbr Hok) in E.
    + destruct Hok as [B Hok]. apply (wlp_new_ValSet [] st B Hok) in E as [Hok' Ep].
      split; [by exists B|]. by right; right.
Qed.

(** ** Commit *)

Lemma Commit_data proposal seals b block data :
  as_Block proposal = Some block -> FromConsensus (hd_Consensus (bk_Header block)) = inr data ->
  Forall is_Some seals -> Commit proposal seals = inr b ->
  FromConsensus (hd_Consensus (bk_Header b)) = inr (set_committedSeals seals data).
Proof.
  intros Eb Ed Hseals. unfold Commit. rewrite Eb. unfold writeCommittedSeals. rewrite Ed.
  destruct (length seals =? 0)%nat; [done|].
  destruct (Serialize _) as [e|p] eqn:Ep; [done|]. intros [= <-].
  rewrite Header_WithSeal, Consensus_set.
  destruct (Deserialize_Serialize (set_committedSeals seals data) _ Hseals Ep) as [Edp Hp].
  unfold FromConsensus. cbn -[String.length Deserialize].
  destruct p as [|c p]; [done|]. simpl (String.length _ =? 0)%nat. exact Edp.
Qed.

(** With signed votes, a certificate is a quorum of seals. *)
Lemma certified_seals h hash seals data :
  hd_Hash h = hash -> FromConsensus (hd_Consensus h) = inr (set_committedSeals seals data) ->
  (forall v, MVote data = Some v -> check_MVote v = None) ->
  (forall v, VVote data = Some v -> check_VVote v = None) ->
  certified h <-> check_seals genesis_set hash seals = None.
Proof.
  intros <- E Hm Hv. unfold certified. rewrite E. split.
  - intros (data' & [= <-] & _ & _ & Hs). exact Hs.
  - intros Hs. by exists (set_committedSeals seals data).
Qed.


(** ** Preparing a block *)

Lemma keeps_wlp {A B} (f : EState -> B) (m : M A) st (Q : A -> EState -> Prop) :
  keeps f m -> wlp m st (fun a st' => f st' = f st -> Q a st') -> wlp m st Q.
Proof. intros Hk Hm a st' E. by eapply Hm, Hk. Qed.

(** What a vote of [getVotes] satisfies. *)
Definition usable_vote s (height : Z) (addr : Address) (v : @ManagementVote Address) : Prop :=
  Snapshot_checkMVote s addr (mv_Authorize v) = true /\
  exists d, mv_DeadlineHeight v = Some d /\ height < big_Uint64 d.

Lemma pick_vote_usable {K V} `{Countable K} (check : K -> V -> outcome bool) order m r m' :
  pick_vote check order m = Ret (r, m') ->
  m' ⊆ m /\ forall v, r = Some v -> exists k, m !! k = Some v /\ check k v = Ret true.
Proof.
  revert m. induction order as [|k order IH]; intros m; cbn [pick_vote]; [by intros [= <- <-]|].
  destruct (m !! k) as [v|] eqn:Ek; [|by apply IH].
  unfold mbind, outcome_bind. destruct (check k v) as [[]|] eqn:Ec; [| |done].
  - intros [= <- <-]. split; [done|]. intros v' [= <-]. by exists k.
  - intros E. apply IH in E as [Hs Hv].
    split; [by etrans; [|apply delete_subseteq]|]. intros v' E. destruct (Hv v' E) as (j & Hj & Hc).
    exists j. split; [|done]. by apply lookup_delete_Some in Hj as [].
Qed.

(** C29. A header that [Prepare] fills has a parent on the chain, its time is
    that of the parent plus a period or a reading of the clock that is at
    least the first one when the clock does not go back, so that it passes
    the check of [verifyCascadingFields]; it carries consensus data without
    seals and at most one vote on managers, which is one the node proposes,
    not past its deadline and acceptable to the parent's snapshot. *)
Theorem Prepare_correct br now now1 now2 m_order v_order header h' st st' :
  reader_ok br -> e_ok st -> u64 now1 <= u64 now2 ->
  Prepare br now now1 now2 m_order v_order header st = Ret ((h', None), st') ->
  exists parent s q data,
    GetHeader br (hd_ParentHash header) (u64 (hd_Height header - 1)) = Some parent /\
    u64 (hd_Timestamp parent + block_period) <= hd_Timestamp h' /\
    u64 now1 <= hd_Timestamp h' /\
    es_snaps st' !! q = Some s /\ asked br (u64 (hd_Height header - 1)) (hd_ParentHash header) s /\
    FromConsensus (hd_Consensus h') = inr data /\ CommittedSeal data = [] /\
    forall v, MVote data = Some v -> exists addr,
      mCandidate (voteManager st) !! addr = Some v /\ usable_vote s (hd_Height header) addr v.
Proof.
  intros Hbr Hok Hnow. unfold Prepare. fold block_period.
  destruct (GetHeader br _ _) as [parent|]; [|done].
  match goal with |- ?m st = _ -> _ => cut (wlp m st (fun r st' => r = (h', None) ->
    exists parent0 s q data, Some parent = Some parent0 /\
    u64 (hd_Timestamp parent0 + block_period) <= hd_Timestamp h' /\
    u64 now1 <= hd_Timestamp h' /\
    es_snaps st' !! q = Some s /\ asked br (u64 (hd_Height header - 1)) (hd_ParentHash header) s /\
    FromConsensus (hd_Consensus h') = inr data /\ CommittedSeal data = [] /\
    forall v, MVote data = Some v -> exists addr,
      mCandidate (voteManager st) !! addr = Some v /\ usable_vote s (hd_Height header) addr v)) end.
  { intros Hw E. by apply (Hw _ _ E). }
  apply wlp_bind. eapply (keeps_wlp voteManager); [by apply keeps_snapshot|].
  eapply wlp_mono; [by apply wlp_snapshot|]. intros r st1 [Hok1 Hr] Ev.
  destruct r as [e|q]; [by wlp_steps|]. destruct (Hr q eq_refl) as (s & Es & Ha & _).
  apply wlp_bind, wlp_load_snap. intros s' Es'. assert (s' = s) as -> by congruence.
  apply wlp_bind, wlp_get_state, wlp_bind, wlp_lift. intros [[mv vv] vm] Eg.
  apply wlp_bind, wlp_modify. cbn [fst snd].
  destruct (ToConsensus _) as [e|c] eqn:Ec; wlp_steps; intros [= <-].
  exists parent, s, q, (mkConsensusData [] [] [] mv vv). split; [done|].
  rewrite Timestamp_set, Consensus_set_Timestamp, Consensus_set.
  set (t := u64 (hd_Timestamp parent + block_period)).
  split; [destruct (Z.ltb_spec t (u64 now1)); lia|].
  split; [destruct (Z.ltb_spec t (u64 now1)); lia|].
  split; [done|]. split; [done|]. split; [|split; [done|]].
  - unfold ToConsensus in Ec. destruct (Serialize _) as [e|p] eqn:Ep; [done|]. injection Ec as <-.
    destruct (Deserialize_Serialize (mkConsensusData [] [] [] mv vv) p (Forall_nil_2 _) Ep) as [Ed Hp]. unfold FromConsensus.
    cbn -[String.length Deserialize]. destruct p as [|c p]; [done|]. exact Ed.
  - cbn [MVote]. intros v ->. unfold getVotes in Eg. rewrite Ev in Eg.
    unfold mbind, outcome_bind in Eg.
    destruct (pick_vote _ m_order _) as [[mv' mc]|] eqn:Em; [|done].
    destruct (pick_vote _ v_order _) as [[vv' vc]|]; [|done]. injection Eg as -> _ _.
    apply pick_vote_usable in Em as [_ Hu]. destruct (Hu v eq_refl) as (addr & Hm & Hc).
    exists addr. split; [done|]. unfold vote_current in Hc.
    destruct (Snapshot_checkMVote s addr (mv_Authorize v)) eqn:Ek; [|done]. split; [done|].
    destruct (mv_DeadlineHeight v) as [d|]; [|done]. exists d. split; [done|].
    injection Hc as Hc. by apply Z.ltb_lt.
Qed.

(** ** Sealing a block *)

(** [Seal] signs a block only if the node is one of the genesis
    validators and the parent is on the chain: the block it goes on with is
    the given one with the node's signature on its hash in the header. If it
    cannot be signed, [Seal] calls methods of the nil block it was left with,
    and panics if they do. *)
Theorem Seal_start_correct br now block st st' :
  reader_ok br -> e_ok st ->
  let header := bk_Header block in
  (forall b, Seal_start br now block st = Ret (inr b, st') ->
     nodeId ∈ cfg_Validators /\
     is_Some (GetHeader br (hd_ParentHash header) (u64 (hd_Height header - 1))) /\
     exists sig, nodeKey_Sign (Hash_Bytes (hd_HashNoSign header)) = inr (Some sig) /\
       b = bk_WithSeal block (hd_set_Signature (Some sig) header)) /\
  (forall e q, nil_Block_methods = Panic -> updateBlock block = inl e ->
     nodeId ∈ cfg_Validators ->
     is_Some (GetHeader br (hd_ParentHash header) (u64 (hd_Height header - 1))) ->
     snapshot br now (u64 (hd_Height header - 1)) (hd_ParentHash header) [] st = Ret (inr q, st') ->
     exists who, Seal_start br now block st = Fail who).
Proof.
  intros Hbr Hok header.
  assert (Hin : forall pr, is_Some (Default.GetById (with_proposer pr genesis_set) nodeId).2 <->
            nodeId ∈ cfg_Validators).
  { intros pr. change (Default.GetById (with_proposer pr genesis_set)) with (Default.GetById genesis_set).
    rewrite <- genesis_ids. apply Default.GetById_member. }
  split.
  - intros b. unfold Seal_start. fold header.
    match goal with |- ?m st = Ret (inr b, st') -> ?P => cut (wlp m st (fun r _ => r = inr b -> P)) end.
    { intros Hw E. by apply (Hw _ _ E). }
    apply wlp_bind. eapply wlp_mono; [by apply wlp_snapshot|]. intros r st1 [Hok1 Hr].
    destruct r as [e|q]; [by wlp_steps|]. destruct (Hr q eq_refl) as (s & Es & _ & Hf).
    apply wlp_bind, (wlp_snap_ValSet q s); [done|done|]. intros pr.
    destruct (Default.GetById (with_proposer pr genesis_set) nodeId).2 as [v|] eqn:Eg; [|by wlp_steps].
    assert (nodeId ∈ cfg_Validators) as Hn by (apply (Hin pr); by rewrite Eg).
    destruct (GetHeader br _ _) as [parent|]; [|by wlp_steps].
    unfold updateBlock, Sign, writeSeal. fold header.
    destruct (nodeKey_Sign _) as [e|[sig|]]; wlp_steps; try done. intros [= <-].
    split; [done|]. split; [by eexists|]. by exists sig.
  - intros e q Hnil He Hn [parent Hp] Eq.
    pose proof (wlp_snapshot br now _ _ [] st Hbr Hok _ _ Eq) as [Hok1 Hr].
    destruct (Hr q eq_refl) as (s & Es & _ & Hf). unfold Seal_start. fold header.
    unfold mbind, prog_bind. rewrite Eq.
    destruct (snap_ValSet q st') as [[vs st2]|who] eqn:Ev; [|by exists who].
    assert (exists pr, vs = with_proposer pr genesis_set) as [pr ->].
    { apply (wlp_snap_ValSet q s st' (fun vs _ => exists pr, vs = with_proposer pr genesis_set) Es Hf)
        in Ev; [done|]. intros pr. by exists pr. }
    destruct (proj2 (Hin pr) Hn) as [v Hv]. rewrite Hv, Hp.
    rewrite He. unfold lift. rewrite Hnil. by eexists.
Qed.

(** ** The API *)

(** C30. [ProposeManager], when it accepts: the vote is filed under the
    candidate in the name of an account that signed it and that is a manager
    in the snapshot of the current block; the other votes are unchanged. When
    it refuses, no vote changes. The deadline is compared with the constant
    that stands for the latest block, not with the height of the block. *)
Theorem ProposeManager_correct br now address auth deadline sig st e st' :
  reader_ok br -> e_ok st ->
  ProposeManager br now address auth deadline sig st = Ret (e, st') ->
  match e with
  | Some _ => voteManager st' = voteManager st
  | None => exists manager q s d sr,
      voteManager st' = setMVote (voteManager st) address
        (mkManagementVote manager address auth deadline sig) /\
      sig_Deserialize sig = inr sr /\
      ecrecoverVote (encode_propose_manager address auth deadline) sr = inr manager /\
      es_snaps st' !! q = Some s /\
      asked br (hd_Height (bk_Header (CurrentBlock br))) (hd_Hash (bk_Header (CurrentBlock br))) s /\
      isManager (sn_vote s) manager = true /\
      deadline = Some d /\ LatestBlockNumber <= d
  end.
Proof.
  intros Hbr Hok. revert e st'. unfold ProposeManager.
  match goal with |- forall e st', ?m st = Ret (e, st') -> ?P => change (wlp m st (fun e st' => P)) end.
  unfold checkApiVote. apply wlp_bind.
  destruct (sig_Deserialize sig) as [e|sr] eqn:Esr; [by wlp_steps|].
  destruct (ecrecoverVote _ sr) as [e|manager] eqn:Erv; [by wlp_steps|].
  apply wlp_bind. unfold GetSnapshot. rewrite Z.eqb_refl.
  eapply (keeps_wlp voteManager); [by apply keeps_snapshot|].
  eapply wlp_mono; [by apply wlp_snapshot|]. intros r st1 [Hok1 Hr] Ev.
  destruct r as [e|q]; [by wlp_steps|]. destruct (Hr q eq_refl) as (s & Es & Ha & _).
  apply wlp_bind, wlp_load. intros d Ed.
  destruct (Z.ltb_spec (big_Cmp d LatestBlockNumber) 0) as [|Hd]; [by wlp_steps|].
  apply wlp_bind, wlp_load_snap. intros s' Es'. assert (s' = s) as -> by congruence.
  destruct (negb _) eqn:Em; [by wlp_steps|]. apply negb_false_iff in Em. wlp_steps.
  exists manager, q, s, d, sr. cbn. rewrite Ev. do 7 (split; [done|]).
  destruct (big_Cmp_spec d LatestBlockNumber) as [[? E]|[[? E]|[? E]]]; lia.
Qed.
End BackendSpec.
