(* ===== verification/EngineFrame.v ===== *)
(** * EngineFrame: every operation of the engine keeps its invariant

    The operations of [Backend], whoever calls them and in whatever order,
    preserve the invariant [e_ok] of [EngineSpec]: the validators in force
    remain those of genesis, and the caches and the database remain filed
    under the right keys. *)

From S2P Require Import Prelude Types Interfaces ValidatorSet Votes Snapshot SnapshotLaws Engine Verification EngineSpec VerificationSpec Backend BackendSpec.

Section EngineFrame.
Context `{PF : Platform} {Address : Type} `{Countable Address} {CH : @Chain PF Address _ _}.
Context {EI : EngineI} {CFG : @EngineConfig Address} {BE : BackendE} {EL : EngineLaws}.
Context (br : @BlockReader PF Address _ _ CH EI) (Hbr : reader_ok br) (now : Z).
Abbreviation presE := (pres e_ok).

Lemma pres_snapshot height hash parents : presE (snapshot br now height hash parents).
Proof. intros st Hok. eapply wlp_mono; [by apply wlp_snapshot|]. by intros r st' []. Qed.

Lemma pres_ecrecover h : presE (ecrecover h).
Proof.
  intros st [B Hok]. eapply wlp_mono; [by apply wlp_ecrecover|]. intros r st' [Hok' _]. by exists B.
Qed.

Lemma pres_new_ValSet ids : presE (new_ValSet ids).
Proof.
  intros st [B Hok]. eapply wlp_mono; [by apply wlp_new_ValSet|]. intros p st' [Hok' _]. by exists B.
Qed.

Lemma pres_load_snap q : presE (load_snap q).
Proof. unfold load_snap. pres_steps. Qed.

(** The votes the node proposes are not part of the invariant. *)
Lemma pres_voteManager f : presE (modify (fun st => set_voteManager (f st) st)).
Proof. apply pres_modify. intros st Hok. exact Hok. Qed.

Hint Resolve pres_snapshot pres_ecrecover pres_new_ValSet pres_load_snap pres_voteManager : pres.

Lemma pres_snap_ValSet q : presE (snap_ValSet q).
Proof. unfold snap_ValSet. pres_steps. Qed.
Hint Resolve pres_snap_ValSet : pres.

Lemma pres_verifySigner h parents : presE (verifySigner (snapshot br now) h parents).
Proof. unfold verifySigner. pres_steps. Qed.

Lemma pres_verifyCommittedSeals h parents :
  presE (verifyCommittedSeals (snapshot br now) h parents).
Proof. unfold verifyCommittedSeals. pres_steps. Qed.
Hint Resolve pres_verifySigner pres_verifyCommittedSeals : pres.

Lemma pres_VerifyHeader h : presE (VerifyHeader br now h).
Proof. unfold VerifyHeader, verifyHeader, verifyCascadingFields. pres_steps. Qed.
Hint Resolve pres_VerifyHeader : pres.

Lemma pres_getValidators height hash : presE (getValidators br now height hash).
Proof. unfold getValidators. pres_steps. Qed.
Hint Resolve pres_getValidators : pres.

Lemma pres_Validators p : presE (Validators br now p).
Proof. unfold Validators. pres_steps. Qed.

Lemma pres_ParentValidators p : presE (ParentValidators br now p).
Proof. unfold ParentValidators. pres_steps. Qed.

Lemma pres_LastProposal : presE (LastProposal br).
Proof. unfold LastProposal, Author. pres_steps. Qed.

Lemma pres_GetProposer height : presE (pbftEngine_GetProposer br height).
Proof. unfold pbftEngine_GetProposer, Author. pres_steps. Qed.

Lemma pres_Verify p : presE (Verify br now p).
Proof. unfold Verify. pres_steps. Qed.

Lemma pres_Prepare now1 now2 m_order v_order h :
  presE (Prepare br now now1 now2 m_order v_order h).
Proof. unfold Prepare. pres_steps. Qed.

Lemma pres_Seal_start b : presE (Seal_start br now b).
Proof. unfold Seal_start. pres_steps. Qed.

Lemma pres_GetSnapshot number : presE (GetSnapshot br now number).
Proof. unfold GetSnapshot. pres_steps. Qed.
Hint Resolve pres_GetSnapshot : pres.

Lemma pres_checkApiVote data sig deadline : presE (checkApiVote br now data sig deadline).
Proof. unfold checkApiVote. pres_steps. Qed.
Hint Resolve pres_checkApiVote : pres.

Lemma pres_ProposeManager address auth deadline sig :
  presE (ProposeManager br now address auth deadline sig).
Proof. unfold ProposeManager. pres_steps. Qed.

Lemma pres_ProposeValidator i auth deadline sig :
  presE (ProposeValidator br now i auth deadline sig).
Proof. unfold ProposeValidator. pres_steps. Qed.
End EngineFrame.

#[export] Hint Resolve pres_snapshot pres_Validators pres_ParentValidators pres_LastProposal
  pres_GetProposer pres_Verify pres_VerifyHeader pres_Prepare pres_Seal_start pres_GetSnapshot
  pres_ProposeManager pres_ProposeValidator : pres.
