(* ===== verification/Restart.v ===== *)
(** * Restart: a node that is started again

    The snapshot that a node stores for the genesis block has no validators
    when it is read back ([load_db_ok]); a search for a snapshot that starts
    from empty caches ends there or at a later stored snapshot, and applying
    headers to it does not bring the validators back.  What the engine hands
    to the core is nil where the search succeeds, as it does at the genesis
    block, and an empty set where it fails. *)

From S2P Require Import Prelude Types Interfaces ValidatorSet Votes Snapshot SnapshotLaws Engine Verification EngineSpec VerificationSpec Backend BackendSpec.

Section Restart.
Context `{PF : Platform} {Address : Type} `{Countable Address} {CH : @Chain PF Address _ _}.
Context {EI : EngineI} {CFG : @EngineConfig Address} {BE : BackendE} {EL : EngineLaws}.
Implicit Types (st : @EState PF Address _ _ CH EI).
Context (br : @BlockReader PF Address _ _ CH EI) (g : Header) (db : Database).

(** The chain: a genesis block, whose height is a checkpoint, and blocks on
    top of it; its snapshot is stored. *)
Record restarting : Prop := {
  re_genesis : GetHeaderByNumber br GenesisHeight = Some g;
  re_height : 0 <= GenesisHeight;
  re_checkpoint : GenesisHeight mod checkpointInterval = 0;
  re_linked : forall hash h, GetHeader br hash (GenesisHeight + 1) = Some h ->
    hd_ParentHash h = hd_Hash g;
  re_stored : forall h, exists r, loadSnapshot cfg_Epoch db (hd_Hash g) h = inr r;
}.
Context (RE : restarting).

(** No snapshot in memory has validators, or a logger. *)
Definition bare (s : @Snapshot PF Address _ _) : Prop := sn_ValSet s = None /\ sn_log s = None.

Definition all_bare st : Prop :=
  es_db st = db /\ forall p s, es_snaps st !! p = Some s -> bare s.

Lemma all_bare_insert st p s n h :
  all_bare st -> bare s -> all_bare (set_snaps (<[p := s]>) n h st).
Proof.
  intros [Hd Hs] Hb. split; [done|]. intros q s'. simpl.
  rewrite lookup_insert_Some. intros [[_ <-]|[_ E]]; [done|by eapply Hs].
Qed.

(** Storing such a snapshot panics. *)
Lemma wlp_store_bare s st (Q : option engine_error -> EState -> Prop) :
  bare s -> (forall e, Q (Some e) st) -> wlp (store_snap s) st Q.
Proof.
  intros [_ Hlog] HQ. unfold store_snap. wlp_steps.
  match goal with E : Store _ _ _ = Ret ?x |- _ => revert E; destruct x as [e d] end.
  unfold Store. destruct (Snapshot_toJSONStruct _ _) as [j|]; [|done]. cbn.
  destruct (json_Marshal _) as [e'|blob]; [|by rewrite Hlog].
  intros [= <- <-]. cbn. replace (set_db (es_db st) st) with st by by destruct st. apply HQ.
Qed.

Lemma wlp_from_disk_bare height hash st :
  all_bare st ->
  wlp (from_disk height hash) st (fun found st' => all_bare st' /\
    (height = GenesisHeight -> hash = hd_Hash g -> found <> None)).
Proof.
  intros Hb. pose proof Hb as [Hd _]. unfold from_disk.
  destruct (Z.eqb_spec (height mod checkpointInterval) 0) as [Hz|Hz].
  2: { wlp_steps. split; [done|]. intros ->. by destruct Hz, RE. }
  wlp_step. apply wlp_get_state. rewrite Hd.
  destruct (loadSnapshot cfg_Epoch db hash (es_heap st)) as [e|[s h']] eqn:El.
  { wlp_steps. split; [done|]. intros _ ->. destruct (re_stored RE (es_heap st)) as [r Er]. congruence. }
  unfold new_snap. wlp_steps. split; [|done]. apply all_bare_insert; [done|].
  unfold loadSnapshot in El. destruct (db_Get _ _) as [|blob]; [done|].
  unfold Snapshot_UnmarshalJSON in El. destruct (json_Unmarshal blob) as [|j]; [done|].
  destruct (fromJSONStruct _ _) as [v h0]. by injection El as <- _.
Qed.

Lemma wlp_search_bare verify n height hash headers st :
  height < 2 ^ 64 -> (height = GenesisHeight -> hash = hd_Hash g) -> all_bare st ->
  wlp (search verify br n height hash [] headers) st (fun _ st' => all_bare st').
Proof.
  revert height hash headers st. induction n as [|n IH]; intros height hash headers st Hlt Hg Hb.
  { by apply wlp_ret. }
  cbn [search]. unfold snap_cache_Get. wlp_steps.
  set (r := cache_Get _ _). destruct r.1 as [p|]; [by wlp_steps|].
  wlp_step. eapply wlp_mono; [by apply wlp_from_disk_bare|]. intros [p|] st1 [Hb1 Hf]; [by wlp_steps|].
  destruct (Z.ltb_spec height GenesisHeight); [by wlp_steps|].
  destruct (Z.eqb_spec height GenesisHeight) as [E|Hne]; [by destruct (Hf E (Hg E))|].
  unfold next_header. cbn [last]. destruct (GetHeader br hash height) as [h|] eqn:Eh; cbn; [|by wlp_steps].
  pose proof (re_height RE). rewrite u64_small by (unfold in_u64; lia).
  apply IH; [lia| |done]. intros E. eapply (re_linked RE hash).
  by replace (GenesisHeight + 1) with height by lia.
Qed.

Lemma wlp_Apply_bare p headers st :
  all_bare st -> wlp (with_snap p (Apply headers)) st (fun r st' => all_bare st' /\
    forall s, r = inr (Some s) -> bare s).
Proof.
  intros Hb. unfold with_snap, load_snap. wlp_steps.
  match goal with E : es_snaps st !! p = Some ?x |- _ => rename x into s, E into Es end.
  match goal with E : Apply _ _ = Ret ?x |- _ => destruct x as [r st1]; rename E into Ea end.
  pose proof Hb as [_ Hs]. pose proof (Hs _ _ Es) as [Hv Hl].
  destruct (Apply_fields _ _ _ _ Ea) as (Er & _ & Hsnap).
  injection Er as E1 E2 E3 E4. split.
  - apply all_bare_insert; [done|]. split; simpl; congruence.
  - intros snap E. simpl in E. destruct (Hsnap snap E) as (E5 & E6 & _).
    cbn [ssnap] in E5, E6. split; congruence.
Qed.

Lemma wlp_snapshot_bare now height hash st :
  height < 2 ^ 64 -> (height = GenesisHeight -> hash = hd_Hash g) -> all_bare st ->
  wlp (snapshot br now height hash []) st (fun r st' => all_bare st' /\
    forall q s, r = inr q -> es_snaps st' !! q = Some s -> sn_ValSet s = None).
Proof.
  intros Hlt Hg Hb. unfold snapshot. cbn [snapshot_depth]. unfold snapshot_with.
  wlp_step. eapply wlp_mono; [by apply wlp_search_bare|]. intros r st1 Hb1.
  destruct r as [[e|[p headers]]|]; [by wlp_steps| |by wlp_steps].
  wlp_step. eapply wlp_mono; [by apply wlp_Apply_bare|]. intros res st2 [Hb2 Hsnap].
  destruct res as [e|o]; [by wlp_steps|]. wlp_step. apply wlp_get_state. wlp_step.
  apply (wlp_mono _ _ (fun _ st' => all_bare st')).
  { destruct o as [s|]; [|by wlp_steps]. unfold new_snap. wlp_steps.
    apply all_bare_insert; [done|by apply Hsnap]. }
  intros q st3 Hb3. wlp_step. apply wlp_load_snap. intros s Es.
  unfold snap_cache_Add. wlp_steps. set (st4 := set_snapCache _ st3).
  assert (Hb4 : all_bare st4) by exact Hb3.
  assert (Hs : bare s) by by apply Hb3 in Es.
  assert (HQ : forall q' s', (inr q : engine_error + nat) = inr q' -> es_snaps st4 !! q' = Some s' ->
    sn_ValSet s' = None).
  { intros q' s' [= <-] Es'. by apply Hb3 in Es' as []. }
  destruct (_ && _); [|by wlp_steps]. wlp_step. apply wlp_store_bare; [done|].
  intros e. by wlp_steps.
Qed.

(** After a restart the engine has no validators to hand out: an empty set
    when the search fails, nil when it succeeds. *)
Lemma wlp_getValidators_bare now height hash st :
  height < 2 ^ 64 -> (height = GenesisHeight -> hash = hd_Hash g) -> all_bare st ->
  wlp (getValidators br now height hash) st (fun p st' =>
    p = None \/ heap_get (es_heap st') p = Ret (Default.newDefaultSet [] cfg_ProposerPolicy)).
Proof.
  intros Hlt Hg Hb. unfold getValidators. wlp_step.
  eapply wlp_mono; [by apply wlp_snapshot_bare|]. intros r st1 [Hb1 Hr]. destruct r as [e|q].
  - unfold new_ValSet. wlp_steps. cbn -[Default.newDefaultSet]. wlp_steps. right.
    unfold heap_get, mbind, outcome_bind; simpl. by rewrite lookup_insert_eq.
  - wlp_step. apply wlp_load_snap. intros s Es. wlp_steps. left. by eapply Hr.
Qed.

(** At the genesis block the search succeeds. *)
Lemma wlp_search_genesis verify n headers st :
  all_bare st ->
  wlp (search verify br (S n) GenesisHeight (hd_Hash g) [] headers) st (fun r st' =>
    all_bare st' /\ exists p, r = Some (inr (p, headers))).
Proof.
  intros Hb. cbn [search]. unfold snap_cache_Get. wlp_steps.
  set (r := cache_Get _ _). destruct r.1 as [p|]; [wlp_steps; by eauto|].
  wlp_step. eapply wlp_mono; [by apply wlp_from_disk_bare|].
  intros [p|] st1 [Hb1 Hf]; [wlp_steps; by eauto|by destruct Hf].
Qed.

Lemma wlp_getValidators_genesis now height hash st :
  height = GenesisHeight -> hash = hd_Hash g -> all_bare st ->
  wlp (getValidators br now height hash) st (fun p _ => p = None).
Proof.
  intros -> -> Hb. unfold getValidators, snapshot. cbn [snapshot_depth]. unfold snapshot_with, search_fuel.
  wlp_step. wlp_step. eapply wlp_mono; [by apply wlp_search_genesis|].
  intros r st1 [Hb1 [p ->]]. wlp_step. eapply wlp_mono.
  { apply (wlp_mono _ _ (fun r st' => all_bare st' /\ r = inr None)); [|exact (fun _ _ H => H)].
    intros r st' E. destruct (wlp_Apply_bare p [] st1 Hb1 _ _ E) as [Hb2 _]. split; [done|].
    revert E. unfold with_snap, load_snap, mbind, prog_bind, get_state, load, lift. cbn.
    destruct (es_snaps st1 !! p); [|done]. cbn. by intros [= <- _]. }
  intros r st2 [Hb2 ->]. wlp_steps. apply wlp_load_snap. intros s Es. unfold snap_cache_Add.
  wlp_steps. rewrite andb_false_r. wlp_steps. apply wlp_load_snap. intros s' Es'. wlp_steps.
  by apply Hb2 in Es' as [].
Qed.

Lemma new_engine_bare : all_bare (new_engine db).
Proof. by split. Qed.

(** Recovering the author of the head does not change that. *)
Lemma wlp_LastProposal_bare st :
  all_bare st -> wlp (LastProposal br) st (fun _ st' => all_bare st').
Proof.
  intros Hb. unfold LastProposal. destruct (_ <? _); [|by wlp_steps].
  wlp_step. unfold Author, ecrecover. wlp_steps. destruct (_.1) as [i|].
  - by wlp_steps.
  - destruct (GetSignatureValidator _ _) as [i [e|]]; by wlp_steps.
Qed.
End Restart.
