(* ===== verification/Sealing.v ===== *)
(** * Sealing: waiting for the committed block

    The part of [Seal] (engine.go) after the block is signed: the delay, the
    request to the core, and the goroutine that clears [commitCh] and waits
    for the committed block, interleaved with the goroutines of [Commit]
    (pbft.go) that send on [commitCh]. An event is one step of one of them;
    [seal_step] is the state after it, if it can happen. The channel [commitCh]
    holds one block; [results] is the caller's channel. This is the view of one
    call: what another call does to the shared fields is the events [steal] and
    [repropose]; [Seals] has all calls and the lock between them. *)

From S2P Require Import Prelude Types Interfaces Snapshot Engine.

Section Sealing.
Context `{PF : Platform} {Address : Type} `{Countable Address} {CH : @Chain PF Address _ _}.
Context {EI : EngineI}.

(** Where the call to [Seal] is: in its first [select], about to call
    [Request], in [clearCommitChannel], in the last [select], done. *)
Inductive phase := Delay | Requesting | Clearing | Waiting | Finished.

Record seal_state := mkSeal {
  ph : phase;
  commitCh : option Block;
  results : list (option Block);
  proposed : Hash;
}.

Inductive seal_event :=
| timer                        (* the delay is over *)
| ctx_done                     (* the context is cancelled *)
| request_result (ok : bool)   (* [pbftCore.Request] returns *)
| drain                        (* [clearCommitChannel] takes a block *)
| drain_end                    (* it finds the channel empty *)
| receive                      (* a block is taken from [commitCh] *)
| commit (b : Block)           (* a goroutine of [Commit] runs *)
| steal                        (* another call takes the block from [commitCh] *)
| repropose (h : Hash).        (* another call sets [proposedBlockHash] *)

Definition finish (r : option Block) (p : Hash) (ch : option Block) (s : seal_state) : seal_state :=
  mkSeal Finished ch (results s ++ [r]) p.

(** The goroutine of [Commit]: a block that finds the channel full is lost. *)
Definition send_commit (b : Block) (ch : option Block) : option Block :=
  match ch with None => Some b | Some _ => ch end.

(** [block] is the block being sealed. *)
Definition seal_step (block : Block) (e : seal_event) (s : seal_state) : option seal_state :=
  match e, ph s, commitCh s with
  | timer, Delay, ch => Some (mkSeal Requesting ch (results s) (bk_Hash block))
  | ctx_done, Delay, ch => Some (finish None (proposed s) ch s)
  | request_result true, Requesting, ch => Some (mkSeal Clearing ch (results s) (proposed s))
  | request_result false, Requesting, ch => Some (finish None (proposed s) ch s)
  | drain, Clearing, Some _ => Some (mkSeal Clearing None (results s) (proposed s))
  | drain_end, Clearing, None => Some (mkSeal Waiting None (results s) (proposed s))
  | receive, Waiting, Some b =>
      Some (finish (if bool_decide (bk_Hash block = bk_Hash b) then Some b else None)
              ZeroHash None s)
  | ctx_done, Waiting, ch => Some (finish None ZeroHash ch s)
  | commit b, p, ch => Some (mkSeal p (send_commit b ch) (results s) (proposed s))
  | steal, p, Some _ => Some (mkSeal p None (results s) (proposed s))
  | repropose h, p, ch => Some (mkSeal p ch (results s) h)
  | _, _, _ => None
  end.

Fixpoint seal_run (block : Block) (es : list seal_event) (s : seal_state) : option seal_state :=
  match es with
  | [] => Some s
  | e :: es => seal_step block e s ≫= seal_run block es
  end.

(** A call starts with whatever an earlier one left in the channel. *)
Definition start (ch : option Block) (p : Hash) : seal_state := mkSeal Delay ch [] p.

Definition commits (es : list seal_event) : list Block :=
  omap (fun e => match e with commit b => Some b | _ => None end) es.

(** ** The delay

    [time.Unix(int64(header.Timestamp), 0).Sub(time.Now())] in nanoseconds;
    [Sub] saturates. *)
Definition seal_delay (timestamp now : Z) : Z :=
  Z.max (- 2 ^ 63) (Z.min (i64 timestamp * 10 ^ 9 - now) (2 ^ 63 - 1)).

(** The delay reads the timestamp as seconds. For a timestamp in
    milliseconds, the unit of the clock that [Prepare] and [verifyHeader]
    compare it with, that is not before the current time [now] (in
    nanoseconds), the delay is the longest duration there is, 292 years: a
    block whose time has come is never handed to the core. *)
Theorem seal_delay_saturates timestamp now :
  10 ^ 10 <= timestamp < 2 ^ 63 -> now / 10 ^ 6 <= timestamp ->
  seal_delay timestamp now = 2 ^ 63 - 1.
Proof.
  intros Ht Hn. unfold seal_delay. rewrite i64_small by lia.
  assert (now < (timestamp + 1) * 10 ^ 6) by lia_div. lia.
Qed.

(** ** One result, and the right one *)

(** [cs]: the blocks committed so far. *)
Definition seal_ok (block : Block) (cs : list Block) (s : seal_state) : Prop :=
  match ph s with
  | Finished => exists r, results s = [r] /\
      forall b, r = Some b -> bk_Hash b = bk_Hash block /\ b ∈ cs
  | Waiting => results s = [] /\ (forall b, commitCh s = Some b -> b ∈ cs)
  | _ => results s = []
  end.

Lemma step_ok block e cs s s' :
  seal_ok block cs s -> seal_step block e s = Some s' -> seal_ok block (cs ++ commits [e]) s'.
Proof.
  destruct s as [p ch res pr]. unfold seal_ok, seal_step; simpl.
  assert (Hnil : cs ++ [] = cs) by by rewrite app_nil_r.
  destruct e as [| |[]| | | |b| |h]; destruct p, ch as [b0|]; intros Hs E; simplify_eq/=;
    rewrite ?Hnil; try done;
    try (destruct Hs as (r & -> & Hr); exists r; split; [done|]; intros b' Hb;
         destruct (Hr b' Hb); set_solver).
  - by exists None.
  - by exists None.
  - destruct Hs as [-> _]. by exists None.
  - destruct Hs as [-> _]. by exists None.
  - by exists None.
  - by exists None.
  - destruct Hs as [-> Hc]. eexists. split; [done|]. intros b.
    case_bool_decide as Hb; [|done]. intros [= <-]. split; [done|]. by apply Hc.
  - destruct Hs as [-> Hc]. split; [done|]. set_solver.
  - destruct Hs as [-> Hc]. split; [done|]. set_solver.
  - by destruct Hs as [-> _].
Qed.

Lemma commits_cons e es : commits (e :: es) = commits [e] ++ commits es.
Proof. by destruct e. Qed.

Lemma run_ok block es cs s s' :
  seal_ok block cs s -> seal_run block es s = Some s' -> seal_ok block (cs ++ commits es) s'.
Proof.
  revert cs s. induction es as [|e es IH]; intros cs s Hs; cbn [seal_run].
  - intros [= <-]. by rewrite app_nil_r.
  - destruct (seal_step block e s) as [s1|] eqn:E; [|done]. cbn. intros Er.
    eapply IH in Er; [|by eapply step_ok].
    by rewrite <- app_assoc, <- commits_cons in Er.
Qed.

(** Whatever the interleaving, a call to [Seal] sends at most one result,
    exactly one when it has finished, and a block it sends has the hash of
    the block it sealed and comes from a [Commit] during the call. It can
    finish from every state, if only by cancelling. *)
Theorem seal_one_result block ch p es s :
  seal_run block es (start ch p) = Some s ->
  (ph s = Finished -> exists r, results s = [r] /\
     forall b, r = Some b -> bk_Hash b = bk_Hash block /\ b ∈ commits es) /\
  (ph s <> Finished -> results s = [] /\
     exists es' s', seal_run block es' s = Some s' /\ ph s' = Finished).
Proof.
  intros E. apply (run_ok block es [] (start ch p)) in E; [|done]. cbn [app] in E.
  destruct s as [q c res pr]. unfold seal_ok in E. cbn [ph results commitCh] in *.
  split; [by intros ->|]. intros Hne. split; [by destruct q; try destruct E|].
  destruct q; [exists [ctx_done]|exists [request_result false]| |exists [ctx_done]|done];
    try (by eexists).
  destruct c; [exists [drain; drain_end; ctx_done]|exists [drain_end; ctx_done]]; by eexists.
Qed.

(** ** The lost block *)

(** After the call is done only [Commit]s and other calls run, and they change
    no result. *)
Lemma run_finished block es s s' :
  ph s = Finished -> seal_run block es s = Some s' -> results s' = results s.
Proof.
  revert s. induction es as [|e es IH]; intros [q c res pr] Hp; cbn [seal_run]; [by intros [= <-]|].
  cbn in Hp. subst q. destruct e as [| |[]| | | |b| |h], c; try done; intros E; by apply IH in E.
Qed.

Lemma run_no_commit block es s s' :
  ph s = Waiting -> commitCh s = None -> results s = [] -> commits es = [] ->
  seal_run block es s = Some s' -> results s' = [] \/ results s' = [None].
Proof.
  revert s. induction es as [|e es IH]; intros [q c res pr]; cbn [ph commitCh results];
    intros -> -> -> Hes; cbn [seal_run]; [intros [= <-]; by left|].
  destruct e as [| |[]| | | |b| |h]; try done; intros E.
  - right. by apply run_finished in E.
  - by eapply IH in E.
Qed.

(** The block can be lost: if the core commits it between [Request] and
    the clearing of the channel, the clearing throws it away, and [Seal] can
    then only end by being cancelled, with no block. *)
Theorem seal_loses_commit block b p :
  exists s, seal_run block [timer; request_result true; commit b; drain; drain_end] (start None p) =
      Some s /\
    ph s = Waiting /\
    forall es s', commits es = [] -> seal_run block es s = Some s' ->
      results s' = [] \/ results s' = [None].
Proof.
  eexists. split; [reflexivity|]. split; [done|]. intros es s' Hes.
  by apply run_no_commit.
Qed.
End Sealing.
