(* ===== verification/Seals.v ===== *)
(** * Seals: all calls of Seal, and the lock between them

    [Seal] (engine.go) may be called again before an earlier call is done.
    The calls share [commitCh], [proposedBlockHash] and [sealLock]: a call
    takes the lock for a moment to set [proposedBlockHash], and its goroutine
    holds it from the clearing of the channel to the result.  An event is one
    step of one call, or a [Commit] of the core.

    [seals_refine]: what one call sees of a run is a run of [Sealing], in
    which the other calls only take blocks from the channel and set the
    proposed hash.  So the guarantees of [Sealing] hold of every call;
    [seals_correct] adds what the lock is for, and that no call is stuck. *)

From S2P Require Import Prelude Types Interfaces Snapshot Engine Sealing.

Section Seals.
Context `{PF : Platform} {Address : Type} `{Countable Address} {CH : @Chain PF Address _ _}.
Context {EI : EngineI}.

(** A call: in its first [select], about to lock for [proposedBlockHash],
    about to call [Request], in [clearCommitChannel], about to lock for the
    wait, in the last [select] with the lock, done. *)
Inductive cphase :=
| CDelay | CLocking | CRequesting | CClearing | CRelocking | CWaiting | CFinished.

#[export] Instance cphase_eq_dec : EqDecision cphase.
Proof. solve_decision. Defined.

Record seal_call := mkCall {
  c_block : Block;  (* the signed block *)
  c_phase : cphase;
  c_results : list (option Block);
}.

Record shared := mkShared {
  g_ch : option Block;  (* [commitCh] *)
  g_proposed : Hash;  (* [proposedBlockHash] *)
  g_lock : option nat;  (* the call that holds [sealLock] *)
}.

Record seals := mkSeals { s_calls : list seal_call; s_shared : shared }.

Inductive call_kind :=
| KTimer                (* the delay is over *)
| KCancel               (* the context is cancelled *)
| KPropose              (* lock, set [proposedBlockHash], unlock *)
| KRequest (ok : bool)  (* [pbftCore.Request] returns *)
| KDrain                (* [clearCommitChannel] takes a block *)
| KDrainEnd             (* it finds the channel empty *)
| KLock                 (* the goroutine takes the lock *)
| KReceive.             (* it takes a block from [commitCh] *)

Inductive seals_event :=
| SCall (b : Block)  (* a call has signed its block *)
| SAt (i : nat) (k : call_kind)  (* call [i] takes a step *)
| SCommit (b : Block).  (* a goroutine of [Commit] runs *)

Definition at_phase (p : cphase) (c : seal_call) : seal_call := mkCall (c_block c) p (c_results c).
Definition done_with (r : option Block) (c : seal_call) : seal_call :=
  mkCall (c_block c) CFinished (c_results c ++ [r]).

Definition call_step (i : nat) (k : call_kind) (c : seal_call) (g : shared) : option (seal_call * shared) :=
  match k, c_phase c, g_lock g, g_ch g with
  | KTimer, CDelay, _, _ => Some (at_phase CLocking c, g)
  | KCancel, CDelay, _, _ => Some (done_with None c, g)
  | KPropose, CLocking, None, ch =>
      Some (at_phase CRequesting c, mkShared ch (bk_Hash (c_block c)) None)
  | KRequest true, CRequesting, _, _ => Some (at_phase CClearing c, g)
  | KRequest false, CRequesting, _, _ => Some (done_with None c, g)
  | KDrain, CClearing, l, Some _ => Some (c, mkShared None (g_proposed g) l)
  | KDrainEnd, CClearing, _, None => Some (at_phase CRelocking c, g)
  | KLock, CRelocking, None, ch => Some (at_phase CWaiting c, mkShared ch (g_proposed g) (Some i))
  | KReceive, CWaiting, _, Some b =>
      Some (done_with (if bool_decide (bk_Hash (c_block c) = bk_Hash b) then Some b else None) c,
            mkShared None ZeroHash None)
  | KCancel, CWaiting, _, ch => Some (done_with None c, mkShared ch ZeroHash None)
  | _, _, _, _ => None
  end.

Definition seals_step (e : seals_event) (s : seals) : option seals :=
  match e with
  | SCall b => Some (mkSeals (s_calls s ++ [mkCall b CDelay []]) (s_shared s))
  | SAt i k =>
      c ← s_calls s !! i;
      '(c', g') ← call_step i k c (s_shared s);
      Some (mkSeals (<[i := c']> (s_calls s)) g')
  | SCommit b =>
      let g := s_shared s in
      Some (mkSeals (s_calls s) (mkShared (send_commit b (g_ch g)) (g_proposed g) (g_lock g)))
  end.

Fixpoint seals_run (es : list seals_event) (s : seals) : option seals :=
  match es with
  | [] => Some s
  | e :: es => seals_step e s ≫= seals_run es
  end.

(** A new engine. *)
Definition no_seals : seals := mkSeals [] (mkShared None ZeroHash None).

Definition run_commits (es : list seals_event) : list Block :=
  omap (fun e => match e with SCommit b => Some b | _ => None end) es.

(** ** One call among the others *)

Definition view_phase (p : cphase) : phase :=
  match p with
  | CDelay | CLocking => Delay
  | CRequesting => Requesting
  | CClearing => Clearing
  | CRelocking | CWaiting => Waiting
  | CFinished => Finished
  end.

Definition call_view (c : seal_call) (g : shared) : seal_state :=
  mkSeal (view_phase (c_phase c)) (g_ch g) (c_results c) (g_proposed g).

Lemma seal_run_app block es1 es2 s :
  seal_run block (es1 ++ es2) s = seal_run block es1 s ≫= seal_run block es2.
Proof.
  revert s. induction es1 as [|e es1 IH]; intros s; [done|]. cbn [app seal_run].
  destruct (seal_step block e s); [apply IH|done].
Qed.

(** A step of a call, as that call sees it. *)
Lemma own_step i k c g c' g' :
  call_step i k c g = Some (c', g') ->
  exists es, seal_run (c_block c) es (call_view c g) = Some (call_view c' g') /\ commits es = [] /\
    c_block c' = c_block c.
Proof.
  destruct c as [b p r], g as [ch pr l]. unfold call_step, call_view; cbn.
  destruct k as [| | |[]| | | |], p; try done; intros E;
    destruct l as [j|], ch as [b0|]; simplify_eq/=;
    first [by exists [] | by exists [timer] | by exists [ctx_done] | by exists [request_result true]
          | by exists [request_result false] | by exists [drain] | by exists [drain_end]
          | by exists [receive]].
Qed.

(** A step of a call, as another call sees it. *)
Lemma other_step i k c g c' g' d :
  call_step i k c g = Some (c', g') ->
  exists es, seal_run (c_block d) es (call_view d g) = Some (call_view d g') /\ commits es = [].
Proof.
  destruct c as [b p r], g as [ch pr l]. unfold call_step, call_view; cbn.
  destruct k as [| | |[]| | | |], p; try done; intros E;
    destruct l as [j|], ch as [b0|]; simplify_eq/=;
    first [by exists [] | by exists [steal] | by eexists [repropose _]
          | by exists [steal; repropose ZeroHash]].
Qed.

Definition refined (cs : list Block) (s : seals) : Prop :=
  forall i c, s_calls s !! i = Some c -> exists ch p es,
    seal_run (c_block c) es (start ch p) = Some (call_view c (s_shared s)) /\ commits es ⊆ cs.

Lemma refined_extend cs cs' c g c' g' es :
  (exists ch p es0, seal_run (c_block c) es0 (start ch p) = Some (call_view c g) /\ commits es0 ⊆ cs) ->
  c_block c' = c_block c -> seal_run (c_block c) es (call_view c g) = Some (call_view c' g') ->
  cs ⊆ cs' -> commits es ⊆ cs' ->
  exists ch p es0, seal_run (c_block c') es0 (start ch p) = Some (call_view c' g') /\ commits es0 ⊆ cs'.
Proof.
  intros (ch & p & es0 & Hr & Hc) Eb He Hcs Hes. exists ch, p, (es0 ++ es). rewrite Eb, seal_run_app, Hr.
  split; [exact He|]. unfold commits. rewrite omap_app. set_solver.
Qed.

Lemma step_refined e cs s s' :
  refined cs s -> seals_step e s = Some s' -> refined (cs ++ run_commits [e]) s'.
Proof.
  intros Hs. destruct e as [b|i k|b]; cbn [seals_step]; [intros [= <-]| |intros [= <-]]; intros.
  - intros j c. simpl. rewrite app_nil_r.
    intros [Hj|[_ Hj]]%lookup_app_Some; [by apply Hs in Hj|].
    apply list_lookup_singleton_Some in Hj as [_ <-].
    exists (g_ch (s_shared s)), (g_proposed (s_shared s)), []. split; [done|set_solver].
  - destruct (s_calls s !! i) as [c|] eqn:Ei; [|done]. simpl in *.
    destruct (call_step i k c (s_shared s)) as [[c' g']|] eqn:Ec; [|done]. simplify_eq/=.
    intros j d. simpl. rewrite app_nil_r. intros Hj.
    apply list_lookup_insert_Some in Hj as [(-> & <- & _)|[Hne Hj]].
    + destruct (own_step _ _ _ _ _ _ Ec) as (es & He & Hc & Hb).
      eapply (refined_extend cs); [by apply (Hs j)|done|exact He|done|rewrite Hc; set_solver].
    + destruct (other_step _ _ _ _ _ _ d Ec) as (es & He & Hc).
      eapply (refined_extend cs); [by apply (Hs j)|done|exact He|done|rewrite Hc; set_solver].
  - intros j c Hj. simpl in *.
    eapply (refined_extend cs _ c (s_shared s) c _ [commit b]); [by apply (Hs j)|done|done|set_solver|].
    simpl. set_solver.
Qed.

Lemma run_refined es cs s s' :
  refined cs s -> seals_run es s = Some s' -> refined (cs ++ run_commits es) s'.
Proof.
  revert cs s. induction es as [|e es IH]; intros cs s Hs; cbn [seals_run].
  - intros [= <-]. by rewrite app_nil_r.
  - destruct (seals_step e s) as [s1|] eqn:E; [|done]. cbn. intros Er.
    eapply IH in Er; [|by eapply step_refined].
    rewrite <- app_assoc in Er. unfold run_commits in *. by rewrite <- omap_app in Er.
Qed.

(** C27. Each call of [Seal] among any others behaves as the single call of
    [Sealing]: what it sees of a run of all calls is a run of its own steps,
    of [Commit]s of the run, and of other calls that take a block from the
    channel or set the proposed hash. *)
Theorem seals_refine es s i c :
  seals_run es no_seals = Some s -> s_calls s !! i = Some c ->
  exists ch p es', seal_run (c_block c) es' (start ch p) = Some (call_view c (s_shared s)) /\
    commits es' ⊆ run_commits es.
Proof.
  intros Hr Hi. apply (run_refined es [] no_seals s) in Hr; [by apply (Hr i)|]. by intros j d Hj.
Qed.
(** ** The lock *)

Definition seal_lock_ok (s : seals) : Prop :=
  forall i c, s_calls s !! i = Some c ->
    c_phase c = CWaiting <-> g_lock (s_shared s) = Some i.

Definition seal_lock_valid (s : seals) : Prop :=
  forall i, g_lock (s_shared s) = Some i -> is_Some (s_calls s !! i).

(** A step of a call takes or releases the lock as it enters or leaves the
    last [select], and otherwise leaves it. *)
Lemma call_step_lock i k c g c' g' :
  (c_phase c = CWaiting <-> g_lock g = Some i) -> call_step i k c g = Some (c', g') ->
  (c_phase c' = CWaiting <-> g_lock g' = Some i) /\
  forall j, j <> i -> g_lock g' = Some j <-> g_lock g = Some j.
Proof.
  destruct c as [b p r], g as [ch pr l]. unfold call_step; cbn.
  destruct k as [| | |[]| | | |], p; try done; intros [H1 H2] E;
    destruct l as [j|], ch as [b0|]; simplify_eq/=;
    (split; [naive_solver|]; intros j0 Hj; naive_solver).
Qed.

Lemma step_lock e s s' :
  seal_lock_ok s -> seal_lock_valid s -> seals_step e s = Some s' -> seal_lock_ok s' /\ seal_lock_valid s'.
Proof.
  intros Hl Hv. destruct e as [b|i k|b]; cbn [seals_step]; [intros [= <-]| |intros [= <-]]; intros.
  - split.
    + intros j c. simpl. intros [Hj|[Hge Hj]]%lookup_app_Some; [by apply Hl|].
      apply list_lookup_singleton_Some in Hj as [Hj <-]. simpl. split; [done|].
      intros Hg. apply Hv in Hg as Hs. apply lookup_lt_is_Some_1 in Hs. lia.
    + intros j Hj. simpl. apply Hv in Hj as [c Hj]. exists c. by apply lookup_app_l_Some.
  - destruct (s_calls s !! i) as [c|] eqn:Ei; [|done]. simpl in *.
    destruct (call_step i k c (s_shared s)) as [[c' g']|] eqn:Ec; [|done]. simplify_eq/=.
    destruct (call_step_lock _ _ _ _ _ _ (Hl i c Ei) Ec) as [H1 H2]. split.
    + intros j d. simpl. intros [(-> & <- & _)|[Hne Hj]]%list_lookup_insert_Some; [done|].
      rewrite H2 by done. by apply Hl.
    + intros j Hj. simpl in *. destruct (decide (j = i)) as [->|Hne].
      * eexists. apply list_lookup_insert_eq. by eapply lookup_lt_Some.
      * rewrite list_lookup_insert_ne by done. apply Hv. by apply H2.
  - split; [exact Hl|exact Hv].
Qed.

Lemma run_lock es s s' :
  seal_lock_ok s -> seal_lock_valid s -> seals_run es s = Some s' -> seal_lock_ok s' /\ seal_lock_valid s'.
Proof.
  revert s. induction es as [|e es IH]; intros s Hl Hv; cbn [seals_run]; [by intros [= <-]|].
  destruct (seals_step e s) as [s1|] eqn:E; [|done]. cbn. intros Er.
  destruct (step_lock _ _ _ Hl Hv E). by eapply IH.
Qed.

(** ** Progress *)

(** Call [i] alone, after the lock was released, can be cancelled or turned
    down. *)
Definition ending (p : cphase) (full : bool) : list call_kind :=
  match p with
  | CDelay | CWaiting => [KCancel]
  | CLocking => [KPropose; KRequest false]
  | CRequesting => [KRequest false]
  | CClearing => (if full then [KDrain] else []) ++ [KDrainEnd; KLock; KCancel]
  | CRelocking => [KLock; KCancel]
  | CFinished => []
  end.

Lemma call_ends calls i c g :
  calls !! i = Some c -> g_lock g = None ->
  exists es calls' g' c', seals_run es (mkSeals calls g) = Some (mkSeals calls' g') /\
    calls' !! i = Some c' /\ c_phase c' = CFinished.
Proof.
  intros Hi Hl. destruct g as [ch pr l]; simpl in Hl; subst l.
  assert (Hlt : (i < length calls)%nat) by (by eapply lookup_lt_Some).
  exists (SAt i <$> ending (c_phase c) (match ch with Some _ => true | None => false end)).
  destruct c as [b p r]; destruct p, ch as [b0|]; cbn -[lookup insert];
    repeat (rewrite ?Hi, ?list_lookup_insert_eq by (rewrite ?length_insert; exact Hlt); cbn -[lookup insert]);
    eexists _, _, _; (split; [reflexivity|]);
    (split; [first [exact Hi | apply list_lookup_insert_eq; rewrite ?length_insert; exact Hlt]|done]).
Qed.
Lemma cancel_waiting calls k d ch pr :
  calls !! k = Some d -> c_phase d = CWaiting ->
  seals_step (SAt k KCancel) (mkSeals calls (mkShared ch pr (Some k))) =
    Some (mkSeals (<[k := done_with None d]> calls) (mkShared ch ZeroHash None)).
Proof. intros Hk Hp. cbn -[lookup insert]. rewrite Hk. cbn. by rewrite Hp. Qed.

(** Every call can be ended, if need be by cancelling the one that holds the
    lock first. *)
Lemma can_end s i c :
  seal_lock_ok s -> seal_lock_valid s -> s_calls s !! i = Some c ->
  exists es s' c', seals_run es s = Some s' /\ s_calls s' !! i = Some c' /\ c_phase c' = CFinished.
Proof.
  intros Hl Hv Hi. destruct s as [calls [ch pr [k|]]]; simpl in *.
  2: { destruct (call_ends calls i c (mkShared ch pr None) Hi eq_refl) as (es & calls' & g' & c' & ? & ? & ?).
       by eexists es, _, c'. }
  destruct (Hv k eq_refl) as [d Hk]. pose proof (cancel_waiting calls k d ch pr Hk) as Hc.
  specialize (Hc (proj2 (Hl k d Hk) eq_refl)). set (calls1 := <[k := _]> calls) in Hc.
  assert (exists c1, calls1 !! i = Some c1) as [c1 Hi1].
  { subst calls1. apply lookup_lt_is_Some_2. rewrite length_insert. by eapply lookup_lt_Some. }
  destruct (call_ends calls1 i c1 (mkShared ch ZeroHash None) Hi1 eq_refl)
    as (es & calls' & g' & c' & H1 & H2 & H3).
  eexists (SAt k KCancel :: es), _, c'. cbn [seals_run]. rewrite Hc. cbn. by rewrite H1.
Qed.

Lemma no_seals_lock : seal_lock_ok no_seals /\ seal_lock_valid no_seals.
Proof. by split. Qed.

(** C28. The calls of [Seal], in any number and any interleaving with each
    other and with [Commit]s: exactly the call that holds the lock waits for
    a committed block, and while it does no other call sets the proposed hash
    or starts its wait; a call that is done has sent exactly one result,
    and a block only if it has the hash of the block it sealed and was
    committed; a call that is not done has sent nothing, and there is a way
    for it to finish. *)
Theorem seals_correct es s i c :
  seals_run es no_seals = Some s -> s_calls s !! i = Some c ->
  (c_phase c = CWaiting <-> g_lock (s_shared s) = Some i) /\
  (c_phase c = CWaiting -> forall j,
     seals_step (SAt j KPropose) s = None /\ seals_step (SAt j KLock) s = None) /\
  (c_phase c = CFinished -> exists r, c_results c = [r] /\
     forall b, r = Some b -> bk_Hash b = bk_Hash (c_block c) /\ b ∈ run_commits es) /\
  (c_phase c <> CFinished -> c_results c = [] /\
     exists es' s' c', seals_run es' s = Some s' /\ s_calls s' !! i = Some c' /\
       c_phase c' = CFinished).
Proof.
  intros Hr Hi.
  assert (Href : refined (run_commits es) s) by by apply (run_refined es [] no_seals s).
  destruct (run_lock es no_seals s) as [Hl Hv]; [apply no_seals_lock..|done|].
  split; [by apply Hl|]. split.
  { intros Hp%(Hl i c Hi) j. cbn. destruct (s_calls s !! j) as [d|]; [|done]. cbn.
    unfold call_step. rewrite Hp. by destruct (c_phase d), (g_ch (s_shared s)). }
  destruct (Href i c Hi) as (ch & p & es' & Hes & Hsub).
  apply (run_ok (c_block c) es' [] (start ch p)) in Hes; [|done]. unfold seal_ok, call_view in Hes.
  cbn [ph results Sealing.commitCh app] in Hes. split.
  - intros Hp. rewrite Hp in Hes. cbn in Hes. destruct Hes as (r & Er & Hb). exists r.
    split; [done|]. intros b E. destruct (Hb b E) as [? Hin]. split; [done|]. by apply Hsub.
  - intros Hp. split; [|by eapply can_end].
    destruct (c_phase c); try done; by destruct Hes.
Qed.

(** ** A block taken by another call *)

(** What a call that exists sees of the rest of a run. *)
Lemma call_run es s s' i c :
  seals_run es s = Some s' -> s_calls s !! i = Some c -> run_commits es = [] ->
  exists c' es', s_calls s' !! i = Some c' /\ commits es' = [] /\
    seal_run (c_block c) es' (call_view c (s_shared s)) = Some (call_view c' (s_shared s')).
Proof.
  revert s c. induction es as [|e es IH]; intros s c; cbn [seals_run].
  { intros [= <-] Hi _. by exists c, []. }
  destruct (seals_step e s) as [s1|] eqn:E; [|done]. cbn. intros Er Hi Hc.
  assert (exists c1 es1, s_calls s1 !! i = Some c1 /\ commits es1 = [] /\ c_block c1 = c_block c /\
    seal_run (c_block c) es1 (call_view c (s_shared s)) = Some (call_view c1 (s_shared s1)))
    as (c1 & es1 & Hi1 & Hc1 & Eb & H1).
  { destruct e as [b|k' k|b]; [| |done]; cbn [seals_step] in E.
    - injection E as <-. exists c, []. split; [by apply lookup_app_l_Some|done].
    - destruct (s_calls s !! k') as [d|] eqn:Ek; [|done]. simpl in E.
      destruct (call_step k' k d (s_shared s)) as [[d' g']|] eqn:Ed; [|done]. simplify_eq/=.
      destruct (decide (k' = i)) as [->|Hne].
      + assert (d = c) as -> by congruence.
        destruct (own_step _ _ _ _ _ _ Ed) as (es1 & H1 & H2 & H3). exists d', es1.
        split; [apply list_lookup_insert_eq; by eapply lookup_lt_Some|done].
      + destruct (other_step _ _ _ _ _ _ c Ed) as (es1 & H1 & H2). exists c, es1.
        by rewrite list_lookup_insert_ne. }
  destruct (IH s1 c1 Er Hi1) as (c' & es' & Hi' & Hc' & H2); [by destruct e|].
  exists c', (es1 ++ es'). split; [done|]. split; [unfold commits in *; by rewrite omap_app, Hc1, Hc'|].
  rewrite seal_run_app, H1. cbn. by rewrite <- Eb.
Qed.

(** Clearing the channel is not protected by the lock: a second call, on
    its way to the lock, can throw away the block the first one waits for;
    the first can then only end without it, unless another block comes. *)
Theorem seals_steal b0 b1 :
  exists s c, seals_run [SCall b0; SCall b1; SAt 0 KTimer; SAt 0 KPropose; SAt 0 (KRequest true);
      SAt 1 KTimer; SAt 1 KPropose; SAt 1 (KRequest true); SAt 0 KDrainEnd; SAt 0 KLock;
      SCommit b0; SAt 1 KDrain] no_seals = Some s /\
    s_calls s !! 0%nat = Some c /\ c_block c = b0 /\ c_phase c = CWaiting /\
    forall es s', run_commits es = [] -> seals_run es s = Some s' ->
      exists c', s_calls s' !! 0%nat = Some c' /\ (c_results c' = [] \/ c_results c' = [None]).
Proof.
  eexists _, _. split; [reflexivity|]. split; [reflexivity|]. split; [done|]. split; [done|].
  intros es s' Hes Er.
  destruct (call_run es _ s' 0%nat _ Er eq_refl Hes) as (c' & es' & Hi & Hc & H1).
  exists c'. split; [done|]. by apply run_no_commit in H1.
Qed.
End Seals.
