(* ===== verification/Sample.v ===== *)
(** * Sample: a concrete environment

    An instance of every interface the development is parametrised by, with
    proofs of all the laws: the default validator set, a codec, a priority
    queue, a cache and a backend with a one-block view of the chain.  It shows
    that the laws are consistent; the witnesses of the theorems and the runs
    of the core evaluate in it. *)

From Stdlib Require Import Ascii.
From S2P Require Import Prelude Types Interfaces Rlp MessageSet ValidatorSet.

Module Sample.

(** ** Encoding: a countable value as the bits of its code *)

Fixpoint bits (p : positive) : string :=
  match p with
  | xH => EmptyString
  | xO p => String "0"%char (bits p)
  | xI p => String "1"%char (bits p)
  end.

Fixpoint unbits (s : string) : positive :=
  match s with
  | EmptyString => xH
  | String c s => if ascii_dec c "0"%char then xO (unbits s) else xI (unbits s)
  end.

Lemma unbits_bits p : unbits (bits p) = p.
Proof. induction p; simpl; congruence. Qed.

Definition enc {A} `{Countable A} (a : A) : string := bits (encode a).
Definition dec {A} `{Countable A} (s : string) : option A := decode (unbits s).

Lemma dec_enc {A} `{Countable A} (a : A) : dec (enc a) = Some a.
Proof. unfold dec, enc. by rewrite unbits_bits, decode_encode. Qed.

(** ** Platform *)

Record block := mkBlock { b_height : Z; b_hash : Z }.

#[global] Instance block_eq_dec : EqDecision block.
Proof. solve_decision. Defined.

#[global] Program Instance block_countable : Countable block :=
  inj_countable' (fun b => (b_height b, b_hash b)) (fun x => mkBlock x.1 x.2) _.
Next Obligation. by intros []. Qed.

#[local] Instance sample_hash : HashI Z := {|
  ZeroHash := 0; Hash_Nil := fun h => h =? 0; Hash_Bytes := enc
|}.

#[local] Instance sample_proposal : ProposalI block Z := {|
  Height := fun b => b_height b mod 2 ^ 62; HashOf := b_hash; Timestamp := fun _ => 0
|}.

#[global] Instance platform : Platform :=
  default_platform Z string block sample_hash sample_proposal.

#[global] Instance platform_laws : PlatformLaws.
Proof. split; [intros h; apply Z.eqb_eq|intros p; change (Height p) with (b_height p mod 2 ^ 62);
  pose proof (Z.mod_pos_bound (b_height p) (2 ^ 62) ltac:(lia)); lia]. Qed.

#[global] Instance valset : @ValidatorSetI platform Default.defaultValidatorSet :=
  default_valset Z string block sample_hash sample_proposal.

#[global] Instance valset_laws : @ValidatorSetLaws platform _ valset.
Proof. apply default_valset_laws. Qed.

(** ** Codec *)

Definition full (v : option View) : option (Z * Z) :=
  match v with Some (mkView (Some q) (Some r)) => Some (q, r) | _ => None end.

Lemma full_Some v q r : full v = Some (q, r) -> v = Some (full_view q r).
Proof. destruct v as [[[] []]|]; simpl; naive_solver. Qed.

#[global] Instance codec : CodecI := {|
  EncodeSubject s := v ← full (sub_View s); Some (enc (v, Digest s : Z));
  DecodeSubject b := '(v, d) ← dec (A := (Z * Z) * Z) b;
    Some (mkSubject (Some (full_view v.1 v.2)) d);
  EncodePrePrepare p := v ← full (pp_View p); b ← pp_Proposal p; Some (enc (v, b : block));
  DecodePrePrepare b := '(v, p) ← dec (A := (Z * Z) * block) b;
    Some (mkPrePrepare (Some (full_view v.1 v.2)) (Some p));
  EncodeMessage m := Some (enc (Code m, Msg m, Msg_Validator m,
    (Signature m : option string), (CommittedSeal m : option string)));
  DecodeMessage b :=
    '(c, m, v, sg, cs) ← dec (A := Z * string * string * option string * option string) b;
    Some (mkMessage c m v sg cs);
  Keccak256 s := Z.pos (unbits s);
  IDFromString s := s;
|}.

#[global] Instance codec_laws : CodecLaws.
Proof.
  split; cbn [EncodeSubject DecodeSubject EncodePrePrepare DecodePrePrepare
              EncodeMessage DecodeMessage codec].
  - intros b s Hd. apply bind_Some in Hd as ([v d] & _ & [= <-]). by eexists _, _.
  - intros b p Hd. apply bind_Some in Hd as ([v d] & _ & [= <-]). by eexists _, _, _.
  - intros q r d b [= <-]. by rewrite dec_enc.
  - intros q r P b [= <-]. by rewrite dec_enc.
  - intros [] b [= <-]. by rewrite dec_enc.
Qed.

(** ** RLP: trees of integers; a block is its height and hash *)

Definition tree : Type := gen_tree Z.

Definition tree_block (t : tree) : option block :=
  match t with GenNode 1 [GenLeaf n; GenLeaf h] => Some (mkBlock n h) | _ => None end.

#[global] Instance rlp : RlpI := {|
  item := tree;
  rlp_write := enc;
  rlp_read := dec;
  list_item := GenNode 0;
  item_list t := match t with GenNode 0 l => Some l | _ => None end;
  big_item n := match n with Some n => if n <? 0 then None else Some (GenLeaf n)
                           | None => Some (GenLeaf 0) end;
  item_big t := match t with GenLeaf n => Some n | _ => None end;
  hash_item h := GenLeaf (h : Z);
  item_hash t := match t with GenLeaf h => Some h | _ => None end;
  nil_View_item := Ret (Some (GenNode 0 []));
  Rlp.Block := block;
  block_item b := Some (GenNode 1 [GenLeaf (b_height b); GenLeaf (b_hash b)]);
  item_block := tree_block;
  proposal_Block p := Some p;
  Block_proposal b := b;
|}.

#[global] Instance rlp_laws : RlpLaws.
Proof.
  split; cbn [rlp_read rlp_write item_list list_item big_item item_big item_hash hash_item
    block_item item_block proposal_Block Block_proposal rlp]; try done.
  - intros i. apply dec_enc.
  - intros n Hn. destruct (Z.ltb_spec n 0); [lia|done].
  - intros n i. destruct (n <? 0); [done|]. by intros [= <-].
  - by intros [] i [= <-].
  - by intros p b [= <-].
Qed.

(** ** Priority queue: an unordered list; popping selects the maximum *)

Definition queue (A : Type) : Type := list (A * Z).

Fixpoint select {A} (x : A * Z) (l : queue A) : (A * Z) * queue A :=
  match l with
  | [] => (x, [])
  | y :: l => if x.2 <? y.2
              then let '(m, r) := select y l in (m, x :: r)
              else let '(m, r) := select x l in (m, y :: r)
  end.

Lemma select_spec {A} (x : A * Z) l m r :
  select x l = (m, r) -> (m :: r) ≡ₚ (x :: l) /\ x.2 <= m.2 /\ Forall (fun e => e.2 <= m.2) r.
Proof.
  revert x m r. induction l as [|y l IH]; intros x m r; simpl; [naive_solver|].
  destruct (Z.ltb_spec x.2 y.2);
    [destruct (select y l) as [m' r'] eqn:E1|destruct (select x l) as [m' r'] eqn:E1];
    intros [= <- <-]; apply IH in E1 as (Hp & Hm & Hf);
    (split; [rewrite Permutation_swap, Hp; try apply Permutation_swap; done|]);
    (split; [lia|]); constructor; auto; lia.
Qed.

#[global] Instance prque : PrqueI queue := {|
  prque_New A := [];
  prque_Push A q a p := (a, p) :: q;
  prque_Pop A q := match q with
                   | [] => None
                   | x :: l => let '(m, r) := select x l in Some (m.1, m.2, r)
                   end;
  prque_Empty A q := match q with [] => true | _ => false end;
  prque_Reset A q := [];
  prque_elems A q := q;
|}.

#[global] Instance prque_laws : PrqueLaws.
Proof.
  split; simpl; try done.
  - by intros A [].
  - intros A [|x l]; [done|]. by destruct (select x l).
  - intros A [|x l] q' a p; [done|]. destruct (select x l) as [[a' p'] r] eqn:E1.
    intros [= <- <- <-]. apply select_spec in E1 as (Hp & _ & Hf). by rewrite Hp.
Qed.

(** ** Cache: an association list *)

Definition assoc (K V : Type) : Type := list (K * V).

#[global] Instance cache : CacheI assoc := {|
  cache_New K V := [];
  cache_Get K V _ c k :=
    (snd <$> List.find (fun e => bool_decide (e.1 = k)) c, c);
  cache_Add K V _ c k v := (k, v) :: c;
  cache_elems K V c := c;
|}.

#[global] Instance cache_laws : CacheLaws.
Proof.
  split; simpl; try done.
  - intros K V ? c c' k v [= Hf <-]. apply fmap_Some in Hf as ([k' v'] & Hf & ->).
    apply List.find_some in Hf as [Hin Hk]. apply bool_decide_eq_true in Hk. simpl in *; subst.
    by apply list_elem_of_In.
  - intros K V ? c c' k o [= _ <-]. done.
Qed.

(** ** Backend: the last block, its proposer, the validators and the answers
    of [Verify], [Commit] and [HasProposal] *)

Record chain := mkChain {
  last_block : option block;
  last_proposer : string;
  chain_validators : list string;
  verify_answer : option string;
  commit_answer : option string;
  has_answer : bool;
}.

#[global] Instance backend : BackendI Default.defaultValidatorSet chain := {|
  be_Validators _ w := Ret (Some (Default.newDefaultSet (chain_validators w) RoundRobin), w);
  be_ParentValidators _ w := Ret (Some (Default.newDefaultSet (chain_validators w) RoundRobin), w);
  be_Verify _ w := Ret (verify_answer w, w);
  be_Commit _ _ w := Ret (commit_answer w, w);
  be_Sign _ w := Ret (inl (Some "sig"%string), w);
  be_LastProposal w := Ret ((last_block w, last_proposer w), w);
  be_HasProposal _ _ w := Ret (has_answer w, w);
  be_GetProposer _ w := Ret (last_proposer w, w);
  be_Broadcast _ _ w := Ret (None, w);
  be_Now w := Ret (0, w);
|}.

#[global] Instance go : GoImpl := {| f2i_overflow := fun _ => - 2 ^ 63 |}.

#[global] Instance env : Env := {|
  ValidatorSet := Default.defaultValidatorSet;
  Prque := queue;
  Cache := assoc;
  World := chain;
|}.

#[global] Instance env_laws : EnvLaws env.
Proof. split; apply _. Qed.

(** This backend never panics, and has validators. *)
Lemma backend_reliable : ~ callee_fails.
Proof.
  intros Hf. change (backend_fails (VS := Default.defaultValidatorSet)) in Hf.
  by destruct Hf as [p H|p H|p H|p H|p H|p s H|d H|H|h n H|n H|ps d H|H];
    destruct H as (w & x & H); discriminate H.
Qed.
End Sample.
