(* ===== verification/RoundState.v ===== *)
(** * RoundState: the state of one round and the round-change votes

    Models [core/roundstate.go] and the [roundChangeSet] of [core/round.go].
    The mutexes are not modelled: each method is one atomic step. *)

From S2P Require Import Prelude Types Interfaces MessageSet.

Section RoundState.
Context `{E : Env}.

Record roundState := mkRoundState {
  round : option Z;  (* *big.Int *)
  sequence : Z;
  rs_PrePrepare : option PrePrepare;
  Prepares : MessageSet;
  Commits : MessageSet;
  lockedHash : Hash;
  pendingRequest : option Request;
}.

Definition newRoundState (view : View) (vs : ValidatorSet) (locked : Hash)
    (pp : option PrePrepare) (pending : option Request) : outcome roundState :=
  s ← deref (Sequence view);
  mret (mkRoundState (Round view) (big_Uint64 s) pp
          (NewMessageSet vs) (NewMessageSet vs) locked pending).

(** [GetPrepareOrCommitSize]: validators that sent a PREPARE or a COMMIT. *)
Definition GetPrepareOrCommitSize (s : roundState) : Z :=
  foldl (fun result m =>
           match MessageSet_Get (Commits s) (Msg_Validator m) with
           | Some _ => result - 1
           | None => result
           end)
    (MessageSet_Size (Prepares s) + MessageSet_Size (Commits s))
    (MessageSet_Values (Prepares s)).

(** [roundState.Subject]: the outer option is the returned pointer. *)
Definition roundState_Subject (s : roundState) : outcome (option Subject) :=
  match rs_PrePrepare s with
  | None => mret None
  | Some pp =>
      r ← deref (round s);
      p ← deref (pp_Proposal pp);
      mret (Some (mkSubject (Some (mkView (Some (i64 (sequence s))) (Some r))) (HashOf p)))
  end.

Definition SetPrePrepare (pp : option PrePrepare) (s : roundState) : roundState :=
  mkRoundState (round s) (sequence s) pp (Prepares s) (Commits s) (lockedHash s)
    (pendingRequest s).

Definition roundState_Proposal (s : roundState) : option Proposal :=
  match rs_PrePrepare s with Some pp => pp_Proposal pp | None => None end.

Definition SetRound (r : Z) (s : roundState) : roundState :=
  mkRoundState (Some r) (sequence s) (rs_PrePrepare s) (Prepares s) (Commits s)
    (lockedHash s) (pendingRequest s).

Definition SetSequence (n : Z) (s : roundState) : roundState :=
  mkRoundState (round s) n (rs_PrePrepare s) (Prepares s) (Commits s)
    (lockedHash s) (pendingRequest s).

Definition set_lockedHash (h : Hash) (s : roundState) : roundState :=
  mkRoundState (round s) (sequence s) (rs_PrePrepare s) (Prepares s) (Commits s)
    h (pendingRequest s).

(** [LockHash] *)
Definition LockHash (s : roundState) : outcome roundState :=
  match rs_PrePrepare s with
  | None => mret s
  | Some pp => p ← deref (pp_Proposal pp); mret (set_lockedHash (HashOf p) s)
  end.

Definition UnlockHash (s : roundState) : roundState := set_lockedHash ZeroHash s.

Definition IsHashLocked (s : roundState) : bool := negb (Hash_Nil (lockedHash s)).

Definition GetLockedHash (s : roundState) : Hash := lockedHash s.

(** Direct writes to the fields [Prepares], [Commits] and [pendingRequest]. *)
Definition set_Prepares (ms : MessageSet) (s : roundState) : roundState :=
  mkRoundState (round s) (sequence s) (rs_PrePrepare s) ms (Commits s)
    (lockedHash s) (pendingRequest s).
Definition set_Commits (ms : MessageSet) (s : roundState) : roundState :=
  mkRoundState (round s) (sequence s) (rs_PrePrepare s) (Prepares s) ms
    (lockedHash s) (pendingRequest s).
Definition set_pendingRequest (r : option Request) (s : roundState) : roundState :=
  mkRoundState (round s) (sequence s) (rs_PrePrepare s) (Prepares s) (Commits s)
    (lockedHash s) r.

(** ** roundChangeSet (core/round.go) *)

Record roundChangeSet := mkRoundChangeSet {
  rcs_valSet : ValidatorSet;
  roundChanges : gmap Z MessageSet;
}.

Definition newRoundChangeSet (vs : ValidatorSet) : roundChangeSet :=
  mkRoundChangeSet vs ∅.

(** [roundChangeSet.Add]: the fresh message set of a new round stays in the
    map even when the message is refused. *)
Definition roundChangeSet_Add (rcs : roundChangeSet) (r : Z) (msg : Message)
    : (Z * err) * roundChangeSet :=
  let rnd := big_Uint64 r in
  let ms := match roundChanges rcs !! rnd with
            | Some ms => ms
            | None => NewMessageSet (rcs_valSet rcs)
            end in
  let '(e, ms') := MessageSet_Add ms msg in
  let rcs' := mkRoundChangeSet (rcs_valSet rcs) (<[rnd := ms']> (roundChanges rcs)) in
  match e with
  | Some e => ((0, Some e), rcs')
  | None => ((MessageSet_Size ms', None), rcs')
  end.

(** [roundChangeSet.Clear] *)
Definition roundChangeSet_Clear (rcs : roundChangeSet) (rnd : Z) : roundChangeSet :=
  mkRoundChangeSet (rcs_valSet rcs)
    (filter (fun '(k, rms) =>
               (length (MessageSet_Values rms) =? 0)%nat || (k <? big_Uint64 rnd) = false)
       (roundChanges rcs)).

(** The body of the loop of [MaxRound]. *)
Definition MaxRound_step (num k : Z) (rms : MessageSet) (maxRound : option Z) : option Z :=
  if MessageSet_Size rms <? num then maxRound
  else
    let r := i64 k in
    match maxRound with
    | None => Some r
    | Some m => if m <? r then Some r else maxRound
    end.

Definition roundChangeSet_MaxRound (rcs : roundChangeSet) (num : Z) : option Z :=
  map_fold (MaxRound_step num) None (roundChanges rcs).

(** ** Sizes *)

Lemma foldl_count {A} (f : A -> bool) l (z : Z) :
  foldl (fun r a => if f a then r - 1 else r) z l =
    z - Z.of_nat (length (filter (fun a => f a = true) l)).
Proof.
  revert z. induction l as [|a l IH]; intros z; simpl; [lia|].
  rewrite IH. rewrite filter_cons. destruct (f a) eqn:Ef; case_decide; simpl; try congruence; lia.
Qed.

(** Under well-formedness the senders of the messages are the keys. *)
Lemma Values_senders ms :
  ms_wf ms -> Msg_Validator <$> MessageSet_Values ms = (map_to_list (messages ms)).*1.
Proof.
  intros Hwf. unfold MessageSet_Values. rewrite <- list_fmap_compose.
  apply list_fmap_ext. intros i [k m] Hin. simpl.
  apply list_elem_of_lookup_2, elem_of_map_to_list in Hin. by apply Hwf.
Qed.

Lemma GetPrepareOrCommitSize_senders s :
  ms_wf (Prepares s) ->
  GetPrepareOrCommitSize s = Z.of_nat (size (senders (Prepares s) ∪ senders (Commits s))).
Proof.
  intros Hwf. unfold GetPrepareOrCommitSize.
  set (C := messages (Commits s)).
  set (f := fun m => bool_decide (is_Some (C !! Msg_Validator m))).
  transitivity (foldl (fun r m => if f m then r - 1 else r)
    (MessageSet_Size (Prepares s) + MessageSet_Size (Commits s)) (MessageSet_Values (Prepares s))).
  { generalize (MessageSet_Size (Prepares s) + MessageSet_Size (Commits s)).
    induction (MessageSet_Values (Prepares s)) as [|m l IH]; intros z; simpl; [done|].
    rewrite <- IH. f_equal. unfold f, MessageSet_Get. fold C.
    by destruct (C !! Msg_Validator m). }
  rewrite foldl_count.
  assert (Hlen : length (filter (fun m => f m = true) (MessageSet_Values (Prepares s))) =
    size (senders (Prepares s) ∩ senders (Commits s))).
  { transitivity (length (filter (fun i => i ∈ dom C) (map_to_list (messages (Prepares s))).*1)).
    - rewrite <- Values_senders by done.
      symmetry. apply length_filter_fmap.
      intros m. unfold f. by rewrite elem_of_dom, bool_decide_eq_true.
    - rewrite <- (size_list_to_set (C:=gset string)).
      2: { apply NoDup_filter, NoDup_fst_map_to_list. }
      f_equal. apply set_eq. intros i. unfold senders.
      rewrite elem_of_list_to_set, list_elem_of_filter, elem_of_intersection, (elem_of_dom (messages _)).
      rewrite list_elem_of_fmap. split.
      + intros [H1 ([k m] & -> & Hin%elem_of_map_to_list)]. simpl. split; [eauto|done].
      + intros [[m Hm] H2]. split; [done|]. exists (i, m).
        split; [done|]. by apply elem_of_map_to_list. }
  rewrite Hlen, <- !size_senders.
  pose proof (size_union_intersection (senders (Prepares s)) (senders (Commits s))). lia.
Qed.

(** ** The lock *)

(** A locked round holds the proposal it is locked on. *)
Definition lock_ok (s : roundState) : Prop :=
  lockedHash s <> ZeroHash ->
  exists pp p, rs_PrePrepare s = Some pp /\ pp_Proposal pp = Some p /\
    HashOf p = lockedHash s.

Lemma IsHashLocked_true `{!EnvLaws E} s : IsHashLocked s = true <-> lockedHash s <> ZeroHash.
Proof.
  unfold IsHashLocked. rewrite negb_true_iff, <- not_true_iff_false.
  by rewrite Hash_Nil_spec.
Qed.

Lemma IsHashLocked_false `{!EnvLaws E} s : IsHashLocked s = false <-> lockedHash s = ZeroHash.
Proof. unfold IsHashLocked. by rewrite negb_false_iff, Hash_Nil_spec. Qed.

(** ** The round-change votes *)

Definition rcs_ok (rcs : roundChangeSet) : Prop :=
  forall k ms, roundChanges rcs !! k = Some ms ->
    ms_wf ms /\ ms_valSet ms = rcs_valSet rcs /\ in_u64 k.

Lemma newRoundChangeSet_ok vs : rcs_ok (newRoundChangeSet vs).
Proof. intros k ms. simpl. by rewrite lookup_empty. Qed.

Lemma roundChangeSet_Add_ok rcs r msg :
  rcs_ok rcs ->
  rcs_ok (roundChangeSet_Add rcs r msg).2 /\
  rcs_valSet (roundChangeSet_Add rcs r msg).2 = rcs_valSet rcs.
Proof.
  intros Hok. unfold roundChangeSet_Add.
  set (ms := match roundChanges rcs !! big_Uint64 r with Some ms => ms | None => _ end).
  assert (Hms : ms_wf ms /\ ms_valSet ms = rcs_valSet rcs).
  { subst ms. destruct (roundChanges rcs !! big_Uint64 r) as [ms|] eqn:E1.
    - destruct (Hok _ _ E1) as (? & ? & _). done.
    - split; [apply NewMessageSet_wf|done]. }
  destruct Hms as [Hwf Hvs].
  pose proof (MessageSet_Add_wf ms msg Hwf) as Hwf'.
  pose proof (MessageSet_Add_valSet ms msg) as Hvs'.
  destruct (MessageSet_Add ms msg) as [e ms'] eqn:Ea; simpl in *.
  destruct e; (split; [|done]); intros k m; simpl;
    rewrite lookup_insert_Some; intros [[<- <-]|[? Hk]]; eauto using u64_range;
    (split; [done|split; [congruence|apply u64_range]]).
Qed.

Lemma roundChangeSet_Clear_ok rcs r :
  rcs_ok rcs ->
  rcs_ok (roundChangeSet_Clear rcs r) /\
  rcs_valSet (roundChangeSet_Clear rcs r) = rcs_valSet rcs.
Proof.
  intros Hok. split; [|done]. intros k ms. simpl.
  rewrite map_lookup_filter_Some. intros [Hk _]. by apply Hok.
Qed.

(** [Clear] keeps exactly the non-empty sets of the rounds from [rnd] on. *)
Lemma roundChangeSet_Clear_lookup rcs r k ms :
  roundChanges (roundChangeSet_Clear rcs r) !! k = Some ms <->
  roundChanges rcs !! k = Some ms /\ messages ms <> ∅ /\ big_Uint64 r <= k.
Proof.
  simpl. rewrite map_lookup_filter_Some.
  assert (Hz : (length (MessageSet_Values ms) =? 0)%nat = true <-> messages ms = ∅).
  { rewrite Nat.eqb_eq. unfold MessageSet_Values. rewrite length_fmap, length_map_to_list.
    by rewrite map_size_empty_iff. }
  destruct (Nat.eqb_spec (length (MessageSet_Values ms)) 0),
    (Z.ltb_spec k (big_Uint64 r)); simpl; naive_solver lia.
Qed.

(** The rounds that at least [num] validators voted for. *)
Definition voted_round (rcs : roundChangeSet) (num k : Z) : Prop :=
  exists ms, roundChanges rcs !! k = Some ms /\ num <= MessageSet_Size ms.

Lemma MaxRound_greatest rcs num :
  (forall k, is_Some (roundChanges rcs !! k) -> 0 <= k < 2 ^ 63) ->
  match roundChangeSet_MaxRound rcs num with
  | Some m => voted_round rcs num m /\ forall k, voted_round rcs num k -> k <= m
  | None => forall k, ~ voted_round rcs num k
  end.
Proof.
  unfold roundChangeSet_MaxRound, voted_round.
  apply (map_fold_weak_ind (fun o (rc : gmap Z MessageSet) =>
    (forall k, is_Some (rc !! k) -> 0 <= k < 2 ^ 63) ->
    match o with
    | Some m => (exists ms, rc !! m = Some ms /\ num <= MessageSet_Size ms) /\
        forall k, (exists ms, rc !! k = Some ms /\ num <= MessageSet_Size ms) -> k <= m
    | None => forall k, ~ (exists ms, rc !! k = Some ms /\ num <= MessageSet_Size ms)
    end)).
  { intros _ k (ms & Hk & _). by rewrite lookup_empty in Hk. }
  intros i x m o Hi IH Hb.
  specialize (IH ltac:(intros k [y Hk]; apply Hb; exists y;
    rewrite lookup_insert_ne; [done|congruence])).
  assert (Hib : 0 <= i < 2 ^ 63) by (apply Hb; rewrite lookup_insert_eq; eauto).
  unfold MaxRound_step. rewrite i64_small by done.
  destruct (Z.ltb_spec (MessageSet_Size x) num) as [Hx|Hx], o as [r|];
    [| |destruct (Z.ltb_spec r i)|]; setoid_rewrite lookup_insert_Some.
  - destruct IH as [(ms & Hr & Hs) Hmax]. split.
    + exists ms. split; [right; split; [congruence|done]|done].
    + intros k (ms' & [[<- <-]|[? ?]] & ?); [lia|eauto].
  - intros k (ms' & [[<- <-]|[? ?]] & ?); [lia|]. eapply IH. eauto.
  - destruct IH as [(ms & Hr & Hs) Hmax]. split; [eauto|].
    intros k (ms' & [[<- <-]|[? ?]] & ?); [lia|].
    assert (k <= r); [eauto|lia].
  - destruct IH as [(ms & Hr & Hs) Hmax]. split.
    + exists ms. split; [right; split; [congruence|done]|done].
    + intros k (ms' & [[<- <-]|[? ?]] & ?); [lia|eauto].
  - split; [eauto|]. intros k (ms' & [[<- <-]|[? ?]] & ?); [lia|].
    exfalso. eapply IH. eauto.
Qed.

(** [GetPrepareOrCommitSize] counts every validator that sent a PREPARE
    or a COMMIT exactly once. *)
Theorem GetPrepareOrCommitSize_union s :
  ms_wf (Prepares s) ->
  GetPrepareOrCommitSize s = Z.of_nat (size (senders (Prepares s) ∪ senders (Commits s))).
Proof. apply GetPrepareOrCommitSize_senders. Qed.

(** [roundChangeSet.MaxRound] is the greatest round with at least [num]
    votes, and there is none only if no round has so many. *)
Theorem MaxRound_correct rcs num :
  (forall k, is_Some (roundChanges rcs !! k) -> 0 <= k < 2 ^ 63) ->
  match roundChangeSet_MaxRound rcs num with
  | Some m => voted_round rcs num m /\ forall k, voted_round rcs num k -> k <= m
  | None => forall k, ~ voted_round rcs num k
  end.
Proof. apply MaxRound_greatest. Qed.
End RoundState.
