(* ===== verification/RoundRlp.v ===== *)
(** * RoundRlp: the stored form of a round state

    [EncodeRLP] and [DecodeRLP] of [roundState] (core/roundstate.go), with
    the RLP library of [Rlp].  [EncodeRLP] writes a list of seven values;
    [DecodeRLP] reads a struct with seven fields, of which the library sees
    the five exported ones. *)

From S2P Require Import Prelude Types Interfaces Rlp MessageSet RoundState.

Section RoundRlp.
Context `{E : Env} {R : RlpI}.

(** What the library writes for the other types in a round state.  It is not
    told how, so they are arbitrary: a message set has no RLP methods and no
    exported field, a request holds an interface. *)
Class RoundRlpI := {
  uint_item : Z -> item;
  item_uint : item -> option Z;
  MessageSet_item : MessageSet -> option item;
  item_MessageSet : item -> option MessageSet;
  Request_item : option Request -> outcome (option item);
  (** a nil [*PrePrepare] *)
  nil_PrePrepare_item : outcome (option item);
}.
Context {RR : RoundRlpI}.

Definition PrePrepare_item (p : option PrePrepare) : outcome (option item) :=
  match p with Some p => PrePrepare_EncodeRLP p | None => nil_PrePrepare_item end.

(** The values are written in turn, up to the first that cannot be. *)
Fixpoint rlp_items (ws : list (outcome (option item))) : outcome (option (list item)) :=
  match ws with
  | [] => Ret (Some [])
  | w :: ws =>
      i ← w;
      match i with
      | None => Ret None
      | Some i => l ← rlp_items ws; Ret (option_map (cons i) l)
      end
  end.

Definition roundState_EncodeRLP (s : roundState) : outcome (option item) :=
  l ← rlp_items [
    Ret (big_item (round s));
    Ret (Some (uint_item (sequence s)));
    PrePrepare_item (rs_PrePrepare s);
    Ret (MessageSet_item (Prepares s));
    Ret (MessageSet_item (Commits s));
    Ret (Some (hash_item (lockedHash s)));
    Request_item (pendingRequest s)
  ];
  Ret (option_map list_item l).

(** The unexported fields [lockedHash] and [pendingRequest] of the struct keep
    their zero values. *)
Definition roundState_DecodeRLP (it : item) : option roundState :=
  match item_list it with
  | Some [r; q; pp; ps; cs] =>
      r ← item_big r; q ← item_uint q; pp ← PrePrepare_DecodeRLP pp;
      ps ← item_MessageSet ps; cs ← item_MessageSet cs;
      Some (mkRoundState (Some r) q (Some pp) ps cs ZeroHash None)
  | _ => None
  end.

Context `{L : !RlpLaws} `{PL : !PlatformLaws}.

Lemma rlp_items_length ws l : rlp_items ws = Ret (Some l) -> length l = length ws.
Proof.
  revert l. induction ws as [|w ws IH]; intros l; cbn [rlp_items]; [by intros [= <-]|].
  destruct w as [[i|]|]; [|done..]. cbn. destruct (rlp_items ws) as [[l1|]|]; [|done..].
  intros [= <-]. cbn. by rewrite (IH l1).
Qed.

(** A round state that was encoded can never be decoded: [EncodeRLP]
    writes two values more than [DecodeRLP] reads. What [DecodeRLP] does
    accept has no lock and no pending request, whatever was written, and a
    complete proposal. *)
Theorem roundState_no_roundtrip :
  (forall s i, roundState_EncodeRLP s = Ret (Some i) -> roundState_DecodeRLP i = None) /\
  (forall i s, roundState_DecodeRLP i = Some s ->
     IsHashLocked s = false /\ pendingRequest s = None /\
     exists pp v p, rs_PrePrepare s = Some pp /\ pp_View pp = Some v /\ pp_Proposal pp = Some p).
Proof.
  split.
  - intros s i. unfold roundState_EncodeRLP.
    destruct (rlp_items _) as [[l|]|] eqn:Ei; [|done..]. apply rlp_items_length in Ei.
    intros [= <-]. unfold roundState_DecodeRLP. rewrite item_list_item.
    by do 6 (destruct l as [|? l]; [done|]).
  - intros i s. unfold roundState_DecodeRLP. destruct (item_list i) as [l|]; [|done].
    do 6 (destruct l as [|? l]; try done). intros E0.
    apply bind_Some in E0 as (r & _ & E0). apply bind_Some in E0 as (q & _ & E0).
    apply bind_Some in E0 as (pp & Ep & E0). apply bind_Some in E0 as (ps & _ & E0).
    apply bind_Some in E0 as (cs & _ & [= <-]).
    destruct (PrePrepare_Decode_full _ _ Ep) as (vq & vr & b & Ev & Eb).
    split; [|split; [done|by exists pp, (full_view vq vr), (Block_proposal b)]].
    unfold IsHashLocked; cbn. by rewrite (proj2 (Hash_Nil_spec ZeroHash) eq_refl).
Qed.
End RoundRlp.
