(* ===== verification/CoreState.v ===== *)
(** * CoreState: the state of the consensus core

    Models the [core] struct and [NewEngine] of [core/pbft.go], the current
    view, and [checkMessage] of [core/utils.go].

    All handlers run in the goroutine of [handleLoop]; the goroutines they
    spawn only send on a channel.  Such a send, a broadcast, a timer and a
    call of [backend.Commit] are recorded as an [effect] in [trace]. *)

From S2P Require Import Prelude Types Interfaces MessageSet RoundState.

Section CoreState.
Context `{E : Env}.

Inductive effect :=
| EGoLocal (payload : string)  (* go func() { c.localMsgCh <- payload }() *)
| EGoBacklog (val : Validator) (msg : Message)  (* go c.sendBackLogEvent(val, msg) *)
| EGoRequest (r : Request)  (* go c.sendPendingRequestEvent(r) *)
| EGoFinalCommit  (* go func() { c.finalCommitCh <- struct{}{} }() *)
| EGossip (peers : list string) (payload : string)  (* c.broadcaster.Broadcast *)
| ETimer (timeout : Z)  (* time.AfterFunc *)
| ECommit (p : Proposal) (seals : list (option SignResult)).  (* c.backend.Commit *)

(** A cache of [peersMessages] is a pointer that is updated in place; the
    pointers are indices into [arcs]. *)
Record core := mkCore {
  peerId : string;  (* this node's id *)
  hasBroadcaster : bool;  (* [broadcaster != nil] *)
  state : State;
  valSet : option ValidatorSet;
  backlogs : gmap Validator (Prque Message);
  currentRoundState : option roundState;
  waitingForRoundChange : bool;
  c_roundChangeSet : option roundChangeSet;  (* field [roundChangeSet] *)
  roundChangeTimer : option (Z * bool);  (* duration in ns, and whether it is running *)
  pendingRequests : Prque Request;
  consensusTimestamp : option Z;  (* [None]: the zero time *)
  peersMessages : Cache string nat;  (* peer id to a cache of [arcs] *)
  arcs : list (Cache Hash bool);  (* the caches behind [peersMessages] *)
  knownMessages : Cache Hash bool;
  world : World;  (* the backend, the broadcaster and the clock *)
  trace : list effect;  (* the effects so far, oldest first *)
}.

Definition set_state (v : State) (c : core) : core :=
  mkCore (peerId c) (hasBroadcaster c) v (valSet c) (backlogs c) (currentRoundState
    c) (waitingForRoundChange c) (c_roundChangeSet c) (roundChangeTimer c)
    (pendingRequests c) (consensusTimestamp c) (peersMessages c) (arcs c)
    (knownMessages c) (world c) (trace c).
Definition set_valSet (v : option ValidatorSet) (c : core) : core :=
  mkCore (peerId c) (hasBroadcaster c) (state c) v (backlogs c) (currentRoundState
    c) (waitingForRoundChange c) (c_roundChangeSet c) (roundChangeTimer c)
    (pendingRequests c) (consensusTimestamp c) (peersMessages c) (arcs c)
    (knownMessages c) (world c) (trace c).
Definition set_backlogs (v : gmap Validator (Prque Message)) (c : core) : core :=
  mkCore (peerId c) (hasBroadcaster c) (state c) (valSet c) v (currentRoundState c)
    (waitingForRoundChange c) (c_roundChangeSet c) (roundChangeTimer c)
    (pendingRequests c) (consensusTimestamp c) (peersMessages c) (arcs c)
    (knownMessages c) (world c) (trace c).
Definition set_currentRoundState (v : option roundState) (c : core) : core :=
  mkCore (peerId c) (hasBroadcaster c) (state c) (valSet c) (backlogs c) v
    (waitingForRoundChange c) (c_roundChangeSet c) (roundChangeTimer c)
    (pendingRequests c) (consensusTimestamp c) (peersMessages c) (arcs c)
    (knownMessages c) (world c) (trace c).
Definition set_waitingForRoundChange (v : bool) (c : core) : core :=
  mkCore (peerId c) (hasBroadcaster c) (state c) (valSet c) (backlogs c)
    (currentRoundState c) v (c_roundChangeSet c) (roundChangeTimer c)
    (pendingRequests c) (consensusTimestamp c) (peersMessages c) (arcs c)
    (knownMessages c) (world c) (trace c).
Definition set_roundChangeSet (v : option roundChangeSet) (c : core) : core :=
  mkCore (peerId c) (hasBroadcaster c) (state c) (valSet c) (backlogs c)
    (currentRoundState c) (waitingForRoundChange c) v (roundChangeTimer c)
    (pendingRequests c) (consensusTimestamp c) (peersMessages c) (arcs c)
    (knownMessages c) (world c) (trace c).
Definition set_roundChangeTimer (v : option (Z * bool)) (c : core) : core :=
  mkCore (peerId c) (hasBroadcaster c) (state c) (valSet c) (backlogs c)
    (currentRoundState c) (waitingForRoundChange c) (c_roundChangeSet c) v
    (pendingRequests c) (consensusTimestamp c) (peersMessages c) (arcs c)
    (knownMessages c) (world c) (trace c).
Definition set_pendingRequests (v : Prque Request) (c : core) : core :=
  mkCore (peerId c) (hasBroadcaster c) (state c) (valSet c) (backlogs c)
    (currentRoundState c) (waitingForRoundChange c) (c_roundChangeSet c)
    (roundChangeTimer c) v (consensusTimestamp c) (peersMessages c) (arcs c)
    (knownMessages c) (world c) (trace c).
Definition set_consensusTimestamp (v : option Z) (c : core) : core :=
  mkCore (peerId c) (hasBroadcaster c) (state c) (valSet c) (backlogs c)
    (currentRoundState c) (waitingForRoundChange c) (c_roundChangeSet c)
    (roundChangeTimer c) (pendingRequests c) v (peersMessages c) (arcs c)
    (knownMessages c) (world c) (trace c).
Definition set_peersMessages (v : Cache string nat) (c : core) : core :=
  mkCore (peerId c) (hasBroadcaster c) (state c) (valSet c) (backlogs c)
    (currentRoundState c) (waitingForRoundChange c) (c_roundChangeSet c)
    (roundChangeTimer c) (pendingRequests c) (consensusTimestamp c) v (arcs c)
    (knownMessages c) (world c) (trace c).
Definition set_arcs (v : list (Cache Hash bool)) (c : core) : core :=
  mkCore (peerId c) (hasBroadcaster c) (state c) (valSet c) (backlogs c)
    (currentRoundState c) (waitingForRoundChange c) (c_roundChangeSet c)
    (roundChangeTimer c) (pendingRequests c) (consensusTimestamp c) (peersMessages
    c) v (knownMessages c) (world c) (trace c).
Definition set_knownMessages (v : Cache Hash bool) (c : core) : core :=
  mkCore (peerId c) (hasBroadcaster c) (state c) (valSet c) (backlogs c)
    (currentRoundState c) (waitingForRoundChange c) (c_roundChangeSet c)
    (roundChangeTimer c) (pendingRequests c) (consensusTimestamp c) (peersMessages
    c) (arcs c) v (world c) (trace c).
Definition set_world (v : World) (c : core) : core :=
  mkCore (peerId c) (hasBroadcaster c) (state c) (valSet c) (backlogs c)
    (currentRoundState c) (waitingForRoundChange c) (c_roundChangeSet c)
    (roundChangeTimer c) (pendingRequests c) (consensusTimestamp c) (peersMessages
    c) (arcs c) (knownMessages c) v (trace c).
Definition set_trace (v : list effect) (c : core) : core :=
  mkCore (peerId c) (hasBroadcaster c) (state c) (valSet c) (backlogs c)
    (currentRoundState c) (waitingForRoundChange c) (c_roundChangeSet c)
    (roundChangeTimer c) (pendingRequests c) (consensusTimestamp c) (peersMessages
    c) (arcs c) (knownMessages c) (world c) v.

Abbreviation M := (prog core).

(** A call to the backend, the broadcaster or the clock. *)
Definition call {A} (f : prog World A) : M A := fun c =>
  match f (world c) with
  | Ret (a, w) => Ret (a, set_world w c)
  | Fail _ => CalleePanic
  end.

Lemma wlp_call {A} (f : prog World A) c (Q : A -> core -> Prop) :
  wlp f (world c) (fun a w => Q a (set_world w c)) -> wlp (call f) c Q.
Proof.
  intros Hf a c'. unfold call. destruct (f (world c)) as [[b w]|] eqn:Ef; [|done].
  intros [= <- <-]. by apply Hf.
Qed.

(** A call for a validator set that the core is going to use. *)
Definition call_set (f : prog World (option ValidatorSet)) : M ValidatorSet :=
  vs ← call f;
  lift match vs with Some vs => Ret vs | None => CalleePanic end.

Definition emit (e : effect) : M unit := modify (fun c => set_trace (trace c ++ [e]) c).

Definition emits (es : list effect) : M unit := modify (fun c => set_trace (trace c ++ es) c).

(** [c.currentRoundState], dereferenced, and an update through the pointer. *)
Definition current : M roundState := c ← get_state; load (currentRoundState c).
Definition update_current (f : roundState -> roundState) : M unit :=
  rs ← current; modify (set_currentRoundState (Some (f rs))).

(** [NewEngine] *)
Definition NewEngine (id : string) (broadcaster : bool) (w : World) : core := {|
  peerId := id; hasBroadcaster := broadcaster;
  state := StateAcceptRequest;
  valSet := None;
  backlogs := ∅;
  currentRoundState := None;
  waitingForRoundChange := false;
  c_roundChangeSet := None;
  roundChangeTimer := None;
  pendingRequests := prque_New;
  consensusTimestamp := None;
  peersMessages := cache_New;
  arcs := [];
  knownMessages := cache_New;
  world := w;
  trace := [];
|}.

(** [currentView] *)
Definition currentView (c : core) : outcome View :=
  rs ← deref (currentRoundState c);
  r ← deref (round rs);
  mret (mkView (Some (i64 (sequence rs))) (Some r)).

(** [isProposer] *)
Definition isProposer (c : core) : bool :=
  match valSet c with None => false | Some v => IsProposer v (peerId c) end.

(** [checkMessage]; the read-only methods return their error through
    [outcome]. *)
Definition checkMessage (c : core) (msgCode : Z) (view : option View) : outcome err :=
  match view with
  | Some v =>
      match Sequence v, Round v with
      | Some vs, Some _ =>
          cv ← currentView c;
          cmp ← View_Cmp v cv;
          cs ← deref (Sequence cv);
          if msgCode =? MsgRoundChange then
            if 0 <? big_Cmp vs cs then mret (Some errFutureMessage)
            else if cmp <? 0 then mret (Some ErrOldMessage)
            else mret None
          else if 0 <? cmp then mret (Some errFutureMessage)
          else if cmp <? 0 then mret (Some ErrOldMessage)
          else if waitingForRoundChange c then mret (Some errFutureMessage)
          else if state c =? StateAcceptRequest then
            if MsgPrePrepare <? msgCode then mret (Some errFutureMessage) else mret None
          else mret None
      | _, _ => mret (Some errInvalidMessage)
      end
  | None => mret (Some errInvalidMessage)
  end.

(** [checkRequestMsg] (core/request.go) *)
Definition checkRequestMsg (c : core) (request : option Request) : outcome err :=
  match request ≫= rq_Proposal with
  | None => mret (Some errInvalidMessage)
  | Some p =>
      rs ← deref (currentRoundState c);
      if Height p <? sequence rs then mret (Some ErrOldMessage)
      else if sequence rs <? Height p then mret (Some errFutureMessage)
      else mret None
  end.
End CoreState.

Abbreviation M := (prog core).
