(* ===== verification/Backlog.v ===== *)
(** * Backlog: stored future messages and pending requests

    Models [core/backlog.go] and the queue operations of [core/request.go].
    The loops pop one element per iteration, so the number of elements held
    is fuel enough: [drain_spec] of [BacklogSpec] proves it. *)

From S2P Require Import Prelude Types Interfaces MessageSet RoundState CoreState.

Section Backlog.
Context `{E : Env}.

(** [msgPriority]; a missing key reads as 0. *)
Definition msgPriority (code : Z) : Z :=
  if code =? MsgPrePrepare then 1
  else if code =? MsgCommit then 2
  else if code =? MsgPrepare then 3
  else 0.

(** [toPriority]: a float32, here always an integer. *)
Definition toPriority (msgCode : Z) (view : View) : outcome Z :=
  seq ← deref (Sequence view);
  if msgCode =? MsgRoundChange then
    mret (- float32_of_uint64 (u64 (big_Uint64 seq * 1000)))
  else
    rnd ← deref (Round view);
    mret (- float32_of_uint64
              (u64 (big_Uint64 seq * 1000 + big_Uint64 rnd * 10 + msgPriority msgCode))).

(** The view of a stored message; [None] when it does not decode or has none. *)
Definition message_view (msg : Message) : option View :=
  if Code msg =? MsgPrePrepare then DecodePrePrepare (Msg msg) ≫= pp_View
  else DecodeSubject (Msg msg) ≫= sub_View.

(** The [switch] of [StoreBacklog]: the queue with the message added. *)
Definition push_backlog (backlog : Prque Message) (msg : Message)
    : outcome (Prque Message) :=
  if Code msg =? MsgPrePrepare then
    match DecodePrePrepare (Msg msg) with
    | Some p =>
        _ ← deref (pp_Proposal p);
        v ← deref (pp_View p);
        prio ← toPriority (Code msg) v;
        mret (prque_Push backlog msg prio)
    | None => mret backlog
    end
  else
    match DecodeSubject (Msg msg) with
    | Some p =>
        v ← deref (sub_View p);
        prio ← toPriority (Code msg) v;
        mret (prque_Push backlog msg prio)
    | None => mret backlog
    end.

(** [StoreBacklog] *)
Definition StoreBacklog (msg : Message) (val : Validator) : M unit :=
  c ← get_state;
  if String.eqb (ID val) (peerId c) then mret tt
  else
    backlog ← lift (push_backlog (default prque_New (backlogs c !! val)) msg);
    modify (set_backlogs (<[val := backlog]> (backlogs c))).

(** The inner loop of [ProcessBacklog] on the queue of [src]: the queue that
    is left and the events posted. *)
Fixpoint backlog_loop (c : core) (src : Validator) (fuel : nat) (backlog : Prque Message)
    : outcome (Prque Message * list effect) :=
  match fuel with
  | O => mret (backlog, [])
  | S fuel =>
      if prque_Empty backlog then mret (backlog, [])
      else
        '(msg, priority, backlog) ← deref (prque_Pop backlog);
        match message_view msg with
        | None => backlog_loop c src fuel backlog
        | Some view =>
            e ← checkMessage c (Code msg) (Some view);
            match e with
            | Some errFutureMessage => mret (prque_Push backlog msg priority, [])
            | Some _ => backlog_loop c src fuel backlog
            | None =>
                '(backlog, evs) ← backlog_loop c src fuel backlog;
                mret (backlog, EGoBacklog src msg :: evs)
            end
        end
  end.

(** The outer loop of [ProcessBacklog], over the enumerated map. *)
Fixpoint backlogs_loop (c : core) (l : list (Validator * Prque Message))
    : outcome (list (Validator * Prque Message) * list effect) :=
  match l with
  | [] => mret ([], [])
  | (src, backlog) :: l =>
      '(backlog, evs) ← backlog_loop c src (length (prque_elems backlog)) backlog;
      '(l, evs') ← backlogs_loop c l;
      mret ((src, backlog) :: l, evs ++ evs')
  end.

(** [ProcessBacklog]; the queues are independent of each other, so the
    unspecified order of the enumeration only orders the posted events. *)
Definition ProcessBacklog : M unit :=
  c ← get_state;
  '(l, evs) ← lift (backlogs_loop c (map_to_list (backlogs c)));
  modify (set_backlogs (list_to_map l));;
  emits evs.

(** ** Pending requests *)

(** [StoreRequestMsg]; [-request.Proposal.Height()] is a [uint64]. *)
Definition StoreRequestMsg (request : Request) : M unit :=
  p ← load (rq_Proposal request);
  c ← get_state;
  modify (set_pendingRequests
    (prque_Push (pendingRequests c) request (float32_of_uint64 (u64 (- Height p))))).

(** [clearPendingRequests] *)
Definition clearPendingRequests : M unit :=
  modify (fun c => set_pendingRequests (prque_Reset (pendingRequests c)) c).

(** The loop of [ProcessPendingRequests]. *)
Fixpoint pending_loop (c : core) (fuel : nat) (q : Prque Request)
    : outcome (Prque Request * list effect) :=
  match fuel with
  | O => mret (q, [])
  | S fuel =>
      if prque_Empty q then mret (q, [])
      else
        '(r, prio, q) ← deref (prque_Pop q);
        e ← checkRequestMsg c (Some r);
        match e with
        | Some errFutureMessage =>
            _ ← deref (rq_Proposal r); mret (prque_Push q r prio, [])
        | Some _ => _ ← deref (rq_Proposal r); pending_loop c fuel q
        | None =>
            _ ← deref (rq_Proposal r);
            '(q, evs) ← pending_loop c fuel q;
            mret (q, EGoRequest r :: evs)
        end
  end.

(** [ProcessPendingRequests] *)
Definition ProcessPendingRequests : M unit :=
  c ← get_state;
  '(q, evs) ← lift (pending_loop c (length (prque_elems (pendingRequests c)))
                      (pendingRequests c));
  modify (set_pendingRequests q);;
  emits evs.

(** [setState] (core/utils.go) *)
Definition setState (s : State) : M unit :=
  modify (fun c => if negb (state c =? s) then set_state s c else c);;
  when (s =? StateAcceptRequest) ProcessPendingRequests;;
  ProcessBacklog.
End Backlog.
