(* ===== verification/Broadcast.v ===== *)
(** * Broadcast: signing, gossiping and decoding messages

    Models [core/broadcast.go], [decodeMsg] of [core/utils.go] and the payload
    methods of [protocol/message.go]. *)

From S2P Require Import Prelude Types Interfaces MessageSet RoundState CoreState.

Section Broadcast.
Context `{E : Env}.

(** [Message.PayloadNoSig] *)
Definition PayloadNoSig (m : Message) : option string :=
  EncodeMessage (mkMessage (Code m) (Msg m) (Msg_Validator m) None (CommittedSeal m)).

(** [Message.Payload] *)
Definition Payload (m : Message) : option string := EncodeMessage m.

(** [Message.FromPayload].  The error of [validateFn] is assigned to the
    [err] declared inside the [if]; the [err] that is returned is the outer
    one, which is nil there. *)
Definition FromPayload (msg : string)
    (validateFn : option (string -> option SignResult -> string * err)) : error + Message :=
  match DecodeMessage msg with
  | None => inl (ErrOther "codec")
  | Some m =>
      match validateFn with
      | None => inr m
      | Some f =>
          match PayloadNoSig m with
          | None => inl (ErrOther "codec")
          | Some payload =>
              let '(_, inner_err) := f payload (Signature m) in
              let outer_err : err := None in
              match outer_err with Some e => inl e | None => inr m end
          end
      end
  end.

(** [core.checkValidatorSignature]: a stub that accepts. *)
Definition checkValidatorSignature (data : string) (signResult : option SignResult)
    : string * err := (EmptyString, None).

(** [decodeMsg] *)
Definition decodeMsg (c : core) (payload : string) : outcome (error + (Message * Validator)) :=
  match FromPayload payload (Some checkValidatorSignature) with
  | inl e => mret (inl e)
  | inr msg =>
      vs ← deref (valSet c);
      match (GetById vs (Msg_Validator msg)).2 with
      | None => mret (inl ErrUnauthorized)
      | Some val => mret (inr (msg, val))
      end
  end.

Definition set_Msg_Validator (id : string) (m : Message) : Message :=
  mkMessage (Code m) (Msg m) id (Signature m) (CommittedSeal m).
Definition set_CommittedSeal (s : option SignResult) (m : Message) : Message :=
  mkMessage (Code m) (Msg m) (Msg_Validator m) (Signature m) s.
Definition set_Signature (s : option SignResult) (m : Message) : Message :=
  mkMessage (Code m) (Msg m) (Msg_Validator m) s (CommittedSeal m).

(** The committed seal of a COMMIT; [None] is the error return. *)
Definition seal_commit (msg : Message) : M (option Message) :=
  if Code msg =? MsgCommit then
    rs ← current;
    match roundState_Proposal rs with
    | None => mret (Some msg)
    | Some p =>
        r ← call (be_Sign (PrepareCommittedSeal (HashOf p)));
        match r with
        | inl signResult => mret (Some (set_CommittedSeal signResult msg))
        | inr _ => mret None
        end
    end
  else mret (Some msg).

(** [finalizeMessage]; [None] is the error return. *)
Definition finalizeMessage (msg : Message) : M (option string) :=
  c ← get_state;
  sealed ← seal_commit (set_Msg_Validator (peerId c) msg);
  match sealed with
  | None => mret None
  | Some msg =>
      match PayloadNoSig msg with
      | None => mret None
      | Some data =>
          r ← call (be_Sign data);
          match r with
          | inl signResult => mret (Payload (set_Signature signResult msg))
          | inr _ => mret None
          end
      end
  end.

(** [m.Add(hash, true)] through the pointer [ref], and [m.Get(hash)]. *)
Definition arc_Add (ref : nat) (hash : Hash) : M unit :=
  c ← get_state;
  a ← load (arcs c !! ref);
  modify (set_arcs (<[ref := cache_Add a hash true]> (arcs c))).

Definition arc_Get (ref : nat) (hash : Hash) : M (option bool) :=
  c ← get_state;
  a ← load (arcs c !! ref);
  let '(r, a) := cache_Get a hash in
  modify (set_arcs (<[ref := a]> (arcs c)));;
  mret r.

(** [lru.NewARC(inmemoryMessages)] *)
Definition arc_New : M nat :=
  c ← get_state;
  modify (set_arcs (arcs c ++ [cache_New]));;
  mret (length (arcs c)).

(** [c.peersMessages.Get] and [Add] *)
Definition peersMessages_Get (id : string) : M (option nat) :=
  c ← get_state;
  let '(r, p) := cache_Get (peersMessages c) id in
  modify (set_peersMessages p);;
  mret r.

Definition peersMessages_Add (id : string) (ref : nat) : M unit :=
  modify (fun c => set_peersMessages (cache_Add (peersMessages c) id ref) c).

(** One iteration of the loop of [GossipPayload]: the peer to send to, unless
    it is known to have the message. *)
Definition gossip_peer (hash : Hash) (val : Validator) : M (list string) :=
  c ← get_state;
  if String.eqb (ID val) (peerId c) then mret []
  else
    let id := ID val in
    let pid := IDFromString id in
    ms ← peersMessages_Get id;
    known ← match ms with
            | Some ref => k ← arc_Get ref hash; mret (k, ref)
            | None => ref ← arc_New; mret (None, ref)
            end;
    match known with
    | (Some _, _) => mret []
    | (None, ref) =>
        arc_Add ref hash;;
        peersMessages_Add id ref;;
        mret [pid]
    end.

Fixpoint gossip_loop (hash : Hash) (l : list Validator) : M (list string) :=
  match l with
  | [] => mret []
  | val :: l =>
      pids ← gossip_peer hash val;
      pids' ← gossip_loop hash l;
      mret (pids ++ pids')
  end.

(** [GossipPayload] *)
Definition GossipPayload (payload : string) : M err :=
  let hash := Keccak256 payload in
  c ← get_state;
  vs ← load (valSet c);
  validators ← gossip_loop hash (List vs);
  if (0 <? length validators)%nat && hasBroadcaster c then
    emit (EGossip validators payload);;
    r ← call (be_Broadcast validators payload);
    mret (ErrOther <$> r)
  else mret None.

(** [Broadcast] *)
Definition Broadcast (msg : Message) : M unit :=
  payload ← finalizeMessage msg;
  match payload with
  | None => mret tt
  | Some payload =>
      emit (EGoLocal payload);;
      _ ← GossipPayload payload;
      mret tt
  end.
End Broadcast.
