(* ===== verification/Round.v ===== *)
(** * Round: rounds, round changes and the round timer (core/round.go)

    [SendPrePrepare] of [core/pre_prepare.go] is here too, since a new round
    may propose the locked or the pending block again. *)

From S2P Require Import Prelude Types Interfaces MessageSet Quorum RoundState CoreState Backlog Broadcast.

Section Round.
Context `{E : Env}.

Definition second : Z := 10 ^ 9.
Definition roundChangeTimeout : Z := 20 * second.
Definition initRoundTimeout : Z := 10 * second.

(** [SendPrePrepare] (core/pre_prepare.go) *)
Definition SendPrePrepare (request : Request) : M unit :=
  p ← load (rq_Proposal request);
  c ← get_state;
  rs ← current;
  if (sequence rs =? Height p) && isProposer c then
    curView ← lift (currentView c);
    match EncodePrePrepare (mkPrePrepare (Some curView) (rq_Proposal request)) with
    | None => mret tt
    | Some bytes => Broadcast (mkMessage MsgPrePrepare bytes EmptyString None None)
    end
  else mret tt.

(** [updateRoundState] *)
Definition updateRoundState (view : View) (vs : ValidatorSet) (roundChange : bool) : M unit :=
  c ← get_state;
  rs' ← lift
    match roundChange, currentRoundState c with
    | true, Some rs =>
        if IsHashLocked rs then
          newRoundState view vs (GetLockedHash rs) (rs_PrePrepare rs) (pendingRequest rs)
        else newRoundState view vs ZeroHash None (pendingRequest rs)
    | _, _ => newRoundState view vs ZeroHash None None
    end;
  modify (set_currentRoundState (Some rs')).

(** [stopTimer] *)
Definition stopTimer : M unit :=
  modify (fun c => set_roundChangeTimer ((fun t => (t.1, false)) <$> roundChangeTimer c) c).

(** The timeout of [newRoundChangeTimer], an [int64] of nanoseconds. *)
Definition round_timeout (waiting : bool) (rnd : Z) : Z :=
  let timeout := if waiting then initRoundTimeout else roundChangeTimeout in
  if 0 <? rnd then
    let d := if rnd <? 63 then 2 ^ rnd else f2i_overflow rnd in
    i64 (timeout + i64 (d * second))
  else timeout.

(** [newRoundChangeTimer] *)
Definition newRoundChangeTimer : M unit :=
  stopTimer;;
  c ← get_state;
  rs ← current;
  r ← load (round rs);
  let timeout := round_timeout (waitingForRoundChange c) (big_Uint64 r) in
  modify (set_roundChangeTimer (Some (timeout, true)));;
  emit (ETimer timeout).

(** The first half of [StartNewRound]: [None] is a return, [Some roundChange]
    goes on. *)
Definition StartNewRound_decide (rnd : Z) (lastProposal : option Proposal) : M (option bool) :=
  c ← get_state;
  match currentRoundState c with
  | None => mret (Some false)
  | Some rs =>
      match lastProposal with
      | None => mret None
      | Some p =>
          if sequence rs <=? Height p then
            modify (set_consensusTimestamp None);;
            mret (Some false)
          else if Height p =? u64 (sequence rs - 1) then
            if big_Cmp rnd 0 =? 0 then mret None
            else
              r ← load (round rs);
              if big_Cmp rnd r <? 0 then mret None else mret (Some true)
          else mret None
      end
  end.

(** The new view of [StartNewRound]; outside a round change the validators
    are read again.  A nil set is dereferenced by [CalcProposer] in
    [StartNewRound]; what is assigned before that is lost with the panic. *)
Definition StartNewRound_view (rnd : Z) (lastProposal : option Proposal) (roundChange : bool)
    : M View :=
  if roundChange then
    rs ← current;
    mret (mkView (Some (i64 (sequence rs))) (Some rnd))
  else
    p ← load lastProposal;
    vs ← call_set (be_Validators p);
    modify (set_valSet (Some vs));;
    mret (mkView (Some (i64 (Height p) + 1)) (Some 0)).

(** Proposing again at the end of [StartNewRound]. *)
Definition StartNewRound_propose (roundChange : bool) : M unit :=
  c ← get_state;
  match currentRoundState c with
  | Some rs =>
      if roundChange && isProposer c then
        if IsHashLocked rs then SendPrePrepare (mkRequest (roundState_Proposal rs))
        else match pendingRequest rs with
             | Some r => SendPrePrepare r
             | None => mret tt
             end
      else mret tt
  | None => mret tt
  end.

(** [StartNewRound] *)
Definition StartNewRound (rnd : Z) : M unit :=
  '(lastProposal, lastProposer) ← call be_LastProposal;
  decision ← StartNewRound_decide rnd lastProposal;
  match decision with
  | None => mret tt
  | Some roundChange =>
      newView ← StartNewRound_view rnd lastProposal roundChange;
      c ← get_state;
      vs ← load (valSet c);
      modify (set_roundChangeSet (Some (newRoundChangeSet vs)));;
      updateRoundState newView vs roundChange;;
      newRound ← load (Round newView);
      modify (set_valSet (Some (CalcProposer vs lastProposer (big_Uint64 newRound))));;
      modify (set_waitingForRoundChange false);;
      setState StateAcceptRequest;;
      StartNewRound_propose roundChange;;
      newRoundChangeTimer
  end.

(** [catchUpRound] *)
Definition catchUpRound (view : View) : M unit :=
  modify (set_waitingForRoundChange true);;
  c ← get_state;
  vs ← load (valSet c);
  updateRoundState view vs true;;
  rcs ← load (c_roundChangeSet c);
  r ← load (Round view);
  modify (set_roundChangeSet (Some (roundChangeSet_Clear rcs r)));;
  newRoundChangeTimer.

(** [sendRoundChange] *)
Definition sendRoundChange (rnd : Z) : M unit :=
  c ← get_state;
  cv ← lift (currentView c);
  cr ← load (Round cv);
  if 0 <=? big_Cmp cr rnd then mret tt
  else
    catchUpRound (mkView (Sequence cv) (Some rnd));;
    c ← get_state;
    cv ← lift (currentView c);
    match EncodeSubject (mkSubject (Some cv) ZeroHash) with
    | None => mret tt
    | Some payload => Broadcast (mkMessage MsgRoundChange payload EmptyString None None)
    end.

(** [sendNextRoundChange] *)
Definition sendNextRoundChange : M unit :=
  c ← get_state;
  cv ← lift (currentView c);
  r ← load (Round cv);
  sendRoundChange (r + 1).

(** [HandleRoundChange] *)
Definition HandleRoundChange (msg : Message) (val : Validator) : M err :=
  match DecodeSubject (Msg msg) with
  | None => mret (Some errInvalidMessage)
  | Some rc =>
      c ← get_state;
      e ← lift (checkMessage c MsgRoundChange (sub_View rc));
      match e with
      | Some e => mret (Some e)
      | None =>
          cv ← lift (currentView c);
          roundView ← load (sub_View rc);
          rnd ← load (Round roundView);
          cr ← load (Round cv);
          rcs ← load (c_roundChangeSet c);
          let '((num, e), rcs) := roundChangeSet_Add rcs rnd msg in
          modify (set_roundChangeSet (Some rcs));;
          match e with
          | Some e => mret (Some e)
          | None =>
              vs ← load (valSet c);
              if reachThreshold vs num
                 && (waitingForRoundChange c || (big_Cmp cr rnd <? 0)) then
                StartNewRound rnd;;
                mret None
              else if waitingForRoundChange c && (num =? FaultTolerantNum vs + 1) then
                when (big_Cmp cr rnd <? 0) (sendRoundChange rnd);;
                mret None
              else if big_Cmp cr rnd <? 0 then mret (Some errIgnored)
              else mret None
          end
      end
  end.
End Round.
