(* ===== verification/Phases.v ===== *)
(** * Phases: PRE-PREPARE, PREPARE and COMMIT

    Models [core/pre_prepare.go], [core/prepare.go], [core/commit.go],
    [core/final_commit.go] and [HandleRequest] of [core/request.go]. *)

From S2P Require Import Prelude Types Interfaces MessageSet Quorum RoundState CoreState Backlog Broadcast Round.

Section Phases.
Context `{E : Env}.

(** ** request.go *)

(** [Request]: what the caller's goroutine does. *)
Definition Core_Request (request : option Request) : M err :=
  r ← load request;
  _ ← load (rq_Proposal r);
  c ← get_state;
  e ← lift (checkRequestMsg c (Some r));
  match e with
  | Some errFutureMessage | None => emit (EGoRequest r);; mret None
  | Some e => mret (Some e)
  end.

(** [HandleRequest] *)
Definition HandleRequest (request : Request) : M err :=
  _ ← load (rq_Proposal request);
  c ← get_state;
  e ← lift (checkRequestMsg c (Some request));
  match e with
  | Some e => mret (Some e)
  | None =>
      when (state c =? StateAcceptRequest)
        (update_current (set_pendingRequest (Some request)));;
      when ((state c =? StateAcceptRequest) && negb (waitingForRoundChange c))
        (SendPrePrepare request);;
      mret None
  end.

(** ** prepare.go *)

(** [SendPrepare] *)
Definition SendPrepare : M unit :=
  rs ← current;
  s ← lift (roundState_Subject rs);
  sub ← load s;
  _ ← load (sub_View sub);
  match EncodeSubject sub with
  | None => mret tt
  | Some bytes => Broadcast (mkMessage MsgPrepare bytes EmptyString None None)
  end.

(** ** commit.go *)

(** [broadcastCommit] *)
Definition broadcastCommit (sub : Subject) : M unit :=
  match EncodeSubject sub with
  | None => mret tt
  | Some bytes => Broadcast (mkMessage MsgCommit bytes EmptyString None None)
  end.

(** [SendCommit] *)
Definition SendCommit : M unit :=
  rs ← current;
  s ← lift (roundState_Subject rs);
  sub ← load s;
  _ ← load (sub_View sub);
  broadcastCommit sub.

(** [sendCommitForOldBlock] *)
Definition sendCommitForOldBlock (view : option View) (bHash : Hash) : M unit :=
  broadcastCommit (mkSubject view bHash).

(** [verifyPrepare] and [verifyCommit]: [reflect.DeepEqual] of two subjects. *)
Definition verifySubject (sub : Subject) : M err :=
  rs ← current;
  s ← lift (roundState_Subject rs);
  if bool_decide (Some sub = s) then mret None else mret (Some errInconsistentSubject).
Definition verifyPrepare (prepare : Subject) : M err := verifySubject prepare.
Definition verifyCommit (commit : Subject) : M err := verifySubject commit.

(** [acceptPrepare] and [acceptCommit]; the callers ignore the error. *)
Definition acceptPrepare (msg : Message) : M err :=
  rs ← current;
  let '(e, ms) := MessageSet_Add (Prepares rs) msg in
  update_current (set_Prepares ms);;
  mret e.
Definition acceptCommit (msg : Message) : M err :=
  rs ← current;
  let '(e, ms) := MessageSet_Add (Commits rs) msg in
  update_current (set_Commits ms);;
  mret e.

(** [reachPrepareThreshold], [reachCommitThreshold] *)
Definition reachPrepareThreshold : M bool :=
  c ← get_state;
  rs ← current;
  vs ← load (valSet c);
  mret (reachThreshold vs (GetPrepareOrCommitSize rs)).
Definition reachCommitThreshold : M bool :=
  c ← get_state;
  rs ← current;
  vs ← load (valSet c);
  mret (reachThreshold vs (MessageSet_Size (Commits rs))).

(** [c.currentRoundState.LockHash()] *)
Definition LockCurrent : M unit :=
  rs ← current;
  rs' ← lift (LockHash rs);
  modify (set_currentRoundState (Some rs')).

(** [commit] *)
Definition commit : M unit :=
  setState StateCommitted;;
  rs ← current;
  match roundState_Proposal rs with
  | None => mret tt
  | Some proposal =>
      let committedSeals := CommittedSeal <$> MessageSet_Values (Commits rs) in
      emit (ECommit proposal committedSeals);;
      e ← call (be_Commit proposal committedSeals);
      match e with
      | Some _ => update_current UnlockHash;; sendNextRoundChange
      | None => mret tt
      end
  end.

(** [HandlePrepare] *)
Definition HandlePrepare (msg : Message) (val : Validator) : M err :=
  match DecodeSubject (Msg msg) with
  | None => mret (Some errFailedDecodePrepare)
  | Some prepare =>
      _ ← load (sub_View prepare);
      c ← get_state;
      e ← lift (checkMessage c MsgPrepare (sub_View prepare));
      match e with
      | Some e => mret (Some e)
      | None =>
          e ← verifyPrepare prepare;
          match e with
          | Some e => mret (Some e)
          | None =>
              _ ← acceptPrepare msg;
              rs ← current;
              reached ← (if IsHashLocked rs && bool_decide (Digest prepare = GetLockedHash rs)
                         then mret true else reachPrepareThreshold);
              c ← get_state;
              when (reached && (State_Cmp (state c) StatePrepared <? 0))
                (LockCurrent;; setState StatePrepared;; SendCommit);;
              mret None
          end
      end
  end.

(** [HandleCommit] *)
Definition HandleCommit (msg : Message) (val : Validator) : M err :=
  match DecodeSubject (Msg msg) with
  | None => mret (Some errFailedDecodeCommit)
  | Some cmt =>
      _ ← load (sub_View cmt);
      c ← get_state;
      e ← lift (checkMessage c MsgCommit (sub_View cmt));
      match e with
      | Some e => mret (Some e)
      | None =>
          e ← verifyCommit cmt;
          match e with
          | Some e => mret (Some e)
          | None =>
              _ ← acceptCommit msg;
              reached ← reachCommitThreshold;
              c ← get_state;
              when (reached && (State_Cmp (state c) StateCommitted <? 0))
                (LockCurrent;; commit);;
              mret None
          end
      end
  end.

(** ** pre_prepare.go *)

(** [acceptPrePrepare] *)
Definition acceptPrePrepare (pp : PrePrepare) : M unit :=
  now ← call be_Now;
  modify (set_consensusTimestamp (Some now));;
  update_current (SetPrePrepare (Some pp)).

(** The branch of [HandlePrePrepare] for an old message: [true] when a COMMIT
    for the existing block was sent. *)
Definition old_PrePrepare (pp : PrePrepare) (p : Proposal) (val : Validator) : M bool :=
  pvs ← call_set (be_ParentValidators p);
  previousProposer ← call (be_GetProposer (u64 (Height p - 1)));
  v ← load (pp_View pp);
  r ← load (Round v);
  let vs := CalcProposer (Copy pvs) previousProposer (big_Uint64 r) in
  if IsProposer vs (ID val) then
    has ← call (be_HasProposal (HashOf p) (Height p));
    when has (sendCommitForOldBlock (pp_View pp) (HashOf p));;
    mret has
  else mret false.

(** The last part of [HandlePrePrepare], in state [StateAcceptRequest]. *)
Definition accept_proposal (pp : PrePrepare) (p : Proposal) : M unit :=
  rs ← current;
  if IsHashLocked rs then
    if bool_decide (HashOf p = GetLockedHash rs) then
      acceptPrePrepare pp;; setState StatePrepared;; SendCommit
    else sendNextRoundChange
  else (acceptPrePrepare pp;; setState StatePrePrepared;; SendPrepare).

(** [HandlePrePrepare] *)
Definition HandlePrePrepare (msg : Message) (val : Validator) : M err :=
  match DecodePrePrepare (Msg msg) with
  | None => mret (Some errFailedDecodePrePrepare)
  | Some pp =>
      p ← load (pp_Proposal pp);
      _ ← load (pp_View pp);
      c ← get_state;
      e ← lift (checkMessage c MsgPrePrepare (pp_View pp));
      match e with
      | Some ErrOldMessage =>
          sent ← old_PrePrepare pp p val;
          if sent : bool then mret None else mret (Some ErrOldMessage)
      | Some e => mret (Some e)
      | None =>
          vs ← load (valSet c);
          if negb (IsProposer vs (ID val)) then mret (Some errNotFromProposer)
          else
            e ← call (be_Verify p);
            match e with
            | Some e => mret (Some (ErrOther e))
            | None =>
                when (state c =? StateAcceptRequest) (accept_proposal pp p);;
                mret None
            end
      end
  end.

(** ** final_commit.go *)

(** [FinalCommit] *)
Definition FinalCommit : M unit := emit EGoFinalCommit.

(** [HandleFinalCommitted] *)
Definition HandleFinalCommitted : M unit := StartNewRound 0.
End Phases.
