(* ===== verification/Loop.v ===== *)
(** * Loop: the event loop of the core (core/pbft.go)

    One iteration of [handleLoop] receives one value from one of its channels;
    [event] is that value and [handle_event] the body of the [select] case. *)

From S2P Require Import Prelude Types Interfaces MessageSet Quorum RoundState CoreState Backlog Broadcast Round Phases.

Section Loop.
Context `{E : Env}.

Inductive event :=
| EvRequest (r : Request)  (* c.requestCh *)
| EvLocal (payload : string)  (* c.localMsgCh *)
| EvBacklog (msg : Message) (val : Validator)  (* c.backlogCh *)
| EvFinalCommit  (* c.finalCommitCh *)
| EvP2P (data : string)  (* c.p2pMsgCh *)
| EvTimeout.  (* c.timeoutCh *)

(** [testBacklog] *)
Definition testBacklog (msg : Message) (val : Validator) (e : err) : M err :=
  when (bool_decide (e = Some errFutureMessage)) (StoreBacklog msg val);;
  mret e.

(** [handleMsg] *)
Definition handleMsg (msg : Message) (val : Validator) : M err :=
  if Code msg =? MsgPrePrepare then e ← HandlePrePrepare msg val; testBacklog msg val e
  else if Code msg =? MsgPrepare then e ← HandlePrepare msg val; testBacklog msg val e
  else if Code msg =? MsgCommit then e ← HandleCommit msg val; testBacklog msg val e
  else if Code msg =? MsgRoundChange then e ← HandleRoundChange msg val; testBacklog msg val e
  else mret (Some errInvalidMessage).

(** The first half of [handleTimeoutMsg]: [true] when a round change to the
    greatest round with [f + 1] votes was sent. *)
Definition timeout_catchUp : M bool :=
  c ← get_state;
  if waitingForRoundChange c then mret false
  else
    rcs ← load (c_roundChangeSet c);
    vs ← load (valSet c);
    match roundChangeSet_MaxRound rcs (FaultTolerantNum vs + 1) with
    | None => mret false
    | Some maxRound =>
        rs ← current;
        r ← load (round rs);
        if 0 <? big_Cmp maxRound r then sendRoundChange maxRound;; mret true
        else mret false
    end.

(** [handleTimeoutMsg] *)
Definition handleTimeoutMsg : M unit :=
  c ← get_state;
  match currentRoundState c with
  | Some rs =>
      modify (set_currentRoundState (Some (set_pendingRequest None (UnlockHash rs))))
  | None => mret tt
  end;;
  sent ← timeout_catchUp;
  if sent : bool then mret tt
  else
    '(lastProposal, _) ← call be_LastProposal;
    match lastProposal with
    | None => sendNextRoundChange
    | Some p =>
        rs ← current;
        if sequence rs <=? Height p then StartNewRound 0 else sendNextRoundChange
    end.

(** Marking the message as known by its author, in the p2p case of the loop. *)
Definition mark_peer (id : string) (hash : Hash) : M unit :=
  ms ← peersMessages_Get id;
  ref ← match ms with
        | Some ref => mret ref
        | None => ref ← arc_New; peersMessages_Add id ref;; mret ref
        end;
  arc_Add ref hash.

Definition knownMessages_Get (hash : Hash) : M (option bool) :=
  c ← get_state;
  let '(r, k) := cache_Get (knownMessages c) hash in
  modify (set_knownMessages k);;
  mret r.

(** The p2p case of the loop. *)
Definition handle_p2p (data : string) : M unit :=
  c ← get_state;
  d ← lift (decodeMsg c data);
  match d with
  | inl _ => mret tt
  | inr (msg, val) =>
      let hash := Keccak256 data in
      mark_peer (ID val) hash;;
      known ← knownMessages_Get hash;
      match known with
      | Some _ => mret tt
      | None =>
          modify (fun c => set_knownMessages (cache_Add (knownMessages c) hash true) c);;
          e ← handleMsg msg val;
          match e with
          | None => _ ← GossipPayload data; mret tt
          | Some _ => mret tt
          end
      end
  end.

(** One iteration of [handleLoop]. *)
Definition handle_event (ev : event) : M unit :=
  match ev with
  | EvRequest r =>
      e ← HandleRequest r;
      when (bool_decide (e = Some errFutureMessage)) (StoreRequestMsg r)
  | EvLocal payload =>
      c ← get_state;
      d ← lift (decodeMsg c payload);
      match d with
      | inl _ => mret tt
      | inr (msg, val) => _ ← handleMsg msg val; mret tt
      end
  | EvBacklog msg val => _ ← handleMsg msg val; mret tt
  | EvFinalCommit => HandleFinalCommitted
  | EvP2P data => handle_p2p data
  | EvTimeout => handleTimeoutMsg
  end.

(** [Start]: the first round; the loop is started after it. *)
Definition Start : M unit := StartNewRound 0.

(** [Stop], up to the wait for the goroutines, and what [handleLoop] does
    when it leaves. *)
Definition Stop : M unit := stopTimer.
Definition handleLoop_quit : M unit := modify (set_currentRoundState None).

(** [NewChainHead] *)
Definition NewChainHead : M err := FinalCommit;; mret None.

(** [RequestTimeout]: stops the timer; [true] when a timeout event is sent. *)
Definition RequestTimeout : M bool :=
  c ← get_state;
  if waitingForRoundChange c then mret false
  else stopTimer;; mret true.

(** A run of the loop on a sequence of events. *)
Fixpoint run (evs : list event) : M unit :=
  match evs with
  | [] => mret tt
  | ev :: evs => handle_event ev;; run evs
  end.
End Loop.
