(* ===== verification/Consensus.v ===== *)
(** * Consensus: making an engine, and its life cycle

    Models [options.go], [NewConsensus] and [ID] of [pbft.go], and [Start],
    [Stop] and [Begin] of [engine.go].  The components an engine is given are
    interfaces of other modules, nil until an option sets them; an option is
    a function on the fields of the engine.  The channels, the logger and the
    context of the engine are not fields here.

    The list of APIs is a field that no option sets: [NewConsensus] registers
    the API of the engine at its zero value. *)

From S2P Require Import Prelude Types Interfaces MessageSet RoundState CoreState Backlog Broadcast Round Phases Loop Snapshot.

Section Consensus.
Context `{E : Env}.

(** The components, and what the code calls of them.  [ChainConfig] is the
    name of the consensus of the chain configuration, and its data decoded
    ([ToStruct]) or an error. *)
Class WiringI := {
  NodeKey : Type;
  Config : Type;
  Broadcaster : Type;
  Reader : Type;
  DatabaseReader : Type;
  KVDB : Type;
  NodeID : Type;
  SelfConfig : Type;
  ARC : Type;
  APIs : Type;
  NodeID_String : NodeID -> string;
  nodeKey_ID : NodeKey -> outcome (string + NodeID);
  ChainConfig : Config -> outcome (string * (string + SelfConfig));
  NewARC : Z -> string + ARC;
  zero_NodeID : NodeID;
  zero_APIs : APIs;  (* the zero value of the field [apis] *)
  (** the reader of the registered service *)
  RegisterAPI : APIs -> option Reader -> outcome APIs;
}.
Context {WI : WiringI}.

(** The struct [pbftEngine]; pointers and interfaces may be nil. *)
Record pbftEngine := mkEngine {
  f_nodeId : NodeID;
  f_nodeKey : option NodeKey;
  f_config : option Config;
  f_broadcaster : option Broadcaster;
  f_blockReader : option Reader;
  f_dbReader : option DatabaseReader;
  f_apis : APIs;
  f_selfConfig : option SelfConfig;
  f_pbftCore : option core;
  f_db : option KVDB;
  f_snapshotCache : option ARC;
  f_validatorCache : option ARC;
}.

Definition zero_engine : pbftEngine :=
  mkEngine zero_NodeID None None None None None zero_APIs None None None None None.

Abbreviation ME := (prog pbftEngine).

(** ** Options (options.go) *)

Definition opt : Type := ME (option string).

Definition WithConfig (config : option Config) : opt :=
  modify (fun f => mkEngine (f_nodeId f) (f_nodeKey f) config (f_broadcaster f) (f_blockReader f)
    (f_dbReader f) (f_apis f) (f_selfConfig f) (f_pbftCore f) (f_db f) (f_snapshotCache f)
    (f_validatorCache f));;
  mret None.
Definition WithNodeKey (nodeKey : option NodeKey) : opt :=
  modify (fun f => mkEngine (f_nodeId f) nodeKey (f_config f) (f_broadcaster f) (f_blockReader f)
    (f_dbReader f) (f_apis f) (f_selfConfig f) (f_pbftCore f) (f_db f) (f_snapshotCache f)
    (f_validatorCache f));;
  mret None.
Definition WithBroadcaster (broadcaster : option Broadcaster) : opt :=
  modify (fun f => mkEngine (f_nodeId f) (f_nodeKey f) (f_config f) broadcaster (f_blockReader f)
    (f_dbReader f) (f_apis f) (f_selfConfig f) (f_pbftCore f) (f_db f) (f_snapshotCache f)
    (f_validatorCache f));;
  mret None.
Definition WithBlockReader (blockReader : option Reader) : opt :=
  modify (fun f => mkEngine (f_nodeId f) (f_nodeKey f) (f_config f) (f_broadcaster f) blockReader
    (f_dbReader f) (f_apis f) (f_selfConfig f) (f_pbftCore f) (f_db f) (f_snapshotCache f)
    (f_validatorCache f));;
  mret None.
Definition WithDatabaseReader (dbReader : option DatabaseReader) : opt :=
  modify (fun f => mkEngine (f_nodeId f) (f_nodeKey f) (f_config f) (f_broadcaster f)
    (f_blockReader f) dbReader (f_apis f) (f_selfConfig f) (f_pbftCore f) (f_db f)
    (f_snapshotCache f) (f_validatorCache f));;
  mret None.
Definition WithKVDB (db : option KVDB) : opt :=
  modify (fun f => mkEngine (f_nodeId f) (f_nodeKey f) (f_config f) (f_broadcaster f)
    (f_blockReader f) (f_dbReader f) (f_apis f) (f_selfConfig f) (f_pbftCore f) db
    (f_snapshotCache f) (f_validatorCache f));;
  mret None.

(** [apply]; a nil option is skipped. *)
Fixpoint apply (opts : list (option opt)) : ME (option string) :=
  match opts with
  | [] => mret None
  | None :: opts => apply opts
  | Some o :: opts =>
      e ← o;
      match e with
      | Some e => mret (Some ("option apply err:" +:+ e)%string)
      | None => apply opts
      end
  end.

(** ** NewConsensus *)

Definition memoryValidatorLen : Z := 20.
Definition memorySnapshotsLen : Z := 128.

Definition set_validatorCache (c : ARC) (f : pbftEngine) : pbftEngine :=
  mkEngine (f_nodeId f) (f_nodeKey f) (f_config f) (f_broadcaster f) (f_blockReader f) (f_dbReader f)
    (f_apis f) (f_selfConfig f) (f_pbftCore f) (f_db f) (f_snapshotCache f) (Some c).
Definition set_snapshotCache (c : ARC) (f : pbftEngine) : pbftEngine :=
  mkEngine (f_nodeId f) (f_nodeKey f) (f_config f) (f_broadcaster f) (f_blockReader f) (f_dbReader f)
    (f_apis f) (f_selfConfig f) (f_pbftCore f) (f_db f) (Some c) (f_validatorCache f).
Definition set_nodeId (i : NodeID) (f : pbftEngine) : pbftEngine :=
  mkEngine i (f_nodeKey f) (f_config f) (f_broadcaster f) (f_blockReader f) (f_dbReader f)
    (f_apis f) (f_selfConfig f) (f_pbftCore f) (f_db f) (f_snapshotCache f) (f_validatorCache f).
Definition set_selfConfig (c : SelfConfig) (f : pbftEngine) : pbftEngine :=
  mkEngine (f_nodeId f) (f_nodeKey f) (f_config f) (f_broadcaster f) (f_blockReader f) (f_dbReader f)
    (f_apis f) (Some c) (f_pbftCore f) (f_db f) (f_snapshotCache f) (f_validatorCache f).
Definition set_pbftCore (c : core) (f : pbftEngine) : pbftEngine :=
  mkEngine (f_nodeId f) (f_nodeKey f) (f_config f) (f_broadcaster f) (f_blockReader f) (f_dbReader f)
    (f_apis f) (f_selfConfig f) (Some c) (f_db f) (f_snapshotCache f) (f_validatorCache f).
Definition set_apis (a : APIs) (f : pbftEngine) : pbftEngine :=
  mkEngine (f_nodeId f) (f_nodeKey f) (f_config f) (f_broadcaster f) (f_blockReader f) (f_dbReader f)
    a (f_selfConfig f) (f_pbftCore f) (f_db f) (f_snapshotCache f) (f_validatorCache f).

(** [pbftEngine.ID] *)
Definition engine_ID (f : pbftEngine) : string := NodeID_String (f_nodeId f).

(** The part of [NewConsensus] after the options; [w] is the world of the
    engine as the backend of the core. *)
Definition wire (w : World) : ME (option string) :=
  match NewARC memoryValidatorLen with
  | inl e => mret (Some e)
  | inr validators =>
      modify (set_validatorCache validators);;
      match NewARC memorySnapshotsLen with
      | inl e => mret (Some e)
      | inr snapshots =>
          modify (set_snapshotCache snapshots);;
          f ← get_state;
          nodeKey ← load (f_nodeKey f);
          i ← lift (nodeKey_ID nodeKey);
          match i with
          | inl e => mret (Some e)
          | inr i =>
              modify (set_nodeId i);;
              config ← load (f_config f);
              c ← lift (ChainConfig config);
              if negb (EqualFold_pbft c.1)
              then mret (Some ("consensus is not pbft: " +:+ c.1)%string)
              else
                match c.2 with
                | inl e => mret (Some e)
                | inr selfConfig =>
                    modify (set_selfConfig selfConfig);;
                    f ← get_state;
                    modify (set_pbftCore
                      (NewEngine (engine_ID f) (match f_broadcaster f with Some _ => true | None => false end) w));;
                    a ← lift (RegisterAPI (f_apis f) (f_blockReader f));
                    modify (set_apis a);;
                    mret None
                end
          end
      end
  end.

(** [NewConsensus]: an error or the engine. *)
Definition NewConsensus (w : World) (opts : list (option opt)) : outcome (string + pbftEngine) :=
  r ← (e ← apply opts; match e with Some e => mret (Some e) | None => wire w end) zero_engine;
  match r with
  | (Some e, _) => mret (inl e)
  | (None, f) => mret (inr f)
  end.

(** ** Start, Stop and Begin (engine.go) *)

(** A method of the core of the engine. *)
Definition on_core {A} (m : prog core A) : ME A := fun f =>
  match f_pbftCore f with
  | Some c => match m c with Ret (a, c') => Ret (a, set_pbftCore c' f) | Fail who => Fail who end
  | None => Panic
  end.

Definition engine_Start : ME (option string) := on_core Start;; mret None.
Definition engine_Stop : ME (option string) := on_core Stop;; mret None.
Definition engine_Begin : ME err := on_core NewChainHead.

(** [VerifyHeaders] is [panic("implement me")]. *)
Definition VerifyHeaders {A} : ME A := lift Panic.

(** ** What the options set *)

(** The options of the package, and what each is. *)
Inductive package_option :=
| OConfig (c : option Config)
| ONodeKey (k : option NodeKey)
| OBroadcaster (b : option Broadcaster)
| OBlockReader (r : option Reader)
| ODatabaseReader (r : option DatabaseReader)
| OKVDB (d : option KVDB).

Definition option_fun (o : package_option) : opt :=
  match o with
  | OConfig c => WithConfig c
  | ONodeKey k => WithNodeKey k
  | OBroadcaster b => WithBroadcaster b
  | OBlockReader r => WithBlockReader r
  | ODatabaseReader r => WithDatabaseReader r
  | OKVDB d => WithKVDB d
  end.

(** The argument list of [NewConsensus]; a nil option is [None]. *)
Definition options (os : list (option package_option)) : list (option opt) :=
  map (option_map option_fun) os.

(** The value of the last option of a list that sets a field, nil if there is
    none. *)
Definition last_set {X} (g : package_option -> option (option X)) (os : list (option package_option))
    : option X :=
  mjoin (last (omap (fun o => o ≫= g) os)).

Definition to_config o := match o with OConfig c => Some c | _ => None end.
Definition to_nodeKey o := match o with ONodeKey k => Some k | _ => None end.
Definition to_broadcaster o := match o with OBroadcaster b => Some b | _ => None end.
Definition to_blockReader o := match o with OBlockReader r => Some r | _ => None end.
Definition to_dbReader o := match o with ODatabaseReader r => Some r | _ => None end.
Definition to_db o := match o with OKVDB d => Some d | _ => None end.

(** The engine before [wire]. *)
Definition configured (os : list (option package_option)) : pbftEngine :=
  mkEngine zero_NodeID (last_set to_nodeKey os) (last_set to_config os) (last_set to_broadcaster os)
    (last_set to_blockReader os) (last_set to_dbReader os) zero_APIs None None (last_set to_db os)
    None None.

Lemma apply_app opts1 opts2 f f1 :
  apply opts1 f = Ret (None, f1) -> apply (opts1 ++ opts2) f = apply opts2 f1.
Proof.
  revert f. induction opts1 as [|[o|] opts1 IH]; intros f; cbn [apply app]; [by intros [= <-]| |by apply IH].
  unfold mbind, prog_bind. destruct (o f) as [[[e|] f2]|]; [done|by apply IH|done].
Qed.

Lemma last_set_snoc {X} (g : package_option -> option (option X)) os o :
  last_set g (os ++ [o]) = default (last_set g os) (o ≫= g).
Proof.
  unfold last_set. rewrite omap_app. cbn. destruct (o ≫= g) as [x|]; [by rewrite last_snoc|].
  by rewrite app_nil_r.
Qed.

Lemma apply_options os : apply (options os) zero_engine = Ret (None, configured os).
Proof.
  induction os as [|o os IH] using rev_ind; [done|].
  unfold options. rewrite map_app. cbn [map].
  rewrite (apply_app _ _ _ _ IH). unfold configured. rewrite !last_set_snoc.
  by destruct o as [[]|].
Qed.

Lemma on_core_Ret {A} (m : prog core A) f c a c' :
  f_pbftCore f = Some c -> m c = Ret (a, c') -> on_core m f = Ret (a, set_pbftCore c' f).
Proof. intros E1 E2. unfold on_core. by rewrite E1, E2. Qed.

(** [NewConsensus] as a function of the options, [made] being what [wire]
    makes of the engine. *)
Definition made (w : World) (f0 : pbftEngine) (c1 c2 : ARC) : outcome (string + pbftEngine) :=
  k ← deref (f_nodeKey f0);
  i ← nodeKey_ID k;
  match i with
  | inl e => Ret (inl e)
  | inr i =>
      cfg ← deref (f_config f0);
      c ← ChainConfig cfg;
      if negb (EqualFold_pbft c.1)
      then Ret (inl ("consensus is not pbft: " +:+ c.1)%string)
      else match c.2 with
           | inl e => Ret (inl e)
           | inr s =>
               a ← RegisterAPI (f_apis f0) (f_blockReader f0);
               Ret (inr (mkEngine i (Some k) (Some cfg) (f_broadcaster f0) (f_blockReader f0)
                 (f_dbReader f0) a (Some s)
                 (Some (NewEngine (NodeID_String i) (bool_decide (is_Some (f_broadcaster f0))) w))
                 (f_db f0) (Some c2) (Some c1)))
           end
  end.

Lemma NewConsensus_made w os c1 c2 :
  NewARC memoryValidatorLen = inr c1 -> NewARC memorySnapshotsLen = inr c2 ->
  NewConsensus w (options os) = made w (configured os) c1 c2.
Proof.
  intros E1 E2. unfold NewConsensus, mbind at 1, outcome_bind at 1. unfold mbind at 1, prog_bind at 1.
  rewrite apply_options. unfold wire, made. rewrite E1, E2.
  unfold mbind, prog_bind, outcome_bind, load, lift, get_state, modify.
  destruct (configured os) as [ni nk cf br rd dr ap sc pc db sn vc]; cbn.
  destruct nk as [k|]; [|reflexivity]. cbn.
  destruct (nodeKey_ID k) as [[e|i]|]; cbn; [reflexivity| |reflexivity].
  destruct cf as [cfg|]; [|reflexivity]. cbn.
  destruct (ChainConfig cfg) as [[name [e|s]]|]; cbn; [| |reflexivity].
  - by destruct (lower_string name =? "pbft")%string.
  - destruct (lower_string name =? "pbft")%string; [|reflexivity]. cbn.
    destruct (RegisterAPI ap rd) as [a|]; [|reflexivity]. cbn. unfold engine_ID. cbn.
    by destruct br.
Qed.

(** When an engine is made, and which. *)
Lemma made_iff w f0 c1 c2 f :
  made w f0 c1 c2 = Ret (inr f) <->
  exists k i cfg name s a,
    f_nodeKey f0 = Some k /\ nodeKey_ID k = Ret (inr i) /\
    f_config f0 = Some cfg /\ ChainConfig cfg = Ret (name, inr s) /\
    EqualFold_pbft name = true /\
    RegisterAPI (f_apis f0) (f_blockReader f0) = Ret a /\
    let b := f_broadcaster f0 in
    f = mkEngine i (Some k) (Some cfg) b (f_blockReader f0) (f_dbReader f0) a
          (Some s) (Some (NewEngine (NodeID_String i) (bool_decide (is_Some b)) w))
          (f_db f0) (Some c2) (Some c1).
Proof.
  destruct f0 as [ni nk cf br rd dr ap sc pc db sn vc].
  unfold made, mbind, outcome_bind; cbn -[EqualFold_pbft]. split.
  - destruct nk as [k|]; [|done]. cbn -[EqualFold_pbft].
    destruct (nodeKey_ID k) as [[e|i]|] eqn:Ei; try done.
    destruct cf as [cfg|]; [|done]. cbn -[EqualFold_pbft].
    destruct (ChainConfig cfg) as [[name [e|s]]|] eqn:Ec; cbn -[EqualFold_pbft]; try done;
      destruct (EqualFold_pbft name) eqn:En; try done. cbn.
    destruct (RegisterAPI _ _) as [a|] eqn:Ea; [|done]. intros [= <-]. by exists k, i, cfg, name, s, a.
  - intros (k & i & cfg & name & s & a & -> & Ei & -> & Ec & En & Ea & ->). cbn -[EqualFold_pbft].
    rewrite Ei; cbn -[EqualFold_pbft]. by rewrite Ec; cbn -[EqualFold_pbft]; rewrite En, Ea.
Qed.

(** C33. [NewConsensus] returns an engine exactly when the last node key of its
    options has an id, the last configuration names pbft up to case and its
    consensus data decodes, and the API can be registered at the zero value
    of the list of APIs, which no option sets: if that panics, as a nil
    interface does, no engine is ever made. The engine then has, in every
    field an option sets, the value of the last option for it (nil if there
    is none; nil options are skipped), the id of the key, the decoded data,
    both caches and a new core with that id, which gossips when there is a
    broadcaster. *)
Theorem NewConsensus_correct w os c1 c2 f :
  NewARC memoryValidatorLen = inr c1 -> NewARC memorySnapshotsLen = inr c2 ->
  NewConsensus w (options os) = Ret (inr f) <->
  exists k i cfg name s a,
    last_set to_nodeKey os = Some k /\ nodeKey_ID k = Ret (inr i) /\
    last_set to_config os = Some cfg /\ ChainConfig cfg = Ret (name, inr s) /\
    EqualFold_pbft name = true /\
    RegisterAPI zero_APIs (last_set to_blockReader os) = Ret a /\
    let b := last_set to_broadcaster os in
    f = mkEngine i (Some k) (Some cfg) b (last_set to_blockReader os) (last_set to_dbReader os) a
          (Some s) (Some (NewEngine (NodeID_String i) (bool_decide (is_Some b)) w))
          (last_set to_db os) (Some c2) (Some c1).
Proof.
  intros E1 E2. rewrite (NewConsensus_made w os c1 c2 E1 E2). apply made_iff.
Qed.

(** The life of an engine that was made: [Start] is that of its core and
    returns no error (it panics when the core does), [Begin] tells the core of
    a new head, [Stop] posts nothing more and returns no error, and
    [VerifyHeaders] always panics. *)
Theorem engine_lifecycle w os c1 c2 f :
  NewARC memoryValidatorLen = inr c1 -> NewARC memorySnapshotsLen = inr c2 ->
  NewConsensus w (options os) = Ret (inr f) ->
  exists c0, f_pbftCore f = Some c0 /\ peerId c0 = engine_ID f /\
    (forall c, Start c0 = Ret (tt, c) -> engine_Start f = Ret (None, set_pbftCore c f)) /\
    (Start c0 = Panic -> engine_Start f = Panic) /\
    engine_Begin f = Ret (None, set_pbftCore (set_trace [EGoFinalCommit] c0) f) /\
    @VerifyHeaders unit f = Panic.
Proof.
  intros E1 E2. rewrite (NewConsensus_made w os c1 c2 E1 E2), made_iff. intros En.
  destruct En as (k & i & cfg & name & s & a & _ & _ & _ & _ & _ & _ & ->). cbn.
  eexists. split; [reflexivity|]. split; [reflexivity|].
  unfold engine_Start, engine_Begin, mbind, prog_bind. split; [|split; [|split; [|done]]].
  - intros c Hc. by erewrite on_core_Ret by (done || exact Hc).
  - intros Hc. unfold on_core. cbn -[Start]. by rewrite Hc.
  - reflexivity.
Qed.
End Consensus.
