(* ===== verification/CoreFrame.v ===== *)
(** * CoreFrame: invariants that relate the core to its backend

    A relation [J] between the core's validators, the world behind the
    backend and the effects emitted so far is kept by every method of the
    core, provided that it is kept by the calls the core makes: the rules of
    this file are the only thing a client has to know about the code of the
    core.  [AssemblySpec] instantiates it with the block engine as the backend. *)

From S2P Require Import Prelude Types Interfaces MessageSet Quorum RoundState CoreState Backlog Broadcast Round Phases Loop.

Section CoreFrame.
Context `{E : Env}.

(** What a client promises about its relation. *)
Class FrameLaws (J : option ValidatorSet -> World -> list effect -> Prop) := {
  fl_trace vs w tr es : J vs w tr -> J vs w (tr ++ es);
  fl_Validators vs w tr p :
    J vs w tr -> wlp (be_Validators p) w (fun r w' => forall v, r = Some v -> J (Some v) w' tr);
  fl_CalcProposer vs w tr last rnd : J (Some vs) w tr -> J (Some (CalcProposer vs last rnd)) w tr;
  fl_ParentValidators vs w tr p :
    J vs w tr -> wlp (be_ParentValidators p) w (fun _ w' => J vs w' tr);
  fl_Verify vs w tr p : J vs w tr -> wlp (be_Verify p) w (fun _ w' => J vs w' tr);
  fl_Commit vs w tr p seals :
    J vs w tr -> ECommit p seals ∈ tr -> wlp (be_Commit p seals) w (fun _ w' => J vs w' tr);
  fl_Sign vs w tr d : J vs w tr -> wlp (be_Sign d) w (fun _ w' => J vs w' tr);
  fl_LastProposal vs w tr : J vs w tr -> wlp be_LastProposal w (fun _ w' => J vs w' tr);
  fl_HasProposal vs w tr h n : J vs w tr -> wlp (be_HasProposal h n) w (fun _ w' => J vs w' tr);
  fl_GetProposer vs w tr n : J vs w tr -> wlp (be_GetProposer n) w (fun _ w' => J vs w' tr);
  fl_Broadcast vs w tr ps b : J vs w tr -> wlp (be_Broadcast ps b) w (fun _ w' => J vs w' tr);
  fl_Now vs w tr : J vs w tr -> wlp be_Now w (fun _ w' => J vs w' tr);
}.

Context (J : option ValidatorSet -> World -> list effect -> Prop) {FL : FrameLaws J}.

Definition linked (c : core) : Prop := J (valSet c) (world c) (trace c).
Abbreviation presJ := (pres linked).

(** ** The primitive steps *)

Lemma pres_call {A} (f : prog World A) :
  (forall vs w tr, J vs w tr -> wlp f w (fun _ w' => J vs w' tr)) -> presJ (call f).
Proof. intros Hf c Hc. apply wlp_call. exact (Hf _ _ _ Hc). Qed.

Lemma pres_call_set (f : prog World (option ValidatorSet)) :
  (forall vs w tr, J vs w tr -> wlp f w (fun _ w' => J vs w' tr)) -> presJ (call_set f).
Proof. intros Hf. apply pres_bind; [by apply pres_call|]. intros o. apply pres_lift. Qed.

Lemma pres_emit e : presJ (emit e).
Proof. apply pres_modify. intros c. apply fl_trace. Qed.

Lemma pres_emits es : presJ (emits es).
Proof. apply pres_modify. intros c. apply fl_trace. Qed.

Lemma pres_current : presJ current.
Proof. unfold current. pres_steps. Qed.

Lemma pres_update_current f : presJ (update_current f).
Proof. unfold update_current. apply pres_bind; [apply pres_current|]. intros rs. pres_steps. Qed.

Create HintDb frame.
Hint Resolve pres_ret pres_get_state pres_gets pres_lift pres_load pres_emit pres_emits
  pres_current pres_update_current : frame.

Ltac frame_step :=
  lazymatch goal with
  | |- pres _ (_ ≫= _) => apply pres_bind; [|intros ?]
  | |- pres _ (when _ _) => apply pres_when
  | |- pres _ (match ?x with _ => _ end) => destruct x
  | |- pres _ (call _) =>
      apply pres_call; intros ???;
      solve [apply fl_Verify | apply fl_Sign | apply fl_LastProposal
            | apply fl_HasProposal | apply fl_GetProposer | apply fl_Broadcast | apply fl_Now]
  | |- pres _ (call_set _) => apply pres_call_set; intros ???; apply fl_ParentValidators
  | |- pres _ (modify _) =>
      apply pres_modify; intros ? Hlinked;
      first [exact Hlinked | repeat case_match; exact Hlinked]
  | |- pres _ _ => solve [auto with frame]
  end.
Ltac frame_steps := repeat frame_step.

(** ** Backlog and broadcast *)

Lemma pres_StoreBacklog msg val : presJ (StoreBacklog msg val).
Proof. unfold StoreBacklog. frame_steps. Qed.

Lemma pres_ProcessBacklog : presJ ProcessBacklog.
Proof. unfold ProcessBacklog. frame_steps. Qed.

Lemma pres_StoreRequestMsg r : presJ (StoreRequestMsg r).
Proof. unfold StoreRequestMsg. frame_steps. Qed.

Lemma pres_ProcessPendingRequests : presJ ProcessPendingRequests.
Proof. unfold ProcessPendingRequests. frame_steps. Qed.
Hint Resolve pres_StoreBacklog pres_ProcessBacklog pres_StoreRequestMsg
  pres_ProcessPendingRequests : frame.

Lemma pres_setState s : presJ (setState s).
Proof. unfold setState. frame_steps. Qed.
Hint Resolve pres_setState : frame.

Lemma pres_seal_commit msg : presJ (seal_commit msg).
Proof. unfold seal_commit. frame_steps. Qed.
Hint Resolve pres_seal_commit : frame.

Lemma pres_finalizeMessage msg : presJ (finalizeMessage msg).
Proof. unfold finalizeMessage. frame_steps. Qed.
Hint Resolve pres_finalizeMessage : frame.

Lemma pres_arc_New : presJ arc_New.
Proof. unfold arc_New. frame_steps. Qed.

Lemma pres_arc_Add ref hash : presJ (arc_Add ref hash).
Proof. unfold arc_Add. frame_steps. Qed.

Lemma pres_arc_Get ref hash : presJ (arc_Get ref hash).
Proof. unfold arc_Get. frame_steps. Qed.

Lemma pres_peersMessages_Get id : presJ (peersMessages_Get id).
Proof. unfold peersMessages_Get. frame_steps. Qed.

Lemma pres_peersMessages_Add id ref : presJ (peersMessages_Add id ref).
Proof. unfold peersMessages_Add. frame_steps. Qed.
Hint Resolve pres_arc_New pres_arc_Add pres_arc_Get pres_peersMessages_Get
  pres_peersMessages_Add : frame.

Lemma pres_gossip_loop hash l : presJ (gossip_loop hash l).
Proof.
  induction l as [|val l IH]; cbn [gossip_loop]; [apply pres_ret|].
  apply pres_bind; [|intros ?; apply pres_bind; [exact IH|auto with frame]].
  unfold gossip_peer. frame_steps.
Qed.
Hint Resolve pres_gossip_loop : frame.

Lemma pres_GossipPayload payload : presJ (GossipPayload payload).
Proof. unfold GossipPayload. frame_steps. Qed.
Hint Resolve pres_GossipPayload : frame.

Lemma pres_Broadcast msg : presJ (Broadcast msg).
Proof. unfold Broadcast. frame_steps. Qed.
Hint Resolve pres_Broadcast : frame.

(** ** Rounds *)

Lemma pres_SendPrePrepare r : presJ (SendPrePrepare r).
Proof. unfold SendPrePrepare. frame_steps. Qed.

Lemma pres_updateRoundState view vs rc : presJ (updateRoundState view vs rc).
Proof. unfold updateRoundState. frame_steps. Qed.

Lemma pres_newRoundChangeTimer : presJ newRoundChangeTimer.
Proof. unfold newRoundChangeTimer, stopTimer. frame_steps. Qed.

Lemma pres_StartNewRound_decide rnd last : presJ (StartNewRound_decide rnd last).
Proof. unfold StartNewRound_decide. frame_steps. Qed.
Hint Resolve pres_SendPrePrepare pres_updateRoundState pres_newRoundChangeTimer
  pres_StartNewRound_decide : frame.

Lemma pres_StartNewRound_propose rc : presJ (StartNewRound_propose rc).
Proof. unfold StartNewRound_propose. frame_steps. Qed.
Hint Resolve pres_StartNewRound_propose : frame.

(** The validators are replaced between the call and the assignment. *)
Lemma pres_StartNewRound_view rnd last rc : presJ (StartNewRound_view rnd last rc).
Proof.
  unfold StartNewRound_view. destruct rc; [frame_steps|].
  apply pres_bind; [auto with frame|]. intros p c Hc.
  unfold call_set. do 2 apply wlp_bind. apply wlp_call.
  eapply wlp_mono; [exact (fl_Validators _ _ _ p Hc)|]. intros [vs|] w Hw; [|by intros a c'].
  apply wlp_ret. wlp_steps. by apply Hw.
Qed.
Hint Resolve pres_StartNewRound_view : frame.

Lemma updateRoundState_valSet view vs rc : keeps valSet (updateRoundState view vs rc).
Proof.
  unfold updateRoundState. apply keeps_bind; [auto with pbft|]. intros c.
  apply keeps_bind; [auto with pbft|]. intros rs. by apply keeps_modify.
Qed.

Lemma pres_StartNewRound rnd : presJ (StartNewRound rnd).
Proof.
  unfold StartNewRound. apply pres_bind; [frame_step|]. intros [lp last].
  apply pres_bind; [frame_step|]. intros [rc|]; [|apply pres_ret].
  apply pres_bind; [frame_step|]. intros view c Hc.
  apply wlp_bind, wlp_get_state, wlp_bind, wlp_load. intros vs Hvs.
  apply wlp_bind, wlp_modify, wlp_bind.
  intros [] c1 E1. pose proof (updateRoundState_valSet view vs rc _ _ _ E1) as Hv1.
  assert (Hc1 : linked c1) by (eapply pres_updateRoundState; [|exact E1]; exact Hc).
  simpl in Hv1. rewrite Hvs in Hv1.
  apply wlp_bind, wlp_load. intros nr _. apply wlp_bind, wlp_modify.
  eapply pres_wlp; [|shelve|intros a c2 H2; exact H2]. frame_steps. Unshelve.
  apply fl_CalcProposer. unfold linked in Hc1. by rewrite Hv1 in Hc1.
Qed.
Hint Resolve pres_StartNewRound : frame.

Lemma pres_catchUpRound view : presJ (catchUpRound view).
Proof. unfold catchUpRound. frame_steps. Qed.
Hint Resolve pres_catchUpRound : frame.

Lemma pres_sendRoundChange rnd : presJ (sendRoundChange rnd).
Proof. unfold sendRoundChange. frame_steps. Qed.
Hint Resolve pres_sendRoundChange : frame.

Lemma pres_sendNextRoundChange : presJ sendNextRoundChange.
Proof. unfold sendNextRoundChange. frame_steps. Qed.
Hint Resolve pres_sendNextRoundChange : frame.

Lemma pres_HandleRoundChange msg val : presJ (HandleRoundChange msg val).
Proof. unfold HandleRoundChange. frame_steps. Qed.

(** ** The phases *)

Lemma pres_HandleRequest r : presJ (HandleRequest r).
Proof. unfold HandleRequest. frame_steps. Qed.

Lemma pres_SendPrepare : presJ SendPrepare.
Proof. unfold SendPrepare. frame_steps. Qed.

Lemma pres_SendCommit : presJ SendCommit.
Proof. unfold SendCommit, broadcastCommit. frame_steps. Qed.

Lemma pres_LockCurrent : presJ LockCurrent.
Proof. unfold LockCurrent. frame_steps. Qed.
Hint Resolve pres_HandleRequest pres_SendPrepare pres_SendCommit pres_LockCurrent : frame.

Lemma pres_verifySubject sub : presJ (verifySubject sub).
Proof. unfold verifySubject. frame_steps. Qed.
Hint Resolve pres_verifySubject : frame.

(** The block is handed over right after the effect is recorded. *)
Lemma pres_commit : presJ commit.
Proof.
  unfold commit. apply pres_bind; [frame_step|]. intros [].
  apply pres_bind; [frame_step|]. intros rs. destruct (roundState_Proposal rs) as [p|]; [|apply pres_ret].
  set (seals := _ <$> _). intros c Hc. apply wlp_bind, wlp_modify, wlp_bind.
  assert (Hin : ECommit p seals ∈ trace c ++ [ECommit p seals]) by set_solver.
  apply wlp_call. eapply wlp_mono; [exact (fl_Commit _ _ _ p seals (fl_trace _ _ _ _ Hc) Hin)|].
  intros e w Hw. eapply (pres_wlp linked); [|exact Hw|intros a c2 H2; exact H2]. frame_steps.
Qed.
Hint Resolve pres_commit : frame.

Lemma pres_HandlePrepare msg val : presJ (HandlePrepare msg val).
Proof.
  unfold HandlePrepare, verifyPrepare, acceptPrepare, reachPrepareThreshold. frame_steps.
Qed.

Lemma pres_HandleCommit msg val : presJ (HandleCommit msg val).
Proof. unfold HandleCommit, verifyCommit, acceptCommit, reachCommitThreshold. frame_steps. Qed.

Lemma pres_acceptPrePrepare pp : presJ (acceptPrePrepare pp).
Proof. unfold acceptPrePrepare. frame_steps. Qed.
Hint Resolve pres_acceptPrePrepare : frame.

Lemma pres_HandlePrePrepare msg val : presJ (HandlePrePrepare msg val).
Proof.
  unfold HandlePrePrepare, accept_proposal, old_PrePrepare, sendCommitForOldBlock, broadcastCommit.
  frame_steps.
Qed.
Hint Resolve pres_HandleRoundChange pres_HandlePrepare pres_HandleCommit
  pres_HandlePrePrepare : frame.

(** ** The loop *)

Lemma pres_handleMsg msg val : presJ (handleMsg msg val).
Proof. unfold handleMsg, testBacklog. frame_steps. Qed.
Hint Resolve pres_handleMsg : frame.

Lemma pres_handleTimeoutMsg : presJ handleTimeoutMsg.
Proof. unfold handleTimeoutMsg, timeout_catchUp. frame_steps. Qed.

Lemma pres_handle_p2p data : presJ (handle_p2p data).
Proof. unfold handle_p2p, mark_peer, knownMessages_Get. frame_steps. Qed.
Hint Resolve pres_handleTimeoutMsg pres_handle_p2p : frame.

Lemma pres_handle_event ev : presJ (handle_event ev).
Proof. unfold handle_event, HandleFinalCommitted. frame_steps. Qed.

Lemma pres_Start : presJ Start.
Proof. apply pres_StartNewRound. Qed.

Lemma pres_Core_Request r : presJ (Core_Request r).
Proof. unfold Core_Request. frame_steps. Qed.

Lemma pres_NewChainHead : presJ NewChainHead.
Proof. unfold NewChainHead, FinalCommit. frame_steps. Qed.

Lemma pres_RequestTimeout : presJ RequestTimeout.
Proof. unfold RequestTimeout, stopTimer. frame_steps. Qed.

Lemma pres_run evs : presJ (run evs).
Proof.
  induction evs as [|ev evs IH]; cbn [run]; [apply pres_ret|].
  apply pres_bind; [apply pres_handle_event|]. by intros [].
Qed.
End CoreFrame.
