(* ===== verification/Provenance.v ===== *)
(** * Provenance: where the messages a node holds come from

    A node keeps messages in the votes of its round, in its round-change
    votes, in the queues of future messages, and in the events these queues
    are posted as.  Every method keeps the invariant that they all have a
    property, provided that the message it is given has it; so a node never
    makes up a message in another's name. *)

From S2P Require Import Prelude Types Interfaces MessageSet Quorum RoundState CoreState Backlog Broadcast Round Phases Loop.

Section Provenance.
Context `{E : Env, L : !EnvLaws E}.

(** [msg] is held in one of these parts of a core. *)
Inductive held_in (ors : option roundState) (orcs : option roundChangeSet)
    (queues : gmap Validator (Prque Message)) (es : list effect) (msg : Message) : Prop :=
| held_prepare rs i :
    ors = Some rs -> messages (Prepares rs) !! i = Some msg -> held_in ors orcs queues es msg
| held_commit rs i :
    ors = Some rs -> messages (Commits rs) !! i = Some msg -> held_in ors orcs queues es msg
| held_round rcs r ms i :
    orcs = Some rcs -> roundChanges rcs !! r = Some ms -> messages ms !! i = Some msg ->
    held_in ors orcs queues es msg
| held_queue v q p :
    queues !! v = Some q -> (msg, p) ∈ prque_elems q -> held_in ors orcs queues es msg
| held_posted v : EGoBacklog v msg ∈ es -> held_in ors orcs queues es msg.

Definition holds (c : core) (msg : Message) : Prop :=
  held_in (currentRoundState c) (c_roundChangeSet c) (backlogs c) (trace c) msg.

Context (ok : Message -> Prop).

Definition only (c : core) : Prop := forall msg, holds c msg -> ok msg.
Abbreviation presO := (pres only).

(** ** Changes of one part *)

Definition set_only (ms : MessageSet) : Prop := forall i msg, messages ms !! i = Some msg -> ok msg.
Definition votes_only (rs : roundState) : Prop := set_only (Prepares rs) /\ set_only (Commits rs).
Definition queue_only (q : Prque Message) : Prop := forall msg p, (msg, p) ∈ prque_elems q -> ok msg.
Definition queues_only (qs : gmap Validator (Prque Message)) : Prop :=
  forall v q, qs !! v = Some q -> queue_only q.
Definition posts_only (es : list effect) : Prop := forall v msg, EGoBacklog v msg ∈ es -> ok msg.
Definition rounds_only (rcs : roundChangeSet) : Prop :=
  forall r ms, roundChanges rcs !! r = Some ms -> set_only ms.

Lemma only_votes c rs : only c -> currentRoundState c = Some rs -> votes_only rs.
Proof.
  intros Hc Hrs. split; intros i msg Hm; apply Hc; [by eapply held_prepare|by eapply held_commit].
Qed.

Lemma only_rounds c rcs : only c -> c_roundChangeSet c = Some rcs -> rounds_only rcs.
Proof. intros Hc Hr r ms Hms i msg Hm. apply Hc. by eapply held_round. Qed.

Lemma only_queues c : only c -> queues_only (backlogs c).
Proof. intros Hc v q Hq msg p Hin. apply Hc. by eapply held_queue. Qed.

Lemma only_current rs c : votes_only rs -> only c -> only (set_currentRoundState (Some rs) c).
Proof.
  intros [H1 H2] Hc msg [rs' i [= <-] ?|rs' i [= <-] ?|rcs r ms i ??|v q p ??|v ?];
    [by eapply H1|by eapply H2|..]; apply Hc; by econstructor.
Qed.

Lemma only_no_round c : only c -> only (set_currentRoundState None c).
Proof. intros Hc msg [rs' i [=] ?|rs' i [=] ?|rcs r ms i ??|v q p ??|v ?]; apply Hc; by econstructor. Qed.

Lemma only_roundChangeSet rcs c : rounds_only rcs -> only c -> only (set_roundChangeSet (Some rcs) c).
Proof.
  intros Hr Hc msg [rs i ??|rs i ??|rcs' r ms i [= <-] ??|v q p ??|v ?];
    [..|by eapply Hr| |]; apply Hc; by econstructor.
Qed.

Lemma only_backlogs qs c : queues_only qs -> only c -> only (set_backlogs qs c).
Proof.
  intros Hq Hc msg [rs i ??|rs i ??|rcs' r ms i ???|v q p ??|v ?]; [| | |by eapply Hq|];
    apply Hc; by econstructor.
Qed.

Lemma only_trace es c : posts_only es -> only c -> only (set_trace (trace c ++ es) c).
Proof.
  intros He Hc msg [rs i ??|rs i ??|rcs' r ms i ???|v q p ??|v [?|?]%elem_of_app];
    [..|by eapply He]; apply Hc; by econstructor.
Qed.

Lemma set_only_new vs : set_only (NewMessageSet vs).
Proof. intros i msg. simpl. by rewrite lookup_empty. Qed.

Lemma set_only_add ms msg : ok msg -> set_only ms -> set_only (MessageSet_Add ms msg).2.
Proof. intros Hm Hs i msg' [->|?]%MessageSet_Add_lookup; [done|by eapply Hs]. Qed.

Lemma rounds_only_new vs : rounds_only (newRoundChangeSet vs).
Proof. intros r ms. simpl. by rewrite lookup_empty. Qed.

Lemma rounds_only_add rcs r msg :
  ok msg -> rounds_only rcs -> rounds_only (roundChangeSet_Add rcs r msg).2.
Proof.
  intros Hm Hr k ms. unfold roundChangeSet_Add.
  set (ms0 := match roundChanges rcs !! _ with Some ms => ms | None => _ end).
  assert (H0 : set_only (MessageSet_Add ms0 msg).2).
  { apply set_only_add; [done|]. unfold ms0. destruct (roundChanges rcs !! _) eqn:Ek;
      [by eapply Hr|apply set_only_new]. }
  destruct (MessageSet_Add ms0 msg) as [e ms']. simpl in H0.
  destruct e; simpl; rewrite lookup_insert_Some; intros [[_ <-]|[_ ?]]; done || by eapply Hr.
Qed.

Lemma rounds_only_clear rcs r : rounds_only rcs -> rounds_only (roundChangeSet_Clear rcs r).
Proof. intros Hr k ms [? _]%map_lookup_filter_Some. by eapply Hr. Qed.

(** ** The queues *)

Lemma queue_only_new : queue_only prque_New.
Proof. intros msg p. by rewrite elems_New, elem_of_nil. Qed.

Lemma queue_only_push q msg p : ok msg -> queue_only q -> queue_only (prque_Push q msg p).
Proof.
  intros Hm Hq msg' p'. rewrite elems_Push, elem_of_cons. intros [[= -> ->]|?]; [done|by eapply Hq].
Qed.

Lemma queue_only_pop q msg p q' :
  prque_Pop q = Some (msg, p, q') -> queue_only q -> ok msg /\ queue_only q'.
Proof.
  intros [Hp _]%Pop_Some Hq. split.
  - apply (Hq msg p). rewrite Hp. constructor.
  - intros msg' p' Hin. apply (Hq msg' p'). rewrite Hp. by constructor.
Qed.

Lemma queue_only_default c val : only c -> queue_only (default prque_New (backlogs c !! val)).
Proof.
  intros Hc. destruct (backlogs c !! val) as [q|] eqn:Eq; [by eapply only_queues|apply queue_only_new].
Qed.

Lemma push_backlog_only q msg q' :
  ok msg -> queue_only q -> push_backlog q msg = Ret q' -> queue_only q'.
Proof.
  intros Hm Hq. unfold push_backlog, deref, mbind, outcome_bind.
  repeat case_match; intros [= <-]; auto using queue_only_push.
Qed.

Lemma backlog_loop_only c src fuel q q' es :
  queue_only q -> backlog_loop c src fuel q = Ret (q', es) -> queue_only q' /\ posts_only es.
Proof.
  assert (Hnil : posts_only []) by (intros v msg ?%not_elem_of_nil; done).
  revert q q' es. induction fuel as [|fuel IH]; intros q q' es Hq; cbn [backlog_loop].
  { by intros [= <- <-]. }
  destruct (prque_Empty q); [by intros [= <- <-]|].
  destruct (prque_Pop q) as [[[msg p] q1]|] eqn:Hpop; [|done].
  destruct (queue_only_pop _ _ _ _ Hpop Hq) as [Hm Hq1]. cbn [deref mbind outcome_bind].
  destruct (message_view msg) as [view|]; [|by apply IH].
  destruct (checkMessage c (Code msg) (Some view)) as [[e|]|]; cbn [mbind outcome_bind]; [| |done].
  - destruct e; try by apply IH. intros [= <- <-]. auto using queue_only_push.
  - destruct (backlog_loop c src fuel q1) as [[q2 es2]|] eqn:El; [|done].
    destruct (IH _ _ _ Hq1 El) as [H1 H2]. intros [= <- <-]. split; [done|].
    intros v msg' [[= _ ->]|?]%elem_of_cons; [done|by eapply H2].
Qed.

Lemma backlogs_loop_only c l l' es :
  (forall v q, (v, q) ∈ l -> queue_only q) -> backlogs_loop c l = Ret (l', es) ->
  (forall v q, (v, q) ∈ l' -> queue_only q) /\ posts_only es.
Proof.
  revert l' es. induction l as [|[src q] l IH]; intros l' es Hl; cbn [backlogs_loop].
  { intros [= <- <-]. split; [done|]. by intros v msg ?%not_elem_of_nil. }
  destruct (backlog_loop c src _ q) as [[q1 es1]|] eqn:E1; [|done].
  cbn [mbind outcome_bind]. destruct (backlogs_loop c l) as [[l1 es2]|] eqn:E2; [|done].
  apply backlog_loop_only in E1 as [H1 H2]; [|apply (Hl src); constructor].
  destruct (IH l1 es2) as [H3 H4]; [intros v q0 ?; apply (Hl v); by constructor|done|].
  intros [= <- <-]. split.
  - intros v q0 [[= _ ->]|?]%elem_of_cons; [done|by eapply H3].
  - intros v msg [?|?]%elem_of_app; [by eapply H2|by eapply H4].
Qed.

Lemma queues_only_list l :
  (forall v q, (v, q) ∈ l -> queue_only q) -> queues_only (list_to_map l).
Proof. intros Hl v q Hq%elem_of_list_to_map_2. by eapply Hl. Qed.

(** The other loops post requests, which are no messages. *)
Lemma pending_loop_posts c fuel q q' es :
  pending_loop c fuel q = Ret (q', es) -> posts_only es.
Proof.
  assert (Hnil : posts_only []) by (intros v msg ?%not_elem_of_nil; done).
  revert q q' es. induction fuel as [|fuel IH]; intros q q' es; cbn [pending_loop].
  { by intros [= <- <-]. }
  destruct (prque_Empty q); [by intros [= <- <-]|].
  destruct (prque_Pop q) as [[[r p] q1]|]; [|done]. cbn [deref mbind outcome_bind].
  destruct (checkRequestMsg c (Some r)) as [[e|]|]; cbn [mbind outcome_bind]; [| |done].
  - destruct e, (rq_Proposal r); cbn; try done; by (intros [= <- <-] || apply IH).
  - destruct (rq_Proposal r); [|done]. cbn [deref mbind outcome_bind].
    destruct (pending_loop c fuel q1) as [[q2 es2]|] eqn:El; [|done].
    intros [= <- <-] v msg [?|?]%elem_of_cons; [done|by eapply IH].
Qed.

(** ** The primitive steps *)

Lemma prov_call {A} (f : prog World A) : presO (call f).
Proof. intros c Hc a c'. unfold call. destruct (f (world c)) as [[b w]|]; [by intros [= _ <-]|done]. Qed.

Lemma prov_call_set f : presO (call_set f).
Proof. apply pres_bind; [apply prov_call|]. intros o. apply pres_lift. Qed.

Lemma prov_emits es : posts_only es -> presO (emits es).
Proof. intros He. apply pres_modify. intros c. by apply only_trace. Qed.

Lemma prov_emit e : match e with EGoBacklog _ _ => False | _ => True end -> presO (emit e).
Proof. intros He. apply (prov_emits [e]). by intros v msg <-%list_elem_of_singleton. Qed.

Lemma prov_current : presO current.
Proof. unfold current. pres_steps. Qed.

Lemma wlp_current c (Q : roundState -> core -> Prop) :
  only c -> (forall rs, votes_only rs -> Q rs c) -> wlp current c Q.
Proof.
  intros Hc HQ. unfold current. apply wlp_bind, wlp_get_state, wlp_load. intros rs Hrs.
  apply HQ. by eapply only_votes.
Qed.

Lemma prov_update_current f :
  (forall rs, votes_only rs -> votes_only (f rs)) -> presO (update_current f).
Proof.
  intros Hf c Hc. unfold update_current. apply wlp_bind, wlp_current; [done|]. intros rs Hrs.
  apply wlp_modify, only_current; auto.
Qed.

Create HintDb prov.
Hint Resolve pres_ret pres_get_state pres_gets pres_lift pres_load prov_current prov_call
  prov_call_set : prov.
Hint Resolve only_current only_roundChangeSet rounds_only_new rounds_only_clear set_only_new : prov.

Ltac prov_step :=
  lazymatch goal with
  | |- pres _ (_ ≫= _) => apply pres_bind; [|intros ?]
  | |- pres _ (when _ _) => apply pres_when
  | |- pres _ (match ?x with _ => _ end) => destruct x
  | |- pres _ (emit _) => apply prov_emit; exact I
  | |- pres _ (update_current _) => apply prov_update_current; intros ? Hvotes; exact Hvotes
  | |- pres _ (modify _) =>
      apply pres_modify; intros ? Honly;
      first [exact Honly | solve [auto with prov] | repeat case_match; exact Honly]
  | |- pres _ _ => solve [auto with prov]
  end.
Ltac prov_steps := repeat prov_step.

(** ** Queues and states *)

Lemma prov_StoreBacklog msg val : ok msg -> presO (StoreBacklog msg val).
Proof.
  intros Hm c Hc. unfold StoreBacklog. apply wlp_bind, wlp_get_state.
  destruct (String.eqb _ _); [by apply wlp_ret|]. apply wlp_bind, wlp_lift. intros q Hq.
  apply wlp_modify, only_backlogs; [|done].
  intros v q'. rewrite lookup_insert_Some. intros [[_ <-]|[_ ?]]; [|by eapply only_queues].
  eapply push_backlog_only; [done| |exact Hq]. by apply queue_only_default.
Qed.

Lemma prov_ProcessBacklog : presO ProcessBacklog.
Proof.
  intros c Hc. unfold ProcessBacklog. apply wlp_bind, wlp_get_state, wlp_bind, wlp_lift.
  intros [l es] Hl. apply backlogs_loop_only in Hl as [H1 H2].
  2: { intros v q Hin%elem_of_map_to_list. by eapply only_queues. }
  apply wlp_bind, wlp_modify, (prov_emits es H2), only_backlogs; [|done]. by apply queues_only_list.
Qed.

Lemma prov_StoreRequestMsg r : presO (StoreRequestMsg r).
Proof. unfold StoreRequestMsg. prov_steps. Qed.

Lemma prov_ProcessPendingRequests : presO ProcessPendingRequests.
Proof.
  intros c Hc. unfold ProcessPendingRequests. apply wlp_bind, wlp_get_state, wlp_bind, wlp_lift.
  intros [q es] Hq. apply pending_loop_posts in Hq.
  by apply wlp_bind, wlp_modify, (prov_emits es Hq).
Qed.
Hint Resolve prov_ProcessBacklog prov_ProcessPendingRequests prov_StoreRequestMsg : prov.

Lemma prov_setState s : presO (setState s).
Proof. unfold setState. prov_steps. Qed.
Hint Resolve prov_setState : prov.

(** ** Broadcasts *)

Lemma prov_gossip_loop hash l : presO (gossip_loop hash l).
Proof.
  induction l as [|val l IH]; cbn [gossip_loop]; [apply pres_ret|].
  apply pres_bind; [|intros ?; apply pres_bind; [exact IH|auto with prov]].
  unfold gossip_peer, peersMessages_Get, peersMessages_Add, arc_Get, arc_New, arc_Add. prov_steps.
Qed.
Hint Resolve prov_gossip_loop : prov.

Lemma prov_GossipPayload payload : presO (GossipPayload payload).
Proof. unfold GossipPayload. prov_steps. Qed.
Hint Resolve prov_GossipPayload : prov.

Lemma prov_Broadcast msg : presO (Broadcast msg).
Proof. unfold Broadcast, finalizeMessage, seal_commit. prov_steps. Qed.
Hint Resolve prov_Broadcast : prov.

(** ** Rounds *)

Lemma prov_SendPrePrepare r : presO (SendPrePrepare r).
Proof. unfold SendPrePrepare. prov_steps. Qed.
Hint Resolve prov_SendPrePrepare : prov.

(** A new round state has no votes. *)
Lemma newRoundState_votes view vs d pp r rs : newRoundState view vs d pp r = Ret rs -> votes_only rs.
Proof.
  unfold newRoundState. destruct (Sequence view); [|done]. intros [= <-].
  split; apply set_only_new.
Qed.

Lemma prov_updateRoundState view vs rc : presO (updateRoundState view vs rc).
Proof.
  intros c Hc. unfold updateRoundState. apply wlp_bind, wlp_get_state, wlp_bind, wlp_lift.
  intros rs Hrs. apply wlp_modify, only_current; [|done].
  repeat case_match; by eapply newRoundState_votes.
Qed.

Lemma prov_newRoundChangeTimer : presO newRoundChangeTimer.
Proof. unfold newRoundChangeTimer, stopTimer. prov_steps. Qed.
Hint Resolve prov_updateRoundState prov_newRoundChangeTimer : prov.

Lemma prov_StartNewRound rnd : presO (StartNewRound rnd).
Proof.
  unfold StartNewRound, StartNewRound_decide, StartNewRound_view, StartNewRound_propose. prov_steps.
Qed.
Hint Resolve prov_StartNewRound : prov.

Lemma prov_catchUpRound view : presO (catchUpRound view).
Proof.
  unfold catchUpRound. prov_step; [prov_steps|]. intros c Hc.
  apply wlp_bind, wlp_get_state, wlp_bind, wlp_load. intros vs _.
  apply wlp_bind. eapply pres_wlp; [apply prov_updateRoundState|exact Hc|]. intros _ c1 Hc1.
  apply wlp_bind, wlp_load. intros rcs Hrcs. apply wlp_bind, wlp_load. intros r _.
  apply wlp_bind, wlp_modify, prov_newRoundChangeTimer, only_roundChangeSet; [|done].
  by apply rounds_only_clear, (only_rounds c).
Qed.
Hint Resolve prov_catchUpRound : prov.

Lemma prov_sendRoundChange rnd : presO (sendRoundChange rnd).
Proof. unfold sendRoundChange. prov_steps. Qed.
Hint Resolve prov_sendRoundChange : prov.

Lemma prov_sendNextRoundChange : presO sendNextRoundChange.
Proof. unfold sendNextRoundChange. prov_steps. Qed.
Hint Resolve prov_sendNextRoundChange : prov.

Lemma prov_HandleRoundChange msg val : ok msg -> presO (HandleRoundChange msg val).
Proof.
  intros Hm. unfold HandleRoundChange. destruct (DecodeSubject (Msg msg)) as [rc|]; [|apply pres_ret].
  intros c Hc. apply wlp_bind, wlp_get_state, wlp_bind, wlp_lift. intros e _.
  destruct e; [by apply wlp_ret|]. apply wlp_bind, wlp_lift. intros cv _.
  do 3 (apply wlp_bind, wlp_load; intros ? _). apply wlp_bind, wlp_load. intros rcs Hrcs.
  pose proof (rounds_only_add rcs a0 msg Hm (only_rounds c rcs Hc Hrcs)) as Hr.
  destruct (roundChangeSet_Add rcs a0 msg) as [[num e] rcs']. apply wlp_bind, wlp_modify.
  eapply pres_wlp; [|by apply only_roundChangeSet|intros ? ? H; exact H]. prov_steps.
Qed.

(** ** The phases *)

Lemma prov_HandleRequest r : presO (HandleRequest r).
Proof. unfold HandleRequest. prov_steps. Qed.

Lemma prov_accept f msg :
  ok msg -> (forall rs ms, votes_only rs -> set_only ms -> votes_only (f ms rs)) ->
  forall g : roundState -> MessageSet, (forall rs, votes_only rs -> set_only (g rs)) ->
  presO (rs ← current;
    let '(e, ms) := MessageSet_Add (g rs) msg in
    update_current (f ms);;
    mret e).
Proof.
  intros Hm Hf g Hg c Hc. apply wlp_bind, wlp_current; [done|]. intros rs Hrs.
  pose proof (set_only_add (g rs) msg Hm (Hg rs Hrs)) as Hs.
  destruct (MessageSet_Add (g rs) msg) as [e ms].
  apply wlp_bind. eapply pres_wlp; [apply prov_update_current; intros; by apply Hf|exact Hc|].
  intros _ c' Hc'. by apply wlp_ret.
Qed.

Lemma prov_acceptPrepare msg : ok msg -> presO (acceptPrepare msg).
Proof.
  intros Hm. apply (prov_accept set_Prepares msg Hm); [intros rs ms [_ ?] ?; by split|by intros rs []].
Qed.

Lemma prov_acceptCommit msg : ok msg -> presO (acceptCommit msg).
Proof.
  intros Hm. apply (prov_accept set_Commits msg Hm); [intros rs ms [? _] ?; by split|by intros rs []].
Qed.

Lemma prov_LockCurrent : presO LockCurrent.
Proof.
  intros c Hc. unfold LockCurrent. apply wlp_bind, wlp_current; [done|]. intros rs Hrs.
  apply wlp_bind, wlp_lift. intros rs' Hl. apply wlp_modify, only_current; [|done]. revert Hl.
  unfold LockHash, deref, mbind, outcome_bind. repeat case_match; by intros [= <-].
Qed.
Hint Resolve prov_HandleRequest prov_acceptPrepare prov_acceptCommit prov_LockCurrent : prov.

Lemma prov_broadcastCommit sub : presO (broadcastCommit sub).
Proof. unfold broadcastCommit. prov_steps. Qed.
Hint Resolve prov_broadcastCommit : prov.

Lemma prov_SendPrepare : presO SendPrepare.
Proof. unfold SendPrepare. prov_steps. Qed.

Lemma prov_SendCommit : presO SendCommit.
Proof. unfold SendCommit. prov_steps. Qed.

Lemma prov_commit : presO commit.
Proof. unfold commit. prov_steps. Qed.

Lemma prov_verifySubject sub : presO (verifySubject sub).
Proof. unfold verifySubject. prov_steps. Qed.
Hint Resolve prov_SendPrepare prov_SendCommit prov_commit prov_verifySubject : prov.

Lemma prov_HandlePrepare msg val : ok msg -> presO (HandlePrepare msg val).
Proof. intros Hm. unfold HandlePrepare, verifyPrepare, reachPrepareThreshold. prov_steps. Qed.

Lemma prov_HandleCommit msg val : ok msg -> presO (HandleCommit msg val).
Proof. intros Hm. unfold HandleCommit, verifyCommit, reachCommitThreshold. prov_steps. Qed.

Lemma prov_HandlePrePrepare msg val : presO (HandlePrePrepare msg val).
Proof.
  unfold HandlePrePrepare, accept_proposal, acceptPrePrepare, old_PrePrepare, sendCommitForOldBlock.
  prov_steps.
Qed.
Hint Resolve prov_HandleRoundChange prov_HandlePrepare prov_HandleCommit prov_HandlePrePrepare
  prov_StoreBacklog : prov.

(** ** The loop *)

Lemma prov_handleMsg msg val : ok msg -> presO (handleMsg msg val).
Proof. intros Hm. unfold handleMsg, testBacklog. prov_steps. Qed.

Lemma prov_timeout_catchUp : presO timeout_catchUp.
Proof. unfold timeout_catchUp. prov_steps. Qed.
Hint Resolve prov_timeout_catchUp : prov.

Lemma prov_handleTimeoutMsg : presO handleTimeoutMsg.
Proof.
  intros c Hc. unfold handleTimeoutMsg. apply wlp_bind, wlp_get_state, wlp_bind.
  eapply (wlp_mono _ _ (fun _ => only)).
  { destruct (currentRoundState c) as [rs|] eqn:Ers; [|by apply wlp_ret].
    apply wlp_modify, only_current; [|done]. exact (only_votes c rs Hc Ers). }
  intros _ c1 Hc1. eapply pres_wlp; [|exact Hc1|intros ?? H; exact H]. prov_steps.
Qed.

(** ** Events *)

(** What an event brings. *)
Definition carries (ev : event) (msg : Message) : Prop :=
  match ev with
  | EvLocal payload | EvP2P payload => DecodeMessage payload = Some msg
  | EvBacklog msg' _ => msg' = msg
  | _ => False
  end.

Lemma decodeMsg_carried c payload msg val :
  decodeMsg c payload = Ret (inr (msg, val)) -> DecodeMessage payload = Some msg.
Proof.
  unfold decodeMsg, FromPayload. destruct (DecodeMessage payload) as [m|]; [|done].
  destruct (PayloadNoSig m); [|done]. cbn [checkValidatorSignature deref mbind outcome_bind].
  destruct (valSet c); [|done]. cbn [deref mbind outcome_bind].
  case_match; [|done]. by intros [= <- <-].
Qed.

Lemma wlp_decodeMsg c payload (Q : error + (Message * Validator) -> core -> Prop) :
  (forall d, (forall msg val, d = inr (msg, val) -> DecodeMessage payload = Some msg) -> Q d c) ->
  wlp (lift (decodeMsg c payload)) c Q.
Proof.
  intros HQ. apply wlp_lift. intros d Hd. apply HQ. intros msg val ->. by eapply decodeMsg_carried.
Qed.

Lemma prov_handle_p2p data :
  (forall msg, DecodeMessage data = Some msg -> ok msg) -> presO (handle_p2p data).
Proof.
  intros Hok c Hc. unfold handle_p2p. apply wlp_bind, wlp_get_state, wlp_bind, wlp_decodeMsg.
  intros [e|[msg val]] Hd; [by apply wlp_ret|].
  pose proof (prov_handleMsg msg val (Hok msg (Hd msg val eq_refl))) as Hm.
  eapply pres_wlp; [|exact Hc|intros ?? H; exact H].
  unfold mark_peer, peersMessages_Get, peersMessages_Add, arc_New, arc_Add, knownMessages_Get.
  prov_steps.
Qed.

Lemma prov_handle_event ev : (forall msg, carries ev msg -> ok msg) -> presO (handle_event ev).
Proof.
  intros Hok. destruct ev as [r|payload|msg val| |data|]; cbn [handle_event].
  - prov_steps.
  - intros c Hc. apply wlp_bind, wlp_get_state, wlp_bind, wlp_decodeMsg.
    intros [e|[msg val]] Hd; [by apply wlp_ret|]. apply wlp_bind.
    eapply pres_wlp; [exact (prov_handleMsg msg val (Hok msg (Hd msg val eq_refl)))|exact Hc|].
    intros _ c' Hc'. by apply wlp_ret.
  - pose proof (prov_handleMsg msg val (Hok msg eq_refl)). prov_steps.
  - apply prov_StartNewRound.
  - by apply prov_handle_p2p.
  - apply prov_handleTimeoutMsg.
Qed.

Lemma prov_run evs : (forall ev msg, ev ∈ evs -> carries ev msg -> ok msg) -> presO (run evs).
Proof.
  induction evs as [|ev evs IH]; intros Hok; cbn [run]; [apply pres_ret|]. apply pres_bind.
  - apply prov_handle_event. intros msg. apply Hok. constructor.
  - intros _. apply IH. intros ev' msg Hin. apply Hok. by constructor.
Qed.

Lemma only_NewEngine id b w : only (NewEngine id b w).
Proof.
  intros msg [rs i [=] ?|rs i [=] ?|rcs r ms i [=] ? ?|v q p Hq ?|v Hv]; simpl in *.
  - by rewrite lookup_empty in Hq.
  - by apply not_elem_of_nil in Hv.
Qed.
End Provenance.

Section Received.
Context `{E : Env, L : !EnvLaws E}.

(** C15. A node never makes up a message: whatever it holds after any run of
    its loop (a vote of its round, a round-change vote, a stored future
    message or one posted to be handled again) was brought by one of the
    events, unchanged. *)
Theorem holds_received id b w evs c msg :
  (Start;; run evs) (NewEngine id b w) = Ret (tt, c) -> holds c msg ->
  exists ev, ev ∈ evs /\ carries ev msg.
Proof.
  intros Hrun. revert msg.
  set (ok := fun msg => exists ev, ev ∈ evs /\ carries ev msg).
  assert (Hp : pres (only ok) (Start;; run evs)).
  { apply pres_bind; [apply prov_StartNewRound|]. intros _. apply prov_run.
    intros ev msg ? ?. by exists ev. }
  exact (Hp _ (only_NewEngine ok id b w) _ _ Hrun).
Qed.
End Received.
