(* ===== verification/CoreSpec.v ===== *)
(** * CoreSpec: specifications of the core's methods over its main state

    The fields of the core that decide the protocol are collected in [main];
    queues, caches, the timer, the world and the trace are auxiliary.  A
    specification [spec p m Q] says that from every core whose main state is
    [m], [p] does not panic, unless the backend did, and ends with a result, a
    main state and newly emitted effects that satisfy [Q]. *)

From S2P Require Import Prelude Types Interfaces MessageSet Quorum RoundState CoreState Backlog Broadcast Round Phases Loop.

Section CoreSpec.
Context `{E : Env, L : !EnvLaws E}.

Record main := mkMain {
  m_id : string;
  m_state : State;
  m_waiting : bool;
  m_vs : ValidatorSet;
  m_rs : roundState;
  m_rcs : roundChangeSet;
}.

Definition m_set_state (s : State) (m : main) : main :=
  mkMain (m_id m) s (m_waiting m) (m_vs m) (m_rs m) (m_rcs m).
Definition m_set_waiting (w : bool) (m : main) : main :=
  mkMain (m_id m) (m_state m) w (m_vs m) (m_rs m) (m_rcs m).
Definition m_set_vs (vs : ValidatorSet) (m : main) : main :=
  mkMain (m_id m) (m_state m) (m_waiting m) vs (m_rs m) (m_rcs m).
Definition m_set_rs (rs : roundState) (m : main) : main :=
  mkMain (m_id m) (m_state m) (m_waiting m) (m_vs m) rs (m_rcs m).
Definition m_set_rcs (rcs : roundChangeSet) (m : main) : main :=
  mkMain (m_id m) (m_state m) (m_waiting m) (m_vs m) (m_rs m) rcs.

(** The auxiliary invariants: the pointers of [peersMessages] are valid and
    the stored requests carry a proposal. *)
Record aux_ok (c : core) : Prop := {
  ok_refs : forall id ref, (id, ref) ∈ cache_elems (peersMessages c) -> (ref < length (arcs c))%nat;
  ok_pending : forall r p, (r, p) ∈ prque_elems (pendingRequests c) -> is_Some (rq_Proposal r);
}.

Record runs (c : core) (m : main) : Prop := {
  runs_id : peerId c = m_id m;
  runs_state : state c = m_state m;
  runs_waiting : waitingForRoundChange c = m_waiting m;
  runs_vs : valSet c = Some (m_vs m);
  runs_rs : currentRoundState c = Some (m_rs m);
  runs_rcs : c_roundChangeSet c = Some (m_rcs m);
  runs_aux : aux_ok c;
}.

Definition spec {A} (p : prog core A) (m : main) (Q : A -> main -> list effect -> Prop) : Prop :=
  forall c, runs c m ->
    wp p c (fun a c' => exists m' es,
      runs c' m' /\ trace c' = trace c ++ es /\ Q a m' es).

(** ** Structural rules *)

Lemma spec_ret {A} (a : A) m (Q : A -> main -> list effect -> Prop) :
  Q a m [] -> spec (mret a) m Q.
Proof. intros HQ c Hc. exists m, []. by rewrite app_nil_r. Qed.

Lemma spec_bind {A B} (p : prog core A) (f : A -> prog core B) m
    (Q : B -> main -> list effect -> Prop) :
  spec p m (fun a m1 es1 => spec (f a) m1 (fun b m2 es2 => Q b m2 (es1 ++ es2))) ->
  spec (p ≫= f) m Q.
Proof.
  intros Hp c Hc. apply wp_bind. eapply wp_mono; [exact (Hp c Hc)|].
  intros a c1 (m1 & es1 & Hc1 & Ht1 & Hf). simpl.
  eapply wp_mono; [exact (Hf c1 Hc1)|].
  intros b c2 (m2 & es2 & Hc2 & Ht2 & HQ). exists m2, (es1 ++ es2).
  split; [done|]. split; [|done]. by rewrite Ht2, Ht1, app_assoc.
Qed.

Lemma spec_mono {A} (p : prog core A) m (Q1 Q2 : A -> main -> list effect -> Prop) :
  spec p m Q1 -> (forall a m' es, Q1 a m' es -> Q2 a m' es) -> spec p m Q2.
Proof.
  intros Hp H12 c Hc. eapply wp_mono; [exact (Hp c Hc)|].
  intros a c' (m' & es & ? & ? & ?). exists m', es. auto.
Qed.

(** Reading the state: the continuation is proved for any core in [m]. *)
Lemma spec_get {B} (f : core -> prog core B) m (Q : B -> main -> list effect -> Prop) :
  (forall c, runs c m -> spec (f c) m Q) -> spec (get_state ≫= f) m Q.
Proof. intros Hf c Hc. apply wp_bind, wp_get_state. by apply Hf. Qed.

Lemma spec_lift {A} (o : outcome A) a m (Q : A -> main -> list effect -> Prop) :
  o = Ret a -> Q a m [] -> spec (lift o) m Q.
Proof. intros -> HQ. by apply spec_ret. Qed.

Lemma spec_load {A} (o : option A) a m (Q : A -> main -> list effect -> Prop) :
  o = Some a -> Q a m [] -> spec (load o) m Q.
Proof. intros -> HQ. by apply spec_ret. Qed.

Lemma spec_when (b : bool) p m (Q : unit -> main -> list effect -> Prop) :
  (b = true -> spec p m Q) -> (b = false -> Q tt m []) -> spec (when b p) m Q.
Proof. destruct b; intros H1 H2; [by apply H1|]. apply spec_ret. by apply H2. Qed.

(** A call that panics is the callee's fault. *)
Lemma wp_call_at {MF : MayFail} {A} (f : prog World A) c (Q : A -> core -> Prop) :
  (forall who, f (world c) = Fail who -> callee_fails) ->
  (forall a w, f (world c) = Ret (a, w) -> Q a (set_world w c)) -> wp (call f) c Q.
Proof.
  intros Hp HQ. unfold wp, call. destruct (f (world c)) as [[a w]|who] eqn:Ef; [by apply HQ|].
  by apply (Hp who).
Qed.

Lemma wp_call_set_at {MF : MayFail} f c (Q : ValidatorSet -> core -> Prop) :
  (forall who, f (world c) = Fail who -> callee_fails) ->
  (forall w, f (world c) = Ret (None, w) -> callee_fails) ->
  (forall vs w, f (world c) = Ret (Some vs, w) -> Q vs (set_world w c)) -> wp (call_set f) c Q.
Proof.
  intros Hp Hn HQ. apply wp_bind, wp_call_at; [done|]. intros [vs|] w Hw; [by apply HQ|].
  by apply (Hn w).
Qed.

Lemma wp_call {A} (f : prog World A) c (Q : A -> core -> Prop) :
  (panics f -> callee_fails) ->
  (forall a w, f (world c) = Ret (a, w) -> Q a (set_world w c)) -> wp (call f) c Q.
Proof. intros Hp. apply wp_call_at. intros who Hw. apply Hp. by exists (world c), who. Qed.

Lemma wp_call_set (f : prog World (option ValidatorSet)) c (Q : ValidatorSet -> core -> Prop) :
  (panics f -> callee_fails) -> (answers f None -> callee_fails) ->
  (forall vs w, f (world c) = Ret (Some vs, w) -> Q vs (set_world w c)) -> wp (call_set f) c Q.
Proof.
  intros Hp Hn. apply wp_call_set_at.
  - intros who Hw. apply Hp. by exists (world c), who.
  - intros w Hw. apply Hn. by exists (world c), w.
Qed.

Lemma runs_set_world c m w : runs c m -> runs (set_world w c) m.
Proof. by intros [? ? ? ? ? ? [? ?]]; repeat split. Qed.

Lemma spec_call {A} (f : prog World A) m (Q : A -> main -> list effect -> Prop) :
  (panics f -> callee_fails) ->
  (forall a, answers f a -> Q a m []) -> spec (call f) m Q.
Proof.
  intros Hp HQ c Hc. apply wp_call; [done|]. intros a w Hw. exists m, [].
  split; [by apply runs_set_world|]. split; [by rewrite app_nil_r|]. apply HQ. by exists (world c), w.
Qed.

Lemma spec_call_set (f : prog World (option ValidatorSet)) m
    (Q : ValidatorSet -> main -> list effect -> Prop) :
  (panics f -> callee_fails) -> (answers f None -> callee_fails) ->
  (forall vs, answers f (Some vs) -> Q vs m []) -> spec (call_set f) m Q.
Proof.
  intros Hp Hn HQ c Hc. apply wp_call_set; [done..|]. intros vs w Hw. exists m, [].
  split; [by apply runs_set_world|]. split; [by rewrite app_nil_r|]. apply HQ. by exists (world c), w.
Qed.

Lemma spec_emits (es : list effect) m (Q : unit -> main -> list effect -> Prop) :
  Q tt m es -> spec (emits es) m Q.
Proof.
  intros HQ c Hc. exists m, es. split; [|done].
  by destruct Hc as [? ? ? ? ? ? [? ?]]; repeat split.
Qed.

Lemma spec_emit (e : effect) m (Q : unit -> main -> list effect -> Prop) :
  Q tt m [e] -> spec (emit e) m Q.
Proof. apply (spec_emits [e]). Qed.

(** An update of auxiliary fields. *)
Lemma spec_modify_aux f m (Q : unit -> main -> list effect -> Prop) :
  (forall c, runs c m -> runs (f c) m /\ trace (f c) = trace c) ->
  Q tt m [] -> spec (modify f) m Q.
Proof.
  intros Hf HQ c Hc. destruct (Hf c Hc). exists m, []. by rewrite app_nil_r.
Qed.

(** An update of the main state. *)
Lemma spec_modify_main f m m' (Q : unit -> main -> list effect -> Prop) :
  (forall c, runs c m -> runs (f c) m' /\ trace (f c) = trace c) ->
  Q tt m' [] -> spec (modify f) m Q.
Proof.
  intros Hf HQ c Hc. destruct (Hf c Hc). exists m', []. by rewrite app_nil_r.
Qed.

Lemma spec_current m (Q : roundState -> main -> list effect -> Prop) :
  Q (m_rs m) m [] -> spec current m Q.
Proof. intros HQ. apply spec_get. intros c Hc. eapply spec_load; [apply Hc|done]. Qed.

Lemma spec_set_current rs m (Q : unit -> main -> list effect -> Prop) :
  Q tt (m_set_rs rs m) [] -> spec (modify (set_currentRoundState (Some rs))) m Q.
Proof.
  apply spec_modify_main. intros c Hc. split; [|done].
  by destruct Hc as [? ? ? ? ? ? [? ?]]; repeat split.
Qed.

Lemma spec_set_rcs rcs m (Q : unit -> main -> list effect -> Prop) :
  Q tt (m_set_rcs rcs m) [] -> spec (modify (set_roundChangeSet (Some rcs))) m Q.
Proof.
  apply spec_modify_main. intros c Hc. split; [|done].
  by destruct Hc as [? ? ? ? ? ? [? ?]]; repeat split.
Qed.

Lemma spec_set_waiting b m (Q : unit -> main -> list effect -> Prop) :
  Q tt (m_set_waiting b m) [] -> spec (modify (set_waitingForRoundChange b)) m Q.
Proof.
  apply spec_modify_main. intros c Hc. split; [|done].
  by destruct Hc as [? ? ? ? ? ? [? ?]]; repeat split.
Qed.

Lemma spec_set_vs vs m (Q : unit -> main -> list effect -> Prop) :
  Q tt (m_set_vs vs m) [] -> spec (modify (set_valSet (Some vs))) m Q.
Proof.
  apply spec_modify_main. intros c Hc. split; [|done].
  by destruct Hc as [? ? ? ? ? ? [? ?]]; repeat split.
Qed.

Lemma spec_update_current f m (Q : unit -> main -> list effect -> Prop) :
  Q tt (m_set_rs (f (m_rs m)) m) [] -> spec (update_current f) m Q.
Proof. intros HQ. apply spec_bind, spec_current, spec_set_current. done. Qed.
End CoreSpec.

(** The ways in which a call of the backend can fail. *)
Ltac backend_call :=
  intros ?; change callee_fails with (backend_fails (VS := ValidatorSet)); solve [eauto with pbft].

(** One step of symbolic execution of a method in a [spec] goal. *)
Ltac spec_step :=
  lazymatch goal with
  | |- spec (get_state ≫= _) _ _ => apply spec_get; intros ? ?
  | |- spec (_ ≫= _) _ _ => apply spec_bind
  | |- spec (mret _) _ _ => apply spec_ret
  | |- spec current _ _ => apply spec_current
  | |- spec (call _) _ _ => apply spec_call; [backend_call|intros ? ?]
  | |- spec (call_set _) _ _ => apply spec_call_set; [backend_call|backend_call|intros ? ?]
  | |- spec (emit _) _ _ => apply spec_emit
  | |- spec (emits _) _ _ => apply spec_emits
  | |- spec (update_current _) _ _ => apply spec_update_current
  | |- spec (modify (set_currentRoundState (Some _))) _ _ => apply spec_set_current
  | |- spec (modify (set_roundChangeSet (Some _))) _ _ => apply spec_set_rcs
  | |- spec (modify (set_waitingForRoundChange _)) _ _ => apply spec_set_waiting
  | |- spec (modify (set_valSet (Some _))) _ _ => apply spec_set_vs
  | |- spec (load _) _ _ => eapply spec_load; [solve [eassumption | reflexivity | eauto using runs_vs, runs_rs, runs_rcs]|]
  | |- spec (lift _) _ _ => eapply spec_lift; [solve [eassumption | reflexivity]|]
  end; cbv beta; simpl app.
Ltac spec_steps := repeat spec_step.
