(* ===== verification/BroadcastSpec.v ===== *)
(** * BroadcastSpec: what broadcasting and decoding messages do *)

From S2P Require Import Prelude Types Interfaces MessageSet Quorum RoundState CoreState Backlog Broadcast Round Phases Loop CoreSpec.

Section BroadcastSpec.
Context `{E : Env, L : !EnvLaws E}.

(** A message of this node with the given code and body, sent to itself or
    to its peers. *)
Definition own (id : string) (code : Z) (bytes : string) (e : effect) : Prop :=
  match e with
  | EGoLocal p | EGossip _ p =>
      exists msg, DecodeMessage p = Some msg /\ Code msg = code /\ Msg msg = bytes /\
        Msg_Validator msg = id
  | _ => False
  end.

Definition is_gossip (payload : string) (e : effect) : Prop :=
  exists ids, e = EGossip ids payload.

(** The message is sent, to the node itself and then to peers. *)
Definition broadcasts (id : string) (code : Z) (bytes : string) (es : list effect) : Prop :=
  exists payload gossip, es = EGoLocal payload :: gossip /\
    own id code bytes (EGoLocal payload) /\ Forall (is_gossip payload) gossip.

(** The only reasons not to send this message: the backend cannot sign it (or
    the seal of a COMMIT), or the codec cannot encode it. *)
Definition cannot_seal (code : Z) : Prop :=
  code = MsgCommit /\ exists h why, answers (be_Sign (PrepareCommittedSeal h)) (inr why).

Definition cannot_send (id : string) (code : Z) (bytes : string) : Prop :=
  cannot_seal code \/ exists msg,
    Code msg = code /\ Msg msg = bytes /\ Msg_Validator msg = id /\
    (PayloadNoSig msg = None \/
     (exists data why, PayloadNoSig msg = Some data /\ answers (be_Sign data) (inr why)) \/
     Payload msg = None).

Lemma broadcasts_own id code bytes es : broadcasts id code bytes es -> Forall (own id code bytes) es.
Proof.
  intros (payload & gossip & -> & Ho & Hg). constructor; [done|].
  eapply Forall_impl; [exact Hg|]. by intros ? [ids ->].
Qed.

Lemma spec_seal_commit msg m (Q : option Message -> main -> list effect -> Prop) :
  (forall o, (forall msg', o = Some msg' -> Code msg' = Code msg /\ Msg msg' = Msg msg /\
      Msg_Validator msg' = Msg_Validator msg) -> (o = None -> cannot_seal (Code msg)) -> Q o m []) ->
  spec (seal_commit msg) m Q.
Proof.
  intros HQ. unfold seal_commit. destruct (Z.eqb_spec (Code msg) MsgCommit) as [Hc|];
    [|apply spec_ret, HQ; naive_solver].
  spec_steps. case_match; [|apply spec_ret, HQ; naive_solver].
  spec_steps. case_match; apply spec_ret, HQ; try naive_solver.
  intros _. split; [done|]. subst. eauto.
Qed.

Lemma spec_finalizeMessage msg m (Q : option string -> main -> list effect -> Prop) :
  (forall o, (forall payload, o = Some payload -> exists msg',
      DecodeMessage payload = Some msg' /\ Code msg' = Code msg /\ Msg msg' = Msg msg /\
      Msg_Validator msg' = m_id m) ->
    (o = None -> cannot_send (m_id m) (Code msg) (Msg msg)) -> Q o m []) ->
  spec (finalizeMessage msg) m Q.
Proof.
  intros HQ. unfold finalizeMessage. spec_steps. rename select (runs c m) into Hc.
  apply spec_seal_commit. intros [msg'|] Hmsg Hno; [|apply spec_ret, HQ; [done|left; by apply Hno]].
  destruct (Hmsg msg' eq_refl) as (H1 & H2 & H3). simpl in H1, H2, H3. rewrite (runs_id _ _ Hc) in H3.
  destruct (PayloadNoSig msg') eqn:Hd; [|apply spec_ret, HQ; [done|right; by exists msg'; eauto]].
  spec_steps. destruct a as [sg|]; [|apply spec_ret, HQ; [done|right; exists msg'; eauto 10]].
  apply spec_ret, HQ.
  - intros payload Hp. apply DecodeMessage_Encode in Hp. by eexists.
  - intros Hp. right. exists (set_Signature sg msg'). eauto 10.
Qed.

(** ** Gossip *)

(** [c'] differs from [c] in the caches only, and no pointer got lost. *)
Definition calm (c : core) (m : main) (c' : core) : Prop :=
  runs c' m /\ trace c' = trace c /\ (length (arcs c) <= length (arcs c'))%nat.

Lemma calm_refl c m : runs c m -> calm c m c.
Proof. intros H. split; [done|]. split; [done|lia]. Qed.

Lemma calm_trans c c1 c2 m : calm c m c1 -> calm c1 m c2 -> calm c m c2.
Proof. intros (? & ? & ?) (? & ? & ?). split; [done|]. split; [congruence|lia]. Qed.

Lemma wp_peersMessages_Get {MF : MayFail} id c m :
  runs c m ->
  wp (peersMessages_Get id) c (fun o c' => calm c m c' /\
    forall ref, o = Some ref -> (ref < length (arcs c'))%nat).
Proof.
  intros Hc. unfold peersMessages_Get. wp_steps.
  destruct (cache_Get (peersMessages c) id) as [o p] eqn:Eg. wp_steps.
  pose proof (ok_refs _ (runs_aux _ _ Hc)) as Hr. repeat split; try apply Hc; simpl; try done.
  - intros i ref Hin. apply (Hr i). by apply (cache_Get_elems _ _ _ _ Eg).
  - intros ref ->. apply (Hr id). by apply (cache_Get_elem _ _ _ _ Eg).
Qed.

Lemma wp_peersMessages_Add {MF : MayFail} id ref c m :
  runs c m -> (ref < length (arcs c))%nat ->
  wp (peersMessages_Add id ref) c (fun _ c' => calm c m c').
Proof.
  intros Hc Href. unfold peersMessages_Add. wp_steps.
  repeat split; try apply Hc; simpl; try done.
  intros i ref' Hin%cache_Add_elems. apply elem_of_cons in Hin as [[= -> ->]|Hin]; [done|].
  by apply (ok_refs _ (runs_aux _ _ Hc) i).
Qed.

(** Changing a cache behind a pointer keeps every pointer. *)
Lemma calm_set_arcs c m l :
  runs c m -> (length (arcs c) <= length l)%nat -> calm c m (set_arcs l c).
Proof.
  intros Hc Hl. repeat split; try apply Hc; simpl; try done.
  intros i ref Hin. apply (ok_refs _ (runs_aux _ _ Hc)) in Hin. lia.
Qed.

Lemma wp_arc_Get {MF : MayFail} ref hash c m :
  runs c m -> (ref < length (arcs c))%nat ->
  wp (arc_Get ref hash) c (fun _ c' => calm c m c').
Proof.
  intros Hc Href. unfold arc_Get. wp_step. wp_step.
  destruct (lookup_lt_is_Some_2 (arcs c) ref Href) as [a Ha]. wp_steps.
  destruct (cache_Get a hash) as [o a']. wp_steps.
  apply calm_set_arcs; [done|]. by rewrite length_insert.
Qed.

Lemma wp_arc_Add {MF : MayFail} ref hash c m :
  runs c m -> (ref < length (arcs c))%nat ->
  wp (arc_Add ref hash) c (fun _ c' => calm c m c').
Proof.
  intros Hc Href. unfold arc_Add. wp_step. wp_step.
  destruct (lookup_lt_is_Some_2 (arcs c) ref Href) as [a Ha]. wp_steps.
  apply calm_set_arcs; [done|]. by rewrite length_insert.
Qed.

Lemma wp_arc_New {MF : MayFail} c m :
  runs c m ->
  wp arc_New c (fun ref c' => calm c m c' /\ (ref < length (arcs c'))%nat).
Proof.
  intros Hc. unfold arc_New. wp_steps. split.
  - apply calm_set_arcs; [done|]. rewrite length_app. lia.
  - simpl. rewrite length_app. simpl. lia.
Qed.

Lemma wp_gossip_peer hash val c m :
  runs c m -> wp (gossip_peer hash val) c (fun _ c' => calm c m c').
Proof.
  intros Hc. unfold gossip_peer. wp_step. wp_step.
  case_match; [wp_steps; by apply calm_refl|].
  wp_step. eapply wp_mono; [by apply wp_peersMessages_Get|]. intros ms c1 [H1 Href]; simpl.
  wp_step. apply (wp_mono _ _ (fun known c' => calm c1 m c' /\ (known.2 < length (arcs c'))%nat)).
  - destruct ms as [ref|]; wp_step.
    + eapply wp_mono; [apply (wp_arc_Get _ _ _ m); [apply H1|by apply Href]|].
      intros k c2 H2; simpl. wp_steps. split; [done|]. simpl.
      specialize (Href ref eq_refl). destruct H2 as (_ & _ & ?). lia.
    + eapply wp_mono; [apply (wp_arc_New _ m), H1|]. intros ref c2 [H2 ?]; simpl. by wp_steps.
  - intros [[k|] ref] c2 [H2 Hlt]; simpl in *.
    + wp_steps. exact (calm_trans _ _ _ _ H1 H2).
    + wp_step. eapply wp_mono; [apply (wp_arc_Add _ _ _ m); [apply H2|done]|].
      intros [] c3 H3; simpl. wp_step.
      eapply wp_mono; [apply (wp_peersMessages_Add _ _ _ m); [apply H3|]|].
      { destruct H3 as (_ & _ & ?). lia. }
      intros [] c4 H4; simpl. wp_steps. eauto using calm_trans.
Qed.

Lemma wp_gossip_loop hash l c m :
  runs c m -> wp (gossip_loop hash l) c (fun _ c' => calm c m c').
Proof.
  revert c. induction l as [|val l IH]; intros c Hc; cbn [gossip_loop]; [wp_steps; by apply calm_refl|].
  wp_step. eapply wp_mono; [by apply (wp_gossip_peer _ _ _ m)|]. intros pids c1 H1; simpl.
  wp_step. eapply wp_mono; [apply IH, H1|]. intros pids' c2 H2; simpl. wp_steps.
  exact (calm_trans _ _ _ _ H1 H2).
Qed.

Lemma spec_GossipPayload payload m (Q : err -> main -> list effect -> Prop) :
  (forall e es, Forall (is_gossip payload) es -> Q e m es) ->
  spec (GossipPayload payload) m Q.
Proof.
  intros HQ. unfold GossipPayload. spec_step. spec_step. spec_step. spec_step.
  intros c0 Hc0. eapply wp_mono; [by apply (wp_gossip_loop _ _ _ m)|].
  intros ids c1 (Hc1 & Ht & _). exists m, []. rewrite app_nil_r. split; [done|]. split; [done|].
  case_match.
  - spec_steps. apply HQ. repeat constructor. by eexists.
  - apply spec_ret. by apply HQ.
Qed.

Lemma spec_Broadcast msg m (Q : unit -> main -> list effect -> Prop) :
  (forall es, broadcasts (m_id m) (Code msg) (Msg msg) es -> Q tt m es) ->
  (cannot_send (m_id m) (Code msg) (Msg msg) -> Q tt m []) ->
  spec (Broadcast msg) m Q.
Proof.
  intros HQ Hno. unfold Broadcast. spec_step. apply spec_finalizeMessage.
  intros [payload|] Hp Hn; [|apply spec_ret; auto].
  destruct (Hp payload eq_refl) as (msg' & Hd & H1 & H2 & H3).
  spec_step. apply spec_emit. spec_step. apply spec_GossipPayload. intros e es Hes.
  apply spec_ret. rewrite !app_nil_r. apply HQ. exists payload, es.
  split; [done|]. split; [by exists msg'|done].
Qed.

(** ** Received messages *)

(** The p2p bookkeeping of the loop. *)
Lemma wp_mark_peer {MF : MayFail} id hash c m :
  runs c m -> wp (mark_peer id hash) c (fun _ c' => calm c m c').
Proof.
  intros Hc. unfold mark_peer. wp_step.
  eapply wp_mono; [by apply wp_peersMessages_Get|]. intros ms c1 [H1 Href]; simpl.
  wp_step. apply (wp_mono _ _ (fun ref c' => calm c1 m c' /\ (ref < length (arcs c'))%nat)).
  - destruct ms as [ref|].
    + wp_steps. split; [apply calm_refl, H1|by apply Href].
    + wp_step. eapply wp_mono; [apply (wp_arc_New _ m), H1|]. intros ref c2 [H2 ?]; simpl.
      wp_step. eapply wp_mono; [by apply (wp_peersMessages_Add _ _ _ m); [apply H2|]|].
      intros [] c3 H3; simpl. wp_steps. split; [exact (calm_trans _ _ _ _ H2 H3)|].
      destruct H3 as (_ & _ & ?). lia.
  - intros ref c2 [H2 Hlt]; simpl.
    eapply wp_mono; [apply (wp_arc_Add _ _ _ m); [apply H2|done]|]. intros [] c3 H3; simpl.
    eauto using calm_trans.
Qed.

Lemma spec_mark_peer id hash m (Q : unit -> main -> list effect -> Prop) :
  Q tt m [] -> spec (mark_peer id hash) m Q.
Proof.
  intros HQ c Hc. eapply wp_mono; [by apply (wp_mark_peer _ _ _ m)|].
  intros [] c' (? & ? & _). exists m, []. by rewrite app_nil_r.
Qed.
End BroadcastSpec.
