(* ===== verification/BacklogSpec.v ===== *)
(** * BacklogSpec: draining the queues of future messages and requests

    Both loops of [core/backlog.go] and [core/request.go] pop elements until
    the queue is empty or an element is from the future; [drain] is that
    common shape, over a verdict on an element. *)

From S2P Require Import Prelude Types Interfaces MessageSet Quorum RoundState CoreState Backlog Broadcast Round Phases Loop CoreSpec.

Section Drain.
Context `{E : Env, L : !EnvLaws E} {A : Type}.

Inductive verdict := Skip | Stop | Post (e : effect).

Fixpoint drain (f : A -> outcome verdict) (fuel : nat) (q : Prque A)
    : outcome (Prque A * list effect) :=
  match fuel with
  | O => mret (q, [])
  | S fuel =>
      if prque_Empty q then mret (q, [])
      else
        '(a, p, q1) ← deref (prque_Pop q);
        v ← f a;
        match v with
        | Stop => mret (prque_Push q1 a p, [])
        | Skip => drain f fuel q1
        | Post e => '(q2, evs) ← drain f fuel q1; mret (q2, e :: evs)
        end
  end.

Definition posted (f : A -> outcome verdict) (l : list (A * Z)) : list effect :=
  omap (fun d => match f d.1 with Ret (Post e) => Some e | _ => None end) l.

(** What [drain] leaves: nothing, or a queue whose first element stops it. *)
Definition blocked (f : A -> outcome verdict) (q : Prque A) : Prop :=
  prque_elems q = [] \/
  exists a p, (a, p) ∈ prque_elems q /\ f a = Ret Stop /\
    Forall (fun e => e.2 <= p) (prque_elems q).

(** [drain] takes out a list [gone] of elements, in order of priority, posts
    those that are due, and stops at an element from the future. *)
Record drained (f : A -> outcome verdict) (q q' : Prque A) (evs : list effect)
    (gone : list (A * Z)) : Prop := {
  drained_all : prque_elems q ≡ₚ gone ++ prque_elems q';
  drained_order : StronglySorted (fun x y => y.2 <= x.2) gone;
  drained_due : Forall (fun d => f d.1 <> Ret Stop) gone;
  drained_evs : evs = posted f gone;
  drained_blocked : blocked f q';
  drained_rest : forall x y, x ∈ gone -> y ∈ prque_elems q' -> y.2 <= x.2;
}.

Lemma drain_spec f fuel q :
  (forall a p, (a, p) ∈ prque_elems q -> exists v, f a = Ret v) ->
  (length (prque_elems q) <= fuel)%nat ->
  exists q' evs gone, drain f fuel q = Ret (q', evs) /\ drained f q q' evs gone.
Proof.
  revert q. induction fuel as [|fuel IH]; intros q Hf Hlen; cbn [drain].
  { assert (prque_elems q = []) as Hnil by (apply nil_length_inv; lia).
    exists q, [], []. split; [done|]. split; try done; [constructor|by left|set_solver]. }
  destruct (prque_Empty q) eqn:Hemp.
  { apply Empty_elems in Hemp. exists q, [], []. split; [done|].
    split; try done; [constructor|by left|set_solver]. }
  destruct (prque_Pop q) as [[[a p] q1]|] eqn:Hpop.
  2: { apply Pop_None, Empty_elems in Hpop. congruence. }
  apply Pop_Some in Hpop as [Hperm Hmax]. cbn.
  destruct (Hf a p) as [v Hv]; [rewrite Hperm; constructor|]. rewrite Hv. cbn.
  assert (Hf1 : forall a p, (a, p) ∈ prque_elems q1 -> exists v, f a = Ret v).
  { intros a' p' Hin. apply (Hf a' p'). rewrite Hperm. by constructor. }
  assert (Hlen1 : (length (prque_elems q1) <= fuel)%nat).
  { apply Permutation_length in Hperm. simpl in Hperm. lia. }
  rewrite Forall_forall in Hmax.
  destruct v as [| |e].
  - destruct (IH q1 Hf1 Hlen1) as (q' & evs & gone & Hd & [H1 H2 H3 H4 H5 H6]).
    exists q', evs, ((a, p) :: gone). split; [done|]. split; try done.
    + by rewrite Hperm, H1.
    + constructor; [done|]. apply Forall_forall. intros x Hx. apply Hmax.
      rewrite H1. set_solver.
    + constructor; [simpl; congruence|done].
    + rewrite H4. unfold posted; simpl. by rewrite Hv.
    + intros x y [->|Hx]%elem_of_cons Hy; [|by apply H6].
      apply Hmax. rewrite H1. set_solver.
  - exists (prque_Push q1 a p), [], []. split; [done|].
    assert (HP := elems_Push q1 a p).
    split; try done; [by rewrite HP|constructor| |set_solver].
    right. exists a, p. split; [rewrite HP; constructor|]. split; [done|].
    rewrite HP. constructor; [simpl; lia|]. by apply Forall_forall.
  - destruct (IH q1 Hf1 Hlen1) as (q' & evs & gone & Hd & [H1 H2 H3 H4 H5 H6]).
    rewrite Hd. cbn. exists q', (e :: evs), ((a, p) :: gone). split; [done|]. split; try done.
    + by rewrite Hperm, H1.
    + constructor; [done|]. apply Forall_forall. intros x Hx. apply Hmax.
      rewrite H1. set_solver.
    + constructor; [simpl; congruence|done].
    + rewrite H4. unfold posted; simpl. by rewrite Hv.
    + intros x y [->|Hx]%elem_of_cons Hy; [|by apply H6].
      apply Hmax. rewrite H1. set_solver.
Qed.
End Drain.

Section BacklogSpec.
Context `{E : Env, L : !EnvLaws E}.

(** ** The checks return when a round is running *)

Lemma currentView_runs c m r :
  runs c m -> round (m_rs m) = Some r ->
  currentView c = Ret (full_view (i64 (sequence (m_rs m))) r).
Proof.
  intros Hc Hr. unfold currentView. rewrite (runs_rs _ _ Hc). cbn. by rewrite Hr.
Qed.

(** [checkMessage] on a full view, by the order of views. *)
Definition check_spec (code s r cs cr : Z) (waiting : bool) (st : State) : err :=
  if code =? MsgRoundChange then
    if cs <? s then Some errFutureMessage
    else if (s <? cs) || ((s =? cs) && (r <? cr)) then Some ErrOldMessage
    else None
  else if (cs <? s) || ((s =? cs) && (cr <? r)) then Some errFutureMessage
  else if (s <? cs) || ((s =? cs) && (r <? cr)) then Some ErrOldMessage
  else if waiting || ((st =? StateAcceptRequest) && (MsgPrePrepare <? code))
  then Some errFutureMessage
  else None.

Lemma checkMessage_full c m r code s q :
  runs c m -> round (m_rs m) = Some r ->
  checkMessage c code (Some (full_view s q)) =
    Ret (check_spec code s q (i64 (sequence (m_rs m))) r (m_waiting m) (m_state m)).
Proof.
  intros Hc Hr. unfold checkMessage. cbn [Sequence Types.Round full_view].
  rewrite (currentView_runs c m r Hc Hr). cbn [mbind outcome_bind].
  destruct (View_Cmp_full s q (i64 (sequence (m_rs m))) r) as (k & -> & Hlt & Heq & Hgt).
  cbn [mbind outcome_bind Sequence full_view deref].
  rewrite (runs_waiting _ _ Hc), (runs_state _ _ Hc). unfold check_spec.
  set (cs := i64 (sequence (m_rs m))) in *. clearbody cs.
  assert (Hk1 : (k <? 0) = (s <? cs) || ((s =? cs) && (q <? r))).
  { apply eq_bool_prop_intro. rewrite !Is_true_true. unfold view_lt in Hlt; simpl in Hlt.
    rewrite orb_true_iff, andb_true_iff, !Z.ltb_lt, Z.eqb_eq. done. }
  assert (Hk2 : (0 <? k) = (cs <? s) || ((s =? cs) && (r <? q))).
  { apply eq_bool_prop_intro. rewrite !Is_true_true. unfold view_lt in Hgt; simpl in Hgt.
    rewrite orb_true_iff, andb_true_iff, !Z.ltb_lt, Z.eqb_eq. rewrite Hgt. lia. }
  assert (Hs : (0 <? big_Cmp s cs) = (cs <? s)).
  { destruct (big_Cmp_spec s cs) as [[? ->]|[[? ->]|[? ->]]];
      destruct (Z.ltb_spec cs s); try done; lia. }
  rewrite Hk1, Hk2, Hs.
  destruct (code =? MsgRoundChange), ((cs <? s) || _), ((s <? cs) || _), (cs <? s),
    (m_waiting m), (m_state m =? StateAcceptRequest), (MsgPrePrepare <? code); done.
Qed.

Definition has_round (m : main) : Prop := is_Some (round (m_rs m)).

Lemma checkMessage_total c m code v :
  runs c m -> has_round m -> exists e, checkMessage c code v = Ret e.
Proof.
  intros Hc [r Hr]. destruct v as [[[s|] [q|]]|]; try by eexists.
  eexists. exact (checkMessage_full c m r code s q Hc Hr).
Qed.

(** A message that passes [checkMessage] has a full view. *)
Lemma checkMessage_ok_full c code v :
  checkMessage c code v = Ret None -> exists s q, v = Some (full_view s q).
Proof. destruct v as [[[s|] [q|]]|]; try done. by eexists _, _. Qed.

Lemma checkRequestMsg_runs c m p :
  runs c m ->
  checkRequestMsg c (Some (mkRequest (Some p))) =
    Ret (if Height p <? sequence (m_rs m) then Some ErrOldMessage
         else if sequence (m_rs m) <? Height p then Some errFutureMessage else None).
Proof.
  intros Hc. unfold checkRequestMsg. cbn. rewrite (runs_rs _ _ Hc). cbn.
  by repeat case_match.
Qed.

(** ** The loops are drains *)

Definition backlog_verdict (c : core) (src : Validator) (msg : Message) : outcome verdict :=
  match message_view msg with
  | None => mret Skip
  | Some view =>
      e ← checkMessage c (Code msg) (Some view);
      mret match e with
           | Some errFutureMessage => Stop
           | Some _ => Skip
           | None => Post (EGoBacklog src msg)
           end
  end.

Lemma backlog_loop_drain c src fuel q :
  backlog_loop c src fuel q = drain (backlog_verdict c src) fuel q.
Proof.
  revert q. induction fuel as [|fuel IH]; intros q; cbn [backlog_loop drain]; [done|].
  destruct (prque_Empty q); [done|]. destruct (prque_Pop q) as [[[msg p] q1]|]; [|done].
  cbn [deref mbind outcome_bind].
  destruct (backlog_verdict c src msg) as [v|] eqn:Ev; unfold backlog_verdict in Ev;
    (destruct (message_view msg) as [view|];
     [destruct (checkMessage c (Code msg) (Some view)) as [[[]|]|]|]);
    unfold mret, outcome_ret in *; cbn [mbind outcome_bind] in *; simplify_eq;
    rewrite ?IH; reflexivity.
Qed.

Definition pending_verdict (c : core) (r : Request) : outcome verdict :=
  e ← checkRequestMsg c (Some r);
  _ ← deref (rq_Proposal r);
  mret match e with
       | Some errFutureMessage => Stop
       | Some _ => Skip
       | None => Post (EGoRequest r)
       end.

Lemma pending_loop_drain c fuel q :
  pending_loop c fuel q = drain (pending_verdict c) fuel q.
Proof.
  revert q. induction fuel as [|fuel IH]; intros q; cbn [pending_loop drain]; [done|].
  destruct (prque_Empty q); [done|]. destruct (prque_Pop q) as [[[r p] q1]|]; [|done].
  cbn [deref mbind outcome_bind].
  destruct (pending_verdict c r) as [v|] eqn:Ev; unfold pending_verdict in Ev;
    destruct (checkRequestMsg c (Some r)) as [[[]|]|]; destruct (rq_Proposal r);
    unfold mret, outcome_ret in *; cbn [deref mbind outcome_bind] in *; simplify_eq;
    rewrite ?IH; reflexivity.
Qed.

(** The effects that carry no message of this node. *)
Definition harmless (e : effect) : Prop :=
  match e with
  | EGoBacklog _ _ | ETimer _ => True
  | EGoRequest r => is_Some (rq_Proposal r)
  | _ => False
  end.

Lemma backlog_loop_total c m src q :
  runs c m -> has_round m ->
  exists q' evs gone, backlog_loop c src (length (prque_elems q)) q = Ret (q', evs) /\
    drained (backlog_verdict c src) q q' evs gone.
Proof.
  intros Hc Hr. rewrite backlog_loop_drain. apply drain_spec; [|done].
  intros msg p _. unfold backlog_verdict. destruct (message_view msg) as [v|]; [|by eexists].
  destruct (checkMessage_total c m (Code msg) (Some v) Hc Hr) as [e ->]. by eexists.
Qed.

Lemma pending_loop_total c m q :
  runs c m -> (forall r p, (r, p) ∈ prque_elems q -> is_Some (rq_Proposal r)) ->
  exists q' evs gone, pending_loop c (length (prque_elems q)) q = Ret (q', evs) /\
    drained (pending_verdict c) q q' evs gone.
Proof.
  intros Hc Hq. rewrite pending_loop_drain. apply drain_spec; [|done].
  intros [o] p Hin. destruct (Hq _ _ Hin) as [pr Hpr]; simpl in Hpr; subst o.
  unfold pending_verdict. rewrite (checkRequestMsg_runs c m) by done. cbn. by eexists.
Qed.

Lemma backlogs_loop_total c m l :
  runs c m -> has_round m ->
  exists l' evs, backlogs_loop c l = Ret (l', evs) /\ l'.*1 = l.*1 /\ Forall harmless evs.
Proof.
  intros Hc Hr. induction l as [|[src q] l (l' & evs & IH1 & IH2 & IH3)].
  { exists [], []. done. }
  cbn [backlogs_loop].
  destruct (backlog_loop_total c m src q Hc Hr) as (q' & ev & gone & -> & D).
  cbn. rewrite IH1. cbn. eexists _, _. split; [done|]. split; [csimpl; congruence|].
  apply Forall_app. split; [|done]. rewrite (drained_evs _ _ _ _ _ D).
  apply Forall_forall. intros e (d & _ & Hd)%list_elem_of_omap.
  destruct (backlog_verdict c src d.1) as [[| |e']|] eqn:Ev; simplify_eq.
  unfold backlog_verdict, mret, outcome_ret in Ev. destruct (message_view d.1); [|done].
  destruct (checkMessage _ _ _) as [[[]|]|]; simplify_eq/=; done.
Qed.

Lemma spec_ProcessBacklog m (Q : unit -> main -> list effect -> Prop) :
  has_round m -> (forall es, Forall harmless es -> Q tt m es) -> spec ProcessBacklog m Q.
Proof.
  intros Hr HQ. unfold ProcessBacklog. spec_step.
  destruct (backlogs_loop_total c m (map_to_list (backlogs c))) as (l & evs & Hl & _ & Hev);
    [done..|].
  spec_step. eapply spec_lift; [exact Hl|]. cbv beta iota. spec_step. apply spec_modify_aux.
  { intros c' Hc'. split; [|done]. by destruct Hc' as [? ? ? ? ? ? [? ?]]; repeat split. }
  spec_steps. by apply HQ.
Qed.

Lemma pending_harmless c m q q' evs gone :
  runs c m -> drained (pending_verdict c) q q' evs gone -> Forall harmless evs.
Proof.
  intros Hc D. rewrite (drained_evs _ _ _ _ _ D). apply Forall_forall.
  intros e (d & _ & Hd)%list_elem_of_omap.
  destruct (pending_verdict c d.1) as [[| |e']|] eqn:Ev; simplify_eq.
  unfold pending_verdict, mret, outcome_ret in Ev. destruct (checkRequestMsg c _) as [e0|]; [|done].
  cbn in Ev. destruct (rq_Proposal d.1) eqn:Ep; [|done]. cbn in Ev.
  destruct e0 as [[]|]; simplify_eq. simpl. by rewrite Ep.
Qed.

Lemma spec_ProcessPendingRequests m (Q : unit -> main -> list effect -> Prop) :
  (forall es, Forall harmless es -> Q tt m es) -> spec ProcessPendingRequests m Q.
Proof.
  intros HQ c Hc. unfold ProcessPendingRequests. wp_step. wp_step.
  destruct (pending_loop_total c m (pendingRequests c) Hc (ok_pending _ (runs_aux _ _ Hc)))
    as (q' & evs & gone & Hq & D).
  wp_step. eapply wp_lift; [exact Hq|]. wp_steps. exists m, evs. split; [|split].
  - destruct Hc as [? ? ? ? ? ? [Hrefs Hpend]]; repeat split; try done; simpl.
    intros r p Hin. apply (Hpend r p). rewrite (drained_all _ _ _ _ _ D). set_solver.
  - done.
  - apply HQ. by eapply pending_harmless.
Qed.

Lemma spec_setState s m (Q : unit -> main -> list effect -> Prop) :
  has_round m -> (forall es, Forall harmless es -> Q tt (m_set_state s m) es) ->
  spec (setState s) m Q.
Proof.
  intros Hr HQ. unfold setState. spec_step.
  apply (spec_modify_main _ _ (m_set_state s m)).
  { intros c Hc. destruct (Z.eqb_spec (state c) s) as [<-|]; simpl; (split; [|done]);
      destruct Hc as [? ? ? ? ? ? [? ?]]; repeat split; simpl; congruence || done. }
  simpl app. spec_step. apply spec_when; intros _.
  - apply spec_ProcessPendingRequests. intros es1 H1. apply spec_ProcessBacklog; [done|].
    intros es2 H2. apply HQ. by apply Forall_app.
  - apply spec_ProcessBacklog; [done|]. intros es H. by apply HQ.
Qed.

(** ** Storing *)

Lemma push_backlog_total q msg :
  exists q', push_backlog q msg = Ret q'.
Proof.
  unfold push_backlog. case_match.
  - destruct (DecodePrePrepare (Msg msg)) as [p|] eqn:Hd; [|by eexists].
    destruct (DecodePrePrepare_full _ _ Hd) as (s & r & P & -> & ->). cbn.
    unfold toPriority. cbn. by case_match; eexists.
  - destruct (DecodeSubject (Msg msg)) as [p|] eqn:Hd; [|by eexists].
    destruct (DecodeSubject_full _ _ Hd) as (s & r & ->). cbn.
    unfold toPriority. cbn. by case_match; eexists.
Qed.

Lemma spec_StoreBacklog msg val m (Q : unit -> main -> list effect -> Prop) :
  Q tt m [] -> spec (StoreBacklog msg val) m Q.
Proof.
  intros HQ. unfold StoreBacklog. spec_step. case_match; [by apply spec_ret|].
  destruct (push_backlog_total (default prque_New (backlogs c !! val)) msg) as [q' Hq].
  spec_step. eapply spec_lift; [exact Hq|]. cbv beta iota. apply spec_modify_aux; [|done].
  intros c' Hc'. split; [|done]. by destruct Hc' as [? ? ? ? ? ? [? ?]]; repeat split.
Qed.

Lemma spec_StoreRequestMsg r m (Q : unit -> main -> list effect -> Prop) :
  is_Some (rq_Proposal r) -> Q tt m [] -> spec (StoreRequestMsg r) m Q.
Proof.
  intros [p Hp] HQ c Hc. unfold StoreRequestMsg. wp_steps.
  exists m, []. rewrite app_nil_r. split; [|done].
  destruct Hc as [? ? ? ? ? ? [Hrefs Hpend]]; repeat split; try done; simpl.
  intros r' p' Hin. rewrite elems_Push in Hin.
  apply elem_of_cons in Hin as [[= -> ->]|Hin]; [by exists p|by apply (Hpend r' p')].
Qed.
End BacklogSpec.
