(* ===== verification/Priorities.v ===== *)
(** * Priorities: queue order, stored requests and round timeouts

    What the machine arithmetic of [core/backlog.go], [core/request.go] and
    [core/round.go] does: float32 priorities and the int64 timeout.  Below the
    limits of the formats the order is the intended one; beyond them it is
    not. *)

From S2P Require Import Prelude Types Interfaces MessageSet Quorum RoundState CoreState Backlog Broadcast Round Phases Loop CoreSpec BroadcastSpec BacklogSpec.

Section Priorities.
Context `{E : Env}.

(** The place of a message within its height. *)
Definition place (code r : Z) : Z :=
  if code =? MsgRoundChange then 0 else r * 10 + msgPriority code.

Lemma toPriority_place code s r :
  0 <= s -> 0 <= r -> s * 1000 + place code r < 2 ^ 64 ->
  toPriority code (full_view s r) = Ret (- float32_of_uint64 (s * 1000 + place code r)).
Proof.
  intros Hs Hr Hb. unfold toPriority, place in *. cbn.
  assert (0 <= msgPriority code <= 3) by (unfold msgPriority; repeat case_match; lia).
  destruct (code =? MsgRoundChange).
  - rewrite big_Uint64_small, u64_small by (unfold in_u64; lia). by rewrite Z.add_0_r.
  - rewrite !big_Uint64_small by (unfold in_u64; lia).
    by rewrite u64_small, Z.add_assoc by (unfold in_u64; lia).
Qed.

Lemma place_range code r : 0 <= r <= 99 -> 0 <= place code r < 1000.
Proof. intros Hr. unfold place, msgPriority. repeat case_match; lia. Qed.

(** Up to height 16776 and round 99 the backlog pops messages in the
    order of the protocol: by height, then round changes first, then by
    round, then PRE-PREPARE, COMMIT, PREPARE. *)
Theorem toPriority_order c1 s1 r1 c2 s2 r2 :
  0 <= s1 <= 16776 -> 0 <= s2 <= 16776 -> 0 <= r1 <= 99 -> 0 <= r2 <= 99 ->
  exists p1 p2,
    toPriority c1 (full_view s1 r1) = Ret p1 /\ toPriority c2 (full_view s2 r2) = Ret p2 /\
    (p2 < p1 <-> view_lt (s1, place c1 r1) (s2, place c2 r2)) /\
    (p1 = p2 <-> (s1, place c1 r1) = (s2, place c2 r2)).
Proof.
  intros Hs1 Hs2 Hr1 Hr2.
  pose proof (place_range c1 r1 Hr1). pose proof (place_range c2 r2 Hr2).
  rewrite !toPriority_place by lia. rewrite !float32_small by lia.
  eexists _, _. split; [done|]. split; [done|]. unfold view_lt; simpl. split; [lia|].
  split; [intros; f_equal; lia|]. intros [= ? ?]. lia.
Qed.

(** At any height that fits in 64 bits, a message of an earlier place is never popped
    after a later one: the rounding to float32 can merge priorities but not
    invert them. *)
Theorem toPriority_monotone c1 s1 r1 c2 s2 r2 :
  0 <= s1 -> 0 <= s2 < 2 ^ 54 -> 0 <= r1 <= 99 -> 0 <= r2 <= 99 ->
  view_le (s1, place c1 r1) (s2, place c2 r2) ->
  exists p1 p2,
    toPriority c1 (full_view s1 r1) = Ret p1 /\ toPriority c2 (full_view s2 r2) = Ret p2 /\
    p2 <= p1.
Proof.
  intros Hs1 Hs2 Hr1 Hr2 Hle.
  pose proof (place_range c1 r1 Hr1). pose proof (place_range c2 r2 Hr2).
  assert (s1 * 1000 + place c1 r1 <= s2 * 1000 + place c2 r2).
  { destruct Hle as [Hlt|[= -> ->]]; [|lia]. unfold view_lt in Hlt; simpl in Hlt. lia. }
  rewrite !toPriority_place by lia. eexists _, _. split; [done|]. split; [done|].
  apply Z.opp_le_mono. rewrite !Z.opp_involutive. by apply float32_mono.
Qed.

(** Beyond 24 bits the order collapses: at height [2^25] every message,
    of any kind and any of the rounds 0 to 99, has the same priority, and
    so have the messages of round 0 of the next height. *)
Theorem toPriority_collapse code code' r :
  0 <= r <= 99 ->
  toPriority code (full_view (2 ^ 25) r) = Ret (- (2 ^ 25 * 1000)) /\
  toPriority code' (full_view (2 ^ 25 + 1) 0) = Ret (- (2 ^ 25 * 1000)).
Proof.
  intros Hr. pose proof (place_range code r Hr). pose proof (place_range code' 0 ltac:(lia)).
  rewrite !toPriority_place by lia.
  assert (H' : place code' 0 <= 3).
  { unfold place, msgPriority. repeat case_match; lia. }
  assert (Hf : forall d, 0 <= d < 1024 ->
    float32_of_uint64 (2 ^ 25 * 1000 + d) = 2 ^ 25 * 1000).
  { intros d Hd. unfold float32_of_uint64.
    assert (Hl : Z.log2 (2 ^ 25 * 1000 + d) = 34) by (apply Z.log2_unique; lia).
    rewrite Hl. destruct (Z.ltb_spec (2 ^ 25 * 1000 + d) (2 ^ 24)); [lia|].
    unfold round_ne. change (2 ^ (34 - 23)) with 2048.
    replace (2 ^ 25 * 1000 + d) with (d + 16384000 * 2048) by lia.
    rewrite Z_div_plus_full, Z_mod_plus_full, Z.div_small, Z.mod_small by lia.
    destruct (Z.ltb_spec (2 * d) 2048); lia. }
  split; do 2 f_equal; [by rewrite Hf by lia|].
  replace ((2 ^ 25 + 1) * 1000 + place code' 0) with (2 ^ 25 * 1000 + (1000 + place code' 0)) by lia.
  by rewrite Hf by lia.
Qed.

(** ** Stored requests *)

(** The negated height is a [uint64]: below [2^39] it rounds to [2^64]. *)
Lemma request_priority_const h :
  0 < h <= 2 ^ 39 -> float32_of_uint64 (u64 (- h)) = 2 ^ 64.
Proof.
  intros Hh.
  assert (Hu : u64 (- h) = 2 ^ 64 - h).
  { unfold u64. rewrite <- (Z.mod_small (2 ^ 64 - h) (2 ^ 64)) by lia.
    rewrite <- (Z_mod_plus_full (- h) 1). f_equal. lia. }
  rewrite Hu. unfold float32_of_uint64.
  assert (Hl : Z.log2 (2 ^ 64 - h) = 63) by (apply Z.log2_unique; lia).
  rewrite Hl. destruct (Z.ltb_spec (2 ^ 64 - h) (2 ^ 24)); [lia|].
  change (63 - 23) with 40.
  replace (2 ^ 64 - h) with ((2 ^ 40 - h) + (2 ^ 24 - 1) * 2 ^ 40) by lia.
  unfold round_ne.
  rewrite Z_div_plus_full, Z_mod_plus_full, Z.div_small, Z.mod_small by lia.
  change (Z.even (0 + (2 ^ 24 - 1))) with false.
  destruct (Z.ltb_spec (2 * (2 ^ 40 - h)) (2 ^ 40)); [lia|].
  destruct (Z.ltb_spec (2 ^ 40) (2 * (2 ^ 40 - h))); lia.
Qed.

(** [StoreRequestMsg] stores every request for a height up to [2^39] with
    one and the same priority, so the pending requests are not ordered by
    height. *)
Theorem StoreRequestMsg_priority c p :
  0 < Height p <= 2 ^ 39 ->
  StoreRequestMsg (mkRequest (Some p)) c =
    Ret (tt, set_pendingRequests
      (prque_Push (pendingRequests c) (mkRequest (Some p)) (2 ^ 64)) c).
Proof.
  intros Hp. unfold StoreRequestMsg, load, lift, get_state, modify, mbind, prog_bind. cbn.
  by rewrite request_priority_const.
Qed.

(** ** Round timeouts *)

(** The timeout of a round: up to round 33 it is the base timeout plus
    [2^round] seconds; at round 34 the [int64] product wraps around and the
    timeout is negative; from round 55 to 62 the exponential part is gone. *)
Theorem round_timeout_ranges waiting r :
  let base := if waiting : bool then initRoundTimeout else roundChangeTimeout in
  (r <= 0 -> round_timeout waiting r = base) /\
  (0 < r <= 33 -> round_timeout waiting r = base + 2 ^ r * second) /\
  round_timeout waiting 34 < 0 /\
  (55 <= r < 63 -> round_timeout waiting r = base).
Proof.
  intros base. unfold round_timeout. fold base.
  assert (Hb : 0 <= base <= 20 * 10 ^ 9).
  { subst base. unfold initRoundTimeout, roundChangeTimeout, second. destruct waiting; lia. }
  split; [|split; [|split]].
  - intros Hr. by destruct (Z.ltb_spec 0 r); [lia|].
  - intros Hr. destruct (Z.ltb_spec 0 r); [|lia]. destruct (Z.ltb_spec r 63); [|lia].
    assert (1 <= 2 ^ r <= 2 ^ 33).
    { split; [change 1 with (2 ^ 0)|]; apply Z.pow_le_mono_r; lia. }
    unfold second. rewrite (i64_small (2 ^ r * 10 ^ 9)) by lia. apply i64_small. lia.
  - subst base. destruct waiting; vm_compute; reflexivity.
  - intros Hr. destruct (Z.ltb_spec 0 r); [|lia]. destruct (Z.ltb_spec r 63); [|lia].
    assert (Hz : i64 (2 ^ r * second) = 0).
    { unfold i64, second. replace (2 ^ r * 10 ^ 9) with ((2 ^ (r - 55) * 5 ^ 9) * 2 ^ 64).
      - by rewrite Z.mod_mul by lia.
      - replace (2 ^ r) with (2 ^ (r - 55) * 2 ^ 55) by (rewrite <- Z.pow_add_r; [f_equal|..]; lia).
        lia. }
    rewrite Hz, Z.add_0_r. apply i64_small. lia.
Qed.
End Priorities.
