(* ===== verification/Messages.v ===== *)
(** * Messages: checking, decoding and sending

    The verdicts of [checkMessage], the drains of the two queues, and what a
    receiver makes of a payload: who is accepted as its author, and that a
    finalized message arrives as it was sent. *)

From S2P Require Import Prelude Types Interfaces MessageSet Quorum RoundState CoreState Backlog Broadcast Round Phases Loop CoreSpec BroadcastSpec BacklogSpec.

Section Messages.
Context `{E : Env, L : !EnvLaws E}.

(** [checkMessage] in a running round: a view with a missing part is
    invalid; a round change is in the future for a later height only and old
    before the current view; any other message is in the future after the
    current view, while a round change is awaited, and, unless it is a
    PRE-PREPARE, while the proposal is awaited, and old before the current
    view. *)
Theorem checkMessage_correct c m cr code view :
  runs c m -> round (m_rs m) = Some cr ->
  let cs := i64 (sequence (m_rs m)) in
  checkMessage c code view = Ret
    match view with
    | Some (mkView (Some s) (Some r)) =>
        if decide ((code = MsgRoundChange /\ cs < s) \/
                   (code <> MsgRoundChange /\ view_lt (cs, cr) (s, r)))
        then Some errFutureMessage
        else if decide (view_lt (s, r) (cs, cr)) then Some ErrOldMessage
        else if decide (code <> MsgRoundChange /\
                  (m_waiting m = true \/ (m_state m = StateAcceptRequest /\ MsgPrePrepare < code)))
        then Some errFutureMessage
        else None
    | _ => Some errInvalidMessage
    end.
Proof.
  intros Hc Hr cs. destruct view as [[[s|] [r|]]|]; try done.
  change (mkView (Some s) (Some r)) with (full_view s r).
  rewrite (checkMessage_full c m cr code s r Hc Hr). f_equal. fold cs. unfold check_spec, view_lt.
  cbn [fst snd].
  assert (Hw : (m_waiting m || ((m_state m =? StateAcceptRequest) && (MsgPrePrepare <? code)))
    = true <-> (m_waiting m = true \/ (m_state m = StateAcceptRequest /\ MsgPrePrepare < code))).
  { rewrite orb_true_iff, andb_true_iff, Z.eqb_eq, Z.ltb_lt. done. }
  destruct (m_waiting m || _);
    destruct (Z.eqb_spec code MsgRoundChange), (Z.ltb_spec cs s), (Z.eqb_spec s cs),
      (Z.ltb_spec s cs), (Z.ltb_spec r cr), (Z.ltb_spec cr r); cbn [orb andb];
    repeat case_decide; first [done | lia | naive_solver lia].
Qed.

(** ** The backlog *)

(** [backlogs_loop] drains each queue on its own. *)
Lemma backlogs_loop_drained c m l :
  runs c m -> has_round m ->
  exists l' evss, backlogs_loop c l = Ret (l', mjoin evss) /\
    Forall3 (fun x x' evs => x'.1 = x.1 /\
      exists gone, drained (backlog_verdict c x.1) x.2 x'.2 evs gone) l l' evss.
Proof.
  intros Hc Hr. induction l as [|[src q] l (l' & evss & IH1 & IH2)].
  { exists [], []. split; [done|constructor]. }
  cbn [backlogs_loop].
  destruct (backlog_loop_total c m src q Hc Hr) as (q' & ev & gone & -> & D).
  cbn. rewrite IH1. cbn. exists ((src, q') :: l'), (ev :: evss). split; [done|].
  constructor; [split; [done|by exists gone]|done].
Qed.

(** [ProcessBacklog] in a running round: every sender's queue is drained
    in the order of its priorities, the messages taken out are exactly those
    before the first message from the future, those that pass [checkMessage]
    are posted (and no other), the rest stays stored, and nothing else of
    the node changes. *)
Theorem ProcessBacklog_correct c m :
  runs c m -> has_round m ->
  exists bl evs, ProcessBacklog c = Ret (tt, set_trace (trace c ++ evs) (set_backlogs bl c)) /\
    dom bl = dom (backlogs c) /\
    (forall src q, backlogs c !! src = Some q -> exists q' ev gone,
      bl !! src = Some q' /\ ev ⊆ evs /\ drained (backlog_verdict c src) q q' ev gone) /\
    (forall e, e ∈ evs -> exists src q msg p, backlogs c !! src = Some q /\
      (msg, p) ∈ prque_elems q /\ e = EGoBacklog src msg).
Proof.
  intros Hc Hr. set (l := map_to_list (backlogs c)).
  destruct (backlogs_loop_drained c m l Hc Hr) as (l' & evss & Hl & H3).
  exists (list_to_map l'), (mjoin evss).
  assert (Hfst : l'.*1 = l.*1).
  { clear - H3. induction H3 as [|x x' ev l l' evss [H _] _ IH]; csimpl; congruence. }
  assert (Hnd : NoDup l'.*1) by (rewrite Hfst; apply NoDup_fst_map_to_list).
  split; [|split; [|split]].
  - unfold ProcessBacklog, get_state, lift, modify, emits, mbind, prog_bind. fold l. by rewrite Hl.
  - apply set_eq. intros src. rewrite dom_list_to_map, Hfst, elem_of_list_to_set.
    rewrite elem_of_dom, list_elem_of_fmap. split.
    + intros ([s q] & -> & Hin). exists q. by apply elem_of_map_to_list.
    + intros [q Hq]. exists (src, q). split; [done|]. by apply elem_of_map_to_list.
  - intros src q Hq%elem_of_map_to_list. apply list_elem_of_lookup in Hq as [i Hi].
    destruct (Forall3_lookup_l _ _ _ _ _ _ H3 Hi) as ([s q'] & ev & Hi' & Hev & [Hs (gone & D)]).
    simpl in Hs. subst s. exists q', ev, gone. split; [|split; [|exact D]].
    + apply elem_of_list_to_map; [done|]. by eapply list_elem_of_lookup_2.
    + intros e He. apply list_elem_of_join. exists ev. split; [done|].
      by eapply list_elem_of_lookup_2.
  - intros e He. apply list_elem_of_join in He as (ev & He & Hev).
    apply list_elem_of_lookup in Hev as [i Hi].
    destruct (Forall3_lookup_r _ _ _ _ _ _ H3 Hi) as ([src q] & [s q'] & Hi' & _ & [_ (gone & D)]).
    simpl in D. rewrite (drained_evs _ _ _ _ _ D) in He.
    apply list_elem_of_omap in He as ([msg p] & Hin & Hv). exists src, q, msg, p.
    split; [apply elem_of_map_to_list; by eapply list_elem_of_lookup_2|]. split.
    + rewrite (drained_all _ _ _ _ _ D). set_solver.
    + simpl in Hv. destruct (backlog_verdict c src msg) as [[| |e']|] eqn:Ev; simplify_eq.
      unfold backlog_verdict, mret, outcome_ret in Ev. destruct (message_view msg); [|done].
      destruct (checkMessage _ _ _) as [[[]|]|]; simplify_eq/=; done.
Qed.

(** [ProcessPendingRequests] in a running round: the requests are taken
    out by priority up to the first one for a later height; those for the
    current height are posted, the older ones dropped, the rest stays. *)
Theorem ProcessPendingRequests_correct c m :
  runs c m ->
  exists q evs gone,
    ProcessPendingRequests c = Ret (tt, set_trace (trace c ++ evs) (set_pendingRequests q c)) /\
    prque_elems (pendingRequests c) ≡ₚ gone ++ prque_elems q /\
    StronglySorted (fun x y => y.2 <= x.2) gone /\
    (forall r p, (r, p) ∈ gone -> exists b, rq_Proposal r = Some b /\ Height b <= sequence (m_rs m)) /\
    (forall r, EGoRequest r ∈ evs <-> exists p b, (r, p) ∈ gone /\
      rq_Proposal r = Some b /\ Height b = sequence (m_rs m)) /\
    (prque_elems q = [] \/ exists r p b, (r, p) ∈ prque_elems q /\
      Forall (fun e => e.2 <= p) (prque_elems q) /\
      rq_Proposal r = Some b /\ sequence (m_rs m) < Height b).
Proof.
  intros Hc. pose proof (ok_pending _ (runs_aux _ _ Hc)) as Hok.
  destruct (pending_loop_total c m (pendingRequests c) Hc Hok) as (q & evs & gone & Hq & D).
  assert (Hsub : forall x, x ∈ gone \/ x ∈ prque_elems q -> x ∈ prque_elems (pendingRequests c)).
  { intros x Hx. rewrite (drained_all _ _ _ _ _ D). by apply elem_of_app. }
  assert (Hverd : forall r p, (r, p) ∈ prque_elems (pendingRequests c) -> exists b,
    rq_Proposal r = Some b /\ pending_verdict c r = Ret
      (if Height b <? sequence (m_rs m) then Skip
       else if sequence (m_rs m) <? Height b then Stop else Post (EGoRequest r))).
  { intros [o] p Hin. destruct (Hok _ _ Hin) as [b Hb]; simpl in Hb; subst o. exists b.
    split; [done|]. unfold pending_verdict. rewrite (checkRequestMsg_runs c m) by done. cbn.
    by repeat case_match. }
  exists q, evs, gone. split.
  { unfold ProcessPendingRequests, get_state, lift, modify, emits, mbind, prog_bind. by rewrite Hq. }
  split; [apply D|]. split; [apply D|]. split; [|split].
  - intros r p Hin. destruct (Hverd r p (Hsub _ (or_introl Hin))) as (b & Hb & Hv). exists b.
    split; [done|]. pose proof (drained_due _ _ _ _ _ D) as Hd. rewrite Forall_forall in Hd.
    specialize (Hd _ Hin). simpl in Hd. rewrite Hv in Hd.
    destruct (Z.ltb_spec (Height b) (sequence (m_rs m))); [lia|].
    by destruct (Z.ltb_spec (sequence (m_rs m)) (Height b)).
  - intros r. rewrite (drained_evs _ _ _ _ _ D). unfold posted. rewrite list_elem_of_omap. split.
    + intros ([r' p] & Hin & Hp). simpl in Hp.
      destruct (Hverd r' p (Hsub _ (or_introl Hin))) as (b & Hb & Hv). rewrite Hv in Hp.
      destruct (Z.ltb_spec (Height b) (sequence (m_rs m))); [done|].
      destruct (Z.ltb_spec (sequence (m_rs m)) (Height b)); [done|]. simplify_eq.
      exists p, b. split; [done|]. split; [done|lia].
    + intros (p & b & Hin & Hb & Hh). exists (r, p). split; [done|]. simpl.
      destruct (Hverd r p (Hsub _ (or_introl Hin))) as (b' & Hb' & ->). simplify_eq.
      by rewrite Hh, Z.ltb_irrefl.
  - destruct (drained_blocked _ _ _ _ _ D) as [?|(r & p & Hin & Hst & Hmax)]; [by left|right].
    destruct (Hverd r p (Hsub _ (or_intror Hin))) as (b & Hb & Hv). exists r, p, b.
    split; [done|]. split; [done|]. split; [done|]. rewrite Hv in Hst.
    destruct (Z.ltb_spec (Height b) (sequence (m_rs m))); [done|].
    by destruct (Z.ltb_spec (sequence (m_rs m)) (Height b)).
Qed.

(** ** Authors and signatures *)

(** [FromPayload] never fails on the verdict of the signature check: its
    result is the same for all validation functions. *)
Theorem FromPayload_ignores_validation payload (f g : string -> option SignResult -> string * err) :
  FromPayload payload (Some f) = FromPayload payload (Some g).
Proof.
  unfold FromPayload. destruct (DecodeMessage payload) as [msg|]; [|done].
  destruct (PayloadNoSig msg) as [d|]; [|done].
  destruct (f d (Signature msg)), (g d (Signature msg)). done.
Qed.

(** [decodeMsg] accepts a payload as a message of the validator it
    names, whoever sent it and whatever its signature is; only a name that is
    not in the validator set is refused. *)
Theorem decodeMsg_by_name c vs msg sg payload data :
  valSet c = Some vs ->
  EncodeMessage (mkMessage (Code msg) (Msg msg) (Msg_Validator msg) sg (CommittedSeal msg)) =
    Some payload ->
  PayloadNoSig msg = Some data ->
  decodeMsg c payload = Ret
    match (GetById vs (Msg_Validator msg)).2 with
    | None => inl ErrUnauthorized
    | Some val => inr (mkMessage (Code msg) (Msg msg) (Msg_Validator msg) sg (CommittedSeal msg), val)
    end.
Proof.
  intros Hvs He Hd. apply DecodeMessage_Encode in He. unfold decodeMsg, FromPayload.
  rewrite He. unfold PayloadNoSig in *. cbn [Code Msg Msg_Validator CommittedSeal]. rewrite Hd.
  cbn. rewrite Hvs. cbn. by destruct (GetById vs (Msg_Validator msg)).2.
Qed.

(** The message carries what the backend signed for the hash in this world. *)
Definition seals (w : World) (h : Hash) (msg : Message) : Prop :=
  exists w', be_Sign (PrepareCommittedSeal h) w = Ret (inl (CommittedSeal msg), w').

Lemma wlp_seal_commit c m msg :
  runs c m -> wlp (seal_commit msg) c (fun o _ => forall msg', o = Some msg' ->
    Code msg' = Code msg /\ Msg msg' = Msg msg /\ Msg_Validator msg' = Msg_Validator msg /\
    (Code msg = MsgCommit -> forall p, roundState_Proposal (m_rs m) = Some p ->
      seals (world c) (HashOf p) msg')).
Proof.
  intros Hc. unfold seal_commit. destruct (Z.eqb_spec (Code msg) MsgCommit) as [Hcode|].
  2: { apply wlp_ret. by intros msg' [= <-]. }
  unfold current. wlp_steps. match goal with H : currentRoundState c = Some _ |- _ =>
    rewrite (runs_rs _ _ Hc) in H; injection H as <- end.
  destruct (roundState_Proposal (m_rs m)) as [p|].
  2: { apply wlp_ret. by intros msg' [= <-]. }
  apply wlp_bind, wlp_call. intros [s|e] w Hw; apply wlp_ret; [|done]. intros msg' [= <-].
  do 3 (split; [done|]). intros _ p' [= <-]. by exists w.
Qed.

(** C31. What a node finalizes arrives: the payload decodes, at any node that
    knows the sender as a validator, to the same code and body, in the
    sender's name and with what the sender's backend signed over the message without
    its signature (nil, if the backend says so); a COMMIT for an accepted
    proposal carries, the same way, the seal over that proposal's hash. *)
Theorem finalizeMessage_received c m msg payload c1 c2 vs i val :
  runs c m ->
  finalizeMessage msg c = Ret (Some payload, c1) ->
  valSet c2 = Some vs -> GetById vs (m_id m) = (i, Some val) ->
  exists msg' data w w',
    decodeMsg c2 payload = Ret (inr (msg', val)) /\
    Code msg' = Code msg /\ Msg msg' = Msg msg /\ Msg_Validator msg' = m_id m /\
    PayloadNoSig msg' = Some data /\
    be_Sign data w = Ret (inl (Signature msg'), w') /\
    (Code msg = MsgCommit -> forall p, roundState_Proposal (m_rs m) = Some p ->
      seals (world c) (HashOf p) msg').
Proof.
  intros Hc Hf Hvs Hg. unfold finalizeMessage, get_state, mbind, prog_bind in Hf.
  rewrite (runs_id _ _ Hc) in Hf.
  pose proof (wlp_seal_commit c m (set_Msg_Validator (m_id m) msg) Hc) as Hs.
  destruct (seal_commit _ c) as [[o c']|] eqn:Es; [|done]. specialize (Hs _ _ Es).
  destruct o as [msg1|]; [|done]. destruct (Hs msg1 eq_refl) as (H1 & H2 & H3 & H4). simpl in H1, H2, H3, H4.
  destruct (PayloadNoSig msg1) as [data|] eqn:Hd; [|done]. unfold call in Hf.
  destruct (be_Sign data (world c')) as [[[sg|e] w]|] eqn:Hsg; [|done..].
  injection Hf as He _. exists (set_Signature sg msg1), data, (world c'), w.
  assert (Hd' : PayloadNoSig (set_Signature sg msg1) = Some data) by exact Hd.
  split; [|by rewrite Hsg].
  apply DecodeMessage_Encode in He. unfold decodeMsg, FromPayload. rewrite He, Hd'. cbn.
  rewrite Hvs. cbn. by rewrite H3, Hg.
Qed.
End Messages.
