(* ===== verification/Node.v ===== *)
(** * Node: the abstract protocol of one validator

    The abstract specification of a consensus node, as a step relation on its
    main state.  A step is labelled with the actions it performs: the
    proposals, votes and round changes it sends, the blocks it decides and the
    locks it drops.
    [Refinement] proves that the handlers of the core implement it; here are
    the invariant of the protocol and its consequences. *)

From S2P Require Import Prelude Types Interfaces MessageSet Quorum RoundState CoreState Backlog Broadcast Round Phases Loop CoreSpec BroadcastSpec BacklogSpec.

Section Node.
Context `{E : Env, L : !EnvLaws E}.

Inductive act :=
| APrePrepare (v : View) (p : Proposal)
| APrepare (s : Subject)
| ACommit (s : Subject)
| AOldCommit (s : Subject)  (* for a block that is already in the chain *)
| ARoundChange (s : Subject)
| ADecide (v : View) (p : Proposal) (seals : list (option SignResult))
| AUnlock (h : Z).  (* the lock held at height [h] is dropped *)

(** The view of the node, as the code reads it. *)
Definition view_of (m : main) (r : Z) : View := full_view (i64 (sequence (m_rs m))) r.

(** The round state that [updateRoundState] installs on a round change: the
    lock and its proposal are kept, the votes are dropped. *)
Definition next_round (vs : ValidatorSet) (rnd : Z) (rs : roundState) : roundState :=
  let s := big_Uint64 (i64 (sequence rs)) in
  if IsHashLocked rs
  then mkRoundState (Some rnd) s (rs_PrePrepare rs) (NewMessageSet vs) (NewMessageSet vs)
         (lockedHash rs) (pendingRequest rs)
  else mkRoundState (Some rnd) s None (NewMessageSet vs) (NewMessageSet vs)
         ZeroHash (pendingRequest rs).

(** The round state of a new height. *)
Definition next_height (vs : ValidatorSet) (p : Proposal) : roundState :=
  mkRoundState (Some 0) (big_Uint64 (i64 (Height p) + 1)) None
    (NewMessageSet vs) (NewMessageSet vs) ZeroHash None.

(** A quorum of round-change votes for round [rnd] is recorded. *)
Definition round_change_quorum (m : main) (rnd : Z) : Prop :=
  exists ms, roundChanges (m_rcs m) !! big_Uint64 rnd = Some ms /\
    reachThreshold (m_vs m) (MessageSet_Size ms) = true.

(** The node takes part in the votes of its round. *)
Definition voting (m : main) : Prop :=
  m_waiting m = false /\ StateAcceptRequest < m_state m.
Definition accepting (m : main) : Prop :=
  m_waiting m = false /\ m_state m = StateAcceptRequest.

Inductive step (m : main) : list act -> main -> Prop :=
| st_propose p r :
    accepting m -> round (m_rs m) = Some r ->
    IsProposer (m_vs m) (m_id m) = true -> Height p = sequence (m_rs m) ->
    step m [APrePrepare (view_of m r) p] m
| st_pending r :
    is_Some (rq_Proposal r) ->
    step m [] (m_set_rs (set_pendingRequest (Some r) (m_rs m)) m)
| st_prepare p r :
    accepting m -> round (m_rs m) = Some r -> IsHashLocked (m_rs m) = false ->
    step m [APrepare (mkSubject (Some (view_of m r)) (HashOf p))]
      (m_set_state StatePrePrepared
        (m_set_rs (SetPrePrepare (Some (mkPrePrepare (Some (view_of m r)) (Some p))) (m_rs m)) m))
| st_recommit p r :
    accepting m -> round (m_rs m) = Some r -> IsHashLocked (m_rs m) = true ->
    HashOf p = lockedHash (m_rs m) ->
    step m [ACommit (mkSubject (Some (view_of m r)) (HashOf p))]
      (m_set_state StatePrepared
        (m_set_rs (SetPrePrepare (Some (mkPrePrepare (Some (view_of m r)) (Some p))) (m_rs m)) m))
| st_add_prepare msg sub :
    voting m -> Code msg = MsgPrepare -> DecodeSubject (Msg msg) = Some sub ->
    roundState_Subject (m_rs m) = Ret (Some sub) ->
    step m [] (m_set_rs (set_Prepares (MessageSet_Add (Prepares (m_rs m)) msg).2 (m_rs m)) m)
| st_prepared sub rs' :
    voting m -> m_state m < StatePrepared ->
    roundState_Subject (m_rs m) = Ret (Some sub) ->
    reachThreshold (m_vs m) (GetPrepareOrCommitSize (m_rs m)) = true \/
      (IsHashLocked (m_rs m) = true /\ Digest sub = lockedHash (m_rs m)) ->
    LockHash (m_rs m) = Ret rs' ->
    step m [ACommit sub] (m_set_state StatePrepared (m_set_rs rs' m))
| st_add_commit msg sub :
    voting m -> Code msg = MsgCommit -> DecodeSubject (Msg msg) = Some sub ->
    roundState_Subject (m_rs m) = Ret (Some sub) ->
    step m [] (m_set_rs (set_Commits (MessageSet_Add (Commits (m_rs m)) msg).2 (m_rs m)) m)
| st_decide p r sub rs' :
    voting m -> round (m_rs m) = Some r -> m_state m < StateCommitted ->
    roundState_Proposal (m_rs m) = Some p ->
    roundState_Subject (m_rs m) = Ret (Some sub) ->
    reachThreshold (m_vs m) (MessageSet_Size (Commits (m_rs m))) = true ->
    LockHash (m_rs m) = Ret rs' ->
    step m [ADecide (view_of m r) p (CommittedSeal <$> MessageSet_Values (Commits (m_rs m)))]
      (m_set_state StateCommitted (m_set_rs rs' m))
| st_unlock :
    IsHashLocked (m_rs m) = true ->
    step m [AUnlock (sequence (m_rs m))] (m_set_rs (UnlockHash (m_rs m)) m)
| st_drop_pending : step m [] (m_set_rs (set_pendingRequest None (m_rs m)) m)
| st_round_vote rnd msg :
    Code msg = MsgRoundChange ->
    step m [] (m_set_rcs (roundChangeSet_Add (m_rcs m) rnd msg).2 m)
| st_catch_up r rnd :
    round (m_rs m) = Some r -> r < rnd ->
    let m' := m_set_rcs (roundChangeSet_Clear (m_rcs m) rnd)
                (m_set_rs (next_round (m_vs m) rnd (m_rs m)) (m_set_waiting true m)) in
    step m [ARoundChange (mkSubject (Some (view_of m' rnd)) ZeroHash)] m'
| st_new_round r rnd last :
    round (m_rs m) = Some r -> rnd <> 0 ->
    (m_waiting m = true /\ r <= rnd) \/ r < rnd ->
    round_change_quorum m rnd ->
    step m [] (mkMain (m_id m) StateAcceptRequest false
                 (CalcProposer (m_vs m) last (big_Uint64 rnd))
                 (next_round (m_vs m) rnd (m_rs m))
                 (newRoundChangeSet (m_vs m)))
| st_new_height p vs last :
    sequence (m_rs m) <= Height p ->
    step m [] (mkMain (m_id m) StateAcceptRequest false
                 (CalcProposer vs last (big_Uint64 0))
                 (next_height vs p) (newRoundChangeSet vs))
| st_old_commit s q h r :
    round (m_rs m) = Some r ->
    view_lt (s, q) (i64 (sequence (m_rs m)), r) ->
    step m [AOldCommit (mkSubject (Some (full_view s q)) h)] m.

(** Runs of the abstract protocol, with the actions performed in order. *)
Inductive steps : main -> list act -> main -> Prop :=
| steps_refl m : steps m [] m
| steps_cons m1 m2 m3 a1 a2 : step m1 a1 m2 -> steps m2 a2 m3 -> steps m1 (a1 ++ a2) m3.

Lemma steps_one m a m' : step m a m' -> steps m a m'.
Proof. intros H. rewrite <- (app_nil_r a). by eapply steps_cons; [|constructor]. Qed.

Lemma steps_trans m1 m2 m3 a1 a2 : steps m1 a1 m2 -> steps m2 a2 m3 -> steps m1 (a1 ++ a2) m3.
Proof.
  induction 1 as [|n1 n2 n3 b1 b2 H _ IH]; [done|]. intros H3.
  rewrite <- app_assoc. eapply steps_cons; eauto.
Qed.

(** [UnlockHash] is a step only when there is a lock. *)
Definition unlocking (rs : roundState) : list act :=
  if IsHashLocked rs then [AUnlock (sequence rs)] else [].

Lemma unlocking_Forall (P : act -> Prop) rs :
  (forall h, P (AUnlock h)) -> Forall P (unlocking rs).
Proof. intros HP. unfold unlocking. destruct (IsHashLocked rs); by repeat constructor. Qed.

Lemma steps_unlock m : steps m (unlocking (m_rs m)) (m_set_rs (UnlockHash (m_rs m)) m).
Proof.
  unfold unlocking. destruct (IsHashLocked (m_rs m)) eqn:Hl.
  - by apply steps_one, st_unlock.
  - replace (m_set_rs (UnlockHash (m_rs m)) m) with m; [constructor|].
    destruct m as [? ? ? ? [] ?]. apply IsHashLocked_false in Hl. unfold m_set_rs, UnlockHash. simpl in *.
    by subst.
Qed.

(** ** The invariant *)

(** A message set accepts the senders of the current validator set. *)
Definition set_ok (vs : ValidatorSet) (ms : MessageSet) : Prop :=
  ms_wf ms /\ forall id, GetById (ms_valSet ms) id = GetById vs id.

(** Every message of the set is a vote with this code for the subject of the
    round. *)
Definition votes_for (rs : roundState) (code : Z) (ms : MessageSet) : Prop :=
  forall id msg, messages ms !! id = Some msg ->
    Code msg = code /\
    exists sub, DecodeSubject (Msg msg) = Some sub /\ roundState_Subject rs = Ret (Some sub).

Record round_inv (vs : ValidatorSet) (rs : roundState) : Prop := {
  inv_round : is_Some (round rs);
  inv_lock : lock_ok rs;
  inv_proposal : forall pp, rs_PrePrepare rs = Some pp -> is_Some (pp_Proposal pp);
  inv_pending : forall r, pendingRequest rs = Some r -> is_Some (rq_Proposal r);
  inv_prepares : set_ok vs (Prepares rs);
  inv_commits : set_ok vs (Commits rs);
  inv_prepare_votes : votes_for rs MsgPrepare (Prepares rs);
  inv_commit_votes : votes_for rs MsgCommit (Commits rs);
}.

Record main_inv (m : main) : Prop := {
  inv_state : StateAcceptRequest <= m_state m <= StateCommitted;
  inv_seq : 0 <= sequence (m_rs m) < 2 ^ 63;
  inv_rs : round_inv (m_vs m) (m_rs m);
  inv_rcs : rcs_ok (m_rcs m) /\ forall id, GetById (rcs_valSet (m_rcs m)) id = GetById (m_vs m) id;
  inv_fresh : m_waiting m = true \/ m_state m = StateAcceptRequest ->
    messages (Prepares (m_rs m)) = ∅ /\ messages (Commits (m_rs m)) = ∅;
  inv_preprepared : StateAcceptRequest < m_state m -> m_waiting m = false ->
    is_Some (rs_PrePrepare (m_rs m));
}.

(** ** Preservation *)

Lemma set_ok_new vs vs' :
  (forall id, GetById vs id = GetById vs' id) -> set_ok vs' (NewMessageSet vs).
Proof. intros H. split; [apply NewMessageSet_wf|done]. Qed.

Lemma set_ok_add vs ms msg : set_ok vs ms -> set_ok vs (MessageSet_Add ms msg).2.
Proof.
  intros [H1 H2]. split; [by apply MessageSet_Add_wf|].
  intros id. by rewrite MessageSet_Add_valSet.
Qed.

Lemma votes_for_empty rs code ms : messages ms = ∅ -> votes_for rs code ms.
Proof. intros H id msg. by rewrite H, lookup_empty. Qed.

Lemma votes_for_ext rs rs' code ms :
  roundState_Subject rs' = roundState_Subject rs -> votes_for rs code ms -> votes_for rs' code ms.
Proof. intros H Hv id msg Hm. rewrite H. by apply (Hv id). Qed.

Lemma votes_for_add rs code ms msg sub :
  votes_for rs code ms -> Code msg = code -> DecodeSubject (Msg msg) = Some sub ->
  roundState_Subject rs = Ret (Some sub) ->
  votes_for rs code (MessageSet_Add ms msg).2.
Proof.
  intros Hv Hc Hd Hs id msg' [->|Hm]%MessageSet_Add_lookup; [|by apply (Hv id)].
  split; [done|]. by exists sub.
Qed.

Lemma lock_ok_unlocked rs : lockedHash rs = ZeroHash -> lock_ok rs.
Proof. by intros H1 H2. Qed.

(** Below [2^63] the conversions of the sequence number are exact. *)
Lemma next_round_sequence vs rnd rs :
  0 <= sequence rs < 2 ^ 63 -> sequence (next_round vs rnd rs) = sequence rs.
Proof.
  intros H. assert (E1 : big_Uint64 (i64 (sequence rs)) = sequence rs).
  { rewrite i64_small by done. apply big_Uint64_small. unfold in_u64. lia. }
  unfold next_round. by destruct (IsHashLocked rs).
Qed.

Lemma next_round_round vs rnd rs : round (next_round vs rnd rs) = Some rnd.
Proof. unfold next_round. by destruct (IsHashLocked rs). Qed.

Lemma next_height_sequence vs p : sequence (next_height vs p) = Height p + 1.
Proof.
  simpl. pose proof (Height_range p). rewrite i64_small by lia.
  apply big_Uint64_small. unfold in_u64. lia.
Qed.

(** A round state with no votes yet. *)
Lemma round_inv_fresh vs rs :
  is_Some (round rs) -> lock_ok rs ->
  (forall pp, rs_PrePrepare rs = Some pp -> is_Some (pp_Proposal pp)) ->
  (forall r, pendingRequest rs = Some r -> is_Some (rq_Proposal r)) ->
  set_ok vs (Prepares rs) -> set_ok vs (Commits rs) ->
  messages (Prepares rs) = ∅ -> messages (Commits rs) = ∅ ->
  round_inv vs rs.
Proof. intros. split; auto using votes_for_empty. Qed.

Lemma round_inv_next vs vs' rnd rs :
  (forall id, GetById vs id = GetById vs' id) ->
  round_inv vs' rs -> round_inv vs' (next_round vs rnd rs).
Proof.
  intros Hvs H. unfold next_round. destruct (IsHashLocked rs); apply round_inv_fresh; simpl;
    eauto using set_ok_new, inv_pending, inv_proposal.
  - apply (inv_lock _ _ H).
  - by apply lock_ok_unlocked.
  - done.
Qed.

Lemma round_inv_height vs vs' p :
  (forall id, GetById vs id = GetById vs' id) -> round_inv vs' (next_height vs p).
Proof.
  intros Hvs. apply round_inv_fresh; simpl; eauto using set_ok_new; try done.
  by apply lock_ok_unlocked.
Qed.

(** An update that keeps the votes and the subject of the round. *)
Lemma round_inv_update vs rs rs' :
  round_inv vs rs -> round rs' = round rs -> sequence rs' = sequence rs ->
  rs_PrePrepare rs' = rs_PrePrepare rs ->
  Prepares rs' = Prepares rs -> Commits rs' = Commits rs ->
  (forall r, pendingRequest rs' = Some r -> is_Some (rq_Proposal r)) -> lock_ok rs' ->
  round_inv vs rs'.
Proof.
  intros [H1 H2 H3 H4 H5 H6 H7 H8] Er Es Ep E1 E2 Hp Hl.
  assert (Hsub : roundState_Subject rs' = roundState_Subject rs).
  { unfold roundState_Subject. by rewrite Er, Es, Ep. }
  split; rewrite ?Er, ?Ep, ?E1, ?E2; eauto using votes_for_ext.
Qed.

Lemma LockHash_fields rs rs' :
  LockHash rs = Ret rs' ->
  round rs' = round rs /\ sequence rs' = sequence rs /\
  rs_PrePrepare rs' = rs_PrePrepare rs /\ Prepares rs' = Prepares rs /\
  Commits rs' = Commits rs /\ pendingRequest rs' = pendingRequest rs /\
  (forall p, roundState_Proposal rs = Some p -> lockedHash rs' = HashOf p) /\
  (lock_ok rs -> lock_ok rs').
Proof.
  unfold LockHash, roundState_Proposal. destruct (rs_PrePrepare rs) as [pp|] eqn:Hpp.
  - destruct (pp_Proposal pp) as [p|] eqn:Hp; [|done]. intros [= <-]; simpl.
    repeat split; try done; [congruence|]. intros _ _. by exists pp, p.
  - by intros [= <-].
Qed.

Lemma round_inv_LockHash vs rs rs' :
  round_inv vs rs -> LockHash rs = Ret rs' -> round_inv vs rs'.
Proof.
  intros H (E1 & E2 & E3 & E4 & E5 & E6 & _ & E7)%LockHash_fields.
  apply (round_inv_update vs rs); auto; [|by apply E7, H].
  rewrite E6. apply H.
Qed.

(** ** Every step preserves the invariant *)

Lemma step_inv m a m' : step m a m' -> main_inv m -> main_inv m'.
Proof.
  intros Hs [I1 I0 I2 [I3 I4] I5 I6]. destruct Hs; try done.
  - (* pending *) split; try done. apply (round_inv_update _ (m_rs m)); try done.
    + by intros ? [= <-].
    + apply I2.
  - (* prepare *) destruct H as [Hw Hst]. destruct (I5 (or_intror Hst)) as [Hp Hc].
    split; simpl; try done; try (intros [?|?]; [congruence|done]).
    apply round_inv_fresh; simpl; try apply I2; try done.
    + intros Hl. apply IsHashLocked_true in Hl. unfold IsHashLocked in *. simpl in Hl. congruence.
    + by intros ? [= <-].
  - (* recommit *) destruct H as [Hw Hst]. destruct (I5 (or_intror Hst)) as [Hp Hc].
    split; simpl; try done; try (intros [?|?]; [congruence|done]).
    apply round_inv_fresh; simpl; try apply I2; try done.
    + intros _. by eexists _, p.
    + by intros ? [= <-].
  - (* add prepare *) destruct H as [Hw Hst].
    split; simpl; try done; try (intros [?|?]; [congruence|simpl in *; lia]).
    destruct I2 as [J1 J2 J3 J4 J5 J6 J7 J8].
    split; simpl; auto using set_ok_add. by eapply votes_for_add.
  - (* prepared *) destruct H as [Hw Hst].
    destruct (LockHash_fields _ _ H3) as (_ & E2 & E3 & _).
    split; simpl; rewrite ?E2; try done; try (intros [?|?]; [congruence|done]).
    + by eapply round_inv_LockHash.
    + intros _ _. rewrite E3. by apply I6.
  - (* add commit *) destruct H as [Hw Hst].
    split; simpl; try done; try (intros [?|?]; [congruence|simpl in *; lia]).
    destruct I2 as [J1 J2 J3 J4 J5 J6 J7 J8].
    split; simpl; auto using set_ok_add. by eapply votes_for_add.
  - (* decide *) destruct H as [Hw Hst].
    destruct (LockHash_fields _ _ H5) as (_ & E2 & E3 & _).
    split; simpl; rewrite ?E2; try done; try (intros [?|?]; [congruence|done]).
    + by eapply round_inv_LockHash.
    + intros _ _. rewrite E3. by apply I6.
  - (* unlock *) split; try done. apply (round_inv_update _ (m_rs m)); try done.
    + apply I2.
    + by apply lock_ok_unlocked.
  - (* drop pending *) split; try done. apply (round_inv_update _ (m_rs m)); try done.
    apply I2.
  - (* round vote *) destruct (roundChangeSet_Add_ok (m_rcs m) rnd msg I3) as [Ho Hv].
    split; simpl; try done. split; [done|]. intros id. by rewrite Hv.
  - (* catch up *) destruct (roundChangeSet_Clear_ok (m_rcs m) rnd I3) as [Ho Hv].
    split; simpl; try done; [by rewrite next_round_sequence|by apply round_inv_next|].
    intros _. unfold next_round. by destruct (IsHashLocked (m_rs m)).
  - (* new round *) split; simpl; try done; try lia.
    + by rewrite next_round_sequence.
    + apply round_inv_next; [intros; by rewrite CalcProposer_GetById|].
      destruct I2 as [J1 J2 J3 J4 [J5 J5'] [J6 J6'] J7 J8].
      split; try done; (split; [done|]); intros; rewrite CalcProposer_GetById; done.
    + split; [apply newRoundChangeSet_ok|]. intros. by rewrite CalcProposer_GetById.
    + intros _. unfold next_round. by destruct (IsHashLocked (m_rs m)).
  - (* new height *) split; simpl; try done; try lia.
    + pose proof (Height_range p). change (0 <= sequence (next_height vs p) < 2 ^ 63).
      rewrite next_height_sequence. lia.
    + apply round_inv_height. intros. by rewrite CalcProposer_GetById.
    + split; [apply newRoundChangeSet_ok|]. intros. by rewrite CalcProposer_GetById.
Qed.

Lemma steps_inv m a m' : steps m a m' -> main_inv m -> main_inv m'.
Proof. induction 1; eauto using step_inv. Qed.

Lemma steps_id m a m' : steps m a m' -> m_id m' = m_id m.
Proof. induction 1 as [|m1 m2 m3 a1 a2 H _ IH]; [done|]. rewrite IH. by destruct H. Qed.
End Node.

Notation "m '-{' a '}->' m'" := (step m a m') (at level 70, a at level 99, m' at level 69) : pbft_scope.
Notation "m '-{' a '}->*' m'" := (steps m a m') (at level 70, a at level 99, m' at level 69) : pbft_scope.

#[export] Hint Resolve step_inv steps_inv set_ok_new set_ok_add votes_for_ext votes_for_empty
  lock_ok_unlocked : pbft.
