(* ===== verification/Refinement.v ===== *)
(** * Refinement: the core implements the abstract protocol

    Every event handler of the core, run from a main state that satisfies the
    invariant of [Node], returns (it does not panic, unless the backend did), performs a
    run of the abstract protocol on its main state, and every effect it emits
    is the announcement of an action of that run.  A predicate [ok] on actions
    is carried along: what a handler must do only in certain cases (dropping a
    lock, a COMMIT for an old block) it does only where [ok] allows it. *)

From S2P Require Import Prelude Types Interfaces MessageSet Quorum RoundState CoreState Backlog Broadcast Round Phases Loop CoreSpec BroadcastSpec BacklogSpec Node.

Section Refinement.
Context `{E : Env, L : !EnvLaws E}.

(** ** Effects and the actions they announce *)

(** The code and the body of the message of an action. *)
Definition act_message (a : act) : option (Z * option string) :=
  match a with
  | APrePrepare v p => Some (MsgPrePrepare, EncodePrePrepare (mkPrePrepare (Some v) (Some p)))
  | APrepare s => Some (MsgPrepare, EncodeSubject s)
  | ACommit s | AOldCommit s => Some (MsgCommit, EncodeSubject s)
  | ARoundChange s => Some (MsgRoundChange, EncodeSubject s)
  | ADecide _ _ _ | AUnlock _ => None
  end.

Definition announces (id : string) (a : act) (e : effect) : Prop :=
  match a with
  | ADecide _ p seals => e = ECommit p seals
  | _ => exists code bytes, act_message a = Some (code, Some bytes) /\ own id code bytes e
  end.

Definition explained (id : string) (acts : list act) (e : effect) : Prop :=
  harmless e \/ exists a, a ∈ acts /\ announces id a e.

Lemma explained_mono id acts acts' e :
  acts ⊆ acts' -> explained id acts e -> explained id acts' e.
Proof. intros Hs [H|(a & Ha & H)]; [by left|right]. exists a. auto. Qed.

(** The message of the action is sent; or nothing is, since it cannot be
    encoded or signed. *)
Definition sends (id : string) (a : act) (es : list effect) : Prop :=
  (exists code bytes, act_message a = Some (code, Some bytes) /\ broadcasts id code bytes es) \/
  (es = [] /\ exists code body, act_message a = Some (code, body) /\
     match body with Some bytes => cannot_send id code bytes | None => True end).

(** After effects of no consequence for others the message is sent. *)
Definition then_sends (id : string) (a : act) (es : list effect) : Prop :=
  exists pre post, es = pre ++ post /\ Forall harmless pre /\ sends id a post.

(** An action announced by a broadcast. *)
Lemma own_explained id a acts code bytes es :
  a ∈ acts -> act_message a = Some (code, Some bytes) ->
  Forall (own id code bytes) es -> Forall (explained id acts) es.
Proof.
  intros Ha Hm He. eapply Forall_impl; [exact He|]. intros e Ho. right. exists a.
  split; [done|]. destruct a; try done; by exists code, bytes.
Qed.

Lemma harmless_explained id acts es : Forall harmless es -> Forall (explained id acts) es.
Proof. intros He. eapply Forall_impl; [exact He|]. by left. Qed.

Lemma sends_explained id a acts es : a ∈ acts -> sends id a es -> Forall (explained id acts) es.
Proof.
  intros Ha [(code & bytes & Hm & Hb)|[-> _]]; [|constructor].
  eapply own_explained; [done..|by apply broadcasts_own].
Qed.

Lemma then_sends_explained id a acts es :
  a ∈ acts -> then_sends id a es -> Forall (explained id acts) es.
Proof.
  intros Ha (pre & post & -> & Hpre & Hs). apply Forall_app.
  split; [by apply harmless_explained|by eapply sends_explained].
Qed.

(** ** The causes of actions

    Dropping the lock (but for timeouts) and voting for a block of the past
    have a reason: the chain refused a block that the node handed over, or a
    PRE-PREPARE message proposed the block again and the backend has it. *)
Definition old_proposal (msg : Message) (s : Subject) : Prop :=
  Code msg = MsgPrePrepare /\ exists p,
    DecodePrePrepare (Msg msg) = Some (mkPrePrepare (sub_View s) (Some p)) /\
    HashOf p = Digest s /\ answers (be_HasProposal (HashOf p) (Height p)) true.

Definition refused (es : list effect) : Prop :=
  exists p seals why, ECommit p seals ∈ es /\ answers (be_Commit p seals) (Some why).

(** A judgement of the actions that may happen, given the effects, is one
    that more effects do not falsify; it allows what needs no reason, and to
    drop the lock when the chain refused a block. *)
Class Grows (ok : list effect -> act -> Prop) :=
  grows es es' a : es ⊆ es' -> ok es a -> ok es' a.
Class Allows (ok : list effect -> act -> Prop) :=
  allows es a : match a with AUnlock _ => refused es | AOldCommit _ => False | _ => True end ->
    ok es a.

Lemma refused_grows es es' : es ⊆ es' -> refused es -> refused es'.
Proof. intros Hs (p & seals & why & ? & ?). exists p, seals, why. auto. Qed.

#[export] Instance Grows_app ok es0 : Grows ok -> Grows (fun es => ok (es0 ++ es)).
Proof. intros Hg es es' a Hs. apply Hg. set_solver. Qed.

#[export] Instance Allows_app ok es0 : Grows ok -> Allows ok -> Allows (fun es => ok (es0 ++ es)).
Proof.
  intros Hg Ha es a Hc. apply Ha. destruct a; try done. eapply refused_grows; [|exact Hc]. set_solver.
Qed.

#[export] Instance Grows_all : Grows (fun _ _ => True).
Proof. done. Qed.
#[export] Instance Allows_all : Allows (fun _ _ => True).
Proof. done. Qed.

Lemma Forall_grows ok es es' acts : Grows ok -> es ⊆ es' -> Forall (ok es) acts -> Forall (ok es') acts.
Proof. intros Hg Hs Ho. eapply Forall_impl; [exact Ho|]. intros a. by apply Hg. Qed.

(** ** The refinement judgement, for a set of actions that may happen *)

Section Judgement.
Context (ok : list effect -> act -> Prop).

Definition refines {A} (p : prog core A) (m : main) (Q : A -> main -> Prop) : Prop :=
  main_inv m ->
  spec p m (fun a m' es => exists acts,
    steps m acts m' /\ Forall (ok es) acts /\ Forall (explained (m_id m) acts) es /\ Q a m').

Lemma refines_ret {A} (a : A) m (Q : A -> main -> Prop) : Q a m -> refines (mret a) m Q.
Proof. intros HQ _. apply spec_ret. exists []. split; [constructor|]. split; [constructor|done]. Qed.

Lemma refines_bind `{!Grows ok} {A B} (p : prog core A) (f : A -> prog core B) m (Q : B -> main -> Prop) :
  refines p m (fun a m1 => refines (f a) m1 Q) -> refines (p ≫= f) m Q.
Proof.
  intros Hp Hm. apply spec_bind. eapply spec_mono; [exact (Hp Hm)|].
  intros a m1 es1 (acts1 & Hs1 & Ho1 & He1 & Hf). simpl.
  eapply spec_mono; [exact (Hf (steps_inv _ _ _ Hs1 Hm))|].
  intros b m2 es2 (acts2 & Hs2 & Ho2 & He2 & HQ). exists (acts1 ++ acts2).
  split; [by eapply steps_trans|]. split.
  { apply Forall_app. split; (eapply Forall_grows; [done| |eassumption]); set_solver. }
  split; [|done]. rewrite (steps_id _ _ _ Hs1) in He2. apply Forall_app. split.
  - eapply Forall_impl; [exact He1|]. intros e. apply explained_mono. set_solver.
  - eapply Forall_impl; [exact He2|]. intros e. apply explained_mono. set_solver.
Qed.

Lemma refines_mono {A} (p : prog core A) m (Q1 Q2 : A -> main -> Prop) :
  refines p m Q1 -> (forall a m', main_inv m' -> Q1 a m' -> Q2 a m') -> refines p m Q2.
Proof.
  intros Hp H12 Hm. eapply spec_mono; [exact (Hp Hm)|].
  intros a m' es (acts & Hs & Ho & He & HQ). exists acts. eauto 6 using steps_inv.
Qed.

Lemma refines_inv {A} (p : prog core A) m (Q : A -> main -> Prop) :
  (main_inv m -> refines p m Q) -> refines p m Q.
Proof. intros H Hm. exact (H Hm Hm). Qed.

(** A program that performs no step and emits no message. *)
Lemma refines_silent {A} (p : prog core A) m (Q : A -> main -> Prop) :
  (main_inv m -> spec p m (fun a m' es => m' = m /\ Forall harmless es /\ Q a m)) ->
  refines p m Q.
Proof.
  intros Hp Hm. eapply spec_mono; [exact (Hp Hm)|]. intros a m' es (-> & He & HQ).
  exists []. split; [constructor|]. split; [constructor|]. split; [|done].
  eapply Forall_impl; [exact He|]. by left.
Qed.

(** A program that performs one step and announces its actions. *)
Lemma refines_step {A} (p : prog core A) m acts (Q : A -> main -> Prop) :
  (forall es, Forall (ok es) acts) ->
  (main_inv m -> spec p m (fun a m' es =>
    step m acts m' /\ Forall (explained (m_id m) acts) es /\ Q a m')) ->
  refines p m Q.
Proof.
  intros Ho Hp Hm. eapply spec_mono; [exact (Hp Hm)|]. intros a m' es (Hs & He & HQ).
  exists acts. eauto using steps_one.
Qed.

Lemma refines_get {B} (f : core -> prog core B) m (Q : B -> main -> Prop) :
  (forall c, runs c m -> refines (f c) m Q) -> refines (get_state ≫= f) m Q.
Proof. intros Hf Hm. apply spec_get. intros c Hc. by apply Hf. Qed.

Lemma refines_load {A} (o : option A) a m (Q : A -> main -> Prop) :
  o = Some a -> Q a m -> refines (load o) m Q.
Proof. intros -> HQ. by apply refines_ret. Qed.

Lemma refines_lift {A} (o : outcome A) a m (Q : A -> main -> Prop) :
  o = Ret a -> Q a m -> refines (lift o) m Q.
Proof. intros -> HQ. by apply refines_ret. Qed.

Lemma refines_current m (Q : roundState -> main -> Prop) :
  Q (m_rs m) m -> refines current m Q.
Proof. intros HQ _. apply spec_current. exists []. split; [constructor|]. split; [constructor|done]. Qed.

Lemma refines_call {A} (f : prog World A) m (Q : A -> main -> Prop) :
  (panics f -> callee_fails) -> (forall a, answers f a -> Q a m) -> refines (call f) m Q.
Proof.
  intros Hp HQ _. apply spec_call; [done|]. intros a Ha. exists []. split; [constructor|].
  split; [constructor|]. split; [constructor|by apply HQ].
Qed.

Lemma refines_call_set f m (Q : ValidatorSet -> main -> Prop) :
  (panics f -> callee_fails) -> (answers f None -> callee_fails) ->
  (forall vs, answers f (Some vs) -> Q vs m) -> refines (call_set f) m Q.
Proof.
  intros Hp Hn HQ _. apply spec_call_set; [done..|]. intros vs Hvs. exists []. split; [constructor|].
  split; [constructor|]. split; [constructor|by apply HQ].
Qed.

Lemma refines_when (b : bool) p m (Q : unit -> main -> Prop) :
  (b = true -> refines p m Q) -> (b = false -> Q tt m) -> refines (when b p) m Q.
Proof. destruct b; intros H1 H2; [by apply H1|]. apply refines_ret. by apply H2. Qed.

Lemma refines_aux f m (Q : unit -> main -> Prop) :
  (forall c, runs c m -> runs (f c) m /\ trace (f c) = trace c) ->
  Q tt m -> refines (modify f) m Q.
Proof. intros Hf HQ. apply refines_silent. intros _. by apply spec_modify_aux. Qed.

End Judgement.

(** Going on in the refinement judgement after a step that was executed
    symbolically. *)
Lemma refines_resume ok `{!Grows ok} {A} (p : prog core A) m acts m1 es1 (Q : A -> main -> Prop) :
  main_inv m -> step m acts m1 -> Forall (ok es1) acts -> Forall (explained (m_id m) acts) es1 ->
  refines (fun es => ok (es1 ++ es)) p m1 Q ->
  spec p m1 (fun a m2 es2 => exists acts',
    steps m acts' m2 /\ Forall (ok (es1 ++ es2)) acts' /\
    Forall (explained (m_id m) acts') (es1 ++ es2) /\ Q a m2).
Proof.
  intros Hm Hs Ho He Hp. apply steps_one in Hs.
  eapply spec_mono; [exact (Hp (steps_inv _ _ _ Hs Hm))|].
  intros a m2 es2 (acts2 & Hs2 & Ho2 & He2 & HQ). exists (acts ++ acts2).
  split; [by eapply steps_trans|]. split.
  { apply Forall_app. split; [eapply Forall_grows; [done| |exact Ho]; set_solver|done]. }
  split; [|done].
  rewrite (steps_id _ _ _ Hs) in He2. apply Forall_app. split.
  - eapply Forall_impl; [exact He|]. intros e. apply explained_mono. set_solver.
  - eapply Forall_impl; [exact He2|]. intros e. apply explained_mono. set_solver.
Qed.
End Refinement.

Ltac ref_step :=
  lazymatch goal with
  | |- refines _ (get_state ≫= _) _ _ => apply refines_get; intros ? ?
  | |- refines _ (_ ≫= _) _ _ => apply refines_bind; [typeclasses eauto|]
  | |- refines _ (mret _) _ _ => apply refines_ret
  | |- refines _ current _ _ => apply refines_current
  | |- refines _ (call _) _ _ => apply refines_call; [backend_call|intros ? _]
  | |- refines _ (call_set _) _ _ => apply refines_call_set; [backend_call..|intros ? _]
  | |- refines _ (load _) _ _ =>
      eapply refines_load; [solve [eassumption | reflexivity | eauto using runs_vs, runs_rs, runs_rcs]|]
  | |- refines _ (lift _) _ _ => eapply refines_lift; [solve [eassumption | reflexivity]|]
  end; cbv beta iota.
Ltac ref_steps := repeat ref_step.

(** A lemma on the judgement that is stated for all [ok]. *)
Ltac ref_apply H := eapply H; try solve [typeclasses eauto].
