(* ===== verification/CoreRefinement.v ===== *)
(** * CoreRefinement: the handlers of the core refine the abstract protocol

    One lemma per method of [core/round.go], [core/pre_prepare.go],
    [core/prepare.go], [core/commit.go], [core/request.go] and of the loop in
    [core/pbft.go], composed the way the code composes them. *)

From S2P Require Import Prelude Types Interfaces MessageSet Quorum RoundState CoreState Backlog Broadcast Round Phases Loop Provenance CoreSpec BroadcastSpec BacklogSpec Node Refinement.

Section Proposing.
Context `{E : Env, L : !EnvLaws E}.
Context (ok : list effect -> act -> Prop) `{HG : !Grows ok, HA : !Allows ok}.

Lemma ok_one es a :
  match a with AUnlock _ | AOldCommit _ => False | _ => True end -> Forall (ok es) [a].
Proof using HA. intros Ha. constructor; [|constructor]. apply (allows es). by destruct a. Qed.

(** Broadcasting the message of an action. *)
Lemma spec_announce a code bytes m (Q : unit -> main -> list effect -> Prop) :
  act_message a = Some (code, Some bytes) ->
  (forall es, sends (m_id m) a es -> Q tt m es) ->
  spec (Broadcast (mkMessage code bytes EmptyString None None)) m Q.
Proof.
  intros Ha HQ. apply spec_Broadcast.
  - intros es Hes. apply HQ. left. by exists code, bytes.
  - intros Hno. apply HQ. right. split; [done|]. by exists code, (Some bytes).
Qed.

(** One whose message is a subject. *)
Lemma spec_announce_subject a code sub m (Q : unit -> main -> list effect -> Prop) :
  act_message a = Some (code, EncodeSubject sub) ->
  (forall es, sends (m_id m) a es -> Q tt m es) ->
  spec match EncodeSubject sub with
       | None => mret tt
       | Some bytes => Broadcast (mkMessage code bytes EmptyString None None)
       end m Q.
Proof.
  intros Ha HQ. destruct (EncodeSubject sub) as [bytes|]; [by apply (spec_announce a)|].
  apply spec_ret, HQ. right. split; [done|]. by exists code, None.
Qed.

(** ** Rounds *)

Lemma spec_newRoundChangeTimer m r (Q : unit -> main -> list effect -> Prop) :
  round (m_rs m) = Some r ->
  Q tt m [ETimer (round_timeout (m_waiting m) (big_Uint64 r))] ->
  spec newRoundChangeTimer m Q.
Proof.
  intros Hr HQ. unfold newRoundChangeTimer, stopTimer. spec_step.
  apply spec_modify_aux.
  { intros c Hc. split; [|done]. by destruct Hc as [? ? ? ? ? ? [? ?]]; repeat split. }
  spec_steps. rename select (runs _ m) into Hc. rewrite (runs_waiting _ _ Hc).
  apply spec_modify_aux.
  { intros c' Hc'. split; [|done]. by destruct Hc' as [? ? ? ? ? ? [? ?]]; repeat split. }
  spec_steps. exact HQ.
Qed.

Lemma spec_updateRoundState view vs (rc : bool) m rs' (Q : unit -> main -> list effect -> Prop) :
  match rc with
  | true => if IsHashLocked (m_rs m)
            then newRoundState view vs (GetLockedHash (m_rs m)) (rs_PrePrepare (m_rs m))
                   (pendingRequest (m_rs m))
            else newRoundState view vs ZeroHash None (pendingRequest (m_rs m))
  | false => newRoundState view vs ZeroHash None None
  end = Ret rs' ->
  Q tt (m_set_rs rs' m) [] -> spec (updateRoundState view vs rc) m Q.
Proof.
  intros Hrs HQ. unfold updateRoundState. spec_steps. rename select (runs _ m) into Hc.
  rewrite (runs_rs _ _ Hc). eapply spec_lift; [destruct rc; exact Hrs|]. by spec_step.
Qed.

Lemma newRoundState_next m rnd vs :
  (if IsHashLocked (m_rs m)
   then newRoundState (full_view (i64 (sequence (m_rs m))) rnd) vs (GetLockedHash (m_rs m))
          (rs_PrePrepare (m_rs m)) (pendingRequest (m_rs m))
   else newRoundState (full_view (i64 (sequence (m_rs m))) rnd) vs ZeroHash None
          (pendingRequest (m_rs m))) = Ret (next_round vs rnd (m_rs m)).
Proof. unfold next_round. by destruct (IsHashLocked (m_rs m)). Qed.

Lemma isProposer_runs c m : runs c m -> isProposer c = IsProposer (m_vs m) (m_id m).
Proof. intros Hc. unfold isProposer. by rewrite (runs_vs _ _ Hc), (runs_id _ _ Hc). Qed.

Lemma refines_SendPrePrepare request m :
  is_Some (rq_Proposal request) -> accepting m ->
  refines ok (SendPrePrepare request) m (fun _ m' => m' = m).
Proof.
  intros [p Hp] Hacc. unfold SendPrePrepare. ref_steps. apply refines_inv. intros Hm.
  destruct (inv_round _ _ (inv_rs _ Hm)) as [r Hr]. rename select (runs c m) into Hc.
  rewrite (isProposer_runs c m Hc).
  destruct (Z.eqb_spec (sequence (m_rs m)) (Height p)) as [Hseq|]; simpl; [|intros; by ref_steps].
  destruct (IsProposer (m_vs m) (m_id m)) eqn:Hprop; [|intros; by ref_steps].
  rewrite (currentView_runs c m r Hc Hr). ref_steps. rewrite Hp.
  destruct (EncodePrePrepare _) as [bytes|] eqn:Henc; [|intros; by ref_steps].
  apply (refines_step ok _ _ [APrePrepare (view_of m r) p]); [intros; by apply ok_one|]. intros _.
  apply (spec_announce (APrePrepare (view_of m r) p) MsgPrePrepare bytes); [simpl; by rewrite <- Henc|].
  intros es Hes. split; [by eapply st_propose|]. split; [|done].
  eapply sends_explained; [|exact Hes]. by constructor.
Qed.

Lemma refines_StartNewRound_propose rc m :
  accepting m -> refines ok (StartNewRound_propose rc) m (fun _ m' => m' = m).
Proof.
  intros Hacc. unfold StartNewRound_propose. ref_steps. rename select (runs c m) into Hc.
  rewrite (runs_rs _ _ Hc). destruct (rc && isProposer c); [|intros; by ref_steps].
  apply refines_inv. intros Hm. pose proof (inv_rs _ Hm) as Hrs.
  destruct (IsHashLocked (m_rs m)) eqn:Hl.
  - apply IsHashLocked_true in Hl. destruct (inv_lock _ _ Hrs Hl) as (pp & p & Hpp & Hp & _).
    apply refines_SendPrePrepare; [|done]. simpl. unfold roundState_Proposal. rewrite Hpp, Hp. eauto.
  - destruct (pendingRequest (m_rs m)) as [rq|] eqn:Hpr; [|intros; by ref_steps].
    apply refines_SendPrePrepare; [|done]. by eapply inv_pending.
Qed.

(** What a change to a new round or height does, after the decision. *)
Lemma refines_timer m : refines ok newRoundChangeTimer m (fun _ m' => m' = m).
Proof.
  apply refines_silent. intros Hm. destruct (inv_round _ _ (inv_rs _ Hm)) as [r Hr].
  eapply spec_newRoundChangeTimer; [done|]. split; [done|]. split; [|done]. by repeat constructor.
Qed.

End Proposing.

Section Rounds.
Context `{E : Env, L : !EnvLaws E}.
Context (ok : list effect -> act -> Prop) `{HG : !Grows ok, HA : !Allows ok}.

(** The change to a new round or height: the step, the restart of the state
    machine, and the proposal of the new round. *)
Lemma refines_enter view vs last rc rs' rnd m m1 (Q : unit -> main -> Prop) :
  step m [] m1 ->
  m1 = mkMain (m_id m) StateAcceptRequest false (CalcProposer vs last (big_Uint64 rnd)) rs'
         (newRoundChangeSet vs) ->
  Types.Round view = Some rnd ->
  match rc with
  | true => if IsHashLocked (m_rs m)
            then newRoundState view vs (GetLockedHash (m_rs m)) (rs_PrePrepare (m_rs m))
                   (pendingRequest (m_rs m))
            else newRoundState view vs ZeroHash None (pendingRequest (m_rs m))
  | false => newRoundState view vs ZeroHash None None
  end = Ret rs' ->
  Q tt m1 ->
  main_inv m ->
  spec (modify (set_roundChangeSet (Some (newRoundChangeSet vs)));;
        updateRoundState view vs rc;;
        newRound ← load (Types.Round view);
        modify (set_valSet (Some (CalcProposer vs last (big_Uint64 newRound))));;
        modify (set_waitingForRoundChange false);;
        setState StateAcceptRequest;;
        StartNewRound_propose rc;;
        newRoundChangeTimer) (m_set_vs vs m)
    (fun a m' es => exists acts,
      steps m acts m' /\ Forall (ok es) acts /\ Forall (explained (m_id m) acts) es /\ Q a m').
Proof.
  intros Hs Hm1 Hrnd Hrs HQ Hm. spec_step. spec_step. spec_step.
  eapply spec_updateRoundState; [exact Hrs|]. spec_step. spec_step. spec_step. spec_step.
  spec_step. spec_step. simpl app. spec_step. apply spec_setState.
  { destruct rc; [destruct (IsHashLocked (m_rs m))|]; unfold newRoundState in Hrs;
      destruct (Sequence view); cbn in Hrs; (done || injection Hrs as <-);
      exists rnd; exact Hrnd. }
  intros es Hes.
  change (spec (StartNewRound_propose rc;; newRoundChangeTimer) (mkMain (m_id m) StateAcceptRequest false
    (CalcProposer vs last (big_Uint64 rnd)) rs' (newRoundChangeSet vs))
    (fun a m' es' => exists acts,
      steps m acts m' /\ Forall (ok (es ++ es')) acts /\
      Forall (explained (m_id m) acts) (es ++ es') /\ Q a m')).
  rewrite <- Hm1. eapply refines_resume; [typeclasses eauto|done|exact Hs|constructor|by apply harmless_explained|].
  ref_step. apply refines_mono with (fun _ m' => m' = m1).
  { ref_apply refines_StartNewRound_propose. by rewrite Hm1. }
  intros _ m' _ ->. eapply refines_mono; [ref_apply refines_timer|]. by intros [] m' _ ->.
Qed.

(** [StartNewRound]: a new height when the chain has grown; a new round only
    with a quorum of round-change votes. *)
Definition may_start (m : main) (rnd : Z) : Prop :=
  rnd = 0 \/
  exists r, round (m_rs m) = Some r /\ ((m_waiting m = true /\ r <= rnd) \/ r < rnd) /\
    round_change_quorum m rnd.

Lemma m_set_vs_eta m : m_set_vs (m_vs m) m = m.
Proof. by destruct m. Qed.

Lemma spec_at {A} (p : prog core A) m m0 (Q : A -> main -> list effect -> Prop) :
  m0 = m -> spec p m0 Q -> spec p m Q.
Proof. by intros ->. Qed.

Lemma refines_StartNewRound rnd m :
  may_start m rnd -> refines ok (StartNewRound rnd) m (fun _ _ => True).
Proof.
  intros Hmay Hm. destruct (inv_round _ _ (inv_rs _ Hm)) as [r Hr].
  unfold StartNewRound. spec_steps. destruct a as [lastProposal last].
  simpl. unfold StartNewRound_decide. spec_steps. rename select (runs c m) into Hc.
  rewrite (runs_rs _ _ Hc). destruct lastProposal as [p|]; [|spec_step; by apply refines_ret].
  destruct (Z.leb_spec (sequence (m_rs m)) (Height p)) as [Hle|Hlt].
  - spec_step. apply spec_modify_aux.
    { intros c' Hc'. split; [|done]. by destruct Hc' as [? ? ? ? ? ? [? ?]]; repeat split. }
    spec_step. simpl. unfold StartNewRound_view. do 11 spec_step.
    eapply (refines_enter _ _ last false (next_height vs p) 0 m _); try done.
    by apply (st_new_height m p vs last).
  - destruct (Height p =? u64 (sequence (m_rs m) - 1)); [|spec_step; by apply refines_ret].
    destruct (big_Cmp_spec rnd 0) as [[? Hz]|[[? Hz]|[? Hz]]]; rewrite Hz; simpl;
      [|spec_step; by apply refines_ret|].
    all: spec_steps; destruct (big_Cmp_spec rnd r) as [[? Hz']|[[? Hz']|[? Hz']]];
      rewrite Hz'; simpl; spec_step; try by apply refines_ret.
    all: unfold StartNewRound_view; cbv iota; do 7 spec_step;
      eapply spec_at; [apply m_set_vs_eta|].
    all: eapply (refines_enter _ _ last true (next_round (m_vs m) rnd (m_rs m)) rnd m _);
      try done; try apply newRoundState_next.
    all: destruct Hmay as [?|(r' & Hr' & Hor & Hq)]; [lia|]; simplify_eq;
      (eapply st_new_round; [eassumption|lia|exact Hor|exact Hq]).
Qed.

(** ** Round changes *)

(** The main state after a round change to [rnd]. *)
Definition after_round_change (m : main) (rnd : Z) : main :=
  m_set_rcs (roundChangeSet_Clear (m_rcs m) rnd)
    (m_set_rs (next_round (m_vs m) rnd (m_rs m)) (m_set_waiting true m)).

(** The vote for round [rnd]. *)
Definition round_vote (m : main) (rnd : Z) : act :=
  ARoundChange (mkSubject (Some (view_of (after_round_change m rnd) rnd)) ZeroHash).

(** [sendRoundChange] moves to a later round and votes for it. *)
Lemma spec_sendRoundChange rnd r m (Q : unit -> main -> list effect -> Prop) :
  main_inv m -> round (m_rs m) = Some r -> r < rnd ->
  (forall es, then_sends (m_id m) (round_vote m rnd) es -> Q tt (after_round_change m rnd) es) ->
  spec (sendRoundChange rnd) m Q.
Proof.
  intros Hm Hr Hlt HQ.
  unfold sendRoundChange. spec_step. rename select (runs c m) into Hc.
  rewrite (currentView_runs c m r Hc Hr). spec_steps.
  destruct (big_Cmp_spec r rnd) as [[_ Hz]|[[? Hz]|[? Hz]]]; [rewrite Hz; simpl|lia..].
  unfold catchUpRound. spec_steps.
  eapply (spec_updateRoundState _ _ true);
    [exact (newRoundState_next (m_set_waiting true m) rnd (m_vs m))|].
  spec_steps. eapply spec_newRoundChangeTimer; [apply next_round_round|].
  spec_step. rename select (runs c1 _) into Hc1.
  change (runs c1 (after_round_change m rnd)) in Hc1.
  rewrite (currentView_runs c1 _ rnd Hc1) by apply next_round_round.
  do 2 spec_step. eapply (spec_announce_subject (round_vote m rnd)); [done|].
  intros es Hes. apply HQ. by eexists [_], es; split; [|split; [repeat constructor|]].
Qed.

Lemma spec_sendNextRoundChange r m (Q : unit -> main -> list effect -> Prop) :
  main_inv m -> round (m_rs m) = Some r ->
  (forall es, then_sends (m_id m) (round_vote m (r + 1)) es -> Q tt (after_round_change m (r + 1)) es) ->
  spec sendNextRoundChange m Q.
Proof.
  intros Hm Hr HQ. unfold sendNextRoundChange. spec_step. rename select (runs c m) into Hc.
  rewrite (currentView_runs c m r Hc Hr). spec_steps. apply (spec_sendRoundChange _ r); [done..|lia|done].
Qed.

Lemma refines_sendRoundChange rnd m :
  refines ok (sendRoundChange rnd) m (fun _ _ => True).
Proof.
  intros Hm. destruct (inv_round _ _ (inv_rs _ Hm)) as [r Hr].
  destruct (Z.lt_ge_cases r rnd) as [Hlt|Hge].
  - apply (spec_sendRoundChange rnd r); [done..|]. intros es Hes. exists [round_vote m rnd].
    split; [apply steps_one; exact (st_catch_up m r rnd Hr Hlt)|]. split; [by apply ok_one|].
    split; [|done]. eapply then_sends_explained; [|exact Hes]. by constructor.
  - unfold sendRoundChange. spec_step. rename select (runs c m) into Hc.
    rewrite (currentView_runs c m r Hc Hr). spec_steps.
    destruct (big_Cmp_spec r rnd) as [[? Hz]|[[? Hz]|[? Hz]]]; [lia|rewrite Hz; simpl..];
      by apply refines_ret.
Qed.

Lemma refines_sendNextRoundChange m : refines ok sendNextRoundChange m (fun _ _ => True).
Proof.
  unfold sendNextRoundChange. ref_step. apply refines_inv. intros Hm.
  destruct (inv_round _ _ (inv_rs _ Hm)) as [r Hr]. rename select (runs c m) into Hc.
  rewrite (currentView_runs c m r Hc Hr). ref_steps. apply refines_sendRoundChange.
Qed.

(** A message that passes [checkMessage]. *)
Lemma checked m r code s q :
  main_inv m -> round (m_rs m) = Some r ->
  check_spec code s q (i64 (sequence (m_rs m))) r (m_waiting m) (m_state m) = None ->
  s = i64 (sequence (m_rs m)) /\ r <= q /\
  (code <> MsgRoundChange -> q = r /\ m_waiting m = false) /\
  (code = MsgPrepare \/ code = MsgCommit -> voting m).
Proof.
  intros Hm Hr. unfold check_spec, voting. pose proof (inv_state _ Hm) as Hst.
  set (cs := i64 (sequence (m_rs m))) in *. clearbody cs.
  change StateAcceptRequest with 0 in *.
  destruct (Z.eqb_spec code MsgRoundChange) as [->|Hcode].
  - destruct (Z.ltb_spec cs s), (Z.ltb_spec s cs), (Z.eqb_spec s cs), (Z.ltb_spec q r);
      try done; try lia; intros _;
      (split; [lia|split; [lia|split; [done|by intros [?|?]]]]).
  - destruct (Z.ltb_spec cs s), (Z.ltb_spec s cs), (Z.eqb_spec s cs), (Z.ltb_spec q r),
      (Z.ltb_spec r q), (m_waiting m); try done; try lia.
    destruct (Z.eqb_spec (m_state m) 0), (Z.ltb_spec MsgPrePrepare code); try done;
      (intros _; split; [lia|split; [lia|split; [intros _; split; [lia|done]|]]];
       intros [Ec|Ec]; unfold MsgPrepare, MsgCommit, MsgPrePrepare in *; split; try done; try lia).
Qed.

Lemma roundChangeSet_Add_num rcs rnd msg num rcs' :
  roundChangeSet_Add rcs rnd msg = ((num, None), rcs') ->
  exists ms, roundChanges rcs' !! big_Uint64 rnd = Some ms /\ num = MessageSet_Size ms.
Proof.
  unfold roundChangeSet_Add. destruct (MessageSet_Add _ msg) as [[e|] ms]; [done|].
  intros [= <- <-]. exists ms. split; [|done]. simpl. by rewrite lookup_insert_eq.
Qed.

Lemma refines_HandleRoundChange msg val m :
  Code msg = MsgRoundChange -> refines ok (HandleRoundChange msg val) m (fun _ _ => True).
Proof.
  intros Hcode. unfold HandleRoundChange.
  destruct (DecodeSubject (Msg msg)) as [rc|] eqn:Hd; [|intros; by ref_steps].
  destruct (DecodeSubject_full _ _ Hd) as (s & q & Hv). rewrite Hv.
  ref_step. apply refines_inv. intros Hm. rename select (runs c m) into Hc.
  destruct (inv_round _ _ (inv_rs _ Hm)) as [r Hr].
  rewrite (checkMessage_full c m r MsgRoundChange s q Hc Hr).
  destruct (check_spec _ s q _ r _ _) eqn:Hck; [by ref_steps|].
  destruct (checked m r _ s q Hm Hr Hck) as (_ & Hle & _ & _).
  ref_steps. rewrite (currentView_runs c m r Hc Hr). ref_steps.
  destruct (roundChangeSet_Add (m_rcs m) q msg) as [[num e] rcs'] eqn:Ha.
  ref_step. apply (refines_step ok _ _ []); [constructor|]. intros _. spec_step.
  split. { replace rcs' with (roundChangeSet_Add (m_rcs m) q msg).2 by by rewrite Ha.
           by apply st_round_vote. }
  split; [constructor|]. set (m1 := m_set_rcs rcs' m).
  destruct e as [e|]; [by ref_steps|]. ref_steps. rewrite (runs_waiting _ _ Hc).
  destruct (roundChangeSet_Add_num _ _ _ _ _ Ha) as (ms & Hms & ->).
  destruct (reachThreshold (m_vs m) (MessageSet_Size ms) && _) eqn:Hreach.
  - ref_step. eapply refines_mono; [apply refines_StartNewRound|intros; by ref_steps].
    apply andb_true_iff in Hreach as [Hth Hor]. right. exists r. split; [done|]. split.
    + apply orb_true_iff in Hor as [Hw|Hlt]; [by left|right].
      destruct (big_Cmp_spec r q) as [[? Hz]|[[? Hz]|[? Hz]]]; rewrite Hz in Hlt; done.
    + by exists ms.
  - destruct (m_waiting m && _).
    + ref_step. apply refines_when; intros; [|intros; by ref_steps].
      eapply refines_mono; [apply refines_sendRoundChange|intros; by ref_steps].
    + destruct (big_Cmp r q <? 0); by ref_steps.
Qed.

(** ** Requests and votes *)

Lemma refines_update_current f m acts (Q : unit -> main -> Prop) :
  step m acts (m_set_rs (f (m_rs m)) m) -> (forall es, Forall (ok es) acts) -> Q tt (m_set_rs (f (m_rs m)) m) ->
  refines ok (update_current f) m Q.
Proof.
  intros Hs Ho HQ. apply (refines_step ok _ _ acts); [done|]. intros _. by apply spec_update_current.
Qed.

Lemma refines_unlock m (Q : unit -> main -> Prop) :
  (forall es, Forall (ok es) (unlocking (m_rs m))) -> Q tt (m_set_rs (UnlockHash (m_rs m)) m) ->
  refines ok (update_current UnlockHash) m Q.
Proof.
  intros Ho HQ Hm. apply spec_update_current. exists (unlocking (m_rs m)).
  split; [apply steps_unlock|]. split; [done|]. by split.
Qed.

Lemma refines_HandleRequest r m :
  is_Some (rq_Proposal r) -> refines ok (HandleRequest r) m (fun _ _ => True).
Proof.
  intros [p Hp]. destruct r as [o]; simpl in Hp; subst o. unfold HandleRequest. ref_steps.
  rename select (runs c m) into Hc. rewrite (checkRequestMsg_runs c m p Hc).
  ref_steps. case_match; [by ref_steps|]. ref_step.
  rewrite (runs_state _ _ Hc), (runs_waiting _ _ Hc).
  destruct (Z.eqb_spec (m_state m) StateAcceptRequest) as [Hst|]; cbn [when andb]; [|by ref_steps].
  eapply refines_update_current; [by apply st_pending|constructor|]. simpl.
  destruct (m_waiting m) eqn:Hw; cbn [when negb]; [by ref_steps|].
  ref_step. eapply refines_mono; [by ref_apply refines_SendPrePrepare|intros; by ref_steps].
Qed.

Lemma spec_commit_vote sub m (Q : unit -> main -> list effect -> Prop) :
  (forall es, sends (m_id m) (ACommit sub) es -> Q tt m es) -> spec (broadcastCommit sub) m Q.
Proof. by apply (spec_announce_subject (ACommit sub)). Qed.

Lemma spec_SendCommit sub m (Q : unit -> main -> list effect -> Prop) :
  roundState_Subject (m_rs m) = Ret (Some sub) -> is_Some (sub_View sub) ->
  (forall es, sends (m_id m) (ACommit sub) es -> Q tt m es) ->
  spec SendCommit m Q.
Proof.
  intros Hs [v Hv] HQ. unfold SendCommit. spec_steps. by apply spec_commit_vote.
Qed.

Lemma spec_SendPrepare sub m (Q : unit -> main -> list effect -> Prop) :
  roundState_Subject (m_rs m) = Ret (Some sub) -> is_Some (sub_View sub) ->
  (forall es, sends (m_id m) (APrepare sub) es -> Q tt m es) ->
  spec SendPrepare m Q.
Proof.
  intros Hs [v Hv] HQ. unfold SendPrepare. spec_steps.
  by apply (spec_announce_subject (APrepare sub)).
Qed.

(** The subject of a round has a full view. *)
Lemma Subject_view rs sub :
  roundState_Subject rs = Ret (Some sub) -> is_Some (sub_View sub).
Proof.
  unfold roundState_Subject. destruct (rs_PrePrepare rs) as [pp|]; [|done].
  destruct (round rs); [|done]. destruct (pp_Proposal pp); [|done]. cbn.
  intros [= <-]. by eexists.
Qed.

Lemma Subject_Ret vs rs : round_inv vs rs -> exists o, roundState_Subject rs = Ret o.
Proof.
  intros H. unfold roundState_Subject. destruct (rs_PrePrepare rs) as [pp|] eqn:Hpp; [|by eexists].
  destruct (inv_round _ _ H) as [r ->]. destruct (inv_proposal _ _ H _ Hpp) as [p ->].
  by eexists.
Qed.

Lemma LockHash_Ret vs rs : round_inv vs rs -> exists rs', LockHash rs = Ret rs'.
Proof.
  intros H. unfold LockHash. destruct (rs_PrePrepare rs) as [pp|] eqn:Hpp; [|by eexists].
  destruct (inv_proposal _ _ H _ Hpp) as [p ->]. by eexists.
Qed.

Lemma LockHash_Subject rs rs' :
  LockHash rs = Ret rs' -> roundState_Subject rs' = roundState_Subject rs.
Proof.
  intros (E1 & E2 & E3 & _)%LockHash_fields. unfold roundState_Subject. by rewrite E1, E2, E3.
Qed.

Lemma spec_LockCurrent m rs' (Q : unit -> main -> list effect -> Prop) :
  LockHash (m_rs m) = Ret rs' -> Q tt (m_set_rs rs' m) [] -> spec LockCurrent m Q.
Proof. intros Hl HQ. unfold LockCurrent. by spec_steps. Qed.

Lemma refines_verifySubject sub m (Q : err -> main -> Prop) :
  (roundState_Subject (m_rs m) = Ret (Some sub) -> Q None m) ->
  Q (Some errInconsistentSubject) m ->
  refines ok (verifySubject sub) m Q.
Proof.
  intros H1 H2. unfold verifySubject. ref_steps. apply refines_inv. intros Hm.
  destruct (Subject_Ret _ _ (inv_rs _ Hm)) as [o Ho]. ref_steps.
  case_bool_decide; ref_steps; [apply H1; congruence|done].
Qed.

Lemma State_Cmp_lt s y : (State_Cmp s y <? 0) = (s <? y).
Proof. unfold State_Cmp. by destruct (s <? y), (y <? s). Qed.

Lemma refines_acceptPrepare msg sub m :
  voting m -> Code msg = MsgPrepare -> DecodeSubject (Msg msg) = Some sub ->
  roundState_Subject (m_rs m) = Ret (Some sub) ->
  refines ok (acceptPrepare msg) m (fun _ m' =>
    m' = m_set_rs (set_Prepares (MessageSet_Add (Prepares (m_rs m)) msg).2 (m_rs m)) m).
Proof.
  intros Hv Hc Hd Hs. unfold acceptPrepare. ref_steps.
  destruct (MessageSet_Add _ msg) as [e ms] eqn:Ha. ref_step.
  apply (refines_update_current _ _ []); [|constructor|by ref_steps].
  replace ms with (MessageSet_Add (Prepares (m_rs m)) msg).2 by by rewrite Ha.
  by eapply st_add_prepare.
Qed.

Lemma refines_acceptCommit msg sub m :
  voting m -> Code msg = MsgCommit -> DecodeSubject (Msg msg) = Some sub ->
  roundState_Subject (m_rs m) = Ret (Some sub) ->
  refines ok (acceptCommit msg) m (fun _ m' =>
    m' = m_set_rs (set_Commits (MessageSet_Add (Commits (m_rs m)) msg).2 (m_rs m)) m).
Proof.
  intros Hv Hc Hd Hs. unfold acceptCommit. ref_steps.
  destruct (MessageSet_Add _ msg) as [e ms] eqn:Ha. ref_step.
  apply (refines_update_current _ _ []); [|constructor|by ref_steps].
  replace ms with (MessageSet_Add (Commits (m_rs m)) msg).2 by by rewrite Ha.
  by eapply st_add_commit.
Qed.

(** Becoming prepared: the lock, the state and the COMMIT vote. *)
Lemma refines_prepared sub m :
  voting m -> m_state m < StatePrepared -> roundState_Subject (m_rs m) = Ret (Some sub) ->
  reachThreshold (m_vs m) (GetPrepareOrCommitSize (m_rs m)) = true \/
    (IsHashLocked (m_rs m) = true /\ Digest sub = lockedHash (m_rs m)) ->
  refines ok (LockCurrent;; setState StatePrepared;; SendCommit) m (fun _ _ => True).
Proof.
  intros Hv Hst Hs Hor. apply refines_inv. intros Hm.
  destruct (LockHash_Ret _ _ (inv_rs _ Hm)) as [rs' Hl].
  assert (Hstep := st_prepared m sub rs' Hv Hst Hs Hor Hl).
  apply (refines_step ok _ _ [ACommit sub]); [intros; by apply ok_one|]. intros _. spec_step.
  eapply spec_LockCurrent; [exact Hl|]. simpl app. spec_step. apply spec_setState.
  { apply LockHash_fields in Hl as (E1 & _). unfold has_round; simpl. rewrite E1. apply Hm. }
  intros es Hes. eapply (spec_SendCommit sub).
  - simpl. by rewrite (LockHash_Subject _ _ Hl).
  - by eapply Subject_view.
  - intros es' Hes'. split; [exact Hstep|]. split; [|done]. simpl. apply Forall_app.
    split; [by apply harmless_explained|]. eapply sends_explained; [|exact Hes']. by constructor.
Qed.

Lemma refines_HandlePrepare msg val m :
  Code msg = MsgPrepare -> refines ok (HandlePrepare msg val) m (fun _ _ => True).
Proof.
  intros Hcode. unfold HandlePrepare.
  destruct (DecodeSubject (Msg msg)) as [sub|] eqn:Hd; [|by ref_steps].
  destruct (DecodeSubject_full _ _ Hd) as (s & q & Hv). rewrite Hv. ref_steps.
  apply refines_inv. intros Hm. rename select (runs c m) into Hc.
  destruct (inv_round _ _ (inv_rs _ Hm)) as [r Hr].
  rewrite (checkMessage_full c m r MsgPrepare s q Hc Hr).
  destruct (check_spec _ s q _ r _ _) eqn:Hck; [by ref_steps|].
  destruct (checked m r _ s q Hm Hr Hck) as (_ & _ & _ & Hvote).
  specialize (Hvote (or_introl eq_refl)). ref_steps.
  apply refines_verifySubject; [intros Hs|by ref_steps]. ref_steps.
  eapply refines_mono; [by eapply refines_acceptPrepare|]. intros ? m1 _ Hm1. cbv beta in Hm1. ref_steps.
  assert (Hvote1 : voting m1) by by rewrite Hm1.
  assert (Hs1 : roundState_Subject (m_rs m1) = Ret (Some sub)) by by rewrite Hm1.
  clear Hm1. clear c Hc. apply refines_mono with (fun (b : bool) m' => m' = m1 /\
    (b = true -> reachThreshold (m_vs m1) (GetPrepareOrCommitSize (m_rs m1)) = true \/
      (IsHashLocked (m_rs m1) = true /\ Digest sub = lockedHash (m_rs m1)))).
  { destruct (IsHashLocked (m_rs m1) && bool_decide _) eqn:Hl.
    - ref_step. split; [done|]. intros _. right. apply andb_true_iff in Hl as [H1 H2].
      by apply bool_decide_eq_true in H2.
    - unfold reachPrepareThreshold. ref_steps. split; [done|]. by left. }
  intros b m2 _ [-> Hb]. ref_steps. rename select (runs c m1) into Hc.
  rewrite State_Cmp_lt, (runs_state _ _ Hc).
  apply refines_when; [|intros; by ref_steps]. intros [-> Hlt]%andb_true_iff.
  apply Z.ltb_lt in Hlt. eapply refines_mono; [by eapply refines_prepared; eauto|].
  intros; by ref_steps.
Qed.

End Rounds.

Section Decisions.
Context `{E : Env, L : !EnvLaws E}.
Context (ok : list effect -> act -> Prop) `{HG : !Grows ok, HA : !Allows ok}.

(** Deciding: the lock, the state, the decision, and a round change when the
    chain refuses the block. *)
Lemma refines_decide m :
  voting m -> m_state m < StateCommitted ->
  reachThreshold (m_vs m) (MessageSet_Size (Commits (m_rs m))) = true ->
  refines ok (LockCurrent;; commit) m (fun _ _ => True).
Proof.
  intros Hv Hst Hth Hm. destruct (inv_round _ _ (inv_rs _ Hm)) as [r Hr].
  destruct (inv_preprepared _ Hm (proj2 Hv) (proj1 Hv)) as [pp Hpp].
  destruct (inv_proposal _ _ (inv_rs _ Hm) _ Hpp) as [p Hp].
  assert (Hprop : roundState_Proposal (m_rs m) = Some p).
  { unfold roundState_Proposal. by rewrite Hpp. }
  destruct (LockHash_Ret _ _ (inv_rs _ Hm)) as [rs' Hl].
  destruct (LockHash_fields _ _ Hl) as (E1 & E2 & E3 & E4 & E5 & _).
  destruct (Subject_Ret _ _ (inv_rs _ Hm)) as [[sub|] Hs].
  2: { unfold roundState_Subject in Hs. rewrite Hpp, Hr, Hp in Hs. done. }
  assert (Hstep := st_decide m p r sub rs' Hv Hr Hst Hprop Hs Hth Hl).
  spec_step. eapply spec_LockCurrent; [exact Hl|]. unfold commit. spec_step.
  apply spec_setState; [unfold has_round; simpl; by rewrite E1, Hr|].
  intros es Hes. do 2 spec_step. simpl m_rs.
  assert (Hprop' : roundState_Proposal rs' = Some p).
  { unfold roundState_Proposal. by rewrite E3, Hpp. }
  rewrite Hprop'. spec_step. spec_step. spec_step. spec_step. rewrite E5.
  match goal with |- spec _ ?m1 (fun b m2 es2 => exists acts, _ /\ _ /\ Forall _ (?es1 ++ ?e :: es2) /\ _) =>
    eapply spec_mono; [apply (refines_resume ok _ m _ m1 (es ++ [e]) (fun _ _ => True) Hm Hstep)|]
  end.
  - by apply ok_one.
  - apply Forall_app. split; [by apply harmless_explained|]. constructor; [|constructor].
    right. eexists. split; [by constructor|]. done.
  - destruct a as [e|]; [|by ref_steps]. ref_step.
    ref_apply refines_unlock; [|ref_apply refines_sendNextRoundChange; typeclasses eauto].
    intros es'. apply unlocking_Forall. intros h. cbv beta. apply allows.
    rename select (answers _ _) into Hw. rewrite E5 in Hw.
    eexists _, _, e. split; [|exact Hw]. rewrite !elem_of_app. left; right. constructor.
  - intros _ m' es' (acts & H1 & Ho & H2 & _). exists acts. rewrite <- app_assoc in H2, Ho. done.
Qed.

Lemma refines_HandleCommit msg val m :
  Code msg = MsgCommit -> refines ok (HandleCommit msg val) m (fun _ _ => True).
Proof.
  intros Hcode. unfold HandleCommit.
  destruct (DecodeSubject (Msg msg)) as [sub|] eqn:Hd; [|by ref_steps].
  destruct (DecodeSubject_full _ _ Hd) as (s & q & Hv). rewrite Hv. ref_steps.
  apply refines_inv. intros Hm. rename select (runs c m) into Hc.
  destruct (inv_round _ _ (inv_rs _ Hm)) as [r Hr].
  rewrite (checkMessage_full c m r MsgCommit s q Hc Hr).
  destruct (check_spec _ s q _ r _ _) eqn:Hck; [by ref_steps|].
  destruct (checked m r _ s q Hm Hr Hck) as (_ & _ & _ & Hvote).
  specialize (Hvote (or_intror eq_refl)). ref_steps.
  ref_apply refines_verifySubject; [intros Hs|by ref_steps]. ref_steps.
  eapply refines_mono; [by ref_apply refines_acceptCommit|]. intros ? m1 _ Hm1. cbv beta in Hm1. ref_step.
  assert (Hvote1 : voting m1) by by rewrite Hm1.
  clear Hm1. clear c Hc. unfold reachCommitThreshold. ref_steps.
  rename select (runs c0 m1) into Hc.
  rewrite State_Cmp_lt, (runs_state _ _ Hc).
  apply refines_when; [|intros; by ref_steps]. intros [Hth Hlt]%andb_true_iff.
  apply Z.ltb_lt in Hlt. eapply refines_mono; [by apply refines_decide|].
  intros; by ref_steps.
Qed.

(** ** Proposals *)

Lemma spec_acceptPrePrepare pp m (Q : unit -> main -> list effect -> Prop) :
  Q tt (m_set_rs (SetPrePrepare (Some pp) (m_rs m)) m) [] -> spec (acceptPrePrepare pp) m Q.
Proof.
  intros HQ. unfold acceptPrePrepare. spec_steps. apply spec_modify_aux; [|by spec_steps].
  intros c Hc. split; [|done]. by destruct Hc as [? ? ? ? ? ? [? ?]]; repeat split.
Qed.

Lemma refines_accept_proposal p r m :
  accepting m -> round (m_rs m) = Some r ->
  refines ok (accept_proposal (mkPrePrepare (Some (view_of m r)) (Some p)) p) m (fun _ _ => True).
Proof.
  intros Hacc Hr. unfold accept_proposal. ref_steps.
  set (pp := mkPrePrepare (Some (view_of m r)) (Some p)).
  set (sub := mkSubject (Some (view_of m r)) (HashOf p)).
  assert (Hs : roundState_Subject (SetPrePrepare (Some pp) (m_rs m)) = Ret (Some sub)).
  { unfold roundState_Subject; simpl. by rewrite Hr. }
  destruct (IsHashLocked (m_rs m)) eqn:Hl.
  - case_bool_decide as Hh; [|ref_apply refines_sendNextRoundChange].
    apply (refines_step ok _ _ [ACommit sub]); [intros; by apply ok_one|]. intros Hm. spec_step.
    apply spec_acceptPrePrepare. spec_step. apply spec_setState; [by exists r|].
    intros es Hes. eapply (spec_SendCommit sub); [exact Hs|by eexists|].
    intros es' Hes'. split; [by eapply st_recommit|]. split; [|done]. simpl. apply Forall_app.
    split; [by apply harmless_explained|]. eapply sends_explained; [|exact Hes']. by constructor.
  - apply (refines_step ok _ _ [APrepare sub]); [intros; by apply ok_one|]. intros Hm. spec_step.
    apply spec_acceptPrePrepare. spec_step. apply spec_setState; [by exists r|].
    intros es Hes. eapply (spec_SendPrepare sub); [exact Hs|by eexists|].
    intros es' Hes'. split; [by eapply st_prepare|]. split; [|done]. simpl. apply Forall_app.
    split; [by apply harmless_explained|]. eapply sends_explained; [|exact Hes']. by constructor.
Qed.

Lemma refines_old_PrePrepare s q p r val m :
  round (m_rs m) = Some r -> view_lt (s, q) (i64 (sequence (m_rs m)), r) ->
  (forall es, answers (be_HasProposal (HashOf p) (Height p)) true ->
     ok es (AOldCommit (mkSubject (Some (full_view s q)) (HashOf p)))) ->
  refines ok (old_PrePrepare (mkPrePrepare (Some (full_view s q)) (Some p)) p val) m
    (fun _ _ => True).
Proof.
  intros Hr Hlt Hold. unfold old_PrePrepare. ref_steps.
  destruct (IsProposer _ _); [|by ref_steps]. ref_step. apply refines_call; [backend_call|]. intros has Hw.
  ref_step. apply refines_when; [|intros; by ref_steps].
  intros ->. apply (refines_step ok _ _ [AOldCommit (mkSubject (Some (full_view s q)) (HashOf p))]).
  { intros es. constructor; [|constructor]. by apply Hold. }
  intros _. apply spec_commit_vote. intros es Hes. split; [by eapply st_old_commit|].
  split; [|by ref_steps]. eapply (sends_explained _ (AOldCommit _)); [|exact Hes]. by constructor.
Qed.

Lemma check_old code s q cs r waiting st :
  check_spec code s q cs r waiting st = Some ErrOldMessage -> view_lt (s, q) (cs, r).
Proof.
  unfold check_spec, view_lt; simpl.
  destruct (code =? MsgRoundChange), (Z.ltb_spec cs s), (Z.ltb_spec s cs), (Z.eqb_spec s cs),
    (Z.ltb_spec q r), (Z.ltb_spec r q),
    (waiting || (st =? StateAcceptRequest) && (MsgPrePrepare <? code)); simpl; try done; lia.
Qed.

Lemma refines_HandlePrePrepare msg val m :
  Code msg = MsgPrePrepare -> (forall s es, old_proposal msg s -> ok es (AOldCommit s)) ->
  refines ok (HandlePrePrepare msg val) m (fun _ _ => True).
Proof.
  intros Hcode Hold. unfold HandlePrePrepare.
  destruct (DecodePrePrepare (Msg msg)) as [pp|] eqn:Hd; [|by ref_steps].
  destruct (DecodePrePrepare_full _ _ Hd) as (s & q & p & Hv & Hp). destruct pp as [ov op].
  simpl in Hv, Hp; subst ov op. ref_steps.
  apply refines_inv. intros Hm. rename select (runs c m) into Hc.
  destruct (inv_round _ _ (inv_rs _ Hm)) as [r Hr].
  cbn [pp_View]. rewrite (checkMessage_full c m r MsgPrePrepare s q Hc Hr).
  destruct (check_spec _ s q _ r _ _) as [e|] eqn:Hck.
  - ref_step. destruct e; try by ref_steps. apply check_old in Hck.
    ref_step. eapply refines_mono; [eapply refines_old_PrePrepare; [done..|]|].
    { intros es Hw. apply Hold. split; [done|]. by exists p. }
    intros [] m' _ _; by ref_steps.
  - destruct (checked m r _ s q Hm Hr Hck) as (-> & _ & Heq & _).
    destruct (Heq ltac:(done)) as [-> Hw]. ref_steps.
    destruct (IsProposer (m_vs m) (ID val)); cbn [negb]; [|by ref_steps]. ref_steps.
    destruct a; [by ref_steps|]. ref_step. rewrite (runs_state _ _ Hc).
    apply refines_when; [|intros; by ref_steps]. intros Hst%Z.eqb_eq.
    eapply refines_mono; [by apply refines_accept_proposal|intros; by ref_steps].
Qed.

(** ** The loop *)

Lemma refines_testBacklog msg val e m : refines ok (testBacklog msg val e) m (fun _ m' => m' = m).
Proof.
  unfold testBacklog. ref_step. apply refines_when; [|intros; by ref_steps]. intros _.
  apply refines_silent. intros _. apply spec_StoreBacklog. split; [done|]. split; [done|].
  by ref_steps.
Qed.

Lemma refines_handleMsg msg val m :
  (forall s es, old_proposal msg s -> ok es (AOldCommit s)) ->
  refines ok (handleMsg msg val) m (fun _ _ => True).
Proof.
  intros Hb. assert (H : forall p : M err, refines ok p m (fun _ _ => True) ->
    refines ok (e ← p; testBacklog msg val e) m (fun _ _ => True)).
  { intros p Hp. ref_step. eapply refines_mono; [exact Hp|]. intros e m' _ _.
    eapply refines_mono; [apply refines_testBacklog|done]. }
  unfold handleMsg.
  destruct (Z.eqb_spec (Code msg) MsgPrePrepare); [by apply H, refines_HandlePrePrepare|].
  destruct (Z.eqb_spec (Code msg) MsgPrepare); [by apply H, refines_HandlePrepare|].
  destruct (Z.eqb_spec (Code msg) MsgCommit); [by apply H, refines_HandleCommit|].
  destruct (Z.eqb_spec (Code msg) MsgRoundChange); [by apply H, refines_HandleRoundChange|].
  by ref_steps.
Qed.

Lemma refines_timeout_catchUp m : refines ok timeout_catchUp m (fun _ _ => True).
Proof.
  unfold timeout_catchUp. ref_steps. destruct (waitingForRoundChange c); [by ref_steps|].
  ref_steps. destruct (roundChangeSet_MaxRound _ _); [|by ref_steps]. ref_steps.
  apply refines_inv. intros Hm. destruct (inv_round _ _ (inv_rs _ Hm)) as [r Hr]. ref_steps.
  destruct (0 <? _); [|by ref_steps]. ref_step.
  eapply refines_mono; [ref_apply refines_sendRoundChange|intros; by ref_steps].
Qed.

Lemma refines_handleTimeoutMsg m :
  (forall es h, ok es (AUnlock h)) -> refines ok handleTimeoutMsg m (fun _ _ => True).
Proof.
  intros Hun. unfold handleTimeoutMsg. ref_step. rename select (runs c m) into Hc.
  rewrite (runs_rs _ _ Hc). ref_step. set (m1 := m_set_rs (UnlockHash (m_rs m)) m).
  apply refines_mono with (fun _ _ => True).
  { intros Hm. apply spec_set_current. exists (unlocking (m_rs m) ++ ([] ++ [])). split.
    - eapply steps_trans; [apply steps_unlock|]. eapply steps_cons; [|constructor].
      exact (st_drop_pending m1).
    - rewrite app_nil_r. split; [|by split]. by apply unlocking_Forall. }
  intros _ m2 _ _. ref_step. eapply refines_mono; [apply refines_timeout_catchUp|].
  intros [] m3 _ _; [by ref_steps|]. ref_steps. destruct a as [[p|] last]; [|ref_apply refines_sendNextRoundChange].
  ref_steps. case_match; [|ref_apply refines_sendNextRoundChange].
  ref_apply refines_StartNewRound. by left.
Qed.

Lemma decodeMsg_runs c m payload :
  runs c m -> exists d, decodeMsg c payload = Ret d.
Proof.
  intros Hc. unfold decodeMsg. destruct (FromPayload _ _); [by eexists|].
  rewrite (runs_vs _ _ Hc). cbn. by case_match; eexists.
Qed.

Lemma refines_knownMessages_Get hash m : refines ok (knownMessages_Get hash) m (fun _ m' => m' = m).
Proof.
  unfold knownMessages_Get. ref_step. destruct (cache_Get _ hash) as [o k]. ref_step.
  apply refines_aux; [|by ref_steps]. intros c' Hc'. split; [|done].
  by destruct Hc' as [? ? ? ? ? ? [? ?]]; repeat split.
Qed.

(** The p2p case up to the forwarding of the message. *)
Lemma spec_handle_p2p data m (Q : unit -> main -> list effect -> Prop) :
  main_inv m -> (forall msg s es, DecodeMessage data = Some msg -> old_proposal msg s -> ok es (AOldCommit s)) ->
  (forall m' es es' acts, steps m acts m' -> Forall (ok es) acts ->
    Forall (explained (m_id m) acts) es -> Forall (is_gossip data) es' -> Q tt m' (es ++ es')) ->
  spec (handle_p2p data) m Q.
Proof.
  intros Hm Hb HQ. assert (HQ0 : Q tt m []).
  { apply (HQ m [] [] []); constructor. }
  unfold handle_p2p. spec_steps. rename select (runs c m) into Hc.
  destruct (decodeMsg_runs c m data Hc) as [d Hdec]. rewrite Hdec. spec_step.
  destruct d as [e|[msg val]]; [by spec_steps|]. apply decodeMsg_carried in Hdec.
  spec_step. apply spec_mark_peer. simpl app. spec_step.
  eapply spec_mono; [exact (refines_knownMessages_Get (Keccak256 data) m Hm)|].
  intros known m1 es1 (acts1 & H1 & O1 & H2 & ->). destruct known as [k|].
  { spec_step. rewrite app_nil_r. rewrite <- (app_nil_r es1). apply (HQ m es1 [] acts1); [done..|constructor]. }
  spec_step. apply spec_modify_aux.
  { intros c' Hc'. split; [|done]. by destruct Hc' as [? ? ? ? ? ? [? ?]]; repeat split. }
  spec_step. eapply spec_mono; [exact (refines_handleMsg msg val m (fun s es => Hb msg s es Hdec) Hm)|].
  intros e m2 es2 (acts2 & H3 & O2 & H4 & _).
  assert (Hall : forall es', Forall (is_gossip data) es' -> Q tt m2 ((es1 ++ es2) ++ es')).
  { intros es'. apply (HQ m2 _ _ (acts1 ++ acts2)); [by eapply steps_trans| |].
    { apply Forall_app. split; (eapply Forall_grows; [done| |eassumption]); set_solver. }
    apply Forall_app; split; (eapply Forall_impl; [eassumption|]);
      intros e0; apply explained_mono; set_solver. }
  destruct e as [e|].
  - spec_step. specialize (Hall []). rewrite app_nil_r in *. apply Hall. constructor.
  - spec_step. apply spec_GossipPayload. intros e es3 Hes3. spec_step.
    specialize (Hall _ Hes3). rewrite <- app_assoc in Hall. by rewrite app_nil_r.
Qed.
End Decisions.
