(* ===== verification/Handlers.v ===== *)
(** * Handlers: what each vote handler returns and does, on every branch

    Functional specifications of [HandlePrePrepare], [HandlePrepare] and
    [HandleCommit]: the error returned, the main state after it, and the
    messages sent ([then_sends]). *)

From S2P Require Import Prelude Types Interfaces MessageSet Quorum RoundState CoreState Backlog Broadcast Round Phases Loop CoreSpec BroadcastSpec BacklogSpec Node Refinement CoreRefinement.

Section Handlers.
Context `{E : Env, L : !EnvLaws E}.

(** The verdict of the checks that the three handlers share, for a subject. *)
Definition vote_verdict (m : main) (cr code : Z) (v : View) : err :=
  match v with
  | mkView (Some s) (Some r) =>
      check_spec code s r (i64 (sequence (m_rs m))) cr (m_waiting m) (m_state m)
  | _ => Some errInvalidMessage
  end.

(** The main state after an accepted PREPARE. *)
Definition after_prepare (m : main) (msg : Message) (sub : Subject) : main :=
  let rs1 := set_Prepares (MessageSet_Add (Prepares (m_rs m)) msg).2 (m_rs m) in
  if ((IsHashLocked rs1 && bool_decide (Digest sub = lockedHash rs1)) ||
      reachThreshold (m_vs m) (GetPrepareOrCommitSize rs1)) && (m_state m <? StatePrepared)
  then m_set_state StatePrepared (m_set_rs (set_lockedHash (Digest sub) rs1) m)
  else m_set_rs rs1 m.

Lemma LockHash_subject rs sub :
  roundState_Subject rs = Ret (Some sub) -> LockHash rs = Ret (set_lockedHash (Digest sub) rs).
Proof.
  unfold roundState_Subject, LockHash. destruct (rs_PrePrepare rs) as [pp|]; [|done].
  destruct (round rs); [|done]. destruct (pp_Proposal pp); [|done]. by intros [= <-].
Qed.

(** The current view is neither old nor in the future for a voting node. *)
Lemma vote_verdict_current m cr sub code :
  main_inv m -> round (m_rs m) = Some cr -> voting m -> code <> MsgRoundChange ->
  roundState_Subject (m_rs m) = Ret (Some sub) ->
  exists v, sub_View sub = Some v /\ vote_verdict m cr code v = None.
Proof.
  intros Hm Hr [Hw Hst] Hcode Hs. unfold roundState_Subject in Hs.
  destruct (rs_PrePrepare (m_rs m)) as [pp|]; [|done]. rewrite Hr in Hs. cbn in Hs.
  destruct (pp_Proposal pp); [|done]. injection Hs as <-. eexists. split; [done|].
  unfold vote_verdict, check_spec. rewrite !Z.ltb_irrefl, Z.eqb_refl, Hw. cbn [orb andb].
  destruct (Z.eqb_spec code MsgRoundChange); [done|].
  destruct (Z.eqb_spec (m_state m) StateAcceptRequest); [|done]. unfold StateAcceptRequest in *. lia.
Qed.

Lemma checkMessage_verdict c m cr code msg sub v :
  runs c m -> round (m_rs m) = Some cr -> DecodeSubject (Msg msg) = Some sub ->
  sub_View sub = Some v -> checkMessage c code (Some v) = Ret (vote_verdict m cr code v).
Proof.
  intros Hc Hr Hd Hv. destruct (DecodeSubject_full _ _ Hd) as (q & r & Hv').
  rewrite Hv in Hv'. simplify_eq. by apply checkMessage_full.
Qed.

(** The subject of the round, when there is one. *)
Definition current_subject (m : main) : option Subject :=
  match roundState_Subject (m_rs m) with Ret o => o | Fail _ => None end.

Lemma current_subject_Ret m :
  main_inv m -> roundState_Subject (m_rs m) = Ret (current_subject m).
Proof.
  intros Hm. destruct (Subject_Ret _ _ (inv_rs _ Hm)) as [o Ho]. unfold current_subject.
  by rewrite Ho.
Qed.

Lemma Subject_proposal m sub :
  roundState_Subject (m_rs m) = Ret (Some sub) ->
  exists p, roundState_Proposal (m_rs m) = Some p /\ HashOf p = Digest sub.
Proof.
  unfold roundState_Subject, roundState_Proposal.
  destruct (rs_PrePrepare (m_rs m)) as [pp|]; [|done]. destruct (round (m_rs m)); [|done].
  destruct (pp_Proposal pp) as [p|]; [|done]. intros [= <-]. by exists p.
Qed.

(** The error of a vote handler, before the vote is counted. *)
Definition vote_error (m : main) (cr code : Z) (undecoded : error) (msg : Message) : err :=
  match DecodeSubject (Msg msg) with
  | None => Some undecoded
  | Some sub =>
      match sub_View sub ≫= (fun v => vote_verdict m cr code v) with
      | Some e => Some e
      | None => if bool_decide (Some sub = current_subject m) then None
                else Some errInconsistentSubject
      end
  end.

(** The common beginning of [HandlePrepare] and [HandleCommit]: the message is
    refused with [vote_error], or its subject is the current one and [rest]
    counts it. *)
Lemma spec_vote_handler code undecoded (rest : Subject -> M err) m cr msg
    (Q : err -> main -> list effect -> Prop) :
  main_inv m -> round (m_rs m) = Some cr ->
  (forall e, vote_error m cr code undecoded msg = Some e -> Q (Some e) m []) ->
  (forall sub s q, vote_error m cr code undecoded msg = None ->
    DecodeSubject (Msg msg) = Some sub -> sub_View sub = Some (full_view s q) ->
    vote_verdict m cr code (full_view s q) = None -> current_subject m = Some sub ->
    roundState_Subject (m_rs m) = Ret (Some sub) -> spec (rest sub) m Q) ->
  spec (match DecodeSubject (Msg msg) with
        | None => mret (Some undecoded)
        | Some sub =>
            _ ← load (sub_View sub);
            c ← get_state;
            e ← lift (checkMessage c code (sub_View sub));
            match e with
            | Some e => mret (Some e)
            | None =>
                e ← verifySubject sub;
                match e with Some e => mret (Some e) | None => rest sub end
            end
        end) m Q.
Proof.
  intros Hm Hr Herr Hrest. unfold vote_error in *.
  destruct (DecodeSubject (Msg msg)) as [sub|] eqn:Hd; [|spec_step; by apply Herr].
  destruct (DecodeSubject_full _ _ Hd) as (s & q & Hv). rewrite Hv in *. spec_steps.
  rename select (runs c m) into Hc.
  rewrite (checkMessage_verdict c m cr _ msg sub _ Hc Hr Hd Hv). spec_steps.
  change (Some (full_view s q) ≫= (fun v => vote_verdict m cr code v))
    with (vote_verdict m cr code (full_view s q)) in *.
  destruct (vote_verdict m cr code _) as [e|] eqn:Hck; [spec_step; by apply Herr|].
  pose proof (current_subject_Ret m Hm) as Hcs. unfold verifySubject. spec_steps.
  destruct (bool_decide (Some sub = current_subject m)) eqn:Hb; spec_steps; [|by apply Herr].
  apply bool_decide_eq_true in Hb. rewrite <- Hb in Hcs. by eapply Hrest.
Qed.

(** The outcome of a PREPARE message. *)
Definition prepare_outcome (m : main) (cr : Z) (msg : Message) (e : err) (m' : main)
    (es : list effect) : Prop :=
  e = vote_error m cr MsgPrepare errFailedDecodePrepare msg /\
  match e with
  | Some _ => m' = m /\ es = []
  | None => exists sub, current_subject m = Some sub /\
      m' = after_prepare m msg sub /\
      if m_state m <? m_state m' then then_sends (m_id m) (ACommit sub) es else es = []
  end.

Lemma spec_HandlePrepare m cr msg val :
  main_inv m -> round (m_rs m) = Some cr ->
  spec (HandlePrepare msg val) m (prepare_outcome m cr msg).
Proof.
  intros Hm Hr.
  apply spec_vote_handler with (cr := cr); [done|done|by intros e He|].
  intros sub s q Herr Hd Hv Hck Hcur Hcs. unfold prepare_outcome. rewrite Herr, Hcur.
  unfold acceptPrepare. spec_steps.
  destruct (MessageSet_Add (Prepares (m_rs m)) msg) as [e ms] eqn:Ha. spec_steps.
  assert (Hms : ms = (MessageSet_Add (Prepares (m_rs m)) msg).2) by by rewrite Ha.
  pose proof (eq_refl (after_prepare m msg sub)) as Hafter. unfold after_prepare at 2 in Hafter.
  rewrite <- Hms in Hafter. clear Ha Hms. cbv zeta in Hafter.
  set (rs1 := set_Prepares ms (m_rs m)) in *. set (m1 := m_set_rs rs1 m) in *.
  apply spec_mono with (fun b m' es => m' = m1 /\ es = [] /\
    b = ((IsHashLocked rs1 && bool_decide (Digest sub = lockedHash rs1)) ||
      reachThreshold (m_vs m) (GetPrepareOrCommitSize rs1))).
  { change (m_rs m1) with rs1. unfold GetLockedHash.
    destruct (IsHashLocked rs1 && bool_decide (Digest sub = lockedHash rs1)); [by spec_steps|].
    unfold reachPrepareThreshold. by spec_steps. }
  intros b m' es (-> & -> & ->). simpl app. spec_steps.
  rename select (runs _ m1) into Hc0. rewrite State_Cmp_lt, (runs_state _ _ Hc0).
  change (m_state m1) with (m_state m).
  apply spec_when; intros Hb; rewrite Hb in Hafter.
  - apply andb_true_iff in Hb as [_ Hlt].
    spec_step. eapply spec_LockCurrent; [by apply LockHash_subject|]. spec_step.
    apply spec_setState; [by exists cr|]. intros es Hes.
    eapply (spec_SendCommit sub); [done|by rewrite Hv|]. intros es' Hes'. spec_steps.
    split; [done|]. exists sub. split; [done|]. split; [by rewrite Hafter|].
    match goal with |- context [m_state m <? m_state ?x] =>
      change (m_state x) with StatePrepared end. rewrite Hlt, app_nil_r. by exists es, es'.
  - spec_steps. split; [done|]. exists sub. split; [done|]. split; [by rewrite Hafter|].
    match goal with |- context [m_state m <? m_state ?x] => change (m_state x) with (m_state m) end.
    by rewrite Z.ltb_irrefl.
Qed.

(** C21. [HandlePrepare] on every branch: an undecodable, old, future or
    inconsistent message is refused with its error and changes nothing; any
    other is counted, and when the PREPARE and COMMIT voters now reach the
    threshold (or the node is locked on this block) and the node is not yet
    prepared, it locks the block, becomes prepared and sends its COMMIT (unless
    the backend cannot sign it or the codec cannot encode it).  It returns,
    unless the backend panicked. *)
Theorem HandlePrepare_correct c m cr msg val :
  runs c m -> main_inv m -> round (m_rs m) = Some cr ->
  wp (HandlePrepare msg val) c (fun e c' => exists m' es,
    runs c' m' /\ trace c' = trace c ++ es /\ prepare_outcome m cr msg e m' es).
Proof. intros Hc Hm Hr. by apply spec_HandlePrepare. Qed.

(** The main state after an accepted COMMIT, when the chain takes the block. *)
Definition commit_quorum (m : main) (msg : Message) : bool :=
  reachThreshold (m_vs m) (MessageSet_Size (MessageSet_Add (Commits (m_rs m)) msg).2)
  && (m_state m <? StateCommitted).

Definition after_commit (m : main) (msg : Message) (sub : Subject) : main :=
  let rs1 := set_Commits (MessageSet_Add (Commits (m_rs m)) msg).2 (m_rs m) in
  if commit_quorum m msg
  then m_set_state StateCommitted (m_set_rs (set_lockedHash (Digest sub) rs1) m)
  else m_set_rs rs1 m.

(** What deciding a block does: the block and the seals go to the chain.  If
    the chain takes them that is all; if it refuses, the node drops the lock
    and votes for the next round. *)
Definition decided (m : main) (cr : Z) (sub : Subject) (seals : list (option SignResult))
    (m_done m' : main) (es : list effect) : Prop :=
  exists p answer pre post,
    roundState_Proposal (m_rs m) = Some p /\ HashOf p = Digest sub /\
    es = pre ++ ECommit p seals :: post /\ Forall harmless pre /\
    answers (be_Commit p seals) answer /\
    match answer with
    | None => post = [] /\ m' = m_done
    | Some why =>
        let m0 := m_set_rs (UnlockHash (m_rs m_done)) m_done in
        m' = after_round_change m0 (cr + 1) /\
        then_sends (m_id m) (round_vote m0 (cr + 1)) post
    end.

(** [LockHash] and [commit] at a quorum of COMMITs. *)
Lemma spec_decide m cr sub (Q : unit -> main -> list effect -> Prop) :
  main_inv m -> round (m_rs m) = Some cr -> voting m -> m_state m < StateCommitted ->
  reachThreshold (m_vs m) (MessageSet_Size (Commits (m_rs m))) = true ->
  roundState_Subject (m_rs m) = Ret (Some sub) ->
  (forall m' es, decided m cr sub (CommittedSeal <$> MessageSet_Values (Commits (m_rs m)))
      (m_set_state StateCommitted (m_set_rs (set_lockedHash (Digest sub) (m_rs m)) m)) m' es ->
    Q tt m' es) ->
  spec (LockCurrent;; commit) m Q.
Proof.
  intros Hm Hr Hvt Hlt Hth Hcs HQ. destruct (Subject_proposal m sub Hcs) as (p & Hp & Hh).
  spec_step. eapply spec_LockCurrent; [by apply LockHash_subject|].
  unfold commit. spec_step. apply spec_setState; [by exists cr|]. intros es Hes.
  spec_step. spec_step.
  match goal with |- spec _ ?x _ => set (m2 := x) in * end.
  change (roundState_Proposal (m_rs m2)) with (roundState_Proposal (m_rs m)).
  change (Commits (m_rs m2)) with (Commits (m_rs m)). rewrite Hp.
  set (seals := CommittedSeal <$> MessageSet_Values (Commits (m_rs m))) in *. do 4 spec_step.
  rename select (answers _ _) into Hw. destruct a as [why|].
  - assert (Hm2 : main_inv m2).
    { apply (step_inv m [ADecide (view_of m cr) p seals]); [|done].
      by apply (st_decide m p cr sub _ Hvt Hr Hlt Hp Hcs Hth), LockHash_subject. }
    do 2 spec_step. apply (spec_sendNextRoundChange cr); [|exact Hr|].
    { by apply (steps_inv _ _ _ (steps_unlock m2)). }
    intros es3 Hes3. apply HQ. exists p, (Some why), es, es3. repeat (split; [done|]). done.
  - spec_steps. apply HQ. exists p, None, es, [].
    split; [done|]. split; [done|]. split; [by rewrite ?app_nil_r|]. done.
Qed.

(** The outcome of a COMMIT message. *)
Definition commit_outcome (m : main) (cr : Z) (msg : Message) (e : err) (m' : main)
    (es : list effect) : Prop :=
  e = vote_error m cr MsgCommit errFailedDecodeCommit msg /\
  match e with
  | Some _ => m' = m /\ es = []
  | None => exists sub, current_subject m = Some sub /\
      if commit_quorum m msg
      then decided m cr sub (CommittedSeal <$>
             MessageSet_Values (MessageSet_Add (Commits (m_rs m)) msg).2) (after_commit m msg sub) m' es
      else m' = after_commit m msg sub /\ es = []
  end.

Lemma spec_HandleCommit m cr msg val :
  main_inv m -> round (m_rs m) = Some cr -> Code msg = MsgCommit ->
  spec (HandleCommit msg val) m (commit_outcome m cr msg).
Proof.
  intros Hm Hr Hcode.
  apply spec_vote_handler with (cr := cr); [done|done|by intros e He|].
  intros sub s q Herr Hd Hv Hck Hcur Hcs. unfold commit_outcome. rewrite Herr, Hcur.
  destruct (checked m cr MsgCommit s q Hm Hr Hck) as (_ & _ & _ & Hvote).
  specialize (Hvote (or_intror eq_refl)).
  assert (Hstep := st_add_commit m msg sub Hvote Hcode Hd Hcs).
  unfold acceptCommit. spec_steps. unfold after_commit, commit_quorum.
  destruct (MessageSet_Add (Commits (m_rs m)) msg) as [e ms] eqn:Ha. spec_steps.
  cbn [snd] in *. set (m1 := m_set_rs (set_Commits ms (m_rs m)) m) in *.
  assert (Hm1 : main_inv m1) by by eapply step_inv.
  unfold reachCommitThreshold. spec_steps.
  rename select (runs c0 m1) into Hc1. rewrite State_Cmp_lt, (runs_state _ _ Hc1).
  change (m_state m1) with (m_state m). change (m_vs m1) with (m_vs m).
  change (Commits (m_rs m1)) with ms.
  apply spec_when; intros Hb; rewrite Hb; [|spec_steps; split; [done|]; by exists sub].
  apply andb_true_iff in Hb as [Hth Hlt]. apply Z.ltb_lt in Hlt.
  eapply spec_decide; [done|exact Hr|exact Hvote|done|done|exact Hcs|].
  intros m' es Hdec. spec_steps. rewrite app_nil_r. split; [done|]. by exists sub.
Qed.

(** C22. [HandleCommit] on every branch: an undecodable, old, future or
    inconsistent message is refused with its error and changes nothing; any
    other is counted, and when the COMMIT voters now reach the threshold and
    the node has not committed yet, it locks the block, becomes committed
    and hands the block with the seals of all counted COMMIT messages to the
    chain; only if the chain refuses it does the node drop the lock again and
    vote for the next round.  It returns, unless the backend panicked. *)
Theorem HandleCommit_correct c m cr msg val :
  runs c m -> main_inv m -> round (m_rs m) = Some cr -> Code msg = MsgCommit ->
  wp (HandleCommit msg val) c (fun e c' => exists m' es,
    runs c' m' /\ trace c' = trace c ++ es /\ commit_outcome m cr msg e m' es).
Proof. intros Hc Hm Hr Hcode. by apply spec_HandleCommit. Qed.

(** The main state after an accepted proposal of the current round. *)
Definition after_proposal (m : main) (cr : Z) (p : Proposal) (s : State) : main :=
  m_set_state s
    (m_set_rs (SetPrePrepare (Some (mkPrePrepare (Some (view_of m cr)) (Some p))) (m_rs m)) m).

(** The outcome of a proposal for the current view from [val], given the
    answer of [backend.Verify]. *)
Definition proposal_outcome (m : main) (cr : Z) (p : Proposal) (val : Validator)
    (verify : option string) (e : err) (m' : main) (es : list effect) : Prop :=
  let sub := mkSubject (Some (view_of m cr)) (HashOf p) in
  if negb (IsProposer (m_vs m) (ID val))
  then e = Some errNotFromProposer /\ m' = m /\ es = []
  else match verify with
  | Some why => e = Some (ErrOther why) /\ m' = m /\ es = []
  | None =>
      e = None /\
      if negb (m_state m =? StateAcceptRequest) then m' = m /\ es = []
      else if negb (IsHashLocked (m_rs m)) then
        m' = after_proposal m cr p StatePrePrepared /\ then_sends (m_id m) (APrepare sub) es
      else if bool_decide (HashOf p = lockedHash (m_rs m)) then
        m' = after_proposal m cr p StatePrepared /\ then_sends (m_id m) (ACommit sub) es
      else
        m' = after_round_change m (cr + 1) /\ then_sends (m_id m) (round_vote m (cr + 1)) es
  end.

Lemma proposal_outcome_fresh m cr p val e m' es :
  proposal_outcome m cr p val None e m' es ->
  IsProposer (m_vs m) (ID val) = true -> (m_state m =? StateAcceptRequest) = true ->
  IsHashLocked (m_rs m) = false ->
  e = None /\ m' = after_proposal m cr p StatePrePrepared.
Proof. intros H H1 H2 H3. unfold proposal_outcome in H. rewrite H1, H2, H3 in H.
  destruct H as (? & ? & _). done. Qed.

Lemma spec_accept_proposal m cr p val :
  main_inv m -> round (m_rs m) = Some cr -> IsProposer (m_vs m) (ID val) = true ->
  m_state m = StateAcceptRequest ->
  spec (accept_proposal (mkPrePrepare (Some (view_of m cr)) (Some p)) p) m
    (fun _ m' es => proposal_outcome m cr p val None None m' es).
Proof.
  intros Hm Hr Hprop Hst. unfold accept_proposal, proposal_outcome. rewrite Hprop, Hst.
  cbn [negb]. rewrite Z.eqb_refl. cbn [negb]. spec_steps.
  set (pp := mkPrePrepare (Some (view_of m cr)) (Some p)).
  set (sub := mkSubject (Some (view_of m cr)) (HashOf p)).
  assert (Hs : roundState_Subject (SetPrePrepare (Some pp) (m_rs m)) = Ret (Some sub)).
  { unfold roundState_Subject; simpl. by rewrite Hr. }
  destruct (IsHashLocked (m_rs m)) eqn:Hl; cbn [negb].
  - unfold GetLockedHash. case_bool_decide as Hh.
    + spec_step. apply spec_acceptPrePrepare. spec_step. apply spec_setState; [by exists cr|].
      intros es Hes. eapply (spec_SendCommit sub); [exact Hs|by eexists|].
      intros es' Hes'. split; [done|]. split; [done|]. by exists es, es'.
    + apply (spec_sendNextRoundChange cr); [done..|]. intros es Hes. done.
  - spec_step. apply spec_acceptPrePrepare. spec_step. apply spec_setState; [by exists cr|].
    intros es Hes. eapply (spec_SendPrepare sub); [exact Hs|by eexists|].
    intros es' Hes'. split; [done|]. split; [done|]. by exists es, es'.
Qed.

(** The answer of [backend.Verify] in a world. *)
Definition verdict (p : Proposal) (w : World) : option string :=
  match be_Verify p w with Ret (answer, _) => answer | Fail _ => None end.

Lemma wp_HandlePrePrepare c m cr msg val p :
  runs c m -> main_inv m -> round (m_rs m) = Some cr -> m_waiting m = false ->
  DecodePrePrepare (Msg msg) = Some (mkPrePrepare (Some (view_of m cr)) (Some p)) ->
  wp (HandlePrePrepare msg val) c (fun e c' => exists m' es, runs c' m' /\
    trace c' = trace c ++ es /\ proposal_outcome m cr p val (verdict p (world c)) e m' es).
Proof.
  intros Hc Hm Hr Hw Hd.
  assert (Hck : checkMessage c MsgPrePrepare (Some (view_of m cr)) = Ret None).
  { unfold view_of. rewrite (checkMessage_full c m cr _ _ _ Hc Hr). f_equal. unfold check_spec.
    rewrite !Z.ltb_irrefl, Z.eqb_refl, Hw. cbn. by rewrite andb_false_r. }
  unfold HandlePrePrepare. rewrite Hd. cbn [pp_Proposal pp_View]. wp_steps.
  cbv iota. wp_step. eapply wp_load; [apply Hc|].
  destruct (IsProposer (m_vs m) (ID val)) eqn:Hprop; cbn [negb].
  2: { wp_steps. exists m, []. rewrite app_nil_r. unfold proposal_outcome. by rewrite Hprop. }
  wp_step. apply wp_call; [backend_call|]. intros answer w Ev.
  unfold verdict. rewrite Ev. assert (Hc1 : runs (set_world w c) m) by by apply runs_set_world.
  destruct answer as [why|].
  { wp_steps. exists m, []. rewrite app_nil_r. unfold proposal_outcome. by rewrite Hprop. }
  assert (Hs : spec (when (m_state m =? StateAcceptRequest)
      (accept_proposal (mkPrePrepare (Some (view_of m cr)) (Some p)) p);; mret None) m
    (fun e m' es => proposal_outcome m cr p val None e m' es)).
  { spec_step. apply spec_when; intros Hst.
    - apply Z.eqb_eq in Hst. eapply spec_mono; [by apply spec_accept_proposal|].
      intros [] m' es Ho. spec_steps. by rewrite app_nil_r.
    - spec_steps. unfold proposal_outcome. by rewrite Hprop, Hst. }
  rewrite <- (runs_state _ _ Hc) in Hs. exact (Hs _ Hc1).
Qed.

(** C20. [HandlePrePrepare] of a proposal for the current view, on every
    branch: a sender that is not the proposer and a block that the backend
    does not verify are refused and change nothing; a proposal that comes
    after the first one is ignored; the first one is accepted with a PREPARE
    when the node is not locked, with a COMMIT when it is locked on this
    block, and answered with a round change when it is locked on another.  The
    message is sent, unless the backend cannot sign it or the codec cannot
    encode it; and the handler returns, unless the backend panicked. *)
Theorem HandlePrePrepare_correct c m cr msg val p :
  runs c m -> main_inv m -> round (m_rs m) = Some cr -> m_waiting m = false ->
  DecodePrePrepare (Msg msg) = Some (mkPrePrepare (Some (view_of m cr)) (Some p)) ->
  wp (HandlePrePrepare msg val) c (fun e c' => exists m' es, runs c' m' /\
    trace c' = trace c ++ es /\ proposal_outcome m cr p val (verdict p (world c)) e m' es).
Proof. apply wp_HandlePrePrepare. Qed.
End Handlers.
