(* ===== verification/Safety.v ===== *)
(** * Safety: the votes of one validator, and agreement in a view

    Consequences of the abstract protocol of [Node]: along any run the view
    never goes back, the votes of a validator in its own rounds are ordered and
    never contradict each other within a view (COMMITs for old blocks may), a
    decision carries a quorum of COMMIT votes, and
    two validators that decide in the same view decide the same block; in
    different views of a height they do if the correct validators whose votes
    they count have dropped no lock at it. *)

From S2P Require Import Prelude Types Interfaces MessageSet Quorum RoundState CoreState Backlog Broadcast Round Phases Loop CoreSpec BroadcastSpec BacklogSpec Node.

Section Safety.
Context `{E : Env, L : !EnvLaws E}.

(** ** The view *)

(** The pair of sequence and round, the round of an invariant state being set. *)
Definition at_view (m : main) (v : Z * Z) : Prop :=
  sequence (m_rs m) = v.1 /\ round (m_rs m) = Some v.2.

Definition pair_of (v : View) : option (Z * Z) :=
  match v with mkView (Some s) (Some r) => Some (s, r) | _ => None end.

Lemma at_view_view_of m v r :
  main_inv m -> at_view m v -> round (m_rs m) = Some r -> pair_of (view_of m r) = Some v.
Proof.
  intros Hm [Hs Hr] Hr'. unfold view_of, full_view; simpl.
  rewrite i64_small by apply (inv_seq _ Hm). destruct v; simpl in *; congruence.
Qed.

Lemma at_view_exists m : main_inv m -> exists v, at_view m v.
Proof.
  intros Hm. destruct (inv_round _ _ (inv_rs _ Hm)) as [r Hr].
  by exists (sequence (m_rs m), r).
Qed.

Lemma at_view_eq m v w : at_view m v -> at_view m w -> v = w.
Proof. destruct v, w. intros [H1 H2] [H3 H4]. simpl in *. congruence. Qed.

Lemma step_view m a m' v w :
  main_inv m -> step m a m' -> at_view m v -> at_view m' w -> view_le v w.
Proof.
  intros Hm Hs Hv Hw. pose proof (inv_seq _ Hm) as Hseq.
  assert (Hkeep : sequence (m_rs m') = sequence (m_rs m) -> round (m_rs m') = round (m_rs m) ->
    view_le v w).
  { intros H1 H2. right. destruct v, w, Hv, Hw; simpl in *. congruence. }
  destruct v as [s r], w as [s' r'], Hv as [Hv1 Hv2], Hw as [Hw1 Hw2]; simpl in *.
  destruct Hs; try (by apply Hkeep); simpl in *.
  - apply LockHash_fields in H3 as (E1 & E2 & _). by apply Hkeep.
  - apply LockHash_fields in H5 as (E1 & E2 & _). by apply Hkeep.
  - rewrite next_round_sequence in Hw1 by done. rewrite next_round_round in Hw2.
    left. right. simpl. simplify_eq. split; [done|lia].
  - rewrite next_round_sequence in Hw1 by done. rewrite next_round_round in Hw2. simplify_eq.
    destruct H1 as [[? ?]|?]; [|left; right; simpl; lia].
    destruct (decide (r0 = r')) as [->|]; [by right|left; right; simpl; lia].
  - left. left. simpl. rewrite <- Hw1. change (s < sequence (next_height vs p)).
    rewrite next_height_sequence. lia.
Qed.

(** Along every run of the protocol the view (sequence, round) of a
    validator never decreases. *)
Theorem view_never_decreases m acts m' v w :
  main_inv m -> steps m acts m' -> at_view m v -> at_view m' w -> view_le v w.
Proof.
  intros Hm Hs. revert v. induction Hs as [m|m1 m2 m3 a1 a2 H1 _ IH]; intros v Hv Hw.
  - right. by eapply at_view_eq.
  - assert (Hm2 : main_inv m2) by by eapply step_inv.
    destruct (at_view_exists m2 Hm2) as [u Hu].
    transitivity u; [exact (step_view m1 a1 m2 v u Hm H1 Hv Hu)|by apply IH].
Qed.

(** ** The votes *)

(** A vote of the node's own round: its view, its phase and its digest.  The
    COMMIT with which a node answers the proposal of a block that the chain
    already has ([AOldCommit]) is not one: it is for a round of the past, takes
    no account of what the node voted for then, and may contradict it. *)
Definition vote : Type := (Z * Z) * Z * Hash.

Definition vote_of (a : act) : option vote :=
  match a with
  | APrepare s => v ← sub_View s ≫= pair_of; Some (v, StatePrePrepared, Digest s)
  | ACommit s => v ← sub_View s ≫= pair_of; Some (v, StatePrepared, Digest s)
  | ADecide v p _ => v ← pair_of v; Some (v, StateCommitted, HashOf p)
  | _ => None
  end.

Definition is_vote (a : act) : Prop :=
  match a with APrepare _ | ACommit _ | ADecide _ _ _ => True | _ => False end.

(** Later votes are for a later view, or for a later phase of the same view
    and then for the same block. *)
Definition vote_lt (x y : vote) : Prop :=
  view_lt x.1.1 y.1.1 \/ (x.1.1 = y.1.1 /\ x.1.2 < y.1.2 /\ x.2 = y.2).

(** [m] is past the vote [x]. *)
Definition past (m : main) (x : vote) : Prop :=
  exists v, at_view m v /\
    (view_lt x.1.1 v \/
     (x.1.1 = v /\ m_waiting m = false /\ StatePrePrepared <= x.1.2 <= m_state m /\
      exists p, roundState_Proposal (m_rs m) = Some p /\ HashOf p = x.2)).

Lemma Subject_Some m sub v :
  main_inv m -> at_view m v -> roundState_Subject (m_rs m) = Ret (Some sub) ->
  sub_View sub ≫= pair_of = Some v /\
  exists p, roundState_Proposal (m_rs m) = Some p /\ HashOf p = Digest sub.
Proof.
  intros Hm [Hs Hr]. unfold roundState_Subject, roundState_Proposal.
  destruct (rs_PrePrepare (m_rs m)) as [pp|]; [|done]. rewrite Hr. cbn.
  destruct (pp_Proposal pp) as [p|]; [|done]. cbn. intros [= <-]; simpl.
  rewrite i64_small by apply (inv_seq _ Hm). split; [|by exists p].
  destruct v; simpl in *; congruence.
Qed.

(** The vote of an action on a subject. *)
Lemma vote_of_subject sub v :
  sub_View sub ≫= pair_of = Some v ->
  vote_of (APrepare sub) = Some (v, StatePrePrepared, Digest sub) /\
  vote_of (ACommit sub) = Some (v, StatePrepared, Digest sub).
Proof. intros H. unfold vote_of. by rewrite H. Qed.

(** A vote of a step is past afterwards. *)
Lemma step_votes m a m' :
  main_inv m -> step m a m' ->
  Forall (fun b => is_vote b -> exists x, vote_of b = Some x /\ past m' x) a.
Proof.
  intros Hm Hs. destruct (at_view_exists m Hm) as [v Hv].
  destruct Hs as [| |p r H H0|p r H H0|?|sub rs' H H0 H1 H2 H3|?|p r sub rs' H H0 H1 H2 H3 H4 H5
    | | | | | | |]; repeat constructor; try done; intros _.
  - destruct H as [Hw Hst]. pose proof (at_view_view_of m v r Hm Hv H0) as Hp.
    eexists. split; [by apply vote_of_subject|]. exists v. split; [done|]. right. simpl.
    split; [done|]. split; [done|]. split; [done|]. by exists p.
  - destruct H as [Hw Hst]. pose proof (at_view_view_of m v r Hm Hv H0) as Hp.
    eexists. split; [by apply vote_of_subject|]. exists v. split; [done|]. right. simpl.
    split; [done|]. split; [done|]. split; [done|]. by exists p.
  - destruct H as [Hw Hst]. destruct (Subject_Some m sub v Hm Hv H1) as [Hp (p & H5 & H6)].
    eexists. split; [by apply vote_of_subject|].
    apply LockHash_fields in H3 as (E1 & E2 & E3 & _).
    exists v. split; [destruct Hv; split; simpl; congruence|]. right. simpl.
    split; [done|]. split; [done|]. split; [done|]. exists p.
    unfold roundState_Proposal in *. by rewrite E3.
  - destruct H as [Hw Hst]. cbn [vote_of]. rewrite (at_view_view_of m v r Hm Hv H0).
    eexists. split; [done|]. apply LockHash_fields in H5 as (E1 & E2 & E3 & _).
    exists v. split; [destruct Hv; split; simpl; congruence|]. right. simpl.
    split; [done|]. split; [done|]. split; [done|]. exists p.
    unfold roundState_Proposal in *. by rewrite E3.
Qed.

Lemma step_single m a m' : step m a m' -> a = [] \/ exists b, a = [b].
Proof. destruct 1; eauto. Qed.

(** What is past stays past. *)
Lemma step_past m a m' x : main_inv m -> step m a m' -> past m x -> past m' x.
Proof.
  intros Hm Hs (v & Hv & Hor).
  assert (Hm' : main_inv m') by by eapply step_inv.
  destruct (at_view_exists m' Hm') as [w Hw].
  destruct (step_view m a m' v w Hm Hs Hv Hw) as [Hlt|<-].
  { exists w. split; [done|]. left. destruct Hor as [Hlt'|[-> _]]; [|done].
    revert Hlt Hlt'. unfold view_lt. lia. }
  exists v. split; [done|]. destruct Hor as [Hlt|(Hx & Hw0 & [Hk1 Hk2] & p & Hp & Hh)]; [by left|].
  right. split; [done|]. destruct x as [[xv k] d]; simpl in *; subst xv.
  assert (Hacc : accepting m -> False).
  { intros [_ Hst]. unfold StatePrePrepared, StateAcceptRequest in *. lia. }
  destruct Hs; simpl; try (by exfalso; apply Hacc);
    try (split; [done|split; [done|by exists p]]).
  - apply LockHash_fields in H3 as (_ & _ & E3 & _). split; [done|]. split; [simpl in *; lia|].
    exists p. unfold roundState_Proposal in *. by rewrite E3.
  - apply LockHash_fields in H5 as (_ & _ & E3 & _). split; [done|]. split; [simpl in *; lia|].
    exists p. unfold roundState_Proposal in *. by rewrite E3.
  - destruct Hv as [_ Hv], Hw as [_ Hw]. simpl in Hw. rewrite next_round_round in Hw.
    simplify_eq. lia.
  - destruct Hv as [_ Hv], Hw as [_ Hw]. simpl in Hw. rewrite next_round_round in Hw.
    destruct H1 as [[H1 _]|H1]; [congruence|]. simplify_eq. lia.
  - destruct Hv as [Hv _], Hw as [Hw _]. pose proof (next_height_sequence vs p0) as Hn.
    change (sequence (next_height vs p0) = v.1) in Hw. lia.
Qed.

(** A vote comes after everything that is past. *)
Lemma step_vote_lt m b m' x y :
  main_inv m -> step m [b] m' -> past m x -> vote_of b = Some y -> vote_lt x y.
Proof.
  intros Hm Hs (v & Hv & Hor) Hy. unfold vote_lt.
  assert (Hview : y.1.1 = v -> (x.1.1 = v -> x.1.2 < y.1.2 /\ x.2 = y.2) ->
    view_lt x.1.1 y.1.1 \/ (x.1.1 = y.1.1 /\ x.1.2 < y.1.2 /\ x.2 = y.2)).
  { intros -> Hd. destruct Hor as [?|[Hx _]]; [by left|]. right. split; [done|by apply Hd]. }
  assert (Hnow : forall p, x.1.1 = v -> roundState_Proposal (m_rs m) = Some p ->
    x.1.2 <= m_state m /\ x.2 = HashOf p \/ view_lt x.1.1 v).
  { intros p _ Hp. destruct Hor as [?|(_ & _ & [_ ?] & p' & Hp' & Hh)]; [by right|].
    left. split; [done|]. congruence. }
  assert (Hirr : view_lt v v -> False) by (unfold view_lt; lia).
  assert (Hfresh : accepting m -> x.1.1 = v -> False).
  { intros [_ Hst] Hx. destruct Hor as [Hlt|(_ & _ & [Hk1 Hk2] & _)].
    - rewrite Hx in Hlt. by apply Hirr.
    - unfold StatePrePrepared, StateAcceptRequest in *. lia. }
  inversion Hs; subst; try done.
  - destruct (vote_of_subject (mkSubject (Some (view_of m r)) (HashOf p)) v
      (at_view_view_of m v r Hm Hv ltac:(eassumption))) as [E1 _].
    rewrite E1 in Hy. simplify_eq. apply Hview; [done|]. intros Hx. by exfalso; apply Hfresh.
  - destruct (vote_of_subject (mkSubject (Some (view_of m r)) (HashOf p)) v
      (at_view_view_of m v r Hm Hv ltac:(eassumption))) as [_ E1].
    rewrite E1 in Hy. simplify_eq. apply Hview; [done|]. intros Hx. by exfalso; apply Hfresh.
  - destruct (Subject_Some m sub v Hm Hv ltac:(eassumption)) as [Hp (p & Hp' & Hd)].
    destruct (vote_of_subject sub v Hp) as [_ E1]. rewrite E1 in Hy. simplify_eq.
    apply Hview; [done|]. intros Hx. simpl.
    destruct (Hnow p Hx Hp') as [[? ?]|Hl]; [split; [lia|congruence]|].
    rewrite Hx in Hl. by destruct Hirr.
  - cbn [vote_of] in Hy. rewrite (at_view_view_of m v r Hm Hv ltac:(eassumption)) in Hy. cbn in Hy. simplify_eq.
    apply Hview; [done|]. intros Hx. simpl.
    destruct (Hnow p Hx ltac:(eassumption)) as [[? ?]|Hl]; [split; [lia|congruence]|].
    rewrite Hx in Hl. by destruct Hirr.
Qed.

Lemma steps_past_votes m acts m' x :
  main_inv m -> steps m acts m' -> past m x -> Forall (vote_lt x) (omap vote_of acts).
Proof.
  intros Hm Hs. induction Hs as [|m1 m2 m3 a1 a2 H1 _ IH]; intros Hx; [constructor|].
  rewrite omap_app. apply Forall_app. split.
  - destruct (step_single _ _ _ H1) as [->|[b ->]]; [constructor|].
    cbn. destruct (vote_of b) as [y|] eqn:Hy; cbn; [|constructor].
    constructor; [|constructor]. by eapply step_vote_lt.
  - apply IH; [by eapply step_inv|by eapply step_past].
Qed.

(** No equivocation: along every run of the protocol the votes of a validator
    in its own rounds (PREPARE, COMMIT and the decision) are strictly ordered
    by view, then phase, and the votes of one view are all for one block.  The
    COMMITs for old blocks are not among them. *)
Lemma votes_sorted m acts m' :
  main_inv m -> steps m acts m' ->
  StronglySorted vote_lt (omap vote_of acts) /\
  Forall (fun b => is_vote b -> is_Some (vote_of b)) acts.
Proof.
  intros Hm Hs. induction Hs as [|m1 m2 m3 a1 a2 H1 H2 IH]; [split; constructor|].
  assert (Hm2 : main_inv m2) by by eapply step_inv.
  destruct (IH Hm2) as [IH1 IH2]. pose proof (step_votes _ _ _ Hm H1) as Hv. split.
  - destruct (step_single _ _ _ H1) as [->|[b ->]]; [done|]. cbn.
    destruct (vote_of b) as [y|] eqn:Hy; [|done]. constructor; [done|].
    apply (steps_past_votes m2 _ m3); [done..|].
    apply Forall_inv in Hv. destruct Hv as (x & Hx & Hp); [by destruct b|]. congruence.
  - apply Forall_app. split; [|done]. eapply Forall_impl; [exact Hv|].
    intros b Hb Hvb. destruct (Hb Hvb) as (x & -> & _). by eexists.
Qed.

(** Two votes of the same view in an ordered list are for the same block. *)
Lemma sorted_agree (l : list vote) x y :
  StronglySorted vote_lt l -> x ∈ l -> y ∈ l -> x.1.1 = y.1.1 -> x.2 = y.2.
Proof.
  assert (Hlt : forall x y, vote_lt x y -> x.1.1 = y.1.1 -> x.2 = y.2).
  { unfold vote_lt, view_lt. intros [[[? ?] ?] ?] [[[? ?] ?] ?]; simpl.
    intros [?|(_ & _ & ?)] ?; [simplify_eq; lia|done]. }
  induction 1 as [|z l _ IH Hall]; [by intros ?%not_elem_of_nil|]. rewrite Forall_forall in Hall.
  intros [->|Hx]%elem_of_cons [->|Hy]%elem_of_cons Hv; [done|by apply Hlt; [apply Hall|]| |by apply IH].
  symmetry. by apply Hlt; [apply Hall|].
Qed.

(** The votes on a subject: its phase. *)
Definition votes_on (a : act) (phase : Z) (s : Subject) : Prop :=
  (a = APrepare s /\ phase = StatePrePrepared) \/ (a = ACommit s /\ phase = StatePrepared).

(** Two PREPAREs or COMMITs of one run for the same view are for the same
    block, other than those for old blocks. *)
Lemma votes_agree m acts m' a1 a2 k1 k2 s1 s2 v :
  main_inv m -> steps m acts m' -> a1 ∈ acts -> a2 ∈ acts ->
  votes_on a1 k1 s1 -> votes_on a2 k2 s2 ->
  sub_View s1 ≫= pair_of = Some v -> sub_View s2 ≫= pair_of = Some v ->
  Digest s1 = Digest s2.
Proof.
  intros Hm Hs H1 H2 O1 O2 V1 V2. destruct (votes_sorted _ _ _ Hm Hs) as [Hsort _].
  assert (Hin : forall a k s, a ∈ acts -> votes_on a k s -> sub_View s ≫= pair_of = Some v ->
    (v, k, Digest s) ∈ omap vote_of acts).
  { intros a k s Ha Ho Hv. destruct (vote_of_subject s v Hv) as [E1 E2]. apply list_elem_of_omap.
    exists a. split; [done|]. by destruct Ho as [[-> ->]|[-> ->]]. }
  exact (sorted_agree _ (v, k1, Digest s1) (v, k2, Digest s2) Hsort
    (Hin _ _ _ H1 O1 V1) (Hin _ _ _ H2 O2 V2) eq_refl).
Qed.

Lemma commits_agree m acts m' s1 s2 v :
  main_inv m -> steps m acts m' -> ACommit s1 ∈ acts -> ACommit s2 ∈ acts ->
  sub_View s1 ≫= pair_of = Some v -> sub_View s2 ≫= pair_of = Some v ->
  Digest s1 = Digest s2.
Proof.
  intros Hm Hs H1 H2. apply (votes_agree m acts m' _ _ StatePrepared StatePrepared s1 s2 v Hm Hs H1 H2);
    by right.
Qed.

(** The subjects that a node votes on are full: the codec keeps them apart. *)
Definition subject_of_act (a : act) : option Subject :=
  match a with APrepare s | ACommit s | AOldCommit s => Some s | _ => None end.

Lemma step_subject_full m a m' b s :
  step m a m' -> b ∈ a -> subject_of_act b = Some s ->
  exists q r d, s = mkSubject (Some (full_view q r)) d.
Proof.
  intros Hs Hin Hb.
  assert (Hsub : roundState_Subject (m_rs m) = Ret (Some s) ->
    exists q r d, s = mkSubject (Some (full_view q r)) d).
  { unfold roundState_Subject. destruct (rs_PrePrepare (m_rs m)) as [pp|]; [|done].
    destruct (round (m_rs m)) as [r|]; [|done]. destruct (pp_Proposal pp); [|done]. cbn.
    intros [= <-]. by eexists _, _, _. }
  destruct Hs; try (by apply not_elem_of_nil in Hin); apply list_elem_of_singleton in Hin as ->;
    simpl in Hb; simplify_eq; auto; by eexists _, _, _.
Qed.

Lemma steps_subject_full m acts m' b s :
  steps m acts m' -> b ∈ acts -> subject_of_act b = Some s ->
  exists q r d, s = mkSubject (Some (full_view q r)) d.
Proof.
  induction 1 as [|m1 m2 m3 a1 a2 H1 _ IH]; intros Hin Hb; [by apply not_elem_of_nil in Hin|].
  apply elem_of_app in Hin as [Hin|Hin]; [by eapply step_subject_full|by apply IH].
Qed.

(** ** Decisions *)

Lemma member_of_set vs id : is_Some (GetById vs id).2 -> id ∈ ID <$> List vs.
Proof.
  intros [w Hw]. destruct (GetById vs id) as [i o] eqn:Hg; simpl in Hw; subst o.
  apply GetById_Some in Hg as [<- Hin]. by apply list_elem_of_fmap_2.
Qed.

Lemma commits_certificate m sub :
  main_inv m -> roundState_Subject (m_rs m) = Ret (Some sub) ->
  reachThreshold (m_vs m) (MessageSet_Size (Commits (m_rs m))) = true ->
  quorum (m_vs m) (senders (Commits (m_rs m))) /\
  forall i, i ∈ senders (Commits (m_rs m)) ->
    exists msg, messages (Commits (m_rs m)) !! i = Some msg /\
      Code msg = MsgCommit /\ Msg_Validator msg = i /\ DecodeSubject (Msg msg) = Some sub.
Proof.
  intros Hm Hs Hth. destruct (inv_rs _ Hm) as [_ _ _ _ _ [Hwf Hvs] _ Hv]. split; [split|].
  - intros i [msg Hi]%elem_of_senders. rewrite elem_of_list_to_set. apply member_of_set.
    rewrite <- Hvs. by apply (Hwf i msg).
  - by rewrite size_senders.
  - intros i [msg Hi]%elem_of_senders. exists msg. split; [done|].
    destruct (Hv i msg Hi) as [Hc (sub' & Hd & Hs')]. split; [done|].
    split; [by apply (Hwf i msg)|]. congruence.
Qed.

(** A decision is justified: it is taken on a quorum of distinct
    validators, each with a stored COMMIT message for exactly the view and
    the block decided, and the seals handed to the chain are the seals of
    these messages. *)
Theorem decision_certificate m v p seals m' :
  main_inv m -> step m [ADecide v p seals] m' ->
  exists (Q : gset string) (sub : Subject),
    quorum (m_vs m) Q /\ sub_View sub = Some v /\ Digest sub = HashOf p /\
    at_view m (default (0, 0) (pair_of v)) /\
    length seals = size Q /\
    forall i, i ∈ Q -> exists msg,
      Code msg = MsgCommit /\ Msg_Validator msg = i /\
      DecodeSubject (Msg msg) = Some sub /\ CommittedSeal msg ∈ seals.
Proof.
  intros Hm Hs. inversion Hs as [| | | | | | |p' r sub rs' Hvt Hr Hst Hp Hsub Hth Hl| | | | | | |]; subst.
  destruct (commits_certificate m sub Hm Hsub Hth) as [HQ Hmsgs].
  exists (senders (Commits (m_rs m))), sub. split; [done|].
  pose proof Hsub as Hsub'. unfold roundState_Subject in Hsub'. unfold roundState_Proposal in Hp.
  destruct (rs_PrePrepare (m_rs m)) as [pp|]; [|done]. rewrite Hr, Hp in Hsub'. cbn in Hsub'.
  injection Hsub' as <-. split; [done|]. split; [done|]. split.
  { split; simpl; [|done]. by rewrite i64_small by apply (inv_seq _ Hm). }
  split.
  { apply Nat2Z.inj. rewrite size_senders, length_fmap. apply length_Values. }
  intros i Hi. destruct (Hmsgs i Hi) as (msg & Hmsg & Hc & Hid & Hd). exists msg.
  split; [done|]. split; [done|]. split; [done|].
  apply list_elem_of_fmap_2. apply elem_of_Values. by exists i.
Qed.

(** What a decision says of the stored COMMIT messages. *)
Lemma decision_commits m m' v p seals :
  main_inv m -> step m [ADecide v p seals] m' ->
  exists sub, quorum (m_vs m) (senders (Commits (m_rs m))) /\
    (exists w, sub_View sub ≫= pair_of = Some w /\ pair_of v = Some w) /\
    Digest sub = HashOf p /\
    forall i, i ∈ senders (Commits (m_rs m)) -> exists msg,
      messages (Commits (m_rs m)) !! i = Some msg /\ DecodeSubject (Msg msg) = Some sub.
Proof.
  intros Hm Hs.
  inversion Hs as [| | | | | | |p' r sub rs' Hvt Hr Hst Hp Hsub Hth Hl| | | | | | |]; subst.
  destruct (commits_certificate m sub Hm Hsub Hth) as [HQ Hmsgs]. exists sub. split; [done|].
  destruct (at_view_exists m Hm) as [w Hw].
  destruct (Subject_Some m sub w Hm Hw Hsub) as [Hsv (p'' & Hp'' & Hd)].
  split; [exists w; split; [done|by apply at_view_view_of]|].
  split; [congruence|]. intros i Hi. destruct (Hmsgs i Hi) as (msg & ? & _ & _ & ?). by exists msg.
Qed.

(** Agreement within a view: with [3f + 1] validators, at most [f] of
    them faulty, two validators that decide in the same view decide the same
    block, when the COMMIT messages they hold from each correct validator
    were votes of one run of that validator. *)
Theorem agreement_in_view m1 m1' m2 m2' v p1 p2 seals1 seals2 (F : gset string)
    (from to : string -> main) (acts : string -> list act) :
  main_inv m1 -> main_inv m2 ->
  step m1 [ADecide v p1 seals1] m1' -> step m2 [ADecide v p2 seals2] m2' ->
  List (m_vs m1) = List (m_vs m2) ->
  0 < Size (m_vs m1) < 2 ^ 53 -> Size (m_vs m1) mod 3 = 1 \/ Size (m_vs m1) <= 3 ->
  Z.of_nat (size F) <= FaultTolerantNum (m_vs m1) ->
  (forall i, i ∉ F -> main_inv (from i) /\ steps (from i) (acts i) (to i)) ->
  (forall m i msg s, m = m1 \/ m = m2 -> i ∉ F ->
    messages (Commits (m_rs m)) !! i = Some msg -> DecodeSubject (Msg msg) = Some s ->
    ACommit s ∈ acts i) ->
  HashOf p1 = HashOf p2.
Proof.
  intros I1 I2 S1 S2 Hl Hn Hmod HF Hruns Hauth.
  destruct (decision_commits _ _ _ _ _ I1 S1) as (s1 & Q1 & (w & V1 & V) & D1 & M1).
  destruct (decision_commits _ _ _ _ _ I2 S2) as (s2 & Q2 & (w' & V2 & V') & D2 & M2).
  assert (w' = w) as -> by congruence.
  apply (quorum_ext _ (m_vs m1)) in Q2; [|done|by rewrite !Size_List, <- Hl, <- Size_List in *].
  destruct (quorums_share_correct _ _ _ F Hn Hmod Q1 Q2 HF) as (i & Hi1 & Hi2 & HiF).
  destruct (M1 i Hi1) as (msg1 & G1 & E1), (M2 i Hi2) as (msg2 & G2 & E2).
  destruct (Hruns i HiF) as [Hfrom Hsteps].
  rewrite <- D1, <- D2. apply (commits_agree _ _ _ s1 s2 w Hfrom Hsteps); try done.
  - by apply (Hauth m1 i msg1); [left|..].
  - by apply (Hauth m2 i msg2); [right|..].
Qed.

(** ** The lock *)

(** Within a height a step keeps the lock, unless it drops it. *)
Lemma step_keeps_lock m a m' :
  main_inv m -> step m a m' -> sequence (m_rs m') = sequence (m_rs m) ->
  IsHashLocked (m_rs m) = true -> AUnlock (sequence (m_rs m)) ∉ a ->
  lockedHash (m_rs m') = lockedHash (m_rs m).
Proof.
  intros Hm Hs Hseq Hl Hun.
  assert (Hlock : forall rs', LockHash (m_rs m) = Ret rs' -> lockedHash rs' = lockedHash (m_rs m)).
  { intros rs' (_ & _ & _ & _ & _ & _ & E7 & _)%LockHash_fields.
    apply IsHashLocked_true in Hl. destruct (inv_lock _ _ (inv_rs _ Hm) Hl) as (pp & p & Hpp & Hp & Hh).
    rewrite <- Hh. apply E7. unfold roundState_Proposal. by rewrite Hpp. }
  destruct Hs; try done; try (by apply Hlock).
  - exfalso. apply Hun. constructor.
  - simpl. unfold next_round. by rewrite Hl.
  - simpl. unfold next_round. by rewrite Hl.
  - exfalso. pose proof (next_height_sequence vs p) as Hn.
    change (sequence (next_height vs p) = sequence (m_rs m)) in Hseq. lia.
Qed.

(** The node is locked on [d] for the rest of height [h]. *)
Definition held (m : main) (h : Z) (d : Hash) : Prop :=
  h < sequence (m_rs m) \/ (sequence (m_rs m) = h /\ lockedHash (m_rs m) = d).

Lemma step_held m a m' h d :
  main_inv m -> step m a m' -> AUnlock h ∉ a -> d <> ZeroHash -> held m h d -> held m' h d.
Proof.
  intros Hm Hs Hun Hd Hh.
  assert (Hm' : main_inv m') by by eapply step_inv.
  destruct (at_view_exists m Hm) as [v Hv], (at_view_exists m' Hm') as [w Hw].
  assert (Hle : sequence (m_rs m) <= sequence (m_rs m')).
  { destruct (step_view m a m' v w Hm Hs Hv Hw) as [Hlt|<-]; destruct Hv as [-> _], Hw as [-> _].
    - unfold view_lt in Hlt. lia.
    - lia. }
  destruct Hh as [Hh|[Hh Hl]]; [left; lia|].
  destruct (decide (sequence (m_rs m') = sequence (m_rs m))) as [Heq|]; [|left; lia].
  right. split; [lia|]. rewrite <- Hl. apply (step_keeps_lock m a); try done.
  - apply IsHashLocked_true. congruence.
  - by rewrite Hh.
Qed.

Lemma step_commit_held m s m' v :
  main_inv m -> step m [ACommit s] m' -> sub_View s ≫= pair_of = Some v ->
  held m' v.1 (Digest s).
Proof.
  intros Hm Hs Hv. destruct (at_view_exists m Hm) as [w Hw]. right.
  inversion Hs as [| | |p r H H0 H1 H2| |sub rs' H H0 H1 H2 H3| | | | | | | | |]; subst.
  - assert (v = w) as ->.
    { pose proof (at_view_view_of m w r Hm Hw H0) as Hp. cbn in Hp, Hv. congruence. }
    simpl. split; [apply Hw|done].
  - destruct (Subject_Some m s w Hm Hw H1) as [Hp (p & Hp' & Hd)].
    assert (v = w) as -> by congruence.
    apply LockHash_fields in H3 as (E1 & E2 & _ & _ & _ & _ & E7 & _). simpl.
    split; [rewrite E2; apply Hw|]. rewrite <- Hd. by apply E7.
Qed.

(** A vote is for the current view and, under a lock, for the locked block. *)
Lemma step_vote_locked m b m' v y :
  main_inv m -> step m [b] m' -> at_view m v -> vote_of b = Some y ->
  y.1.1 = v /\ (IsHashLocked (m_rs m) = true -> y.2 = lockedHash (m_rs m)).
Proof.
  intros Hm Hs Hv Hy.
  assert (Hlock : forall p, roundState_Proposal (m_rs m) = Some p ->
    IsHashLocked (m_rs m) = true -> HashOf p = lockedHash (m_rs m)).
  { intros p Hp Hl%IsHashLocked_true.
    destruct (inv_lock _ _ (inv_rs _ Hm) Hl) as (pp & p' & Hpp & Hp' & Hh).
    unfold roundState_Proposal in Hp. rewrite Hpp in Hp. congruence. }
  inversion Hs; subst; try done.
  - destruct (vote_of_subject (mkSubject (Some (view_of m r)) (HashOf p)) v
      (at_view_view_of m v r Hm Hv ltac:(eassumption))) as [E1 _].
    rewrite E1 in Hy. simplify_eq. split; [done|]. congruence.
  - destruct (vote_of_subject (mkSubject (Some (view_of m r)) (HashOf p)) v
      (at_view_view_of m v r Hm Hv ltac:(eassumption))) as [_ E1].
    rewrite E1 in Hy. simplify_eq. split; [done|]. by intros _.
  - destruct (Subject_Some m sub v Hm Hv ltac:(eassumption)) as [Hp (p & Hp' & Hd)].
    destruct (vote_of_subject sub v Hp) as [_ E1]. rewrite E1 in Hy. simplify_eq.
    split; [done|]. simpl. rewrite <- Hd. by apply Hlock.
  - cbn [vote_of] in Hy. rewrite (at_view_view_of m v r Hm Hv ltac:(eassumption)) in Hy.
    cbn in Hy. simplify_eq. split; [done|]. by apply Hlock.
Qed.

Lemma step_held_vote m b m' h d y :
  main_inv m -> step m [b] m' -> held m h d -> d <> ZeroHash -> vote_of b = Some y ->
  y.1.1.1 = h -> y.2 = d.
Proof.
  intros Hm Hs Hh Hd Hy Hyh. destruct (at_view_exists m Hm) as [v Hv].
  destruct (step_vote_locked m b m' v y Hm Hs Hv Hy) as [Hyv Hl].
  destruct Hv as [Hv _]. rewrite Hyv in Hyh.
  destruct Hh as [Hh|[Hh Hld]]; [lia|]. rewrite <- Hld. apply Hl.
  apply IsHashLocked_true. congruence.
Qed.

Lemma steps_held_vote m acts m' h d y :
  main_inv m -> steps m acts m' -> AUnlock h ∉ acts -> held m h d -> d <> ZeroHash ->
  y ∈ omap vote_of acts -> y.1.1.1 = h -> y.2 = d.
Proof.
  intros Hm Hs. induction Hs as [|m1 m2 m3 a1 a2 H1 _ IH]; intros Hun Hh Hd Hy Hyh.
  { by apply not_elem_of_nil in Hy. }
  apply not_elem_of_app in Hun as [Hun1 Hun2].
  rewrite omap_app in Hy. apply elem_of_app in Hy as [Hy|Hy].
  - destruct (step_single _ _ _ H1) as [->|[b ->]]; [by apply not_elem_of_nil in Hy|].
    apply list_elem_of_omap in Hy as (b' & Hb' & Hy). apply list_elem_of_singleton in Hb' as ->.
    by eapply step_held_vote.
  - apply IH; try done; [by eapply step_inv|]. by eapply step_held.
Qed.

(** A COMMIT vote, and a later one at the same height. *)
Lemma later_commit_agrees m1 a1 m2 a2 m3 s s' v v' :
  main_inv m1 -> step m1 a1 m2 -> steps m2 a2 m3 -> AUnlock v.1 ∉ a2 ->
  sub_View s ≫= pair_of = Some v -> sub_View s' ≫= pair_of = Some v' -> v.1 = v'.1 ->
  Digest s <> ZeroHash -> ACommit s ∈ a1 -> ACommit s' ∈ a2 -> Digest s' = Digest s.
Proof.
  intros Hm H1 Hs Hun Hv Hv' Hvv Hd Hin Hin'.
  destruct (step_single _ _ _ H1) as [->|[b ->]]; [by apply not_elem_of_nil in Hin|].
  apply list_elem_of_singleton in Hin as <-.
  apply (steps_held_vote m2 a2 m3 v.1 (Digest s) (v', StatePrepared, Digest s')); try done.
  - by eapply step_inv.
  - exact (step_commit_held _ _ _ _ Hm H1 Hv).
  - apply list_elem_of_omap. exists (ACommit s'). split; [done|]. by apply vote_of_subject.
Qed.

Lemma locked_commits_agree m acts m' s1 s2 v1 v2 :
  main_inv m -> steps m acts m' -> AUnlock v1.1 ∉ acts -> ACommit s1 ∈ acts -> ACommit s2 ∈ acts ->
  sub_View s1 ≫= pair_of = Some v1 -> sub_View s2 ≫= pair_of = Some v2 -> v1.1 = v2.1 ->
  Digest s1 <> ZeroHash -> Digest s2 <> ZeroHash ->
  Digest s1 = Digest s2.
Proof.
  intros Hm Hs. revert s1 s2 v1 v2.
  induction Hs as [|m1 m2 m3 a1 a2 H1 Hs IH]; intros s1 s2 v1 v2 Hun I1 I2 V1 V2 Hh D1 D2.
  { by apply not_elem_of_nil in I1. }
  assert (Hm2 : main_inv m2) by by eapply step_inv.
  apply not_elem_of_app in Hun as [Hun1 Hun2].
  apply elem_of_app in I1 as [I1|I1]; apply elem_of_app in I2 as [I2|I2].
  - destruct (step_single _ _ _ H1) as [->|[b ->]]; [by apply not_elem_of_nil in I1|].
    apply list_elem_of_singleton in I1, I2. congruence.
  - symmetry. by eapply (later_commit_agrees m1 a1 m2 a2 m3 s1 s2 v1 v2).
  - eapply (later_commit_agrees m1 a1 m2 a2 m3 s2 s1 v2 v1); try done. by rewrite <- Hh.
  - by eapply IH.
Qed.

(** ** Certificates *)

(** A quorum stands behind block [d] at height [h]: each of its validators
    that is not faulty voted to commit it at this height. *)
Definition backed (vs : ValidatorSet) (F : gset string) (acts : string -> list act)
    (h : Z) (d : Hash) : Prop :=
  exists Q : gset string, quorum vs Q /\
    forall i, i ∈ Q -> i ∉ F -> exists s w,
      ACommit s ∈ acts i /\ sub_View s ≫= pair_of = Some w /\ w.1 = h /\ Digest s = d.

(** Of two blocks with a quorum behind them at the same height a correct
    validator is in both quorums, and it keeps its lock. *)
Lemma backed_agree vs1 vs2 (F : gset string) (acts : string -> list act) h d1 d2 :
  List vs1 = List vs2 -> 0 < Size vs1 < 2 ^ 53 -> Size vs1 mod 3 = 1 \/ Size vs1 <= 3 ->
  Z.of_nat (size F) <= FaultTolerantNum vs1 ->
  backed vs1 F acts h d1 -> backed vs2 F acts h d2 -> d1 <> ZeroHash -> d2 <> ZeroHash ->
  (forall i, i ∈ ID <$> List vs1 -> i ∉ F -> exists m m',
     main_inv m /\ steps m (acts i) m' /\ AUnlock h ∉ acts i) ->
  d1 = d2.
Proof.
  intros Hl Hn Hmod HF (Q1 & HQ1 & M1) (Q2 & HQ2 & M2) Z1 Z2 Hruns.
  assert (HQ2' : quorum vs1 Q2).
  { apply (quorum_ext vs2); [done|by rewrite !Size_List, <- Hl, <- Size_List in *|done]. }
  destruct (quorums_share_correct _ _ _ F Hn Hmod HQ1 HQ2' HF) as (i & Hi1 & Hi2 & HiF).
  destruct (M1 i Hi1 HiF) as (s1 & w1 & A1 & V1 & W1 & <-).
  destruct (M2 i Hi2 HiF) as (s2 & w2 & A2 & V2 & W2 & <-).
  assert (Hin : i ∈ ID <$> List vs1).
  { destruct HQ1 as [HQ1 _]. apply HQ1 in Hi1. by apply elem_of_list_to_set in Hi1. }
  destruct (Hruns i Hin HiF) as (m & m' & Hm & Hs & Hun).
  apply (locked_commits_agree m (acts i) m' s1 s2 w1 w2); try done; [by rewrite W1|congruence].
Qed.

(** The votes of a set of COMMITs, as a certificate. *)
Lemma votes_backed vs ms sub w (F : gset string) (acts : string -> list act) :
  quorum vs (senders ms) ->
  (forall i, i ∈ senders ms -> exists msg,
     messages ms !! i = Some msg /\ DecodeSubject (Msg msg) = Some sub) ->
  sub_View sub ≫= pair_of = Some w ->
  (forall i msg s, i ∉ F -> messages ms !! i = Some msg -> DecodeSubject (Msg msg) = Some s ->
     ACommit s ∈ acts i) ->
  backed vs F acts w.1 (Digest sub).
Proof.
  intros HQ HM Hw Hauth. exists (senders ms). split; [done|]. intros i Hi HiF.
  destruct (HM i Hi) as (msg & Hmsg & Hd). exists sub, w. split; [by eapply Hauth|done].
Qed.

(** Agreement at a height: with [3f + 1] validators, at most [f] of them
    faulty, two validators that decide at the same height decide the same
    block, in whatever rounds, provided that the correct validators drop no
    lock at this height and that the COMMIT messages held from
    them were votes of their runs. *)
Theorem agreement_at_height m1 m1' m2 m2' v1 v2 p1 p2 seals1 seals2 h (F : gset string)
    (from to : string -> main) (acts : string -> list act) :
  main_inv m1 -> main_inv m2 ->
  step m1 [ADecide v1 p1 seals1] m1' -> step m2 [ADecide v2 p2 seals2] m2' ->
  Types.Sequence v1 = Some h -> Types.Sequence v2 = Some h ->
  HashOf p1 <> ZeroHash -> HashOf p2 <> ZeroHash ->
  List (m_vs m1) = List (m_vs m2) ->
  0 < Size (m_vs m1) < 2 ^ 53 -> Size (m_vs m1) mod 3 = 1 \/ Size (m_vs m1) <= 3 ->
  Z.of_nat (size F) <= FaultTolerantNum (m_vs m1) ->
  (forall i, i ∉ F -> main_inv (from i) /\ steps (from i) (acts i) (to i) /\ AUnlock h ∉ acts i) ->
  (forall m i msg s, m = m1 \/ m = m2 -> i ∉ F ->
    messages (Commits (m_rs m)) !! i = Some msg -> DecodeSubject (Msg msg) = Some s ->
    ACommit s ∈ acts i) ->
  HashOf p1 = HashOf p2.
Proof.
  intros I1 I2 S1 S2 Hv1 Hv2 Z1 Z2 Hl Hn Hmod HF Hruns Hauth.
  destruct (decision_commits _ _ _ _ _ I1 S1) as (s1 & Q1 & (w1 & V1 & W1) & D1 & M1).
  destruct (decision_commits _ _ _ _ _ I2 S2) as (s2 & Q2 & (w2 & V2 & W2) & D2 & M2).
  assert (Hh : forall v w, pair_of v = Some w -> Types.Sequence v = Some h -> w.1 = h).
  { intros [[] []] w; simpl; naive_solver. }
  rewrite <- D1, <- D2. apply (backed_agree (m_vs m1) (m_vs m2) F acts h); try done; try congruence.
  - rewrite <- (Hh v1 w1) by done. eapply votes_backed; try done.
    intros i msg s. apply Hauth. by left.
  - rewrite <- (Hh v2 w2) by done. eapply votes_backed; try done.
    intros i msg s. apply Hauth. by right.
  - intros i _ HiF. exists (from i), (to i). by apply Hruns.
Qed.
End Safety.
