(* ===== verification/Correctness.v ===== *)
(** * Correctness: the consensus core from its start, over any events

    [Start] panics when the chain has no head and otherwise starts the first
    round; from then on the loop never panics, whatever it receives, unless
    the backend does, and all it does is a run of the abstract protocol. *)

From S2P Require Import Prelude Types Interfaces MessageSet Quorum RoundState CoreState Backlog Broadcast Round Phases Loop Provenance CoreSpec BroadcastSpec BacklogSpec Node Refinement CoreRefinement Safety.

Section Correctness.
Context `{E : Env, L : !EnvLaws E}.

(** The requests on the request channel carry a proposal: [Core.Request] and
    [ProcessPendingRequests] read it before they post the request. *)
Definition valid_event (ev : event) : Prop :=
  match ev with EvRequest r => is_Some (rq_Proposal r) | _ => True end.

(** An effect is an announcement of an action, or the forwarding of the
    p2p message of one of the events. *)
Definition justified (id : string) (acts : list act) (evs : list event) (e : effect) : Prop :=
  explained id acts e \/ exists data, EvP2P data ∈ evs /\ is_gossip data e.

Lemma justified_mono id acts acts' evs evs' e :
  acts ⊆ acts' -> evs ⊆ evs' -> justified id acts evs e -> justified id acts' evs' e.
Proof.
  intros Ha He [H|(d & Hd & H)]; [left; by eapply explained_mono|right]. exists d. auto.
Qed.

(** Why an action may happen in the handling of an event that has these
    effects: a lock is dropped on a timeout, or when the chain refused the block
    it was given; a COMMIT for a view of the past answers a PRE-PREPARE
    message of this view for a block that the backend has. *)
Definition warranted (ev : event) (es : list effect) (a : act) : Prop :=
  match a with
  | AUnlock _ => ev = EvTimeout \/ refused es
  | AOldCommit s => exists msg, carries ev msg /\ old_proposal msg s
  | _ => True
  end.

#[local] Instance Grows_warranted ev : Grows (warranted ev).
Proof. intros es es' a Hs. destruct a; simpl; try done. intros [?|?]; [auto|right; by eapply refused_grows]. Qed.

#[local] Instance Allows_warranted ev : Allows (warranted ev).
Proof. intros es a. destruct a; simpl; try done. auto. Qed.

Lemma spec_handle_event ev m (Q : unit -> main -> list effect -> Prop) :
  main_inv m -> valid_event ev ->
  (forall m' es acts, steps m acts m' -> Forall (warranted ev es) acts ->
     Forall (justified (m_id m) acts [ev]) es -> Q tt m' es) ->
  spec (handle_event ev) m Q.
Proof.
  intros Hm Hv HQ.
  assert (Href : forall p : M unit, refines (warranted ev) p m (fun _ _ => True) -> spec p m Q).
  { intros p Hp. eapply spec_mono; [exact (Hp Hm)|].
    intros [] m' es (acts & H1 & Ho & H2 & _). apply (HQ m' es acts H1 Ho).
    eapply Forall_impl; [exact H2|]. by left. }
  destruct ev as [r|payload|msg val| |data|]; cbn [handle_event].
  - apply Href. ref_step. eapply refines_mono; [by ref_apply refines_HandleRequest|].
    intros e m' _ _. apply refines_when; [|done]. intros _. apply refines_silent. intros _.
    by apply spec_StoreRequestMsg.
  - apply Href. ref_step. rename select (runs c m) into Hc.
    destruct (decodeMsg_runs c m payload Hc) as [d Hd]. rewrite Hd. ref_step. ref_step.
    destruct d as [e|[msg val]]; [by ref_steps|]. ref_step.
    eapply refines_mono; [ref_apply refines_handleMsg|intros; by ref_steps].
    intros s es Hold. exists msg. split; [by eapply decodeMsg_carried|done].
  - apply Href. ref_step. eapply refines_mono; [ref_apply refines_handleMsg|intros; by ref_steps].
    intros s es Hold. by exists msg.
  - apply Href. ref_apply refines_StartNewRound. by left.
  - eapply (spec_handle_p2p (warranted (EvP2P data))); [done|intros msg s es; by exists msg|].
    intros m' es es' acts H1 Ho H2 H3.
    apply (HQ m' _ acts H1). { eapply Forall_grows; [apply _| |exact Ho]. set_solver. }
    apply Forall_app. split; (eapply Forall_impl; [eassumption|]).
    + by left.
    + intros e He. right. exists data. split; [by constructor|done].
  - apply Href. ref_apply refines_handleTimeoutMsg. by left.
Qed.

(** Every action of a run has its reason in one of the events. *)
Definition all_warranted (evs : list event) (es : list effect) (acts : list act) : Prop :=
  forall a, a ∈ acts -> exists ev, ev ∈ evs /\ warranted ev es a.

Lemma all_warranted_one ev es acts : Forall (warranted ev es) acts -> all_warranted [ev] es acts.
Proof. rewrite Forall_forall. intros H a Ha. exists ev. split; [constructor|auto]. Qed.

Lemma all_warranted_app evs1 evs2 es1 es2 acts1 acts2 :
  all_warranted evs1 es1 acts1 -> all_warranted evs2 es2 acts2 ->
  all_warranted (evs1 ++ evs2) (es1 ++ es2) (acts1 ++ acts2).
Proof.
  intros H1 H2 a [Ha|Ha]%elem_of_app;
    [destruct (H1 a Ha) as (ev & ? & ?)|destruct (H2 a Ha) as (ev & ? & ?)];
    (exists ev; split; [apply elem_of_app; auto|]); (eapply grows; [|eassumption]); set_solver.
Qed.

Lemma spec_run evs m (Q : unit -> main -> list effect -> Prop) :
  main_inv m -> Forall valid_event evs ->
  (forall m' es acts, steps m acts m' -> all_warranted evs es acts ->
     Forall (justified (m_id m) acts evs) es -> Q tt m' es) ->
  spec (run evs) m Q.
Proof.
  revert m Q. induction evs as [|ev evs IH]; intros m Q Hm Hv HQ; cbn [run].
  { spec_step. apply (HQ m [] []); try constructor. by intros a ?%not_elem_of_nil. }
  apply Forall_cons in Hv as [Hv1 Hv2]. spec_step. apply spec_handle_event; [done..|].
  intros m1 es1 acts1 H1 W1 E1. apply IH; [by eapply steps_inv|done|].
  intros m2 es2 acts2 H2 W2 E2. apply (HQ m2 _ (acts1 ++ acts2)); [by eapply steps_trans| |].
  { apply (all_warranted_app [ev]); [by apply all_warranted_one|done]. }
  rewrite (steps_id _ _ _ H1) in E2.
  apply Forall_app. split; (eapply Forall_impl; [eassumption|]); intros e;
    apply justified_mono; set_solver.
Qed.

(** The refinement of a run, shared with [Decided]. *)
Lemma run_refines_lemma evs c m :
  runs c m -> main_inv m -> Forall valid_event evs ->
  wp (run evs) c (fun _ c' => exists m' acts es,
    runs c' m' /\ main_inv m' /\ steps m acts m' /\
    trace c' = trace c ++ es /\ Forall (justified (m_id m) acts evs) es /\
    all_warranted evs es acts).
Proof.
  intros Hc Hm Hv.
  assert (Hs : spec (run evs) m (fun _ m' es => exists acts,
    steps m acts m' /\ Forall (justified (m_id m) acts evs) es /\ all_warranted evs es acts))
    by (apply spec_run; eauto).
  eapply wp_mono; [exact (Hs c Hc)|]. intros [] c' (m' & es & H1 & H2 & acts & H3 & H4 & H5).
  exists m', acts, es. eauto 10 using steps_inv.
Qed.

(** C1. The event loop implements the protocol: from every invariant state and for
    every sequence of events (any bytes from the network, any stored message, any
    answers of the backend), the loop does not panic, its main state takes a
    run of the abstract protocol, and everything it sends, commits or forwards is
    justified by an action of that run.  A lock is dropped only on a timeout or
    when the chain refuses a block, and a block of the past is voted for only if
    the backend has it.  Only a panic in the backend, or a nil validator set
    from it, can end the loop; with a backend of which there are neither the
    loop returns. *)
Theorem run_refines evs c m :
  runs c m -> main_inv m -> Forall valid_event evs ->
  wp (run evs) c (fun _ c' => exists m' acts es,
    runs c' m' /\ main_inv m' /\ steps m acts m' /\
    trace c' = trace c ++ es /\ Forall (justified (m_id m) acts evs) es /\
    all_warranted evs es acts).
Proof. apply run_refines_lemma. Qed.

(** ** The start *)

Lemma empty_loop {A} : prque_Empty (@prque_New Prque _ A) = true.
Proof. apply Empty_elems, elems_New. Qed.

(** The main state after [Start] on head [p]. *)
Definition start_main (id : string) (vs : ValidatorSet) (p : Proposal) (last : string) : main :=
  mkMain id StateAcceptRequest false (CalcProposer vs last (big_Uint64 0)) (next_height vs p)
    (newRoundChangeSet vs).

Lemma start_main_inv id vs p last : main_inv (start_main id vs p last).
Proof.
  pose proof (Height_range p). split; simpl; try done; try lia.
  - change (0 <= sequence (next_height vs p) < 2 ^ 63). rewrite next_height_sequence. lia.
  - apply round_inv_height. intros. by rewrite CalcProposer_GetById.
  - split; [apply newRoundChangeSet_ok|]. intros. by rewrite CalcProposer_GetById.
Qed.

(** Entering a state with nothing stored. *)
Lemma wp_setState_empty {MF : MayFail} s c (Q : unit -> core -> Prop) :
  backlogs c = ∅ -> pendingRequests c = prque_New -> state c = s ->
  Q tt c -> wp (setState s) c Q.
Proof.
  intros Hb Hq Hs HQ. unfold setState. wp_step. wp_step. rewrite Hs, Z.eqb_refl.
  cbn [negb]. cbv iota.
  assert (Hc : wp ProcessBacklog c Q).
  { unfold ProcessBacklog. wp_steps. rewrite Hb, map_to_list_empty. simpl. wp_steps. unfold emits. wp_steps.
    simpl. rewrite app_nil_r. destruct c; simpl in *. by rewrite <- Hb. }
  wp_step. apply wp_when; intros _; [|exact Hc].
  unfold ProcessPendingRequests. wp_steps. rewrite Hq, elems_New. simpl.
  wp_steps. unfold emits. wp_steps. simpl. rewrite app_nil_r.
  replace (set_trace _ _) with c; [done|]. destruct c; simpl in *. by rewrite Hq.
Qed.

(** [Start] on a chain whose head is [p]: what the node starts with is what the
    backend answers. *)
Lemma wp_Start {MF : MayFail} id b w p last w1 :
  be_LastProposal w = Ret ((Some p, last), w1) ->
  (forall who, be_Validators p w1 = Fail who -> callee_fails) ->
  (forall w2, be_Validators p w1 = Ret (None, w2) -> callee_fails) ->
  wp Start (NewEngine id b w) (fun _ c => exists vs w2,
    be_Validators p w1 = Ret (Some vs, w2) /\ runs c (start_main id vs p last) /\
    trace c = [ETimer roundChangeTimeout]).
Proof.
  intros Hlp Hp Hn. unfold Start, StartNewRound. wp_step. apply wp_call_at; cbn [world NewEngine];
    rewrite Hlp; [done|]. intros a0 w1' [= <- <-].
  wp_step. unfold StartNewRound_decide. wp_steps. cbn [currentRoundState set_world NewEngine].
  wp_step. wp_step. unfold StartNewRound_view. wp_steps.
  apply wp_call_set_at; [done..|]. cbn [world set_world]. intros vs w2 Hvs. wp_steps.
  unfold updateRoundState. wp_steps. apply wp_setState_empty; [done..|].
  wp_step. unfold StartNewRound_propose. wp_steps. cbn. wp_steps.
  unfold newRoundChangeTimer, stopTimer. wp_steps. unfold emit, current. wp_steps. simpl.
  exists vs, w2. split; [done|]. split; [|done]. repeat split; simpl; try done.
  - intros i ref. by rewrite cache_elems_New, elem_of_nil.
  - intros r q. by rewrite elems_New, elem_of_nil.
Qed.

Lemma Start_runs id b w p last w1 vs w2 :
  be_LastProposal w = Ret ((Some p, last), w1) -> be_Validators p w1 = Ret (Some vs, w2) ->
  exists c, Start (NewEngine id b w) = Ret (tt, c) /\ runs c (start_main id vs p last) /\
    trace c = [ETimer roundChangeTimeout].
Proof.
  intros Hlp Hvs. pose proof (wp_Start (MF := False) id b w p last w1 Hlp) as H.
  rewrite Hvs in H. specialize (H ltac:(done) ltac:(done)).
  apply wp_returns in H as ([] & c & E1 & vs' & w2' & [= <- <-] & H1 & H2); [|by intros []]. by exists c.
Qed.

(** The state of a node that has started. *)
Lemma Start_state id b w p last w1 c :
  be_LastProposal w = Ret ((Some p, last), w1) -> Start (NewEngine id b w) = Ret (tt, c) ->
  exists vs w2, be_Validators p w1 = Ret (Some vs, w2) /\ runs c (start_main id vs p last) /\
    trace c = [ETimer roundChangeTimeout].
Proof.
  intros Hlp Hs. pose proof (wp_Start (MF := True) id b w p last w1 Hlp ltac:(done) ltac:(done)) as H.
  exact (wp_Ret _ _ _ _ _ H Hs).
Qed.

(** C25. [Start] on a chain with a head [p], with a backend that has
    validators for it: it returns, the node waits for a
    proposal of round 0 for the next height, with the validators that the
    backend gives for [p] and the proposer computed from the last one, no
    vote is recorded, and only the round timer was started. *)
Theorem Start_correct id b w p last w1 vs w2 :
  be_LastProposal w = Ret ((Some p, last), w1) -> be_Validators p w1 = Ret (Some vs, w2) ->
  exists c m, Start (NewEngine id b w) = Ret (tt, c) /\ runs c m /\ main_inv m /\
    accepting m /\ at_view m (Height p + 1, 0) /\
    m_vs m = CalcProposer vs last 0 /\
    MessageSet_Size (Prepares (m_rs m)) = 0 /\ MessageSet_Size (Commits (m_rs m)) = 0 /\
    IsHashLocked (m_rs m) = false /\
    trace c = [ETimer roundChangeTimeout].
Proof.
  intros Hlp Hvs. destruct (Start_runs id b w p last w1 vs w2 Hlp Hvs) as (c & H1 & H2 & H3).
  eexists c, _. split; [done|]. split; [exact H2|]. split; [apply start_main_inv|].
  split; [done|]. split; [split; [apply next_height_sequence|done]|].
  repeat split; try done. simpl. unfold IsHashLocked; simpl.
  by rewrite (proj2 (Hash_Nil_spec ZeroHash) eq_refl).
Qed.

(** [Start] on a chain without a head does not return an error: it
    dereferences the missing proposal. *)
Theorem Start_no_head id b w last w1 :
  be_LastProposal w = Ret ((None, last), w1) -> Start (NewEngine id b w) = Panic.
Proof.
  intros Hlp. unfold Start, StartNewRound, call, mbind, prog_bind. cbn [world NewEngine].
  by rewrite Hlp.
Qed.

(** [Start] with a backend that has no validators for the head, which answers
    nil or panics. *)
Lemma Start_no_validators id b w p last w1 :
  be_LastProposal w = Ret ((Some p, last), w1) ->
  (forall vs w2, be_Validators p w1 <> Ret (Some vs, w2)) ->
  Start (NewEngine id b w) = CalleePanic.
Proof.
  intros Hlp Hn. pose proof (wp_Start (MF := True) id b w p last w1 Hlp ltac:(done) ltac:(done)) as H.
  apply wp_cases in H as [([] & c & _ & vs & w2 & Hvs & _)|[? _]]; [by destruct (Hn vs w2)|done].
Qed.

(** ** Runs from the start *)

(** From [Start] on: the start, and a run of the protocol. *)
Lemma wp_Start_run id b w p last w1 evs :
  be_LastProposal w = Ret ((Some p, last), w1) -> Forall valid_event evs ->
  wp (Start;; run evs) (NewEngine id b w) (fun _ c => exists vs w2 m acts es,
    be_Validators p w1 = Ret (Some vs, w2) /\ runs c m /\ main_inv m /\
    steps (start_main id vs p last) acts m /\
    trace c = ETimer roundChangeTimeout :: es /\ Forall (justified id acts evs) es /\
    all_warranted evs es acts).
Proof.
  intros Hlp Hv. apply wp_bind. eapply wp_mono.
  { apply (wp_Start id b w p last w1 Hlp).
    - intros who Hw. apply (fails_Validators p). by exists w1, who.
    - intros w2 Hw. apply (nil_Validators p). by exists w1, w2. }
  intros [] c0 (vs & w2 & Hvs & H2 & H3). cbv beta.
  eapply wp_mono; [exact (run_refines_lemma evs c0 _ H2 (start_main_inv _ _ _ _) Hv)|].
  intros [] c (m & acts & es & J1 & J2 & J3 & J4 & J5 & J6). exists vs, w2, m, acts, es.
  split; [done|]. split; [done|]. split; [done|]. split; [done|]. by rewrite J4, H3.
Qed.

(** ** What the node says *)

(** The vote messages that a node sent: their code and subject. *)
Definition sent_vote (tr : list effect) (code : Z) (sub : Subject) : Prop :=
  exists payload msg, EGoLocal payload ∈ tr /\ DecodeMessage payload = Some msg /\
    Code msg = code /\ DecodeSubject (Msg msg) = Some sub.

(** The vote answers a PRE-PREPARE among the events, for a block that the
    backend says it has. *)
Definition for_old_block (evs : list event) (sub : Subject) : Prop :=
  exists ev msg, ev ∈ evs /\ carries ev msg /\ old_proposal msg sub.

(** A vote message is one of the votes of the run. *)
Lemma sent_vote_act id m0 acts m evs c es code sub :
  steps m0 acts m -> trace c = ETimer roundChangeTimeout :: es ->
  Forall (justified id acts evs) es -> sent_vote (trace c) code sub ->
  code = MsgPrepare \/ code = MsgCommit ->
  exists a, a ∈ acts /\ subject_of_act a = Some sub /\
    match a with APrepare _ => code = MsgPrepare | _ => code = MsgCommit end.
Proof.
  intros Hs Ht Hj (payload & msg & Hin & Hd & Hc & Hsub) Hcode. rewrite Ht in Hin.
  apply elem_of_cons in Hin as [[=]|Hin]. rewrite Forall_forall in Hj.
  destruct (Hj _ Hin) as [[[]|(a & Ha & Han)]|(data & _ & ids & [=])].
  assert (Hown : exists code bytes, act_message a = Some (code, Some bytes) /\
    own id code bytes (EGoLocal payload)) by by destruct a.
  destruct Hown as (code' & bytes & Hm & msg' & Hd' & <- & <- & _).
  assert (msg' = msg) as -> by congruence. exists a. split; [done|].
  assert (He : exists s, subject_of_act a = Some s /\ EncodeSubject s = Some (Msg msg)).
  { destruct a; cbn in Hm; try done; simplify_eq; try (by eexists);
      unfold MsgPrePrepare, MsgPrepare, MsgCommit, MsgRoundChange in *; lia. }
  destruct He as (s & Hsa & He). destruct (steps_subject_full _ _ _ _ _ Hs Ha Hsa) as (q & r & d & ->).
  apply DecodeSubject_Encode in He. rewrite Hsub in He. injection He as ->. split; [done|].
  destruct a; cbn in Hm, Hsa; simplify_eq; done.
Qed.

End Correctness.
