(* ===== verification/Rounds.v ===== *)
(** * Rounds: what round changes, timeouts and new rounds lead to

    The handlers that change the round (core/round.go, [handleTimeoutMsg] of
    core/pbft.go): for each, as a relation between the main state before, the
    answers of the backend, and the result, the state and the votes sent after,
    what it does on every branch. *)

From S2P Require Import Prelude Types Interfaces MessageSet Quorum RoundState CoreState Backlog Broadcast Round Phases Loop CoreSpec BroadcastSpec BacklogSpec Node Refinement CoreRefinement Handlers Correctness.

Section Rounds.
Context `{E : Env, L : !EnvLaws E}.

(** ** A new round *)

(** The first round of the height after [p], with validators [vs]. *)
Definition new_height_main (m : main) (vs : ValidatorSet) (p : Proposal) (last : string) : main :=
  mkMain (m_id m) StateAcceptRequest false (CalcProposer vs last (big_Uint64 0)) (next_height vs p)
    (newRoundChangeSet vs).

(** Round [rnd] of the same height: the lock and its proposal are kept. *)
Definition new_round_main (m : main) (rnd : Z) (last : string) : main :=
  mkMain (m_id m) StateAcceptRequest false (CalcProposer (m_vs m) last (big_Uint64 rnd))
    (next_round (m_vs m) rnd (m_rs m)) (newRoundChangeSet (m_vs m)).

(** [StartNewRound rnd] in round [cr]: if the chain has a block of this height
    the next height, with the validators the backend gives, and if its head
    is the block before it the round, unless that is over. *)
Definition starts_round (m : main) (cr rnd : Z) (w : World) (m' : main) : Prop :=
  match be_LastProposal w with
  | Ret ((Some p, last), w1) =>
      if sequence (m_rs m) <=? Height p
      then exists vs w2, be_Validators p w1 = Ret (Some vs, w2) /\ m' = new_height_main m vs p last
      else if (Height p =? u64 (sequence (m_rs m) - 1)) && negb (rnd =? 0) && (cr <=? rnd)
      then m' = new_round_main m rnd last else m' = m
  | Ret ((None, _), _) => m' = m
  | Fail _ => False
  end.

(** The move to a round without starting it: the vote for it is sent. *)
Definition goes_to (m : main) (rnd : Z) (m' : main) (es : list effect) : Prop :=
  m' = after_round_change m rnd /\ then_sends (m_id m) (round_vote m rnd) es.

(** What a program ends in; what else it sends is covered by [run_refines]. *)
Definition arrives {A} (p : prog core A) (c : core) (Q : A -> main -> list effect -> Prop) : Prop :=
  wp p c (fun a c' => exists m' es, runs c' m' /\ trace c' = trace c ++ es /\ Q a m' es).

Lemma arrives_spec {A} (p : prog core A) c m (Q : A -> main -> list effect -> Prop) :
  runs c m -> spec p m Q -> arrives p c Q.
Proof. intros Hc Hs. exact (Hs c Hc). Qed.

Lemma arrives_ret {A} (a : A) c m (Q : A -> main -> list effect -> Prop) :
  runs c m -> Q a m [] -> arrives (mret a) c Q.
Proof. intros Hc HQ. exists m, []. by rewrite app_nil_r. Qed.

Lemma arrives_call {A B} (f : prog World A) (g : A -> prog core B) c
    (Q : B -> main -> list effect -> Prop) :
  (panics f -> callee_fails) ->
  (forall a w, f (world c) = Ret (a, w) -> arrives (g a) (set_world w c) Q) ->
  arrives (call f ≫= g) c Q.
Proof. intros Hp Ha. apply wp_bind, wp_call; [done|]. exact Ha. Qed.

(** Going on after a program that sends nothing more. *)
Lemma arrives_then {A B} (p : prog core A) (b : B) c (Q : A -> main -> list effect -> Prop)
    (R : B -> main -> list effect -> Prop) :
  arrives p c Q -> (forall a m' es, Q a m' es -> R b m' es) -> arrives (p ≫= fun _ => mret b) c R.
Proof.
  intros Hp HR. apply wp_bind. eapply wp_mono; [exact Hp|].
  intros a c' (m' & es & ? & ? & ?). apply wp_ret. exists m', es. eauto.
Qed.

Definition decision (m : main) (cr rnd : Z) (lp : option Proposal) : option bool :=
  match lp with
  | None => None
  | Some p =>
      if sequence (m_rs m) <=? Height p then Some false
      else if (Height p =? u64 (sequence (m_rs m) - 1)) && negb (rnd =? 0) && (cr <=? rnd)
      then Some true else None
  end.

Lemma wp_decide c m cr rnd lp (Q : option bool -> core -> Prop) :
  runs c m -> round (m_rs m) = Some cr ->
  (forall c', runs c' m -> world c' = world c -> trace c' = trace c -> Q (decision m cr rnd lp) c') ->
  wp (StartNewRound_decide rnd lp) c Q.
Proof.
  intros Hc Hr HQ. unfold StartNewRound_decide. wp_steps. rewrite (runs_rs _ _ Hc).
  unfold decision in HQ. destruct lp as [p|]; [|wp_steps; by apply HQ].
  destruct (sequence (m_rs m) <=? Height p).
  { wp_steps. apply HQ; [|done..]. by destruct Hc as [? ? ? ? ? ? [? ?]]; repeat split. }
  destruct (Height p =? u64 (sequence (m_rs m) - 1)); [|wp_steps; by apply HQ].
  rewrite andb_true_l in HQ.
  destruct (big_Cmp_spec rnd 0) as [[? Hz]|[[? Hz]|[? Hz]]]; rewrite Hz; simpl;
    destruct (Z.eqb_spec rnd 0); try lia; simpl in HQ; [|wp_steps; by apply HQ|].
  all: wp_steps; destruct (big_Cmp_spec rnd cr) as [[? Hz']|[[? Hz']|[? Hz']]]; rewrite Hz'; simpl;
    destruct (Z.leb_spec cr rnd); try lia; wp_steps; by apply HQ.
Qed.

Lemma arrives_StartNewRound c m cr rnd :
  runs c m -> main_inv m -> round (m_rs m) = Some cr -> may_start m rnd ->
  arrives (StartNewRound rnd) c (fun _ m' _ => starts_round m cr rnd (world c) m').
Proof.
  intros Hc Hm Hr Hmay. unfold StartNewRound, starts_round. apply arrives_call; [backend_call|].
  intros [lp last] w1 Hlp. rewrite Hlp. cbn [fst snd].
  set (c1 := set_world w1 c). assert (Hc1 : runs c1 m) by by apply runs_set_world.
  apply wp_bind, (wp_decide c1 m cr rnd lp); [done..|]. intros c2 Hc2 Hw2 Ht2. unfold decision.
  change (trace c) with (trace c1). rewrite <- Ht2.
  destruct lp as [p|]; [|by apply (arrives_ret _ _ m)].
  destruct (Z.leb_spec (sequence (m_rs m)) (Height p)) as [Hle|Hlt].
  - unfold StartNewRound_view. do 4 wp_step. apply wp_call_set; [backend_call..|].
    intros vs w2. rewrite Hw2. change (world c1) with w1. intros Hvs. do 3 wp_step.
    match goal with |- wp _ ?x _ => set (c3 := x) end. assert (Hc3 : runs c3 (m_set_vs vs m)).
    { by destruct Hc2 as [? ? ? ? ? ? [? ?]]; repeat split. }
    change (trace c2) with (trace c3). apply (arrives_spec _ c3 (m_set_vs vs m)); [done|]. do 3 spec_step.
    eapply spec_mono.
    { eapply (refines_enter (fun _ _ => True) _ vs last false (next_height vs p) 0 m (new_height_main m vs p last)
        (fun _ m' => m' = new_height_main m vs p last)); try done.
      by apply (st_new_height m p vs last). }
    intros [] m' es (acts & _ & _ & _ & ->). by exists vs, w2.
  - destruct (Height p =? u64 (sequence (m_rs m) - 1)); [|by apply (arrives_ret _ _ m)].
    destruct (Z.eqb_spec rnd 0) as [|Hrnd]; [by apply (arrives_ret _ _ m)|].
    destruct (Z.leb_spec cr rnd) as [Hcr|]; [|by apply (arrives_ret _ _ m)]. cbn [andb negb].
    apply (arrives_spec _ c2 m); [done|]. unfold StartNewRound_view. cbv iota. do 7 spec_step.
    eapply spec_at; [apply m_set_vs_eta|]. eapply spec_mono.
    { eapply (refines_enter (fun _ _ => True) _ _ last true (next_round (m_vs m) rnd (m_rs m)) rnd m
        (new_round_main m rnd last) (fun _ m' => m' = new_round_main m rnd last));
        try done; try apply newRoundState_next.
      destruct Hmay as [?|(r' & Hr' & Hor & Hq)]; [lia|]. simplify_eq.
      eapply st_new_round; [eassumption|lia|exact Hor|exact Hq]. }
    intros [] m' es (acts & _ & _ & _ & ->). done.
Qed.

(** ** ROUND-CHANGE messages *)

(** What a ROUND-CHANGE message leads to in round [cr]. *)
Definition round_change_outcome (m : main) (cr : Z) (msg : Message) (w : World)
    (e : err) (m' : main) (es : list effect) : Prop :=
  match DecodeSubject (Msg msg) ≫= sub_View with
  | Some (mkView (Some s) (Some q)) =>
      match vote_verdict m cr MsgRoundChange (full_view s q) with
      | Some why => e = Some why /\ m' = m /\ es = []
      | None =>
          let '((num, why), rcs) := roundChangeSet_Add (m_rcs m) q msg in
          let m1 := m_set_rcs rcs m in
          match why with
          | Some why => e = Some why /\ m' = m1 /\ es = []
          | None =>
              if reachThreshold (m_vs m) num && (m_waiting m || (cr <? q))
              then e = None /\ starts_round m1 cr q w m'
              else if m_waiting m && (num =? FaultTolerantNum (m_vs m) + 1)
              then e = None /\ if cr <? q then goes_to m1 q m' es else m' = m1 /\ es = []
              else e = (if cr <? q then Some errIgnored else None) /\ m' = m1 /\ es = []
          end
      end
  | _ => e = Some errInvalidMessage /\ m' = m /\ es = []
  end.

Lemma big_Cmp_ltb a b : (big_Cmp a b <? 0) = (a <? b).
Proof.
  destruct (big_Cmp_spec a b) as [[? ->]|[[? ->]|[? ->]]]; destruct (Z.ltb_spec a b); lia || done.
Qed.

Lemma arrives_sendRoundChange c m cr rnd :
  runs c m -> main_inv m -> round (m_rs m) = Some cr -> cr < rnd ->
  arrives (sendRoundChange rnd) c (fun _ m' es => goes_to m rnd m' es).
Proof.
  intros Hc Hm Hr Hlt. apply (arrives_spec _ c m); [done|].
  apply (spec_sendRoundChange rnd cr); [done..|]. by intros es Hes.
Qed.

(** C23. [HandleRoundChange] on every branch: an undecodable or old message and
    one for a later height are refused and change nothing; a vote of a
    stranger is refused; any other is counted for its round. When it makes a
    quorum the node starts the round, or the next height if the chain has
    grown; when it is the [f + 1]st and the node waits for a round change, the
    node moves to the round and sends its vote for it; otherwise it stays and
    sends nothing. *)
Theorem HandleRoundChange_correct c m cr msg val :
  runs c m -> main_inv m -> round (m_rs m) = Some cr -> Code msg = MsgRoundChange ->
  wp (HandleRoundChange msg val) c (fun e c' => exists m' es,
    runs c' m' /\ trace c' = trace c ++ es /\ round_change_outcome m cr msg (world c) e m' es).
Proof.
  intros Hc Hm Hr Hcode. change (arrives (HandleRoundChange msg val) c
    (round_change_outcome m cr msg (world c))).
  unfold HandleRoundChange, round_change_outcome.
  destruct (DecodeSubject (Msg msg)) as [rc|] eqn:Hd; [|by apply (arrives_ret _ _ m)].
  destruct (DecodeSubject_full _ _ Hd) as (s & q & Hv). cbn [mbind option_bind]. rewrite Hv.
  unfold full_view at 3. cbn match. fold (full_view s q). unfold arrives. wp_steps.
  rewrite (checkMessage_full c m cr MsgRoundChange s q Hc Hr). wp_step.
  change (vote_verdict m cr MsgRoundChange (full_view s q)) with
    (check_spec MsgRoundChange s q (i64 (sequence (m_rs m))) cr (m_waiting m) (m_state m)).
  destruct (check_spec MsgRoundChange s q _ _ _ _) as [e|] eqn:Hck; [by apply (arrives_ret _ _ m)|].
  rewrite (currentView_runs c m cr Hc Hr). wp_steps. eapply wp_load; [apply Hc|].
  pose proof (st_round_vote m q msg Hcode) as Hst.
  destruct (roundChangeSet_Add (m_rcs m) q msg) as [[num e] rcs'] eqn:Ha. cbn [snd] in Hst.
  wp_steps. set (c1 := set_roundChangeSet (Some rcs') c). set (m1 := m_set_rcs rcs' m).
  change (trace c) with (trace c1). change (world c) with (world c1).
  assert (Hc1 : runs c1 m1) by by destruct Hc as [? ? ? ? ? ? [? ?]]; repeat split.
  destruct e as [e|]; [by apply (arrives_ret _ c1 m1)|].
  wp_step. eapply wp_load; [apply Hc|]. rewrite (runs_waiting _ _ Hc), !big_Cmp_ltb.
  assert (Hm1 : main_inv m1) by exact (step_inv _ _ _ Hst Hm).
  destruct (reachThreshold (m_vs m) num && (m_waiting m || (cr <? q))) eqn:Hreach.
  { eapply (arrives_then _ _ c1); [apply (arrives_StartNewRound c1 m1 cr q); try done|done].
    apply andb_true_iff in Hreach as [Hth Hor].
    destruct (roundChangeSet_Add_num _ _ _ _ _ Ha) as (ms & Hms & ->).
    right. exists cr. split; [done|]. split; [|by exists ms].
    pose proof (checked m cr _ s q Hm Hr Hck) as (_ & Hle & _).
    apply orb_true_iff in Hor as [Hw|Hlt%Z.ltb_lt]; [by left|by right]. }
  destruct (m_waiting m && (num =? FaultTolerantNum (m_vs m) + 1)).
  { destruct (Z.ltb_spec cr q) as [Hlt|]; cbn [when]; [|by wp_step; apply wp_ret, (arrives_ret _ c1 m1)].
    eapply (arrives_then _ _ c1); [by apply (arrives_sendRoundChange c1 m1 cr q)|done]. }
  destruct (cr <? q); by apply (arrives_ret _ c1 m1).
Qed.

(** ** Timeouts *)

(** Going on from round [cr]: to the next height if the chain has it, and else
    to the next round. *)
Definition moves_on (m : main) (cr : Z) (w : World) (m' : main) (es : list effect) : Prop :=
  match be_LastProposal w with
  | Ret ((Some p, _), w1) =>
      if sequence (m_rs m) <=? Height p then starts_round m cr 0 w1 m' else goes_to m (cr + 1) m' es
  | Ret ((None, _), _) => goes_to m (cr + 1) m' es
  | Fail _ => False
  end.

(** What a timeout in round [cr] leads to. *)
Definition timeout_outcome (m : main) (cr : Z) (w : World) (m' : main) (es : list effect) : Prop :=
  let m0 := m_set_rs (set_pendingRequest None (UnlockHash (m_rs m))) m in
  if m_waiting m then moves_on m0 cr w m' es
  else match roundChangeSet_MaxRound (m_rcs m) (FaultTolerantNum (m_vs m) + 1) with
       | Some r => if cr <? r then goes_to m0 r m' es else moves_on m0 cr w m' es
       | None => moves_on m0 cr w m' es
       end.

Lemma next_round_unlocked vs rnd rs : IsHashLocked rs = false -> IsHashLocked (next_round vs rnd rs) = false.
Proof.
  intros Hl. unfold next_round. rewrite Hl. unfold IsHashLocked; cbn.
  by rewrite (proj2 (Hash_Nil_spec ZeroHash) eq_refl).
Qed.

Lemma starts_round_unlocked m cr w m' :
  IsHashLocked (m_rs m) = false -> starts_round m cr 0 w m' -> IsHashLocked (m_rs m') = false.
Proof.
  intros Hl. unfold starts_round. destruct (be_LastProposal w) as [[[[p|] last] w1]|]; [|by intros ->|done].
  destruct (_ <=? _); [|rewrite andb_false_r; by intros ->]. intros (vs & w2 & _ & ->). unfold IsHashLocked; cbn.
  by rewrite (proj2 (Hash_Nil_spec ZeroHash) eq_refl).
Qed.

(** After a timeout the node is not locked. *)
Lemma timeout_unlocked m cr w m' es : timeout_outcome m cr w m' es -> IsHashLocked (m_rs m') = false.
Proof.
  unfold timeout_outcome. set (m0 := m_set_rs _ m).
  assert (H0 : IsHashLocked (m_rs m0) = false).
  { unfold IsHashLocked; cbn. by rewrite (proj2 (Hash_Nil_spec ZeroHash) eq_refl). }
  assert (Hn : forall r, goes_to m0 r m' es -> IsHashLocked (m_rs m') = false).
  { intros r [-> _]. by apply next_round_unlocked. }
  assert (Hb : moves_on m0 cr w m' es -> IsHashLocked (m_rs m') = false).
  { unfold moves_on. destruct (be_LastProposal w) as [[[[p|] last] w1]|]; [|by apply Hn|done].
    destruct (_ <=? _); [by apply starts_round_unlocked|by apply Hn]. }
  destruct (m_waiting m); [done|]. destruct (roundChangeSet_MaxRound _ _) as [r|]; [|done].
  by destruct (cr <? r); [apply Hn|].
Qed.

Lemma big_Cmp_gtb a b : (0 <? big_Cmp a b) = (b <? a).
Proof.
  destruct (big_Cmp_spec a b) as [[? ->]|[[? ->]|[? ->]]]; destruct (Z.ltb_spec b a); lia || done.
Qed.

Lemma arrives_moves_on c m cr :
  runs c m -> main_inv m -> round (m_rs m) = Some cr ->
  arrives ('(lastProposal, _) ← call be_LastProposal;
    match lastProposal with
    | None => sendNextRoundChange
    | Some p =>
        rs ← current;
        if sequence rs <=? Height p then StartNewRound 0 else sendNextRoundChange
    end) c (fun _ => moves_on m cr (world c)).
Proof.
  intros Hc Hm Hr.
  assert (Hnext : forall c2, runs c2 m ->
    arrives sendNextRoundChange c2 (fun _ => goes_to m (cr + 1))).
  { intros c2 Hc2. apply (arrives_spec _ c2 m); [done|]. apply (spec_sendNextRoundChange cr); [done..|].
    by intros es Hes. }
  apply arrives_call; [backend_call|]. unfold moves_on. intros [lp last] w1 Hlp. rewrite Hlp. cbn [fst snd].
  set (c1 := set_world w1 c). assert (Hc1 : runs c1 m) by by apply runs_set_world.
  destruct lp as [p|]; [|by apply Hnext].
  unfold current, arrives. do 3 wp_step. eapply wp_load; [apply Hc1|].
  destruct (sequence (m_rs m) <=? Height p); [|by apply Hnext].
  apply (arrives_StartNewRound c1 m cr 0); [done..|by left].
Qed.

(** C24. A timeout drops the lock and the pending request, in every case; then
    the node moves on and sends its vote for a later round (the greatest one
    that [f + 1] others vote for, if that is later, or the next one), or
    starts the next height when the chain has grown. *)
Theorem handleTimeoutMsg_correct c m cr :
  runs c m -> main_inv m -> round (m_rs m) = Some cr ->
  wp handleTimeoutMsg c (fun _ c' => exists m' es,
    runs c' m' /\ trace c' = trace c ++ es /\ timeout_outcome m cr (world c) m' es /\
    IsHashLocked (m_rs m') = false).
Proof.
  intros Hc Hm Hr.
  assert (H : arrives handleTimeoutMsg c (fun _ => timeout_outcome m cr (world c))).
  2: { eapply wp_mono; [exact H|]. intros [] c' (m' & es & ? & ? & ?). exists m', es.
       eauto using timeout_unlocked. }
  unfold timeout_outcome. set (m0 := m_set_rs _ m).
  assert (Hm0 : main_inv m0).
  { apply (step_inv (m_set_rs (UnlockHash (m_rs m)) m) []); [|by apply (steps_inv _ _ _ (steps_unlock m))].
    exact (st_drop_pending (m_set_rs (UnlockHash (m_rs m)) m)). }
  unfold handleTimeoutMsg, arrives. wp_steps. rewrite (runs_rs _ _ Hc). wp_step.
  set (c1 := set_currentRoundState _ c).
  assert (Hc1 : runs c1 m0) by by destruct Hc as [? ? ? ? ? ? [? ?]]; repeat split.
  pose proof (arrives_moves_on c1 m0 cr Hc1 Hm0 Hr) as Hmove.
  unfold timeout_catchUp. do 3 wp_step. rewrite (runs_waiting _ _ Hc1). change (m_waiting m0) with (m_waiting m).
  destruct (m_waiting m); [by apply wp_ret|].
  do 2 (wp_step; eapply wp_load; [apply Hc1|]).
  change (m_rcs m0) with (m_rcs m). change (m_vs m0) with (m_vs m).
  destruct (roundChangeSet_MaxRound _ _) as [r|]; [|by apply wp_ret].
  unfold current. wp_step. wp_step. wp_step. eapply wp_load; [apply Hc1|].
  wp_step. eapply wp_load; [exact Hr|]. rewrite big_Cmp_gtb.
  destruct (Z.ltb_spec cr r) as [Hlt|]; [|by apply wp_ret].
  wp_step. eapply wp_mono; [by apply (arrives_sendRoundChange c1 m0 cr r)|].
  intros [] c2 (m2 & es & Hc2 & Ht2 & Hg). apply wp_ret, wp_ret. by exists m2, es.
Qed.
End Rounds.
