(* ===== verification/Decided.v ===== *)
(** * Decided: what a node in state Committed knows

    Between two events a node that has decided a block is in the state
    Committed and still holds the COMMIT messages that made it decide.  The
    invariant [certificate_held] says so; with it, agreement is a statement
    about the states that nodes are in, and not only about their steps. *)

From S2P Require Import Prelude Types Interfaces MessageSet Quorum RoundState CoreState Backlog Broadcast Round Phases Loop CoreSpec BroadcastSpec BacklogSpec Node Refinement CoreRefinement Safety Correctness.

Section Decided.
Context `{E : Env, L : !EnvLaws E}.

Definition committed (m : main) : Prop := m_state m = StateCommitted /\ m_waiting m = false.

Definition certificate_held (m : main) : Prop :=
  committed m -> reachThreshold (m_vs m) (MessageSet_Size (Commits (m_rs m))) = true.

(** More votes do not undo a quorum. *)
Lemma reachThreshold_mono vs n n' :
  n <= n' <= Size vs -> reachThreshold vs n = true -> reachThreshold vs n' = true.
Proof.
  unfold reachThreshold. intros Hn. destruct (_ =? 0).
  - rewrite !Z.eqb_eq. lia.
  - destruct (Z.ltb_spec (2 * FaultTolerantNum vs) n), (Z.ltb_spec (2 * FaultTolerantNum vs) n');
      done || lia.
Qed.

(** The senders of a set of votes are validators. *)
Lemma senders_valid vs ms : set_ok vs ms -> senders ms ⊆ list_to_set (ID <$> List vs).
Proof.
  intros [Hwf Hvs] i [msg Hi]%elem_of_senders. rewrite elem_of_list_to_set. apply member_of_set.
  rewrite <- Hvs. by apply (Hwf i msg).
Qed.

Lemma set_ok_size vs ms : set_ok vs ms -> MessageSet_Size ms <= Size vs.
Proof.
  intros Hs%senders_valid%subseteq_size. rewrite <- size_senders, Size_List.
  apply Nat2Z.inj_le. etrans; [exact Hs|]. etrans; [apply size_list_to_set_le|].
  by rewrite length_fmap.
Qed.

Lemma MessageSet_Add_Size ms msg : MessageSet_Size ms <= MessageSet_Size (MessageSet_Add ms msg).2.
Proof.
  unfold MessageSet_Add, MessageSet_Size. destruct (MessageSet_verify ms msg); simpl; [lia|].
  rewrite map_size_insert. destruct (messages ms !! _); simpl; lia.
Qed.

Lemma step_certificate m a m' :
  main_inv m -> step m a m' -> certificate_held m -> certificate_held m'.
Proof.
  intros Hm Hs Hc.
  assert (Hm' : main_inv m') by by eapply step_inv.
  destruct Hs; try done; unfold certificate_held, committed in *; simpl in *; try done;
    try (by intros [? ?]); try (intros [? ?]; congruence).
  - (* a COMMIT *) intros Hd. eapply reachThreshold_mono; [|by apply Hc]. split; [apply MessageSet_Add_Size|].
    apply (set_ok_size _ _ (inv_commits _ _ (inv_rs _ Hm'))).
  - (* the decision *) intros _. destruct (LockHash_fields _ _ H5) as (_ & _ & _ & _ & -> & _). done.
Qed.

Lemma steps_certificate m acts m' :
  main_inv m -> steps m acts m' -> certificate_held m -> certificate_held m'.
Proof.
  intros Hm Hs. induction Hs as [|m1 m2 m3 a1 a2 H1 _ IH]; [done|]. intros Hc.
  apply IH; [by eapply step_inv|by eapply step_certificate].
Qed.

(** The certificate of a committed node. *)
Lemma committed_certificate m p :
  main_inv m -> certificate_held m -> committed m -> roundState_Proposal (m_rs m) = Some p ->
  exists sub w, sub_View sub ≫= pair_of = Some w /\ at_view m w /\ Digest sub = HashOf p /\
    quorum (m_vs m) (senders (Commits (m_rs m))) /\
    forall i, i ∈ senders (Commits (m_rs m)) -> exists msg,
      messages (Commits (m_rs m)) !! i = Some msg /\ DecodeSubject (Msg msg) = Some sub.
Proof.
  intros Hm Hh Hc Hp. destruct (at_view_exists m Hm) as [w Hw].
  destruct (Subject_Ret _ _ (inv_rs _ Hm)) as [o Ho].
  assert (exists sub, o = Some sub) as [sub ->].
  { pose proof Hp as Hp'. unfold roundState_Proposal in Hp'. unfold roundState_Subject in Ho.
    destruct (rs_PrePrepare (m_rs m)) as [pp|]; [|done].
    destruct (round (m_rs m)); [|done]. rewrite Hp' in Ho. cbn in Ho. injection Ho as <-. eauto. }
  destruct (Subject_Some m sub w Hm Hw Ho) as [Hsv (p' & Hp' & Hd)].
  destruct (commits_certificate m sub Hm Ho (Hh Hc)) as [HQ Hmsgs].
  exists sub, w. split; [done|]. split; [done|]. split; [congruence|]. split; [done|].
  intros i Hi. destruct (Hmsgs i Hi) as (msg & ? & _ & _ & ?). by exists msg.
Qed.

(** Two committed nodes at the same height hold the same block. *)
Lemma committed_agree m1 m2 p1 p2 (F : gset string) (from to : string -> main)
    (acts : string -> list act) :
  main_inv m1 -> main_inv m2 -> certificate_held m1 -> certificate_held m2 ->
  committed m1 -> committed m2 -> sequence (m_rs m1) = sequence (m_rs m2) ->
  roundState_Proposal (m_rs m1) = Some p1 -> roundState_Proposal (m_rs m2) = Some p2 ->
  HashOf p1 <> ZeroHash -> HashOf p2 <> ZeroHash ->
  List (m_vs m1) = List (m_vs m2) ->
  0 < Size (m_vs m1) < 2 ^ 53 -> Size (m_vs m1) mod 3 = 1 \/ Size (m_vs m1) <= 3 ->
  Z.of_nat (size F) <= FaultTolerantNum (m_vs m1) ->
  (forall i, i ∉ F -> main_inv (from i) /\ steps (from i) (acts i) (to i) /\
     AUnlock (sequence (m_rs m1)) ∉ acts i) ->
  (forall m i msg s, m = m1 \/ m = m2 -> i ∉ F ->
    messages (Commits (m_rs m)) !! i = Some msg -> DecodeSubject (Msg msg) = Some s ->
    ACommit s ∈ acts i) ->
  HashOf p1 = HashOf p2.
Proof.
  intros I1 I2 C1 C2 D1 D2 Hseq P1 P2 Z1 Z2 Hl Hn Hmod HF Hruns Hauth.
  destruct (committed_certificate m1 p1 I1 C1 D1 P1) as (s1 & w1 & V1 & [A1 _] & E1 & Q1 & M1).
  destruct (committed_certificate m2 p2 I2 C2 D2 P2) as (s2 & w2 & V2 & [A2 _] & E2 & Q2 & M2).
  rewrite <- E1, <- E2. apply (backed_agree (m_vs m1) (m_vs m2) F acts (sequence (m_rs m1)));
    try done; try congruence.
  - rewrite A1. eapply votes_backed; try done. intros i msg s. apply Hauth. by left.
  - rewrite Hseq, A2. eapply votes_backed; try done. intros i msg s. apply Hauth. by right.
  - intros i _ HiF. exists (from i), (to i). by apply Hruns.
Qed.

Lemma runs_fun c m m' : runs c m -> runs c m' -> m = m'.
Proof.
  intros [H1 H2 H3 H4 H5 H6 _] [K1 K2 K3 K4 K5 K6 _]. destruct m, m'; simpl in *. congruence.
Qed.

(** A run from the start, with the certificate of the state it ends in. *)
Lemma wp_Start_run_steps id b w p last w1 evs :
  be_LastProposal w = Ret ((Some p, last), w1) -> Forall valid_event evs ->
  wp (Start;; run evs) (NewEngine id b w) (fun _ c => exists vs w2 m acts es,
    be_Validators p w1 = Ret (Some vs, w2) /\ runs c m /\ main_inv m /\ certificate_held m /\
    steps (start_main id vs p last) acts m /\
    trace c = ETimer roundChangeTimeout :: es /\ Forall (justified id acts evs) es).
Proof.
  intros Hlp Hv. eapply wp_mono; [by apply (wp_Start_run id b w p last w1 evs)|].
  intros [] c (vs & w2 & m & acts & es & H1 & H2 & H3 & H4 & H5 & H6 & _).
  exists vs, w2, m, acts, es. do 3 (split; [done|]). split; [|done].
  eapply steps_certificate; [apply start_main_inv|done|]. by intros [? _].
Qed.
End Decided.
