(* ===== verification/Network.v ===== *)
(** * Network: many nodes, some of them faulty

    A network of nodes that run the core, each on a chain of its own, and of
    faulty validators, which are the network itself: it may deliver any
    bytes to any node, as often and in whatever order it likes.  The one
    restriction is that a message in the name of a correct node is one that
    this node has sent; the core does not check signatures
    ([checkValidatorSignature]), so this is an assumption on the transport.

    Each node carries, as a ghost state that the steps extend, the events it
    has handled and the history of its actions in the abstract protocol of
    [Node]. *)

From S2P Require Import Prelude Types Interfaces MessageSet Quorum RoundState CoreState Backlog Broadcast Round Phases Loop Provenance CoreSpec BroadcastSpec BacklogSpec Node Refinement CoreRefinement Safety Correctness Decided.

Section Network.
Context `{E : Env, L : !EnvLaws E}.

Record replica := mkReplica {
  r_core : core;
  r_evs : list event;  (* the events it handled *)
  r_acts : list act;  (* what it did so far, oldest first *)
}.

(** The correct nodes, by name. *)
Abbreviation network := (gmap string replica).

(** The node has sent this message.  [Broadcast] gives the payload to its
    own loop and to the peers. *)
Definition said (r : replica) (msg : Message) : Prop :=
  exists payload, EGoLocal payload ∈ trace (r_core r) /\ DecodeMessage payload = Some msg.

(** A message in the name of a correct node comes from this node. *)
Definition genuine (n : network) (msg : Message) : Prop :=
  forall r, n !! Msg_Validator msg = Some r -> said r msg.

(** What may happen at a node: bytes from the network, and what the node has
    sent to itself; requests, timeouts and news of the chain at any time. *)
Definition deliverable (n : network) (r : replica) (ev : event) : Prop :=
  match ev with
  | EvP2P data => forall msg, DecodeMessage data = Some msg -> genuine n msg
  | EvLocal payload => EGoLocal payload ∈ trace (r_core r)
  | EvBacklog msg val => EGoBacklog val msg ∈ trace (r_core r)
  | EvRequest request => is_Some (rq_Proposal request)
  | EvFinalCommit | EvTimeout => True
  end.

(** [acts] is what the node did, in the abstract protocol, when it handled
    [ev]: the refinement of [Correctness] for one event. *)
Definition history (id : string) (ev : event) (c : core) (acts : list act) (c' : core) : Prop :=
  exists m m' es, runs c m /\ runs c' m' /\ steps m acts m' /\
    trace c' = trace c ++ es /\ Forall (justified id acts [ev]) es /\ Forall (warranted ev es) acts.

Inductive net_step (n : network) : network -> Prop :=
| net_event id ev r c' acts :
    n !! id = Some r -> deliverable n r ev ->
    handle_event ev (r_core r) = Ret (tt, c') -> history id ev (r_core r) acts c' ->
    net_step n (<[id := mkReplica c' (r_evs r ++ [ev]) (r_acts r ++ acts)]> n).

(** The worlds in which a node may start. *)
Context (fresh : World -> Prop).

(** A node that has started, on a chain with a head. *)
Definition started (id : string) (r : replica) : Prop :=
  r_evs r = [] /\ r_acts r = [] /\
  exists b w p last w1, fresh w /\ be_LastProposal w = Ret ((Some p, last), w1) /\
    Start (NewEngine id b w) = Ret (tt, r_core r).

Inductive reachable : network -> Prop :=
| reach_start n : map_Forall started n -> reachable n
| reach_step n n' : reachable n -> net_step n n' -> reachable n'.

(** ** The invariant *)

(** The state of a node is that of a run on its own. *)
Definition own_run (id : string) (r : replica) : Prop :=
  exists b w p last w1, fresh w /\ be_LastProposal w = Ret ((Some p, last), w1) /\
    Forall valid_event (r_evs r) /\
    (Start;; run (r_evs r)) (NewEngine id b w) = Ret (tt, r_core r).

(** The history of a node explains its state and what it sent. *)
Record node_ok (id : string) (r : replica) (m : main) : Prop := {
  no_runs : runs (r_core r) m;
  no_id : m_id m = id;
  no_run : own_run id r;
  no_warranted : all_warranted (r_evs r) (trace (r_core r)) (r_acts r);
  no_inv : main_inv m;
  no_certificate : certificate_held m;
  no_history : exists m0, main_inv m0 /\ steps m0 (r_acts r) m;
  no_said : forall payload, EGoLocal payload ∈ trace (r_core r) ->
    explained id (r_acts r) (EGoLocal payload);
}.

Definition net_ok (n : network) : Prop :=
  forall id r, n !! id = Some r ->
    (exists m, node_ok id r m) /\ forall msg, holds (r_core r) msg -> genuine n msg.

(** What a node said carries its name and is one of its actions. *)
Lemma said_acted id r m msg :
  node_ok id r m -> said r msg ->
  Msg_Validator msg = id /\
  exists a, a ∈ r_acts r /\ act_message a = Some (Code msg, Some (Msg msg)).
Proof.
  intros Hr (payload & Hin & Hd). destruct (no_said _ _ _ Hr payload Hin) as [[]|(a & Ha & Han)].
  assert (Hown : exists code bytes, act_message a = Some (code, Some bytes) /\
    own id code bytes (EGoLocal payload)) by by destruct a.
  destruct Hown as (code & bytes & Hm & msg' & Hd' & <- & <- & Hid).
  assert (msg' = msg) as -> by congruence. eauto.
Qed.

(** What a node has said stays said. *)
Lemma said_mono (c : core) evs acts r es msg :
  trace c = trace (r_core r) ++ es -> said r msg -> said (mkReplica c evs acts) msg.
Proof.
  intros Ht (payload & Hin & Hd). exists payload. split; [|done]. simpl. rewrite Ht.
  apply elem_of_app. by left.
Qed.

Lemma genuine_mono n id r c evs acts es msg :
  n !! id = Some r -> trace c = trace (r_core r) ++ es ->
  genuine n msg -> genuine (<[id := mkReplica c evs acts]> n) msg.
Proof.
  intros Hr Ht Hg r'. rewrite lookup_insert_Some. intros [[Hid <-]|[_ Hr']]; [|by apply Hg].
  eapply said_mono; [exact Ht|]. apply Hg. by rewrite <- Hid.
Qed.

(** What is delivered brings genuine messages only. *)
Lemma deliverable_genuine n id r ev msg :
  net_ok n -> n !! id = Some r -> deliverable n r ev -> carries ev msg -> genuine n msg.
Proof.
  intros Hn Hr Hd Hc. destruct (Hn id r Hr) as [[m Hm] Hheld].
  destruct ev as [request|payload|msg' val| |data|]; simpl in Hd, Hc; try done.
  - assert (Hs : said r msg) by by exists payload.
    destruct (said_acted _ _ _ _ Hm Hs) as [Hid _]. intros r' Hr'. rewrite Hid in Hr'. by simplify_eq.
  - subst msg'. apply Hheld. by eapply held_posted.
  - by apply Hd.
Qed.

Lemma deliverable_valid n r ev : deliverable n r ev -> valid_event ev.
Proof. by destruct ev. Qed.

Lemma started_ok id r : started id r -> (exists m, node_ok id r m) /\ forall msg, ~ holds (r_core r) msg.
Proof.
  intros (Hevs & Ha & b & w & p & last & w1 & Hw & Hlp & Hs).
  destruct (Start_state id b w p last w1 _ Hlp Hs) as (vs & w2 & _ & Hc & Ht). split.
  - eexists. split; [exact Hc|done| | |apply start_main_inv|by intros [? _]| |].
    + exists b, w, p, last, w1. rewrite Hevs. unfold mbind, prog_bind. by rewrite Hs.
    + rewrite Ha. by intros a ?%not_elem_of_nil.
    + eexists. split; [apply start_main_inv|]. rewrite Ha. constructor.
    + intros payload. rewrite Ht. by intros ?%list_elem_of_singleton.
  - intros msg Hh. exact (prov_StartNewRound (fun _ => False) 0 _
      (only_NewEngine (fun _ => False) id b w) _ _ Hs msg Hh).
Qed.

Lemma run_snoc evs ev (c c1 c2 : core) :
  run evs c = Ret (tt, c1) -> handle_event ev c1 = Ret (tt, c2) -> run (evs ++ [ev]) c = Ret (tt, c2).
Proof.
  revert c. induction evs as [|ev' evs IH]; intros c; cbn [run app]; unfold mbind, prog_bind.
  - intros [= ->] ->. done.
  - destruct (handle_event ev' c) as [[[] c']|]; [|done]. apply IH.
Qed.

Lemma own_run_snoc id r ev c' acts :
  own_run id r -> valid_event ev -> handle_event ev (r_core r) = Ret (tt, c') ->
  own_run id (mkReplica c' (r_evs r ++ [ev]) acts).
Proof.
  intros (b & w & p & last & w1 & Hw & Hlp & Hv & Hr) Hev Hh. exists b, w, p, last, w1.
  split; [done|]. split; [done|]. split; [apply Forall_app; by repeat constructor|].
  revert Hr. unfold mbind, prog_bind. destruct (Start _) as [[[] c0]|]; [|done]. intros Hr.
  by eapply run_snoc.
Qed.

Lemma history_ok id r ev c' acts m :
  node_ok id r m -> valid_event ev -> handle_event ev (r_core r) = Ret (tt, c') -> history id ev (r_core r) acts c' ->
  exists m', node_ok id (mkReplica c' (r_evs r ++ [ev]) (r_acts r ++ acts)) m'.
Proof.
  intros [H1 H2 Hrun HW H3 H4 (m0 & H5 & H6) H7] Hv Hev (m1 & m' & es & R1 & R2 & Hs & Ht & Hj & Hw).
  assert (m1 = m) as -> by by eapply runs_fun. exists m'. split; simpl; [done|..].
  - by rewrite (steps_id _ _ _ Hs).
  - by eapply own_run_snoc.
  - rewrite Ht. apply all_warranted_app; [done|by apply all_warranted_one].
  - by eapply steps_inv.
  - by apply (steps_certificate m acts).
  - exists m0. split; [done|]. by eapply steps_trans.
  - intros payload. rewrite Ht. intros [Hin|Hin]%elem_of_app.
    + eapply explained_mono; [|by apply H7]. set_solver.
    + rewrite Forall_forall in Hj. destruct (Hj _ Hin) as [He|(data & _ & ids & He)]; [|done].
      eapply explained_mono; [|exact He]. set_solver.
Qed.

Lemma net_step_ok n n' : net_ok n -> net_step n n' -> net_ok n'.
Proof.
  intros Hn [id ev r c' acts Hr Hd Hev Hh]. destruct (Hn id r Hr) as [[m Hm] Hheld].
  pose proof Hh as (_ & _ & es & _ & _ & _ & Ht & _).
  assert (Hmono : forall msg, genuine n msg -> genuine (<[id := mkReplica c' (r_evs r ++ [ev]) (r_acts r ++ acts)]> n) msg).
  { intros msg. by eapply genuine_mono. }
  intros id' r'. rewrite lookup_insert_Some. intros [[<- <-]|[_ Hr']].
  - split; [eapply history_ok; [done|by eapply deliverable_valid|done..]|]. intros msg Hmsg. apply Hmono.
    assert (Hp : pres (only (genuine n)) (handle_event ev)).
    { apply prov_handle_event. intros msg'. by eapply deliverable_genuine. }
    exact (Hp _ Hheld _ _ Hev msg Hmsg).
  - destruct (Hn id' r' Hr') as [? Hheld']. split; [done|]. intros msg Hmsg. by apply Hmono, Hheld'.
Qed.

Lemma reachable_ok n : reachable n -> net_ok n.
Proof.
  induction 1 as [n Hs|n n' _ IH Hn]; [|by eapply net_step_ok].
  intros id r Hr. destruct (started_ok id r (Hs id r Hr)) as [? Hno].
  split; [done|]. by intros msg ?%Hno.
Qed.

(** ** Every delivery is a step *)

Lemma deliver_step n id r ev :
  reachable n -> n !! id = Some r -> deliverable n r ev ->
  wp (handle_event ev) (r_core r) (fun _ c' => exists acts,
    net_step n (<[id := mkReplica c' (r_evs r ++ [ev]) (r_acts r ++ acts)]> n)).
Proof.
  intros Hn%reachable_ok Hr Hd. destruct (Hn id r Hr) as [[m Hm] _].
  pose proof (deliverable_valid n r ev Hd) as Hv.
  assert (Hs : spec (handle_event ev) m (fun _ m' es => exists acts, steps m acts m' /\
    Forall (warranted ev es) acts /\ Forall (justified (m_id m) acts [ev]) es)).
  { apply spec_handle_event; [by apply (no_inv _ _ _ Hm)|done|eauto]. }
  specialize (Hs _ (no_runs _ _ _ Hm)). apply wp_cases in Hs as [Hs|Hs]; apply wp_cases; [left|by right].
  destruct Hs as ([] & c' & E1 & m' & es & R1 & Ht & acts & S1 & W1 & J1).
  exists tt, c'. split; [done|]. exists acts. econstructor; [exact Hr|exact Hd|exact E1|].
  rewrite (no_id _ _ _ Hm) in J1. exists m, m', es. by pose proof (no_runs _ _ _ Hm).
Qed.

(** C16. No node of a network ever gets stuck: whatever is delivered to it, in
    whatever reachable state of the network, its loop handles it without a
    panic (unless its backend panics), and what it does is a run of the
    abstract protocol: the network goes on to a reachable state. *)
Theorem deliver_total n id r ev :
  reachable n -> n !! id = Some r -> deliverable n r ev ->
  wp (handle_event ev) (r_core r) (fun _ c' => exists acts,
    net_step n (<[id := mkReplica c' (r_evs r ++ [ev]) (r_acts r ++ acts)]> n)).
Proof. apply deliver_step. Qed.

(** ** Agreement *)

(** The COMMIT messages of a node are its votes to commit. *)
Lemma said_commit id r m msg sub :
  node_ok id r m -> said r msg -> Code msg = MsgCommit -> DecodeSubject (Msg msg) = Some sub ->
  ACommit sub ∈ r_acts r \/ AOldCommit sub ∈ r_acts r.
Proof.
  intros Hr Hs Hc Hd. destruct (said_acted _ _ _ _ Hr Hs) as [_ (a & Ha & Hm)].
  rewrite Hc in Hm. destruct (no_history _ _ _ Hr) as (m0 & _ & Hst).
  assert (Hb : exists s, (a = ACommit s \/ a = AOldCommit s) /\ EncodeSubject s = Some (Msg msg)).
  { destruct a as [| |s|s| | |]; try done; (exists s; split; [by (left + right)|]);
      cbn [act_message] in Hm; congruence. }
  destruct Hb as (s & Hb & He).
  assert (Hsa : subject_of_act a = Some s) by by destruct Hb as [->| ->].
  destruct (steps_subject_full _ _ _ _ _ Hst Ha Hsa) as (q & rd & d & ->).
  apply DecodeSubject_Encode in He. rewrite Hd in He. injection He as ->.
  destruct Hb as [->| ->]; auto.
Qed.

(** What the correct nodes did; the other validators are faulty. *)
Definition acts_of (n : network) (i : string) : list act := default [] (r_acts <$> n !! i).
Definition faulty (n : network) (vs : ValidatorSet) : gset string :=
  list_to_set (ID <$> List vs) ∖ dom n.

(** A quorum, but for the faulty validators, voted to commit [d] at [h]. *)
Definition certified (n : network) (vs : ValidatorSet) (h : Z) (d : Hash) : Prop :=
  backed vs (faulty n vs) (acts_of n) h d.

(** The COMMITs for a block that is already in the chain are for blocks with
    a certificate: what a chain holds was decided. *)
Definition old_commits_certified (n : network) (vs : ValidatorSet) (h : Z) : Prop :=
  forall i s w, AOldCommit s ∈ acts_of n i -> sub_View s ≫= pair_of = Some w -> w.1 = h ->
    certified n vs h (Digest s).

Lemma acts_of_Some n i r : n !! i = Some r -> acts_of n i = r_acts r.
Proof. unfold acts_of. by intros ->. Qed.

Lemma not_faulty n vs i : i ∈ ID <$> List vs -> i ∉ faulty n vs -> is_Some (n !! i).
Proof.
  intros Hi HF. apply elem_of_dom. destruct (decide (i ∈ dom n)); [done|].
  exfalso. apply HF. unfold faulty. by rewrite elem_of_difference, elem_of_list_to_set.
Qed.

Lemma certified_ext n vs vs' h d :
  List vs = List vs' -> 0 < Size vs < 2 ^ 53 -> certified n vs h d -> certified n vs' h d.
Proof.
  intros Hl Hn (Q & HQ & HM). exists Q. split; [by eapply quorum_ext|]. intros i Hi HF.
  apply HM; [done|]. unfold faulty in *. by rewrite Hl.
Qed.

(** A committed node has a certificate for its block. *)
Lemma committed_certified n id r m p :
  net_ok n -> n !! id = Some r -> runs (r_core r) m -> committed m ->
  roundState_Proposal (m_rs m) = Some p ->
  old_commits_certified n (m_vs m) (sequence (m_rs m)) ->
  main_inv m /\ certified n (m_vs m) (sequence (m_rs m)) (HashOf p).
Proof.
  intros Hn Hr Hm Hc Hp Hold. destruct (Hn id r Hr) as [[m' Hok] Hheld].
  pose proof (runs_fun _ _ _ Hm (no_runs _ _ _ Hok)) as <-. split; [by apply (no_inv _ _ _ Hok)|].
  destruct (committed_certificate m p (no_inv _ _ _ Hok) (no_certificate _ _ _ Hok) Hc Hp)
    as (sub & w & Hw & [Hseq _] & <- & HQ & HM).
  set (Q := senders _) in *. rewrite Hseq.
  destruct (set_all_or Q (fun i => AOldCommit sub ∈ acts_of n i)
    (fun i => i ∉ faulty n (m_vs m) -> ACommit sub ∈ acts_of n i)) as [(i & _ & Hi)|HA].
  - intros i Hi. destruct (n !! i) as [ri|] eqn:Eri.
    2: { right. intros HF. destruct (not_faulty n (m_vs m) i) as [ri ?]; [|done|congruence].
         destruct HQ as [HQ _]. apply HQ in Hi. by apply elem_of_list_to_set in Hi. }
    destruct (HM i Hi) as (msg & Hmsg & Hd).
    destruct (inv_commit_votes _ _ (inv_rs _ (no_inv _ _ _ Hok)) i msg Hmsg) as [Hcode _].
    destruct (inv_commits _ _ (inv_rs _ (no_inv _ _ _ Hok))) as [Hwf _].
    destruct (Hwf i msg Hmsg) as [Hid _].
    assert (Hsaid : said ri msg).
    { apply (Hheld msg); [|by rewrite Hid]. eapply held_commit; [apply (runs_rs _ _ Hm)|exact Hmsg]. }
    destruct (Hn i ri Eri) as [[mi Hmi] _]. rewrite (acts_of_Some n i ri Eri).
    destruct (said_commit i ri mi msg sub Hmi Hsaid Hcode Hd); auto.
  - rewrite Hseq in Hold. by eapply Hold.
  - exists Q. split; [done|]. intros i Hi HF. exists sub, w. by split; [apply HA|].
Qed.

(** Agreement, shared with [AssemblySpec]. *)
Lemma network_agreement_lemma n i1 i2 r1 r2 m1 m2 p1 p2 :
  reachable n -> n !! i1 = Some r1 -> n !! i2 = Some r2 ->
  runs (r_core r1) m1 -> runs (r_core r2) m2 -> committed m1 -> committed m2 ->
  sequence (m_rs m1) = sequence (m_rs m2) ->
  roundState_Proposal (m_rs m1) = Some p1 -> roundState_Proposal (m_rs m2) = Some p2 ->
  HashOf p1 <> ZeroHash -> HashOf p2 <> ZeroHash ->
  List (m_vs m1) = List (m_vs m2) ->
  0 < Size (m_vs m1) < 2 ^ 53 -> Size (m_vs m1) mod 3 = 1 \/ Size (m_vs m1) <= 3 ->
  Z.of_nat (size (faulty n (m_vs m1))) <= FaultTolerantNum (m_vs m1) ->
  (forall i, AUnlock (sequence (m_rs m1)) ∉ acts_of n i) ->
  old_commits_certified n (m_vs m1) (sequence (m_rs m1)) ->
  HashOf p1 = HashOf p2.
Proof.
  intros Hn%reachable_ok G1 G2 R1 R2 C1 C2 Hseq P1 P2 Z1 Z2 Hl Hsz Hmod HF Hun Hold.
  destruct (committed_certified n i1 r1 m1 p1 Hn G1 R1 C1 P1 Hold) as [_ B1].
  destruct (committed_certified n i2 r2 m2 p2 Hn G2 R2 C2 P2) as [_ B2].
  { intros i s w Hi Hw Hh. eapply certified_ext; [exact Hl|done|]. rewrite <- Hseq. eapply Hold; [done..|].
    by rewrite Hseq. }
  apply (backed_agree (m_vs m1) (m_vs m1) (faulty n (m_vs m1)) (acts_of n) (sequence (m_rs m1)));
    try done.
  - rewrite Hseq. apply (certified_ext n (m_vs m2)); [done|by rewrite !Size_List, <- Hl, <- Size_List in *|done].
  - intros i Hi HiF. destruct (not_faulty n (m_vs m1) i Hi HiF) as [r Hr].
    destruct (Hn i r Hr) as [[m Hm] _]. destruct (no_history _ _ _ Hm) as (m0 & H0 & Hs).
    exists m0, m. split; [done|]. split; [by rewrite (acts_of_Some n i r Hr)|apply Hun].
Qed.

(** C2. Agreement in a network: in every reachable state of a network of
    [3f + 1] validators, or at most three, of which at most [f] are faulty
    and may send anything to anyone, two correct nodes that have committed
    at the same height, in whatever rounds, have committed the same block,
    provided that no correct node has dropped a lock at this height, and
    that the COMMITs the correct nodes sent for old blocks were for
    certified ones. *)
Theorem network_agreement n i1 i2 r1 r2 m1 m2 p1 p2 :
  reachable n -> n !! i1 = Some r1 -> n !! i2 = Some r2 ->
  runs (r_core r1) m1 -> runs (r_core r2) m2 -> committed m1 -> committed m2 ->
  sequence (m_rs m1) = sequence (m_rs m2) ->
  roundState_Proposal (m_rs m1) = Some p1 -> roundState_Proposal (m_rs m2) = Some p2 ->
  HashOf p1 <> ZeroHash -> HashOf p2 <> ZeroHash ->
  List (m_vs m1) = List (m_vs m2) ->
  0 < Size (m_vs m1) < 2 ^ 53 -> Size (m_vs m1) mod 3 = 1 \/ Size (m_vs m1) <= 3 ->
  Z.of_nat (size (faulty n (m_vs m1))) <= FaultTolerantNum (m_vs m1) ->
  (forall i, AUnlock (sequence (m_rs m1)) ∉ acts_of n i) ->
  old_commits_certified n (m_vs m1) (sequence (m_rs m1)) ->
  HashOf p1 = HashOf p2.
Proof. apply network_agreement_lemma. Qed.

(** ** When the histories are as agreement wants them *)

(** A node that saw no timeout, and whose chain took every block it was given,
    has kept its locks. *)
Lemma keeps_locks n i r h :
  reachable n -> n !! i = Some r -> EvTimeout ∉ r_evs r -> ~ refused (trace (r_core r)) ->
  AUnlock h ∉ r_acts r.
Proof.
  intros Hn Hr Ht Hc Hin. destruct (reachable_ok n Hn i r Hr) as [[m Hm] _].
  destruct (no_warranted _ _ _ Hm _ Hin) as (ev & Hev & [->|Hre]); done.
Qed.

(** A node that got no PRE-PREPARE for a block of its chain did not vote for
    an old block. *)
Lemma no_old_commits n i r s :
  reachable n -> n !! i = Some r ->
  (forall ev msg, ev ∈ r_evs r -> carries ev msg -> ~ old_proposal msg s) ->
  AOldCommit s ∉ r_acts r.
Proof.
  intros Hn Hr Hno Hin. destruct (reachable_ok n Hn i r Hr) as [[m Hm] _].
  destruct (no_warranted _ _ _ Hm _ Hin) as (ev & Hev & msg & Hc & Ho). by eapply Hno.
Qed.
End Network.

Abbreviation network := (gmap string replica).
