(* ===== verification/Delivery.v ===== *)
(** * Delivery: networks that can be executed

    A network whose messages are delivered first in, first out: [drive] runs
    it, and checks before each delivery that the event is one that [Network]
    allows.  What it reaches is reachable. *)

From S2P Require Import Prelude Types Interfaces MessageSet Quorum RoundState CoreState Backlog Broadcast Round Phases Loop Provenance CoreSpec BroadcastSpec BacklogSpec Node Refinement CoreRefinement Safety Correctness Decided Network.

Section Delivery.
Context `{E : Env, L : !EnvLaws E}.

(** The nodes, with the events they have handled. *)
Abbreviation nodes := (gmap string (core * list event)).

(** Where an effect goes: the channels of the node itself, or of its peers. *)
Definition route (id : string) (e : effect) : list (string * event) :=
  match e with
  | EGoLocal p => [(id, EvLocal p)]
  | EGoBacklog val msg => [(id, EvBacklog msg val)]
  | EGoRequest r => [(id, EvRequest r)]
  | EGoFinalCommit => [(id, EvFinalCommit)]
  | EGossip ids p => (fun i => (i, EvP2P p)) <$> ids
  | ETimer _ | ECommit _ _ => []
  end.

(** The node has sent the payload to itself. *)
Definition posted (payload : string) (c : core) : bool :=
  existsb (fun e => match e with EGoLocal p => String.eqb p payload | _ => false end) (trace c).

Lemma posted_trace payload c : posted payload c = true -> EGoLocal payload ∈ trace c.
Proof.
  intros (e & Hin & He)%existsb_exists. apply list_elem_of_In in Hin. destruct e; try done.
  by apply String.eqb_eq in He as ->.
Qed.

(** [deliverable], decided; messages from the queue of a node are left out. *)
Definition may_deliver (n : nodes) (c : core) (ev : event) : bool :=
  match ev with
  | EvP2P data =>
      match DecodeMessage data with
      | Some msg => match n !! Msg_Validator msg with Some (c', _) => posted data c' | None => true end
      | None => true
      end
  | EvLocal payload => posted payload c
  | EvBacklog _ _ => false
  | EvRequest request => match rq_Proposal request with Some _ => true | None => false end
  | EvFinalCommit | EvTimeout => true
  end.

(** Deliver what is queued to the nodes there are; the events it causes queue
    up behind.  [None] if an event may not be delivered or a handler panics. *)
Fixpoint drive (fuel : nat) (q : list (string * event)) (n : nodes) : option nodes :=
  match fuel, q with
  | O, _ | _, [] => Some n
  | S fuel, (id, ev) :: q =>
      match n !! id with
      | None => drive fuel q n
      | Some (c, evs) =>
          if may_deliver n c ev then
            c' ← final (handle_event ev) c;
            drive fuel (q ++ (drop (length (trace c)) (trace c') ≫= route id))
              (<[id := (c', evs ++ [ev])]> n)
          else None
      end
  end.

(** The nodes of a network. *)
Definition shape (r : replica) : core * list event := (r_core r, r_evs r).

Lemma may_deliver_ok (N : network) r ev :
  may_deliver (shape <$> N) (r_core r) ev = true -> deliverable N r ev.
Proof.
  destruct ev as [request|payload|msg val| |data|]; simpl; try done.
  - by destruct (rq_Proposal request).
  - apply posted_trace.
  - intros Hd msg Hmsg r' Hr'. rewrite Hmsg, lookup_fmap, Hr' in Hd. exists data.
    split; [by apply posted_trace|done].
Qed.

Context (fresh : World -> Prop).

Lemma drive_reaches fuel q (N : network) n :
  reachable fresh N -> drive fuel q (shape <$> N) = Some n ->
  exists N', reachable fresh N' /\ shape <$> N' = n.
Proof.
  revert q N. induction fuel as [|fuel IH]; intros q N HN; cbn [drive]; [naive_solver|].
  destruct q as [|[id ev] q]; [naive_solver|].
  destruct ((shape <$> N) !! id) as [[c evs]|] eqn:Eid; [|by apply IH].
  apply lookup_fmap_Some in Eid as (r & [= <- <-] & Hr).
  destruct (may_deliver _ _ _) eqn:Hmay; [|done]. apply may_deliver_ok in Hmay.
  pose proof (deliver_step fresh N id r ev HN Hr Hmay) as Hstep. unfold final.
  destruct (handle_event ev (r_core r)) as [[[] c']|] eqn:Hev; [|done].
  destruct (wp_Ret _ _ _ _ _ Hstep Hev) as [acts Hs]. cbn [mbind option_bind].
  replace (<[id := (c', r_evs r ++ [ev])]> (shape <$> N))
    with (shape <$> <[id := mkReplica c' (r_evs r ++ [ev]) (r_acts r ++ acts)]> N)
    by by rewrite fmap_insert.
  apply IH. by eapply reach_step.
Qed.

(** Nodes with these names that have started on the same chain. *)
Fixpoint start_nodes (b : bool) (w : World) (ids : list string) : option nodes :=
  match ids with
  | [] => Some ∅
  | id :: ids =>
      c ← final Start (NewEngine id b w);
      n ← start_nodes b w ids;
      Some (<[id := (c, [])]> n)
  end.

Lemma start_nodes_started b w p last w1 ids n id x :
  fresh w -> be_LastProposal w = Ret ((Some p, last), w1) ->
  start_nodes b w ids = Some n -> n !! id = Some x -> started fresh id (mkReplica x.1 x.2 []).
Proof.
  intros Hw Hlp. revert n. induction ids as [|id' ids IH]; intros n; cbn [start_nodes]; [by intros [= <-]|].
  unfold final. destruct (Start _) as [[[] c]|] eqn:Es; [|done]. cbn [mbind option_bind].
  destruct (start_nodes b w ids) as [n'|]; [|done]. intros [= <-]. rewrite lookup_insert_Some.
  intros [[<- <-]|[_ Hx]]; [|by eapply IH]. split; [done|]. split; [done|]. by exists b, w, p, last, w1.
Qed.

Lemma start_nodes_reach b w p last w1 ids n :
  fresh w -> be_LastProposal w = Ret ((Some p, last), w1) -> start_nodes b w ids = Some n ->
  exists N, reachable fresh N /\ shape <$> N = n.
Proof.
  intros Hw Hlp Hn. exists ((fun x => mkReplica x.1 x.2 []) <$> n). split.
  - apply reach_start. intros id r. rewrite lookup_fmap_Some. intros (x & <- & Hx).
    by eapply start_nodes_started.
  - apply map_eq. intros i. rewrite !lookup_fmap. by destruct (n !! i) as [[c evs]|].
Qed.
End Delivery.
