(* ===== verification/Progress.v ===== *)
(** * Progress: votes of a quorum lead to a decision

    A node that has accepted a proposal commits it once the COMMITs of a
    quorum have arrived, in whatever order and among whatever other votes:
    forged, repeated, undecodable, for other blocks or other views.  [hands]
    is what an event gives to its handler: a stored message, an own one, or
    the message of another node that is not known yet. *)

From S2P Require Import Prelude Types Interfaces MessageSet Quorum RoundState CoreState Backlog Broadcast Round Phases Loop CoreSpec BroadcastSpec BacklogSpec Node Refinement CoreRefinement Handlers Safety Correctness Decided.

Section Progress.
Context `{E : Env, L : !EnvLaws E}.

Definition is_vote (msg : Message) : Prop := Code msg = MsgPrepare \/ Code msg = MsgCommit.

(** The event hands the message, of this validator, to its handler. *)
Definition hands (c : core) (ev : event) (msg : Message) (val : Validator) : Prop :=
  match ev with
  | EvBacklog msg' val' => msg' = msg /\ val' = val
  | EvLocal payload => decodeMsg c payload = Ret (inr (msg, val))
  | EvP2P payload => decodeMsg c payload = Ret (inr (msg, val)) /\
      (cache_Get (knownMessages c) (Keccak256 payload)).1 = None
  | _ => False
  end.

(** The event carries a vote, or nothing that can be decoded. *)
Definition only_vote (ev : event) : Prop :=
  match ev with
  | EvBacklog msg _ => is_vote msg
  | EvLocal payload | EvP2P payload =>
      forall c msg val, decodeMsg c payload = Ret (inr (msg, val)) -> is_vote msg
  | _ => False
  end.

(** The node votes in round [cr] on [p], whose subject is [sub]. *)
Record open (m : main) (cr : Z) (sub : Subject) (p : Proposal) : Prop := {
  op_round : round (m_rs m) = Some cr;
  op_voting : voting m;
  op_state : m_state m < StateCommitted;
  op_sub : roundState_Subject (m_rs m) = Ret (Some sub);
  op_prop : roundState_Proposal (m_rs m) = Some p;
}.

(** A COMMIT for [sub] in the name of a validator. *)
Definition commit_for (vs : ValidatorSet) (sub : Subject) (msg : Message) : Prop :=
  Code msg = MsgCommit /\ DecodeSubject (Msg msg) = Some sub /\
  is_Some (GetById vs (Msg_Validator msg)).2.

Definition commits_of (m : main) : gset string := senders (Commits (m_rs m)).

Definition no_quorum (m : main) : Prop :=
  reachThreshold (m_vs m) (MessageSet_Size (Commits (m_rs m))) = false.

(** The block is decided; or the node still votes on it, has kept the COMMITs
    it had and did not get to a quorum, and if a COMMIT for the block
    was [handed] it has that too and there is no quorum. *)
Definition progress (m : main) (cr : Z) (sub : Subject) (p : Proposal) (handed : Message -> Prop)
    (m' : main) (es : list effect) : Prop :=
  (exists seals, ECommit p seals ∈ es) \/
  (open m' cr sub p /\ m_vs m' = m_vs m /\ commits_of m ⊆ commits_of m' /\
   (no_quorum m -> no_quorum m') /\
   forall msg, handed msg -> commit_for (m_vs m) sub msg ->
     Msg_Validator msg ∈ commits_of m' /\ no_quorum m').

Lemma progress_nothing m cr sub p (handed : Message -> Prop) :
  open m cr sub p -> (forall msg, ~ handed msg) -> progress m cr sub p handed m [].
Proof. intros Ho Hn. right. do 4 (split; [done|]). by intros msg ?%Hn. Qed.

Lemma progress_mono m cr sub p (handed handed' : Message -> Prop) m' es es' :
  progress m cr sub p handed m' es -> (forall msg, handed' msg -> handed msg) ->
  progress m cr sub p handed' m' (es ++ es').
Proof.
  intros [[seals Hs]|(Ho & Hv & Hc & Hq & Hh)] Hsub; [left|right].
  - exists seals. apply elem_of_app. by left.
  - do 4 (split; [done|]). intros msg ?%Hsub. by apply Hh.
Qed.

(** ** One vote *)

Lemma spec_testBacklog msg val e m (Q : err -> main -> list effect -> Prop) :
  Q e m [] -> spec (testBacklog msg val e) m Q.
Proof.
  intros HQ. unfold testBacklog. spec_step. apply spec_when; intros _.
  - apply spec_StoreBacklog. by spec_steps.
  - by spec_steps.
Qed.

Lemma MessageSet_Add_senders ms msg : senders ms ⊆ senders (MessageSet_Add ms msg).2.
Proof.
  unfold MessageSet_Add, senders. destruct (MessageSet_verify ms msg); simpl; [done|].
  rewrite dom_insert. set_solver.
Qed.

Lemma MessageSet_Add_sender vs ms msg :
  set_ok vs ms -> is_Some (GetById vs (Msg_Validator msg)).2 ->
  Msg_Validator msg ∈ senders (MessageSet_Add ms msg).2.
Proof.
  intros [_ Hvs] [v Hv]. unfold MessageSet_Add, MessageSet_verify. rewrite Hvs, Hv. unfold senders.
  simpl. rewrite dom_insert. set_solver.
Qed.

Lemma commit_accepted m cr sub p msg e :
  main_inv m -> open m cr sub p -> commit_for (m_vs m) sub msg -> vote_error m cr MsgCommit e msg = None.
Proof.
  intros Hm [Hr Hv _ Hs _] (_ & Hd & _).
  destruct (vote_verdict_current m cr sub MsgCommit Hm Hr Hv ltac:(done) Hs) as (v & Ev & Hn).
  unfold vote_error, current_subject. rewrite Hd, Ev, Hs; cbn -[vote_verdict]. rewrite Hn.
  by rewrite bool_decide_eq_true_2.
Qed.

Lemma prepare_progress m cr sub p msg e m' es :
  open m cr sub p -> Code msg = MsgPrepare -> prepare_outcome m cr msg e m' es ->
  progress m cr sub p (eq msg) m' es.
Proof.
  intros Ho Hcode [_ He]. right. destruct e as [e|].
  { destruct He as [-> _]. do 4 (split; [done|]). intros ? [= <-] [Hc _]. by rewrite Hcode in Hc. }
  destruct He as (sub' & Hs & -> & _). destruct Ho as [Hr Hv Hst Hsub Hp].
  unfold after_prepare. destruct (_ && _); (split; [split; try done; by split; [apply Hv|]|]; split; [done|]; split; [done|]; split; [done|]);
    intros ? [= <-] [Hc _]; by rewrite Hcode in Hc.
Qed.

Lemma commit_progress m cr sub p msg e m' es :
  main_inv m -> open m cr sub p -> commit_outcome m cr msg e m' es ->
  progress m cr sub p (eq msg) m' es.
Proof.
  intros Hm Ho [He Ho']. destruct e as [e|].
  { destruct Ho' as [-> _]. right. do 4 (split; [done|]). intros ? [= <-] Hc.
    by rewrite (commit_accepted m cr sub p msg _ Hm Ho Hc) in He. }
  destruct Ho' as (sub' & Hs & Hd). destruct (commit_quorum m msg) eqn:Hq.
  { destruct Hd as (p' & w & pre & post & Hp & _ & -> & _). left.
    rewrite (op_prop _ _ _ _ Ho) in Hp. injection Hp as <-. eexists.
    apply elem_of_app. right. by left. }
  destruct Hd as [-> ->]. right. unfold after_commit. rewrite Hq.
  destruct Ho as [Hr Hv Hst Hsub Hp].
  assert (Hno : no_quorum (m_set_rs (set_Commits (MessageSet_Add (Commits (m_rs m)) msg).2 (m_rs m)) m)).
  { unfold commit_quorum in Hq. apply andb_false_iff in Hq as [Hq|Hq]; [done|].
    apply Z.ltb_ge in Hq. lia. }
  split; [done|]. split; [done|]. split; [apply MessageSet_Add_senders|]. split; [done|].
  intros ? [= <-] (_ & _ & Hin). split; [|done].
  apply (MessageSet_Add_sender (m_vs m)); [|done]. apply (inv_commits _ _ (inv_rs _ Hm)).
Qed.

Lemma handleMsg_prepare msg val :
  Code msg = MsgPrepare -> handleMsg msg val = (e ← HandlePrepare msg val; testBacklog msg val e).
Proof. unfold handleMsg. by intros ->. Qed.

Lemma handleMsg_commit msg val :
  Code msg = MsgCommit -> handleMsg msg val = (e ← HandleCommit msg val; testBacklog msg val e).
Proof. unfold handleMsg. by intros ->. Qed.

Lemma progress_handleMsg m cr sub p msg val :
  main_inv m -> open m cr sub p -> is_vote msg ->
  spec (handleMsg msg val) m (fun _ m' es => progress m cr sub p (eq msg) m' es).
Proof.
  intros Hm Ho [Hcode|Hcode].
  - rewrite (handleMsg_prepare msg val Hcode). spec_step. eapply spec_mono; [apply (spec_HandlePrepare m cr); [done|apply Ho]|]. intros e m' es He.
    apply spec_testBacklog. rewrite app_nil_r. by eapply prepare_progress.
  - rewrite (handleMsg_commit msg val Hcode). spec_step. eapply spec_mono; [apply (spec_HandleCommit m cr); [done|apply Ho|done]|]. intros e m' es He.
    apply spec_testBacklog. rewrite app_nil_r. by eapply commit_progress.
Qed.

(** ** One event *)

Lemma keeps_mark_peer id hash : keeps (fun c => (knownMessages c, world c)) (mark_peer id hash).
Proof.
  unfold mark_peer, peersMessages_Get, arc_New, peersMessages_Add, arc_Add. keeps_steps.
Qed.

Lemma knownMessages_Get_eq hash c :
  knownMessages_Get hash c =
    Ret ((cache_Get (knownMessages c) hash).1, set_knownMessages (cache_Get (knownMessages c) hash).2 c).
Proof.
  unfold knownMessages_Get, mbind, prog_bind. cbn [get_state].
  by destruct (cache_Get (knownMessages c) hash).
Qed.

Definition brings_message (ev : event) : Prop :=
  match ev with EvBacklog _ _ | EvLocal _ | EvP2P _ => True | _ => False end.

(** The event hands nothing to a handler, and changes nothing. *)
Definition idle (c : core) (m : main) (ev : event) : Prop :=
  (forall msg val, ~ hands c ev msg val) /\
  wp (handle_event ev) c (fun _ c' => runs c' m /\ trace c' = trace c).

(** The event hands [msg] to [handleMsg], in a core [c1] that differs in the
    caches only, and [k] comes after it. *)
Definition handled (c : core) (m : main) (ev : event) (msg : Message) (val : Validator) : Prop :=
  (forall msg' val', hands c ev msg' val' -> msg' = msg /\ val' = val) /\
  exists c1 (k : err -> prog core unit),
    runs c1 m /\ trace c1 = trace c /\ world c1 = world c /\
    handle_event ev c = (e ← handleMsg msg val; k e) c1 /\
    forall e m1, spec (k e) m1 (fun _ m' _ => m' = m1).

Lemma p2p_message c m payload :
  runs c m ->
  idle c m (EvP2P payload) \/
  exists msg val, hands c (EvP2P payload) msg val /\ handled c m (EvP2P payload) msg val.
Proof.
  intros Hc. destruct (decodeMsg_runs c m payload Hc) as [[e|[msg val]] Hd].
  { left. split; [intros msg val [Hd' _]; congruence|]. cbn [handle_event]. unfold handle_p2p.
    wp_step. apply wp_get_state. wp_step. eapply wp_lift; [exact Hd|]. by apply wp_ret. }
  destruct (wp_returns (MF := False) _ _ _ (fun x => x) (wp_mark_peer (ID val) (Keccak256 payload) c m Hc))
    as ([] & c1 & E1 & Hc1 & Ht1 & _).
  pose proof (keeps_mark_peer (ID val) (Keccak256 payload) _ _ _ E1) as Hk. injection Hk as Hk Hw.
  assert (Hhands : forall msg' val', hands c (EvP2P payload) msg' val' -> msg' = msg /\ val' = val).
  { intros msg' val' [Hd' _]. rewrite Hd in Hd'. by injection Hd' as <- <-. }
  assert (Hev : handle_event (EvP2P payload) c = (known ← knownMessages_Get (Keccak256 payload);
      match known with
      | Some _ => mret tt
      | None =>
          modify (fun c => set_knownMessages (cache_Add (knownMessages c) (Keccak256 payload) true) c);;
          e ← handleMsg msg val;
          match e with None => _ ← GossipPayload payload; mret tt | Some _ => mret tt end
      end) c1).
  { cbn [handle_event]. unfold handle_p2p. unfold mbind at 1, prog_bind at 1. cbn [get_state].
    unfold mbind at 1, prog_bind at 1, lift. rewrite Hd. unfold mbind at 1, prog_bind at 1.
    by rewrite E1. }
  unfold mbind at 1, prog_bind at 1 in Hev. rewrite knownMessages_Get_eq in Hev.
  destruct (cache_Get (knownMessages c1) (Keccak256 payload)) as [[b|] known] eqn:Eg; cbn [fst snd] in Hev.
  - left. split; [intros msg' val' [_ Hn]; rewrite Hk in Eg; by rewrite Eg in Hn|].
    unfold wp. rewrite Hev. split; [by destruct Hc1 as [? ? ? ? ? ? [? ?]]; repeat split|done].
  - right. exists msg, val. split; [split; [done|by rewrite <- Hk, Eg]|]. split; [exact Hhands|].
    eexists _, _. split; [|split; [|split; [|split; [exact Hev|]]]]; [|exact Ht1|exact Hw|].
    + by destruct Hc1 as [? ? ? ? ? ? [? ?]]; repeat split.
    + intros [e|] m1; [by spec_step|]. spec_step. apply spec_GossipPayload. intros e es _.
      by spec_step.
Qed.

Lemma message_event c m ev :
  runs c m -> brings_message ev ->
  idle c m ev \/ exists msg val, hands c ev msg val /\ handled c m ev msg val.
Proof.
  intros Hc Hev. destruct ev as [|payload|msg val| |payload|]; try done; [| |by apply p2p_message].
  - destruct (decodeMsg_runs c m payload Hc) as [[e|[msg val]] Hd].
    + left. split; [intros msg val Hd'; simpl in Hd'; congruence|]. cbn [handle_event].
      wp_step. apply wp_get_state. wp_step. eapply wp_lift; [exact Hd|]. by apply wp_ret.
    + right. exists msg, val. split; [done|]. split.
      { intros msg' val' Hd'. simpl in Hd'. rewrite Hd in Hd'. by injection Hd' as <- <-. }
      exists c, (fun _ => mret tt). do 3 (split; [done|]). split; [|intros e m1; by spec_step].
      cbn [handle_event]. unfold mbind at 1, prog_bind at 1. cbn [get_state].
      unfold mbind at 1, prog_bind at 1, lift. by rewrite Hd.
  - right. exists msg, val. split; [done|]. split; [by intros msg' val' [-> ->]|].
    exists c, (fun _ => mret tt). do 4 (split; [done|]). intros e m1. by spec_step.
Qed.

(** What the loop makes of a message. *)
Lemma wp_handled c m ev msg val (Q : main -> list effect -> Prop) :
  handled c m ev msg val -> spec (handleMsg msg val) m (fun _ m' es => forall es', Q m' (es ++ es')) ->
  wp (handle_event ev) c (fun _ c' => exists m' es, runs c' m' /\ trace c' = trace c ++ es /\ Q m' es).
Proof.
  intros (_ & c1 & k & Hc1 & <- & _ & Hev & Hk) Hs.
  assert (H : spec (e ← handleMsg msg val; k e) m (fun _ m' es => Q m' es)).
  { spec_step. eapply spec_mono; [exact Hs|]. intros e m1 es HQ.
    eapply spec_mono; [apply Hk|]. by intros [] m' es' ->. }
  unfold wp. rewrite Hev. exact (H c1 Hc1).
Qed.

(** The invariant after an event. *)
Lemma event_inv c m ev c' m' :
  runs c m -> main_inv m -> valid_event ev -> handle_event ev c = Ret (tt, c') -> runs c' m' ->
  main_inv m'.
Proof.
  intros Hc Hm Hv E1 Hc'.
  pose proof (run_refines_lemma [ev] c m Hc Hm ltac:(by constructor)) as Hr.
  assert (E2 : run [ev] c = Ret (tt, c')) by (cbn [run]; unfold mbind, prog_bind; by rewrite E1).
  destruct (wp_Ret _ _ _ _ _ Hr E2) as (m'' & _ & _ & R2 & Hm2 & _).
  by rewrite (runs_fun c' m' m'').
Qed.

Lemma only_vote_brings ev : only_vote ev -> brings_message ev /\ valid_event ev.
Proof. by destruct ev. Qed.

Lemma event_progress c m cr sub p ev :
  runs c m -> main_inv m -> open m cr sub p -> only_vote ev ->
  wp (handle_event ev) c (fun _ c' => exists m' es, runs c' m' /\ main_inv m' /\
    trace c' = trace c ++ es /\ progress m cr sub p (fun msg => exists val, hands c ev msg val) m' es).
Proof.
  intros Hc Hm Ho Hv. destruct (only_vote_brings ev Hv) as [Hb Hval].
  assert (Hs : wp (handle_event ev) c (fun _ c' => exists m' es, runs c' m' /\
    trace c' = trace c ++ es /\ progress m cr sub p (fun msg => exists val, hands c ev msg val) m' es)).
  { destruct (message_event c m ev Hc Hb) as [[Hn Hi]|(msg & val & Hh & Hhd)].
    - eapply wp_mono; [exact Hi|]. intros [] c' [H1 H2]. exists m, [].
      rewrite app_nil_r. do 2 (split; [done|]). apply progress_nothing; [done|].
      intros msg [val Hh]. by apply (Hn msg val).
    - apply (wp_handled _ m ev msg val _ Hhd).
      eapply spec_mono; [apply (progress_handleMsg m cr sub p msg val Hm Ho)|].
      + destruct ev; try done; simpl in Hh; [by eapply Hv|by destruct Hh as [<- _]|by eapply Hv, Hh].
      + intros e m' es Hp es'. eapply progress_mono; [exact Hp|].
        intros msg' [val' Hh']. by destruct (proj1 Hhd msg' val' Hh') as [-> _]. }
  eapply wp_eq; [exact Hs|]. intros [] c' E1 (m' & es & H1 & H2 & H3). exists m', es.
  split; [done|]. split; [by apply (event_inv c m ev c')|done].
Qed.

(** ** A run of votes *)

(** In the run of [evs] from [c], a COMMIT of [i] for [sub] reaches its
    handler. *)
Definition delivered (vs : ValidatorSet) (sub : Subject) (evs : list event) (c : core) (i : string)
    : Prop :=
  exists pre ev post c1 msg val, evs = pre ++ ev :: post /\ run pre c = Ret (tt, c1) /\
    hands c1 ev msg val /\ commit_for vs sub msg /\ Msg_Validator msg = i.

Lemma delivered_cons vs sub ev evs c c1 i :
  handle_event ev c = Ret (tt, c1) -> delivered vs sub (ev :: evs) c i ->
  (exists msg val, hands c ev msg val /\ commit_for vs sub msg /\ Msg_Validator msg = i) \/
  delivered vs sub evs c1 i.
Proof.
  intros E1 (pre & ev' & post & c2 & msg & val & Ee & Hr & Hh & Hc & Hi). destruct pre as [|ev1 pre].
  - injection Ee as <- <-. injection Hr as <-. left. by exists msg, val.
  - injection Ee as <- ->. right. exists pre, ev', post, c2, msg, val. split; [done|]. split; [|done].
    cbn [run] in Hr. unfold mbind, prog_bind in Hr. by rewrite E1 in Hr.
Qed.

Lemma only_votes_valid evs : Forall only_vote evs -> Forall valid_event evs.
Proof. intros Hevs. eapply Forall_impl; [exact Hevs|]. by intros []. Qed.

(** The block is handed to the chain. *)
Definition commits (p : Proposal) (c c' : core) : Prop :=
  exists es seals, trace c' = trace c ++ es /\ ECommit p seals ∈ es.

Lemma commits_after p c c1 c' es1 :
  trace c1 = trace c ++ es1 -> commits p c1 c' -> commits p c c'.
Proof.
  intros Ht (es & seals & Ht' & Hin). exists (es1 ++ es), seals. split; [by rewrite Ht', Ht, app_assoc|].
  apply elem_of_app. by right.
Qed.

(** What has been handed over stays so. *)
Lemma commits_before p c c1 c' es1 es seals :
  trace c1 = trace c ++ es1 -> ECommit p seals ∈ es1 -> trace c' = trace c1 ++ es -> commits p c c'.
Proof.
  intros Ht Hin Ht'. exists (es1 ++ es), seals. split; [by rewrite Ht', Ht, app_assoc|].
  apply elem_of_app. by left.
Qed.

(** While no block is decided: each validator of [Q] has its COMMIT stored, or
    it is yet to come; and once one of them has come ([b]) there is no
    quorum. *)
Lemma run_votes (Q : gset string) cr sub p evs c m vs (b : bool) :
  runs c m -> main_inv m -> open m cr sub p -> m_vs m = vs -> Forall only_vote evs ->
  (b = true -> no_quorum m) -> Q <> ∅ -> reachThreshold vs (Z.of_nat (size Q)) = true ->
  (forall i, i ∈ Q -> (b = true /\ i ∈ commits_of m) \/ delivered vs sub evs c i) ->
  wp (run evs) c (fun _ c' => commits p c c').
Proof.
  intros Hc Hm Ho Hvs Hevs Hno HQ0 Hth HQ. revert c m b Hc Hm Ho Hvs Hno HQ.
  induction Hevs as [|ev evs Hv Hevs IH]; intros c m b Hc Hm Ho Hvs Hno HQ.
  { exfalso. assert (HQ' : forall i, i ∈ Q -> b = true /\ i ∈ commits_of m).
    { intros i Hi. destruct (HQ i Hi) as [?|(pre & ? & ? & ? & ? & ? & Ee & _)]; [done|by destruct pre]. }
    destruct (set_choose_L Q HQ0) as [i Hi]. destruct (HQ' i Hi) as [Hb _]. specialize (Hno Hb).
    unfold no_quorum in Hno. rewrite Hvs in Hno.
    rewrite (reachThreshold_mono vs (Z.of_nat (size Q))) in Hno; [done|split|done].
    - rewrite <- size_senders. apply Nat2Z.inj_le, subseteq_size. intros j Hj. by apply HQ'.
    - rewrite <- Hvs. by apply set_ok_size, (inv_commits _ _ (inv_rs _ Hm)). }
  cbn [run]. eapply wp_bind_eq; [exact (event_progress c m cr sub p ev Hc Hm Ho Hv)|].
  intros [] c1 E1 (m1 & es1 & Hc1 & Hm1 & Ht1 & Hp).
  destruct Hp as [[seals Hs]|(Ho1 & Hvs1 & Hsub & Hno1 & Hh)].
  { eapply wp_mono; [exact (run_refines_lemma evs c1 m1 Hc1 Hm1 (only_votes_valid evs Hevs))|].
    intros [] c2 (m2 & _ & es2 & _ & _ & _ & Ht2 & _). by eapply commits_before. }
  set (A i := exists msg val, hands c ev msg val /\ commit_for vs sub msg /\ Msg_Validator msg = i).
  set (B i := (b = true /\ i ∈ commits_of m) \/ delivered vs sub evs c1 i).
  assert (Hnow : forall i, A i -> i ∈ commits_of m1 /\ no_quorum m1).
  { intros i (msg & val & Hm' & Hcf & <-). apply Hh; [by exists val|by rewrite Hvs]. }
  assert (HAB : (exists i, i ∈ Q /\ A i) \/ forall i, i ∈ Q -> B i).
  { apply set_all_or. intros i Hi. destruct (HQ i Hi) as [?|Hd]; [by right; left|].
    destruct (delivered_cons _ _ _ _ _ _ _ E1 Hd); [by left|by right; right]. }
  assert (Hrec : exists b', (b' = true -> no_quorum m1) /\
    forall i, i ∈ Q -> (b' = true /\ i ∈ commits_of m1) \/ delivered vs sub evs c1 i).
  { destruct HAB as [(i & Hi & HA)|HB].
    - exists true. split; [intros _; by apply (Hnow i)|]. intros j Hj.
      destruct (HQ j Hj) as [[_ Hin]|Hd]; [left; split; [done|by apply Hsub]|].
      destruct (delivered_cons _ _ _ _ _ _ _ E1 Hd) as [HAj|?]; [left|by right].
      split; [done|by apply Hnow].
    - exists b. split; [by intros Hb; apply Hno1, Hno|]. intros j Hj.
      destruct (HB j Hj) as [[? Hin]|?]; [left; split; [done|by apply Hsub]|by right]. }
  destruct Hrec as (b' & Hno' & HQ'). rewrite <- Hvs in *.
  eapply wp_mono; [exact (IH c1 m1 b' Hc1 Hm1 Ho1 Hvs1 Hno' HQ')|].
  intros [] c2 Hcm. by eapply commits_after.
Qed.

(** A node that votes on a block of its round commits it when the COMMITs of a
    quorum [Q] reach their handler. *)
Lemma quorum_commits evs c m cr sub p (Q : gset string) :
  runs c m -> main_inv m -> open m cr sub p -> Forall only_vote evs ->
  Q <> ∅ -> reachThreshold (m_vs m) (Z.of_nat (size Q)) = true ->
  (forall i, i ∈ Q -> delivered (m_vs m) sub evs c i) ->
  wp (run evs) c (fun _ c' => commits p c c').
Proof.
  intros Hc Hm Ho Hevs HQ0 Hth HQ.
  apply (run_votes Q cr sub p evs c m (m_vs m) false); try done. intros i Hi. right. by apply HQ.
Qed.

(** ** From the proposal *)

(** [ev] brings [p] from the proposer of the round, and the backend verifies
    it. *)
Definition proposed (c : core) (m : main) (cr : Z) (p : Proposal) (ev : event) : Prop :=
  exists msg val, brings_message ev /\ hands c ev msg val /\ Code msg = MsgPrePrepare /\
    DecodePrePrepare (Msg msg) = Some (mkPrePrepare (Some (view_of m cr)) (Some p)) /\
    IsProposer (m_vs m) (ID val) = true /\ exists w, be_Verify p (world c) = Ret (None, w).

Definition subject_of (m : main) (cr : Z) (p : Proposal) : Subject :=
  mkSubject (Some (view_of m cr)) (HashOf p).

Lemma proposal_opens c m cr p ev :
  runs c m -> main_inv m -> round (m_rs m) = Some cr -> accepting m ->
  IsHashLocked (m_rs m) = false -> proposed c m cr p ev ->
  wp (handle_event ev) c (fun _ c' => exists m' es, runs c' m' /\ main_inv m' /\
    trace c' = trace c ++ es /\ m_vs m' = m_vs m /\ open m' cr (subject_of m cr p) p).
Proof.
  intros Hc Hm Hr [Hw Hst] Hl (msg & val & Hb & Hh & Hcode & Hd & Hprop & w & Hver).
  destruct (message_event c m ev Hc Hb) as [[Hn _]|(msg' & val' & _ & Hu & c1 & k & Hc1 & Ht1 & Hw1 & Hev & Hk)].
  { by destruct (Hn msg val). }
  destruct (Hu msg val Hh) as [<- <-].
  assert (Hwp : wp (handle_event ev) c (fun _ c' => exists es, runs c' (after_proposal m cr p StatePrePrepared) /\
    trace c' = trace c ++ es)).
  { unfold wp. rewrite Hev. unfold handleMsg. rewrite Hcode. cbn [Z.eqb MsgPrePrepare].
    match goal with |- match ?m0 c1 with _ => _ end => change (wp m0 c1 (fun _ c' => exists es,
      runs c' (after_proposal m cr p StatePrePrepared) /\ trace c' = trace c ++ es)) end.
    wp_step. wp_step. eapply wp_mono; [by apply (wp_HandlePrePrepare c1 m cr msg val p)|].
    intros e c2 (m2 & es & Hc2 & Ht2 & Ho). unfold verdict in Ho. rewrite Hw1, Hver in Ho.
    destruct (proposal_outcome_fresh m cr p val e m2 es Ho Hprop) as [-> ->]; [by apply Z.eqb_eq|done|].
    assert (Hs : spec (testBacklog msg val None) (after_proposal m cr p StatePrePrepared)
      (fun _ m' es' => m' = after_proposal m cr p StatePrePrepared)) by by apply spec_testBacklog.
    eapply wp_mono; [exact (Hs c2 Hc2)|]. intros e c3 (m3 & es3 & Hc3 & Ht3 & ->).
    eapply wp_mono; [exact (Hk e _ c3 Hc3)|]. intros [] c4 (m4 & es4 & Hc4 & Ht4 & ->).
    exists (es ++ es3 ++ es4). split; [done|]. by rewrite Ht4, Ht3, Ht2, Ht1, !app_assoc. }
  eapply wp_eq; [exact Hwp|]. intros [] c' E1 (es & H1 & H2). eexists _, es.
  split; [exact H1|]. split.
  { apply (event_inv c m ev c'); try done. by destruct ev. }
  split; [done|]. split; [done|]. split; try done.
  unfold roundState_Subject; simpl. by rewrite Hr.
Qed.

(** C12. A node that accepts proposals in its round and is not locked commits
    the block when the proposer's message for it arrives, and after it the
    COMMITs of a quorum [Q]: the events may come in any order, repeat, and
    contain any other PREPAREs and COMMITs, forged ones included, and bytes
    that do not decode. *)
Theorem round_commits ev evs c m cr p (Q : gset string) :
  runs c m -> main_inv m -> round (m_rs m) = Some cr -> accepting m ->
  IsHashLocked (m_rs m) = false -> proposed c m cr p ev -> Forall only_vote evs ->
  Q <> ∅ -> reachThreshold (m_vs m) (Z.of_nat (size Q)) = true ->
  (forall i, i ∈ Q -> delivered (m_vs m) (subject_of m cr p) (ev :: evs) c i) ->
  wp (run (ev :: evs)) c (fun _ c' => commits p c c').
Proof.
  intros Hc Hm Hr Ha Hl Hp Hevs HQ0 Hth HQ. cbn [run].
  eapply wp_bind_eq; [exact (proposal_opens c m cr p ev Hc Hm Hr Ha Hl Hp)|].
  intros [] c1 E1 (m1 & es1 & Hc1 & Hm1 & Ht1 & Hvs & Ho). rewrite <- Hvs in Hth, HQ.
  eapply wp_mono; [apply (quorum_commits evs c1 m1 cr (subject_of m cr p) p Q Hc1 Hm1 Ho Hevs HQ0 Hth)|].
  - intros i Hi. destruct (delivered_cons _ _ _ _ _ _ _ E1 (HQ i Hi)) as [(msg & val & Hh & [Hcode _] & _)|?];
      [exfalso|done].
    destruct Hp as (msg' & val' & Hb & Hh' & Hcode' & _).
    destruct (message_event c m ev Hc Hb) as [[Hn _]|(msg0 & val0 & _ & Hu & _)]; [by eapply Hn|].
    destruct (Hu _ _ Hh) as [-> _], (Hu _ _ Hh') as [-> _]. by rewrite Hcode in Hcode'.
  - intros [] c2 Hcm. by eapply commits_after.
Qed.
End Progress.
