(* ===== verification/Assembly.v ===== *)
(** * Assembly: a node, the core on top of the block engine

    The interface [BackendI] of the core implemented by the operations of the
    engine ([pbft.go] is the [PBFTBackend] of [core.NewEngine]), so that the
    core of [Loop] runs on the engine of [Backend].

    The engine is shared: while the core handles an event, other goroutines
    verify headers, prepare and seal blocks, and serve the API.  Their
    operations are batches in a schedule; a batch runs before the next call
    of the core.  Two operations of the engine are taken to be atomic with
    respect to each other.  The core also changes the engine's state behind
    its back: [CalcProposer] writes through the pointer [Validators] returned
    ([OpProposer]).

    A panic in the engine, in a call of the core or in another goroutine,
    ends the process: there is no next world, and the call that the core was
    about to make does not return ([Fail]). *)

From S2P Require Import Prelude Types Interfaces ValidatorSet Votes Snapshot SnapshotLaws Engine Verification Backend.

Section Assembly.
Context {HASH SIG PROP : Type} {hi : HashI HASH} {pi : ProposalI PROP HASH}.

#[local] Instance node_platform : Platform := default_platform HASH SIG PROP hi pi.
#[local] Instance node_valset : @ValidatorSetI node_platform Default.defaultValidatorSet :=
  default_valset HASH SIG PROP hi pi.

Context {Address : Type} `{Countable Address} {CH : @Chain node_platform Address _ _}.
Context {EI : EngineI} {CFG : @EngineConfig Address} {BE : BackendE}.
Context {CO : CodecI} {QU : Type -> Type} {PQ : PrqueI QU}.
Context {CA : Type -> Type -> Type} {CC : CacheI CA} {GI : GoImpl}.

(** What is behind the engine and the core: the chain and its reader, the
    clocks [dateutil.CurrentTime] and [time.Now], the network, and the text
    of an error. *)
Class OutsideI (X : Type) := {
  x_reader : X -> @BlockReader node_platform Address _ _ CH EI;
  x_CurrentTime : X -> Z * X;
  x_Now : X -> Z * X;
  x_Broadcast : list string -> string -> X -> option string * X;
  error_string : engine_error -> string;
}.
Context {X : Type} {OI : OutsideI X}.

(** What other goroutines do to the engine's state, and what changes outside. *)
Inductive engine_op :=
| OpOutside (x : X)
| OpProposer (q : nat) (last : string) (rnd : Z)
| OpVerifyHeader (h : Header)
| OpPrepare (now1 now2 : Z) (m_order : list Address) (v_order : list string) (h : Header)
| OpSeal (b : Block)
| OpGetSnapshot (number : option Z)
| OpProposeManager (a : Address) (auth : bool) (deadline : option Z) (sig : string)
| OpProposeValidator (i : string) (auth : bool) (deadline : option Z) (sig : string).

Record nworld := mkWorld {
  nw_engine : @EState node_platform Address _ _ CH EI;
  nw_out : X;
  nw_sched : list (list engine_op);
  nw_sent : list Block;  (* the blocks that [Commit] passed on, oldest first *)
}.

Definition w_engine st w := mkWorld st (nw_out w) (nw_sched w) (nw_sent w).
Definition w_out x w := mkWorld (nw_engine w) x (nw_sched w) (nw_sent w).
Definition w_sched s w := mkWorld (nw_engine w) (nw_out w) s (nw_sent w).
Definition w_send b w := mkWorld (nw_engine w) (nw_out w) (nw_sched w) (nw_sent w ++ [b]).

(** ** Operations of the engine in a node *)

(** An operation that uses the chain as it is. *)
Definition engine_read {A} (m : BlockReader -> prog EState A) : prog nworld A := fun w =>
  match m (x_reader (nw_out w)) (nw_engine w) with
  | Ret (a, st) => Ret (a, w_engine st w)
  | Fail who => Fail who
  end.

(** One that reads the clock, too. *)
Definition engine_run {A} (m : BlockReader -> Z -> prog EState A) : prog nworld A := fun w =>
  let '(now, x) := x_CurrentTime (nw_out w) in
  match m (x_reader (nw_out w)) now (nw_engine w) with
  | Ret (a, st) => Ret (a, w_out x (w_engine st w))
  | Fail who => Fail who
  end.

(** A call that goes to what is behind the engine. *)
Definition outside {A} (f : X -> A * X) : prog nworld A := fun w =>
  let '(a, x) := f (nw_out w) in Ret (a, w_out x w).

Definition op_run {A} (m : BlockReader -> Z -> prog EState A) : prog nworld unit :=
  engine_run m;; mret tt.

Definition apply_op (o : engine_op) : prog nworld unit :=
  match o with
  | OpOutside x => modify (w_out x)
  | OpProposer q last rnd =>
      modify (fun w => w_engine (set_snaps id (es_next (nw_engine w))
        (heap_CalcProposer q last rnd (es_heap (nw_engine w))) (nw_engine w)) w)
  | OpVerifyHeader h => op_run (fun br now => VerifyHeader br now h)
  | OpPrepare now1 now2 m_order v_order h =>
      op_run (fun br now => Prepare br now now1 now2 m_order v_order h)
  | OpSeal b => op_run (fun br now => Seal_start br now b)
  | OpGetSnapshot number => op_run (fun br now => GetSnapshot br now number)
  | OpProposeManager a auth deadline sig =>
      op_run (fun br now => ProposeManager br now a auth deadline sig)
  | OpProposeValidator i auth deadline sig =>
      op_run (fun br now => ProposeValidator br now i auth deadline sig)
  end.

Fixpoint apply_ops (ops : list engine_op) : prog nworld unit :=
  match ops with [] => mret tt | o :: rest => apply_op o;; apply_ops rest end.

(** The batch that runs before the next call. *)
Definition sync : prog nworld unit :=
  w ← get_state;
  match nw_sched w with
  | [] => mret tt
  | ops :: rest => modify (w_sched rest);; apply_ops ops
  end.

(** ** The engine as the backend *)

(** A validator set the engine hands out, dereferenced; nil if it hands out
    nil. *)
Definition set_of (m : BlockReader -> Z -> prog EState (option nat))
    : prog nworld (option Default.defaultValidatorSet) :=
  engine_run (fun br now =>
    p ← m br now;
    match p with
    | None => mret None
    | Some _ => st ← get_state; v ← lift (heap_get (es_heap st) p); mret (Some v)
    end).

Definition node_Commit (p : Proposal) (seals : list (option SignResult))
    : prog nworld (option string) :=
  match Commit p seals with
  | inl e => mret (Some (error_string e))
  | inr b => modify (w_send b);; mret None
  end.

#[local] Instance engine_backend : BackendI Default.defaultValidatorSet nworld := {|
  be_Validators p := sync;; set_of (fun br now => Validators br now p);
  be_ParentValidators p := sync;; set_of (fun br now => ParentValidators br now p);
  be_Verify p :=
    sync;; engine_run (fun br now => e ← Verify br now p; mret (error_string <$> e));
  be_Commit p seals := sync;; node_Commit p seals;
  be_Sign d :=
    sync;; mret (match Sign d with inl e => inr (error_string e) | inr s => inl s end);
  be_LastProposal := sync;; engine_read LastProposal;
  be_HasProposal h n := sync;; gets (fun w => HasProposal (x_reader (nw_out w)) h n);
  be_GetProposer n := sync;; engine_read (fun br => pbftEngine_GetProposer br n);
  be_Broadcast ps d := sync;; outside (x_Broadcast ps d);
  be_Now := sync;; outside x_Now;
|}.

(** The environment of the core in a node. *)
Definition node_env : Env := {|
  env_platform := node_platform;
  ValidatorSet := Default.defaultValidatorSet;
  env_valset := node_valset;
  env_codec := CO;
  Prque := QU;
  Cache := CA;
  World := nworld;
  env_backend := engine_backend;
|}.
End Assembly.

Arguments nworld : clear implicits.
Arguments nworld _ _ _ {_ _ _ _ _ _ _} _.
Arguments engine_op : clear implicits.
Arguments engine_op _ _ _ {_ _ _ _ _ _ _} _.
