(* ===== verification/AssemblySpec.v ===== *)
(** * AssemblySpec: what the core and the engine guarantee together

    The invariant of a node ([node_inv]): the engine's invariant holds; the
    validators the core works with are those of genesis, or none at all; and
    every block passed on for insertion is a proposal the core committed,
    with the seals it collected.  It holds as long as the node runs, whatever
    the network, the chain and the other users of the engine do. *)

From S2P Require Import Prelude Types Interfaces MessageSet Quorum RoundState CoreState Backlog Broadcast Round Phases Loop CoreFrame CoreSpec BroadcastSpec BacklogSpec Node Refinement Safety Correctness Decided Network.
From S2P Require Import ValidatorSet Votes Snapshot SnapshotLaws Engine Verification EngineSpec VerificationSpec Backend BackendSpec EngineFrame Restart Assembly.

Section AssemblySpec.
Context {HASH SIG PROP : Type} {hi : HashI HASH} {pi : ProposalI PROP HASH}.
Abbreviation PF := (@node_platform HASH SIG PROP hi pi).
#[local] Existing Instances node_platform node_valset engine_backend.
Context {Address : Type} `{Countable Address} {CH : @Chain PF Address _ _}.
Context {EI : @EngineI PF Address _ _ CH} {CFG : @EngineConfig Address}.
Context {BE : @BackendE PF Address _ _ CH EI} {CO : @CodecI PF}.
Context {QU : Type -> Type} {PQ : PrqueI QU}.
Context {CA : Type -> Type -> Type} {CC : CacheI CA} {GI : GoImpl}.
Context {X : Type} {OI : @OutsideI HASH SIG PROP hi pi Address _ _ CH EI X}.
Context {EL : @EngineLaws PF Address _ _ CH EI}.
#[local] Existing Instance node_env.
Abbreviation W := (nworld HASH SIG PROP X).
Implicit Types (w : W).

(** The reader answers with what was asked for, at any time. *)
Class OutsideLaws := { x_reader_ok x : reader_ok (x_reader x) }.
Context {OL : OutsideLaws}.

(** ** Calls *)

(** The engine's invariant, and the blocks passed on. *)
Definition sound (sent : list Block) w : Prop := e_ok (nw_engine w) /\ nw_sent w = sent.

(** A call that keeps the engine's invariant and passes on no block. *)
Abbreviation quiet m := (forall sent, pres (sound sent) m).

Lemma quiet_engine_run {A} (m : BlockReader -> Z -> prog EState A) :
  (forall x now, pres e_ok (m (x_reader x) now)) -> quiet (engine_run m).
Proof.
  intros Hm sent w [Hok Hs] a w'. unfold engine_run. destruct (x_CurrentTime _) as [now x].
  destruct (m _ now _) as [[a' st]|] eqn:E; [|done]. intros [= <- <-]. split; [|done].
  exact (Hm _ _ _ Hok _ _ E).
Qed.

Lemma quiet_engine_read {A} (m : BlockReader -> prog EState A) :
  (forall x, pres e_ok (m (x_reader x))) -> quiet (engine_read m).
Proof.
  intros Hm sent w [Hok Hs] a w'. unfold engine_read.
  destruct (m _ _) as [[a' st]|] eqn:E; [|done]. intros [= <- <-]. split; [|done].
  exact (Hm _ _ Hok _ _ E).
Qed.

Lemma quiet_outside {A} (f : X -> A * X) : quiet (outside f).
Proof.
  intros sent w Hw a w'. unfold outside. destruct (f _) as [a' x]. by intros [= <- <-].
Qed.

Lemma quiet_op_run {A} (m : BlockReader -> Z -> prog EState A) :
  (forall x now, pres e_ok (m (x_reader x) now)) -> quiet (op_run m).
Proof. intros Hm sent. apply pres_bind; [by apply quiet_engine_run|]. intros _. apply pres_ret. Qed.

Lemma quiet_apply_op o : quiet (apply_op o).
Proof.
  destruct o; cbn [apply_op];
    try (apply quiet_op_run; intros; apply x_reader_ok || auto using x_reader_ok with pres);
    intros sent; apply pres_modify; intros w [Hok Hs]; split; try done.
  by apply e_ok_CalcProposer.
Qed.

Lemma quiet_sync : quiet sync.
Proof.
  intros sent. unfold sync. apply pres_bind; [apply pres_get_state|]. intros w0.
  destruct (nw_sched w0) as [|ops rest]; [apply pres_ret|].
  apply pres_bind; [by apply pres_modify|]. intros _. clear rest.
  induction ops as [|o ops IH]; [apply pres_ret|].
  apply pres_bind; [apply quiet_apply_op|]. intros _. exact IH.
Qed.

Lemma quiet_then {A} (m : prog W A) : quiet m -> quiet (sync;; m).
Proof. intros Hm sent. apply pres_bind; [apply quiet_sync|]. intros _. apply Hm. Qed.

(** ** The invariant of a node *)

(** The validators of genesis, with some proposer computed, or none. *)
Definition known_set (vs : Default.defaultValidatorSet) : Prop :=
  (exists pr, vs = with_proposer pr genesis_set) \/ Default.validators vs = [].

Lemma known_CalcProposer vs last rnd :
  known_set vs -> known_set (Default.CalcProposer vs last rnd).
Proof.
  intros [[pr ->]|Hvs]; [left|by right]. by eexists.
Qed.

Definition node_inv (vs : option ValidatorSet) w (tr : list effect) : Prop :=
  (e_ok (nw_engine w) /\ forall v, vs = Some v -> known_set v) /\
  forall b, b ∈ nw_sent w -> exists p seals, ECommit p seals ∈ tr /\ Commit (PF := PF) p seals = inr b.

Lemma node_inv_quiet {A} (m : prog W A) vs w tr :
  quiet m -> node_inv vs w tr -> wlp m w (fun _ w' => node_inv vs w' tr).
Proof.
  intros Hm [[Hok Hvs] Hs]. eapply wlp_mono; [by apply (Hm (nw_sent w))|].
  intros a w' [Hok' Es]. split; [done|]. by rewrite Es.
Qed.

Lemma node_inv_then {A} (m : prog W A) vs w tr :
  quiet m -> node_inv vs w tr -> wlp (sync;; m) w (fun _ w' => node_inv vs w' tr).
Proof. intros Hm. apply node_inv_quiet. by apply quiet_then. Qed.

(** A set that the engine hands out. *)
Lemma wlp_set_of (m : BlockReader -> Z -> prog EState (option nat)) vs w tr :
  (forall x now st, e_ok st ->
     wlp (m (x_reader x) now) st (fun p st' => e_ok st' /\ handed_out (PF := PF) st' p)) ->
  node_inv vs w tr ->
  wlp (sync;; set_of m) w (fun r w' => forall v, r = Some v -> node_inv (Some v) w' tr).
Proof.
  intros Hm Hw. apply wlp_bind.
  eapply wlp_mono; [by apply node_inv_quiet; [apply quiet_sync|]|]. clear w Hw.
  intros _ w [[Hok _] Hs] r w'. unfold set_of, engine_run. destruct (x_CurrentTime _) as [now x].
  match goal with |- match ?prog (nw_engine w) with _ => _ end = _ -> _ => set (get := prog) end.
  assert (Hv : wlp get (nw_engine w) (fun r st => e_ok st /\ forall v, r = Some v -> known_set v)).
  { apply wlp_bind. eapply wlp_mono; [by apply Hm|]. intros [p|] st [Hok' Hp]; [|by wlp_steps].
    wlp_steps. split; [done|]. intros v [= <-].
    match goal with E : heap_get _ _ = Ret _ |- _ => rename E into Eg end.
    destruct Hp as [?|[[pr Hp]|Hp]]; [done|left; exists pr|right]; rewrite Hp in Eg;
      by injection Eg as <-. }
  destruct (get (nw_engine w)) as [[v st]|] eqn:E; [|done]. intros [= <- <-] v' Ev'.
  destruct (Hv _ _ E) as [Hok' Hk]. split; [|done]. split; [done|]. intros v'' [= <-]. by apply Hk.
Qed.

#[local] Instance node_frame : FrameLaws node_inv.
Proof.
  split.
  - intros vs w tr es [Hw Hs]. split; [done|]. intros b Hb. destruct (Hs b Hb) as (p & seals & ? & ?).
    exists p, seals. set_solver.
  - intros vs w tr p. apply wlp_set_of. intros x now st. apply wlp_getValidators, x_reader_ok.
  - intros vs w tr last rnd [[Hok Hk] Hs]. split; [|done]. split; [done|]. intros v [= <-].
    apply known_CalcProposer. by apply Hk.
  - intros vs w tr p. apply node_inv_then, quiet_engine_run. intros x now. pose proof (x_reader_ok x).
    pose proof (pres_ParentValidators (x_reader x) (x_reader_ok x) now p). pres_steps.
  - intros vs w tr p. apply node_inv_then, quiet_engine_run. intros x now.
    pose proof (pres_Verify (x_reader x) (x_reader_ok x) now p). pres_steps.
  - intros vs w tr p seals Hw Hin. apply wlp_bind.
    eapply wlp_mono; [by apply node_inv_quiet; [apply quiet_sync|]|]. clear w Hw.
    intros _ w [Hw Hs]. unfold node_Commit. destruct (Commit (PF := PF) p seals) as [e|b] eqn:E.
    { by apply wlp_ret. }
    wlp_steps. split; [done|]. intros b' [Hb|Hb]%elem_of_app; [by apply Hs|].
    apply list_elem_of_singleton in Hb as ->. by exists p, seals.
  - intros vs w tr d. apply node_inv_then. intros sent. apply pres_ret.
  - intros vs w tr. apply node_inv_then, quiet_engine_read. intros x. apply pres_LastProposal.
  - intros vs w tr h n. apply node_inv_then. intros sent. apply pres_gets.
  - intros vs w tr n. apply node_inv_then, quiet_engine_read. intros x. apply pres_GetProposer.
  - intros vs w tr ps d. apply node_inv_then, quiet_outside.
  - intros vs w tr. apply node_inv_then, quiet_outside.
Qed.
(** ** Runs of a node *)

Context {PL : @PlatformLaws PF} {CL : @CodecLaws PF CO}.
Context {QL : @PrqueLaws QU PQ} {CAL : @CacheLaws CA CC}.

#[local] Instance node_env_laws : EnvLaws node_env.
Proof. split; try apply _. apply default_valset_laws. Qed.

(** A node over a database, before its first event. *)
Definition new_world (db : Database) (x : X) (sched : list (list (engine_op HASH SIG PROP X))) : W :=
  mkWorld (new_engine db) x sched [].

Lemma new_world_inv db x sched : db_ok db -> node_inv None (new_world db x sched) [].
Proof.
  intros Hdb. split; [split; [by apply new_engine_ok|done]|]. intros b Hb.
  by apply not_elem_of_nil in Hb.
Qed.

(** The core of a node after its start and some events. *)
Definition node_reaches (id : string) (b : bool) w (evs : list event) (c : core) : Prop :=
  (Start;; run evs) (NewEngine id b w) = Ret (tt, c).

Lemma node_reaches_inv id b db x sched evs c :
  db_ok db -> node_reaches id b (new_world db x sched) evs c ->
  node_inv (valSet c) (world c) (trace c).
Proof.
  intros Hdb Hr. assert (Hp : pres (linked node_inv) (Start;; run evs)).
  { apply pres_bind; [apply pres_Start; apply _|]. intros ?. apply pres_run; apply _. }
  exact (Hp (NewEngine id b (new_world db x sched)) (new_world_inv db x sched Hdb) _ _ Hr).
Qed.

(** A committed block of the trace is a decision of the protocol. *)
Lemma justified_commit id acts evs p seals :
  justified id acts evs (ECommit p seals) -> exists v, ADecide v p seals ∈ acts.
Proof.
  intros [[Hh|(a & Ha & Hn)]|(d & _ & ids & [=])]; [done|].
  destruct a; cbn in Hn; try (by destruct Hn as (? & ? & _ & Hn)). injection Hn as <- <-. by eexists.
Qed.

(** C3. A node, its core on top of its engine: whatever it receives, and
    whatever the chain, the clock, the network and the other users of the
    engine do in between, its loop is a run of the protocol, which only the
    engine can end, by a panic or by handing out no validators; as long as the
    node runs, the engine's invariant holds, the validators of the core are
    those of genesis, or none; and every block it passes on for insertion is
    one it decided, with the seals it collected. *)
Theorem node_correct id b db x sched evs p last w1 :
  db_ok db -> Forall valid_event evs ->
  be_LastProposal (new_world db x sched) = Ret ((Some p, last), w1) ->
  wp (Start;; run evs) (NewEngine id b (new_world db x sched)) (fun _ c => exists vs w2 m acts,
    be_Validators p w1 = Ret (Some vs, w2) /\ runs c m /\ main_inv m /\
    steps (start_main (E := node_env) id vs p last) acts m /\
    e_ok (nw_engine (world c)) /\ known_set (m_vs m) /\
    forall blk, blk ∈ nw_sent (world c) ->
      exists v p seals, ADecide v p seals ∈ acts /\ Commit (PF := PF) p seals = inr blk).
Proof.
  intros Hdb Hv Hlp. eapply wp_eq; [by apply (wp_Start_run_steps (E := node_env) id b _ p last w1)|].
  intros [] c Hr (vs & w2 & m & acts & es & R1 & R2 & R3 & _ & R4 & R5 & R6).
  exists vs, w2, m, acts. do 4 (split; [done|]).
  destruct (node_reaches_inv id b db x sched evs c Hdb Hr) as [[Hok Hk] Hs].
  split; [done|]. split; [by apply Hk, runs_vs|].
  intros blk Hb. destruct (Hs blk Hb) as (q & seals & Hin & Hc). rewrite R5 in Hin.
  apply elem_of_cons in Hin as [[=]|Hin]. rewrite Forall_forall in R6.
  destruct (justified_commit _ _ _ _ _ (R6 _ Hin)) as [v Ha]. by exists v, q, seals.
Qed.
(** ** Agreement of nodes *)

(** A known set with a member has the validators of genesis. *)
Lemma known_set_genesis vs :
  known_set vs -> Default.validators vs <> [] -> exists pr, vs = with_proposer pr genesis_set.
Proof. by intros [?|?]. Qed.

Lemma genesis_Size : Default.Size genesis_set = Z.of_nat (length cfg_Validators).
Proof.
  unfold Default.Size, genesis_set, Default.newDefaultSet; simpl.
  rewrite Default.sort_perm, length_fmap. done.
Qed.

(** A world a node starts in: a database without a broken snapshot, any chain
    and clock, any schedule of the other users of the engine. *)
Definition node_fresh (w : World) : Prop :=
  exists db x sched, db_ok db /\ w = new_world db x sched.

(** The validators of a node of a network. *)
Lemma network_validators (n : network) i r m :
  reachable node_fresh n -> n !! i = Some r -> runs (r_core r) m ->
  Default.validators (m_vs m) <> [] ->
  exists pr, m_vs m = with_proposer pr genesis_set.
Proof.
  intros Hn Hr Hm Hne. destruct (reachable_ok _ n Hn i r Hr) as [[m' Hok] _].
  destruct (no_run _ _ _ _ Hok) as (b & w & p & last & w1 & (db & x & sched & Hdb & ->) & _ & _ & Hrun).
  destruct (node_reaches_inv i b db x sched (r_evs r) (r_core r) Hdb Hrun) as [[_ Hk] _].
  apply known_set_genesis; [by apply Hk, runs_vs|done].
Qed.

(** C4. Agreement of nodes: in a network of nodes with the same configuration,
    [3f + 1] genesis validators or at most three, of which at most [f] are
    faulty and may send anything to anyone, whatever the chains, the clocks
    and the other users of the engines do: two nodes that have validators and
    have committed at the same height have committed the same block, in whatever
    rounds, if no correct node has dropped a lock at this height and the
    COMMITs sent for old blocks were for certified ones. *)
Theorem nodes_agree (n : network) i1 i2 r1 r2 m1 m2 p1 p2 :
  reachable node_fresh n -> n !! i1 = Some r1 -> n !! i2 = Some r2 ->
  runs (r_core r1) m1 -> runs (r_core r2) m2 ->
  Default.validators (m_vs m1) <> [] -> Default.validators (m_vs m2) <> [] ->
  committed m1 -> committed m2 -> sequence (m_rs m1) = sequence (m_rs m2) ->
  roundState_Proposal (m_rs m1) = Some p1 -> roundState_Proposal (m_rs m2) = Some p2 ->
  HashOf p1 <> ZeroHash -> HashOf p2 <> ZeroHash ->
  let N := Z.of_nat (length cfg_Validators) in
  0 < N < 2 ^ 53 -> N mod 3 = 1 \/ N <= 3 ->
  Z.of_nat (size (faulty n genesis_set)) <= (N + 2) / 3 - 1 ->
  (forall i, AUnlock (sequence (m_rs m1)) ∉ acts_of n i) ->
  old_commits_certified n genesis_set (sequence (m_rs m1)) ->
  HashOf p1 = HashOf p2.
Proof.
  intros Hn G1 G2 M1 M2 N1 N2 C1 C2 Hseq P1 P2 Z1 Z2 N HN Hmod HF Hun Hold.
  destruct (network_validators n i1 r1 m1 Hn G1 M1 N1) as [pr1 E1].
  destruct (network_validators n i2 r2 m2 Hn G2 M2 N2) as [pr2 E2].
  assert (Hsize : Default.Size (with_proposer pr1 genesis_set) = N) by exact genesis_Size.
  apply (network_agreement_lemma node_fresh n i1 i2 r1 r2 m1 m2 p1 p2); try done; rewrite E1.
  - by rewrite E2.
  - change (0 < Default.Size (with_proposer pr1 genesis_set) < 2 ^ 53). by rewrite Hsize.
  - change (Default.Size (with_proposer pr1 genesis_set) mod 3 = 1 \/
      Default.Size (with_proposer pr1 genesis_set) <= 3). by rewrite Hsize.
  - change (Z.of_nat (size (faulty n genesis_set)) <= Default.FaultTolerantNum (with_proposer pr1 genesis_set)).
    rewrite FaultTolerantNum_div; rewrite Hsize; lia.
  - exact Hold.
Qed.

(** ** From a decision to a certificate *)

(** The seals of a set of COMMITs, with the ids of their senders. *)
Lemma stored_seals_sealed vs hash (ms : MessageSet) :
  Default.wf vs -> ms_wf ms ->
  (forall id, GetById (ms_valSet ms) id = Default.GetById vs id) ->
  (forall i msg, messages ms !! i = Some msg ->
     RecoverId (PrepareCommittedSeal (H := PF) hash) (Types.CommittedSeal msg) = inr i) ->
  sealed (PF := PF) vs hash (Types.CommittedSeal <$> MessageSet_Values ms) (map_to_list (messages ms)).*1.
Proof.
  intros Hwf Hms Hids Hseals. split; [|split].
  - unfold MessageSet_Values. rewrite <- list_fmap_compose.
    apply Forall2_fmap_2, Forall_Forall2_diag, Forall_forall. intros [i msg] Hin%elem_of_map_to_list.
    by apply Hseals.
  - apply NoDup_fst_map_to_list.
  - intros i ([j msg] & -> & Hin%elem_of_map_to_list)%list_elem_of_fmap. simpl.
    destruct (Hms j msg Hin) as [_ [v Hv]]. rewrite Hids in Hv.
    destruct (Default.GetById vs j) as [k o] eqn:Eg; simpl in Hv; subst o.
    apply Default.GetById_Some in Eg as (<- & _ & Hl). unfold Default.ids.
    apply list_elem_of_fmap_2. by eapply list_elem_of_lookup_2.
Qed.
Context {BL : BackendLaws (PF := PF)}.

(** C13. What the core decides the engine certifies: when a node with the
    validators of genesis decides a block, and every COMMIT it counted
    carries the seal of its sender on the block's hash (the core does not
    check the seals), the block that [Commit] passes on carries a
    certificate: every node with the same configuration finds the seals of a
    quorum of genesis validators on its hash, and the votes in it signed,
    provided that writing the seals does not change the hash. *)
Theorem decided_block_certified m v p seals m' block data blk :
  NoDup cfg_Validators -> Z.of_nat (length cfg_Validators) < 2 ^ 53 ->
  main_inv m -> step m [ADecide v p seals] m' ->
  known_set (m_vs m) -> Default.validators (m_vs m) <> [] ->
  (forall i msg, messages (Commits (m_rs m)) !! i = Some msg ->
     is_Some (Types.CommittedSeal msg) /\
     RecoverId (PrepareCommittedSeal (H := PF) (HashOf p)) (Types.CommittedSeal msg) = inr i) ->
  as_Block p = Some block -> FromConsensus (hd_Consensus (bk_Header block)) = inr data ->
  (forall vote, MVote data = Some vote -> check_MVote vote = None) ->
  (forall vote, VVote data = Some vote -> check_VVote vote = None) ->
  Commit (PF := PF) p seals = inr blk -> hd_Hash (bk_Header blk) = HashOf p ->
  certified (bk_Header blk).
Proof.
  intros Hnd Hn Hm Hs Hk Hne Hseals Hb Hd Hmv Hvv Hc Hh.
  destruct (known_set_genesis _ Hk Hne) as [pr Epr].
  inversion Hs as [| | | | | | |p' r sub rs' Hvt Hr Hst Hp Hsub Hth Hl| | | | | | |]; subst.
  destruct (inv_commits _ _ (inv_rs _ Hm)) as [Hwf Hids].
  assert (Hsome : Forall is_Some (Types.CommittedSeal <$> MessageSet_Values (Commits (m_rs m)))).
  { apply Forall_forall. intros o (msg & -> & [i Hi]%elem_of_Values)%list_elem_of_fmap.
    by apply (Hseals i msg). }
  pose proof (Commit_data p _ blk block data Hb Hd Hsome Hc) as Hdata.
  apply (certified_seals (PF := PF) _ _ _ _ Hh Hdata Hmv Hvv).
  assert (Hw : Default.wf genesis_set) by by apply genesis_set_wf.
  assert (Hsealed : sealed (PF := PF) genesis_set (HashOf p)
    (Types.CommittedSeal <$> MessageSet_Values (Commits (m_rs m)))
    (map_to_list (messages (Commits (m_rs m)))).*1).
  { apply stored_seals_sealed; [done|done|intros i; rewrite Hids, Epr; done|].
    intros i msg Hi. by apply (Hseals i msg). }
  assert (Hpos : 0 < Default.Size genesis_set < 2 ^ 53).
  { rewrite genesis_Size. split; [|done].
    assert (Hz : Default.validators genesis_set <> []) by by rewrite Epr in Hne.
    assert (length (Default.validators genesis_set) <> 0%nat) by by intros ?%nil_length_inv.
    rewrite <- genesis_Size. unfold Default.Size. lia. }
  apply (core_quorum_accepted (PF := PF) hi pi genesis_set (HashOf p) _ _ Hw Hpos Hsealed).
  rewrite length_fmap, length_Values. rewrite Epr in Hth. exact Hth.
Qed.
(** ** A restart *)

Section Restarting.
Context (x : X) (g : Header) (db : Database) (RE : restarting (x_reader x) g db).

(** The engine has no validators, and nobody else uses it. *)
Definition powerless w : Prop :=
  all_bare db (nw_engine w) /\ x_reader (nw_out w) = x_reader x /\ nw_sched w = [].

Lemma powerless_LastProposal r w1 :
  be_LastProposal (new_world db x []) = Ret (r, w1) -> powerless w1.
Proof.
  change (engine_read LastProposal (new_world db x []) = Ret (r, w1) -> powerless w1).
  unfold engine_read. destruct (LastProposal _ _) as [[a st]|] eqn:E; [|done].
  intros [= <- <-]. split; [|done].
  exact (wlp_LastProposal_bare (x_reader x) db (new_engine db) (new_engine_bare db) _ _ E).
Qed.

(** What the core gets when it asks for validators. *)
Lemma powerless_Validators p w :
  Height p < 2 ^ 64 -> (Height p = GenesisHeight -> HashOf p = hd_Hash g) -> powerless w ->
  wlp (be_Validators p) w (fun r _ => (Height p = GenesisHeight -> r = None) /\
    forall v, r = Some v -> Default.validators v = []).
Proof.
  intros Hlt Hg (Hb & Hr & Hs). apply wlp_bind.
  apply (wlp_mono _ _ (fun _ w' => w' = w)).
  { unfold sync. wlp_step. apply wlp_get_state. rewrite Hs. by wlp_steps. }
  intros _ w' ->. intros r w'. unfold set_of, engine_run. destruct (x_CurrentTime _) as [now x1].
  rewrite Hr. unfold Validators.
  match goal with |- match ?prog (nw_engine w) with _ => _ end = _ -> _ => set (get := prog) end.
  destruct (get (nw_engine w)) as [[o st]|] eqn:E; [|done]. intros [= <- _]. revert E.
  apply (wlp_bind _ _ _ (fun o _ => (Height p = GenesisHeight -> o = None) /\
    forall v, o = Some v -> Default.validators v = [])).
  apply (wlp_mono _ _ (fun q st' => (Height p = GenesisHeight -> q = None) /\
    (q = None \/ heap_get (es_heap st') q = Ret (Default.newDefaultSet [] cfg_ProposerPolicy)))).
  { intros q st' E. split; [|by eapply wlp_getValidators_bare].
    intros Hh. by eapply (wlp_getValidators_genesis (x_reader x) g db RE _ _ _ _ Hh (Hg Hh) Hb _ _ E). }
  intros [q|] st' [Hq1 Hq2]; wlp_steps; [|done]. split; [by intros ?%Hq1|]. intros v [= <-].
  destruct Hq2 as [?|Hq2]; [done|].
  match goal with E : heap_get _ _ = Ret _ |- _ => rename E into Eg end.
  rewrite Hq2 in Eg. by injection Eg as <-.
Qed.

(** Without validators nobody's message is accepted. *)
Lemma no_validators_deaf c m payload msg val :
  runs c m -> Default.validators (m_vs m) = [] -> decodeMsg c payload <> Ret (inr (msg, val)).
Proof.
  intros Hc He. unfold decodeMsg, FromPayload.
  destruct (DecodeMessage payload) as [msg'|]; [|done]. destruct (PayloadNoSig msg'); [|done].
  cbn -[deref]. rewrite (runs_vs _ _ Hc). unfold deref, mbind, outcome_bind.
  change (GetById (m_vs m) ?i) with (Default.GetById (m_vs m) i).
  unfold Default.GetById, Default.List. by rewrite He.
Qed.
End Restarting.

(** C14. A node that is started again has no validators: over a database with
    the stored snapshot of the genesis block (which every node stores on its
    first start), with the genesis block as the head of the chain [Start]
    panics, on the nil set that the engine hands out; with any other head it
    panics too, or, where the search for a snapshot fails, the core starts
    with an empty set and accepts nobody's messages. *)
Theorem restart_loses_validators id b db x g p last w1 :
  restarting (x_reader x) g db ->
  be_LastProposal (new_world db x []) = Ret ((Some p, last), w1) ->
  Height p < 2 ^ 64 -> (Height p = GenesisHeight -> HashOf p = hd_Hash g) ->
  (Height p = GenesisHeight -> Start (NewEngine id b (new_world db x [])) = CalleePanic) /\
  (Start (NewEngine id b (new_world db x [])) = CalleePanic \/
   exists c m, Start (NewEngine id b (new_world db x [])) = Ret (tt, c) /\ runs c m /\
     Default.validators (m_vs m) = [] /\
     forall payload msg val, decodeMsg c payload <> Ret (inr (msg, val))).
Proof.
  intros RE Hlp Hlt Hg.
  pose proof (powerless_Validators x g db RE p w1 Hlt Hg (powerless_LastProposal x db _ _ Hlp)) as He.
  split.
  - intros Hh. apply (Start_no_validators (E := node_env) id b _ p last w1 Hlp).
    intros vs w2 E. destruct (He _ _ E) as [Hn _]. by specialize (Hn Hh).
  - destruct (be_Validators p w1) as [[[vs|] w2]|] eqn:E; [|left..];
      try (apply (Start_no_validators (E := node_env) id b _ p last w1 Hlp);
           intros vs' w' E'; by pose proof (eq_trans (eq_sym E) E')).
    right. destruct (Start_runs (E := node_env) id b _ p last w1 vs w2 Hlp E) as (c & H1 & H2 & _).
    destruct (He _ _ E) as [_ Hv]. specialize (Hv vs eq_refl).
    eexists c, _. split; [exact H1|]. split; [exact H2|]. split; [exact Hv|].
    intros. by eapply no_validators_deaf.
Qed.
End AssemblySpec.
