(* ===== verification/Scenarios.v ===== *)
(** * Scenarios: four validators exchanging their messages

    Runs of the core in the concrete environment of [Sample], with the real
    messages of the nodes delivered by a small network.  They show the normal
    case, what the loss of the lock on a timeout leads to, and that the
    COMMIT for an old block can contradict an earlier one. *)

From S2P Require Import Prelude Types Interfaces MessageSet ValidatorSet Sample Quorum RoundState CoreState Backlog Broadcast Round Phases Loop Correctness Delivery.

Module Scenarios.
Import Sample.

Definition net : Type := list (string * core) * list (string * event).

(** One event at one node; [None] when the handler panics. *)
Definition deliver (id : string) (ev : event) (nodes : list (string * core)) : option net :=
  '(_, c) ← List.find (fun x => String.eqb x.1 id) nodes;
  c' ← final (handle_event ev) c;
  Some ((fun x => if String.eqb x.1 id then (id, c') else x) <$> nodes,
        drop (length (trace c)) (trace c') ≫= route id).

(** Deliver what [allow] lets pass, first in first out; the rest is delayed
    beyond the end of the run. *)
Fixpoint network (fuel : nat) (allow : string -> event -> bool) (n : net) : option net :=
  match fuel with
  | O => Some n
  | S fuel =>
      match n.2 with
      | [] => Some n
      | (id, ev) :: q =>
          if allow id ev then
            '(nodes, new) ← deliver id ev n.1;
            network fuel allow (nodes, q ++ new)
          else network fuel allow (n.1, q)
      end
  end.

Definition ids : list string := ["a"; "b"; "c"; "d"]%string.
Definition head : block := mkBlock 5 55.
Definition blockA : block := mkBlock 6 66.
Definition blockB : block := mkBlock 6 77.
Definition world0 : chain := mkChain (Some head) "a" ids None None false.

Definition started : list (string * core) :=
  omap (fun i => (fun c => (i, c)) <$> final Start (NewEngine i true world0)) ids.

(** The blocks a node has handed to its chain, with the number of seals. *)
Definition decisions (c : core) : list (block * nat) :=
  omap (fun e => match e with ECommit p seals => Some (p, length seals) | _ => None end) (trace c).

Definition outcome_of (n : net) : list (string * (State * list (block * nat))) :=
  (fun x => (x.1, (state x.2, decisions x.2))) <$> n.1.

(** Everybody gets the request; everything is delivered. *)
Definition request (p : block) (to : list string) : list (string * event) :=
  (fun i => (i, EvRequest (mkRequest (Some p)))) <$> to.

Definition normal_run : option net :=
  network 300 (fun _ _ => true) (started, request blockA ids).

(** The normal case: four validators start on the same head, each is
    asked for the same block, and all messages are delivered; every node
    hands exactly this block, with the three seals of a quorum, to its
    chain, and no message is left. *)
Example four_validators_decide :
  (fun n => (outcome_of n, length n.2)) <$> normal_run =
    Some ((fun i => (i, (StateCommitted, [(blockA, 3%nat)]))) <$> ids, 0%nat).
Proof. vm_compute. reflexivity. Qed.

(** ** The lost lock *)

Definition is_commit (ev : event) : bool :=
  match ev with
  | EvLocal p | EvP2P p =>
      match DecodeMessage p with Some m => Code m =? MsgCommit | None => false end
  | _ => false
  end.

(** First, the COMMIT messages of round 0 reach "d" only (its own included);
    then the others time out, and "d" hears nothing more. *)
Definition commits_to_d (id : string) (ev : event) : bool :=
  negb (is_commit ev) || String.eqb id "d".
Definition not_to_d (id : string) (ev : event) : bool := negb (String.eqb id "d").

Definition others : list string := ["a"; "b"; "c"]%string.

Definition split_run : option net :=
  n1 ← network 300 commits_to_d (started, request blockA ids);
  n2 ← network 300 not_to_d (n1.1, (fun i => (i, EvTimeout)) <$> others);
  network 300 not_to_d (n2.1, request blockB others).

(** C18. A timeout drops the lock, so agreement is lost without any fault: of
    four validators that all follow the code, "d" collects the COMMITs of
    round 0 and decides block A; the other three, locked on A, time out
    before these messages arrive, change to round 1 and decide block B at
    the same height. *)
Theorem disagreement_after_timeout :
  outcome_of <$> split_run =
    Some [("a", (StateCommitted, [(blockB, 3%nat)])); ("b", (StateCommitted, [(blockB, 3%nat)]));
          ("c", (StateCommitted, [(blockB, 3%nat)])); ("d", (StateCommitted, [(blockA, 3%nat)]))]%string
  /\ Height (blockA : Proposal) = Height (blockB : Proposal)
  /\ HashOf (blockA : Proposal) <> HashOf (blockB : Proposal).
Proof. split; [|split]; [vm_compute; reflexivity|reflexivity|discriminate]. Qed.

(** ** Two COMMITs for one view *)

(** The chain at "a": block B is inserted after the node has started on
    [head], and stays its last block. *)
#[local] Instance growing : BackendI Default.defaultValidatorSet bool := {|
  be_Validators _ w := Ret (Some (Default.newDefaultSet ids RoundRobin), w);
  be_ParentValidators _ w := Ret (Some (Default.newDefaultSet ids RoundRobin), w);
  be_Verify _ w := Ret (None, w);
  be_Commit _ _ w := Ret (None, w);
  be_Sign _ w := Ret (inl (Some "sig"%string), w);
  be_LastProposal w := Ret ((Some (if w : bool then blockB else head), "a"%string), true);
  be_HasProposal h n w := Ret (w && (h =? b_hash blockB) && (n =? b_height blockB), w);
  be_GetProposer _ w := Ret ("a"%string, w);
  be_Broadcast _ _ w := Ret (None, w);
  be_Now w := Ret (0, w);
|}.

Definition env_growing : Env := {|
  ValidatorSet := Default.defaultValidatorSet;
  Prque := queue;
  Cache := assoc;
  World := bool;
  env_backend := growing;
|}.

Definition view_6_0 : View := mkView (Some 6) (Some 0).
Definition commit_to (b : block) : Subject := mkSubject (Some view_6_0) (HashOf (b : Proposal)).

Definition proposal_of (b : block) : Message :=
  mkMessage MsgPrePrepare
    (default ""%string (EncodePrePrepare (mkPrePrepare (Some view_6_0) (Some (b : Proposal)))))
    "b" None None.
Definition prepare_by (i : string) : Message :=
  mkMessage MsgPrepare (default ""%string (EncodeSubject (commit_to blockA))) i None None.

Definition from (m : Message) : event (E := env_growing) :=
  EvBacklog (E := env_growing) m (Default.mkValidator (Msg_Validator m)).

(** "b" proposes A; a quorum prepares A, and "a" commits to it; the chain
    gets B at the same height (from round 1, say), "a" moves on to the next
    height, and "b" proposes B to it in the view it proposed A in. *)
Definition contradicting_events : list (event (E := env_growing)) :=
  [from (proposal_of blockA); from (prepare_by "a"); from (prepare_by "b"); from (prepare_by "c");
   EvFinalCommit (E := env_growing); from (proposal_of blockB)]%string.

Definition contradicting_run : prog (core (E := env_growing)) unit :=
  Start;; run contradicting_events.
Definition a_on_head : core (E := env_growing) := NewEngine (E := env_growing) "a" true false.

(** The views and digests of the votes sent with a code. *)
Definition vote_sent (code : Z) (e : effect (E := env_growing)) : option (option View * Z) :=
  match e with
  | EGoLocal payload =>
      match DecodeMessage payload with
      | Some m =>
          if Code m =? code
          then (fun s => (sub_View s, Digest s : Z)) <$> DecodeSubject (Msg m) else None
      | None => None
      end
  | _ => None
  end.
Definition votes_sent (code : Z) (tr : list (effect (E := env_growing))) : list (option View * Z) :=
  omap (M := list) (vote_sent code) tr.

Lemma votes_sent_sound code tr s :
  (sub_View s, Digest s : Z) ∈ votes_sent code tr -> sent_vote (E := env_growing) tr code s.
Proof.
  intros (e & Hin & He)%list_elem_of_omap. unfold vote_sent in He.
  destruct e as [payload| | | | | |]; try done.
  destruct (DecodeMessage payload) as [m|] eqn:Ed; [|done].
  destruct (Z.eqb_spec (Code m) code) as [Ec|]; [|done].
  apply fmap_Some in He as (s' & Es & Ep). injection Ep as Ev Eg.
  exists payload, m. destruct s, s'; simpl in *; subst. by repeat split.
Qed.

Lemma returns_votes (m : prog (core (E := env_growing)) unit) c l :
  (fun c => votes_sent MsgCommit (trace c)) <$> final m c = Some l ->
  exists c', m c = Ret (tt, c') /\ votes_sent MsgCommit (trace c') = l.
Proof.
  intros (c' & Hc & Hl)%fmap_Some. exists c'. split; [by apply final_Ret|by symmetry].
Qed.

Lemma contradicting_run_commits :
  (fun c => votes_sent MsgCommit (trace c)) <$> final contradicting_run a_on_head =
    Some [(Some view_6_0, 66); (Some view_6_0, 77)].
Proof. vm_compute. reflexivity. Qed.

(** C19. A node that follows the code can send two COMMITs for one view that
    contradict each other, although of four validators only the proposer of
    that view is faulty: having sent the COMMIT for the block that a quorum
    prepared, it answers the proposal of another block, in the same view but
    of a height that its chain has meanwhile completed, with a COMMIT for
    that block ([sendCommitForOldBlock]), whatever it voted for before. *)
Theorem commits_contradict :
  exists c, contradicting_run a_on_head = Ret (tt, c) /\
    Forall valid_event contradicting_events /\
    sent_vote (trace c) MsgCommit (commit_to blockA) /\
    sent_vote (trace c) MsgCommit (commit_to blockB) /\
    sub_View (commit_to blockA) = sub_View (commit_to blockB) /\
    Digest (commit_to blockA) <> Digest (commit_to blockB).
Proof.
  destruct (returns_votes _ _ _ contradicting_run_commits) as (c & Hc & Hs). exists c.
  split; [exact Hc|]. split; [by repeat constructor|].
  split; [apply votes_sent_sound; rewrite Hs; apply list_elem_of_here|].
  split; [apply votes_sent_sound; rewrite Hs; apply list_elem_of_further, list_elem_of_here|].
  split; [reflexivity|discriminate].
Qed.
End Scenarios.
