(* ===== verification/Witnesses.v ===== *)
(** * Witnesses: the theorems applied to concrete nodes

    Each theorem with hypotheses is applied in the environment of [Sample] to
    the four validators of [Scenarios], so its hypotheses can hold. *)

From S2P Require Import Prelude Types Interfaces Rlp MessageSet ValidatorSet Sample Quorum RoundState RoundRlp CoreState Backlog Broadcast Round Phases Loop CoreSpec BroadcastSpec BacklogSpec Priorities Messages Node Refinement CoreRefinement Handlers Safety Correctness Rounds Decided Progress Consensus Scenarios.

Module Witnesses.
Import Sample Scenarios.

Definition vs4 : ValidatorSet := Default.newDefaultSet ids RoundRobin.

Definition bA : Proposal := blockA.
Definition bHead : Proposal := head.

(** ** A started node *)

Definition m_start : main := start_main "a" vs4 bHead "a".

Definition c_start : core := default (NewEngine "a" true world0) (final Start (NewEngine "a" true world0)).

Lemma start_runs : runs c_start m_start.
Proof.
  destruct (Start_runs (E := env) "a" true world0 bHead "a" world0 vs4 world0 eq_refl eq_refl)
    as (c & H1 & H2 & _).
  unfold c_start, final. rewrite H1. exact H2.
Qed.

Lemma start_inv : main_inv m_start.
Proof. apply start_main_inv. Qed.

(** ** A run to a decision *)

Definition view0 : View := full_view 6 0.
Definition subA : Subject := mkSubject (Some view0) (HashOf bA).
Definition bytesA : string := default ""%string (EncodeSubject subA).
Definition vote_msg (code : Z) (i : string) : Message :=
  mkMessage code bytesA i None (Some "seal"%string).

Definition ppA : PrePrepare := mkPrePrepare (Some view0) (Some bA).
Definition m_prep : main :=
  m_set_state StatePrePrepared (m_set_rs (SetPrePrepare (Some ppA) (m_rs m_start)) m_start).

Definition add_vote (code : Z) (m : main) (i : string) : main :=
  if code =? MsgPrepare
  then m_set_rs (set_Prepares (MessageSet_Add (Prepares (m_rs m)) (vote_msg code i)).2 (m_rs m)) m
  else m_set_rs (set_Commits (MessageSet_Add (Commits (m_rs m)) (vote_msg code i)).2 (m_rs m)) m.

Definition m_votes : main := foldl (add_vote MsgPrepare) m_prep ["a"; "b"; "c"]%string.
Definition m_prepared : main :=
  m_set_state StatePrepared (m_set_rs (set_lockedHash (HashOf bA) (m_rs m_votes)) m_votes).
Definition m_commits (l : list string) : main := foldl (add_vote MsgCommit) m_prepared l.
Definition m_done (l : list string) : main :=
  m_set_state StateCommitted
    (m_set_rs (set_lockedHash (HashOf bA) (m_rs (m_commits l))) (m_commits l)).

Definition aP : list act := [APrepare subA].
Definition aC : list act := [ACommit subA].
Definition acts0 : list act := [APrepare subA; ACommit subA].

Lemma decode_subA : DecodeSubject bytesA = Some subA.
Proof. apply DecodeSubject_Encode. vm_compute. reflexivity. Qed.

Lemma step_vote code m i :
  voting m -> roundState_Subject (m_rs m) = Ret (Some subA) ->
  code = MsgPrepare \/ code = MsgCommit -> step m [] (add_vote code m i).
Proof.
  intros Hv Hs [-> | ->]; unfold add_vote; simpl.
  - by apply (st_add_prepare (E := env) m (vote_msg MsgPrepare i) subA Hv eq_refl decode_subA).
  - by apply (st_add_commit (E := env) m (vote_msg MsgCommit i) subA Hv eq_refl decode_subA).
Qed.

Lemma start_step_prepare : step m_start aP m_prep.
Proof. by apply (st_prepare (E := env) m_start bA 0). Qed.

Lemma votes_steps code m l :
  voting m -> roundState_Subject (m_rs m) = Ret (Some subA) ->
  code = MsgPrepare \/ code = MsgCommit -> steps m [] (foldl (add_vote code) m l).
Proof.
  intros Hv Hs Hc. revert m Hv Hs. induction l as [|i l IH]; intros m Hv Hs; [constructor|].
  apply (steps_cons m (add_vote code m i) _ [] []).
  - by apply step_vote.
  - destruct Hc as [-> | ->]; by apply IH; [|apply Hs].
Qed.

Lemma run_to_prepared : steps m_start acts0 m_prepared.
Proof.
  apply (steps_cons m_start m_prep _ aP aC start_step_prepare).
  apply (steps_trans _ m_votes _ [] aC).
  { apply votes_steps; [done|done|by left]. }
  apply steps_one, (st_prepared (E := env) m_votes subA); [done|done|done| |done].
  left. vm_compute. reflexivity.
Qed.

Definition sealsOf (l : list string) : list (option SignResult) :=
  CommittedSeal <$> MessageSet_Values (Commits (m_rs (m_commits l))).

Lemma commits_inv l : main_inv (m_commits l).
Proof.
  apply (steps_inv m_prepared []).
  - apply votes_steps; [done|done|by right].
  - exact (steps_inv _ _ _ run_to_prepared start_inv).
Qed.

Definition abc : list string := ["a"; "b"; "c"]%string.
Definition bcd : list string := ["b"; "c"; "d"]%string.

Lemma decide_abc : step (m_commits abc) [ADecide view0 bA (sealsOf abc)] (m_done abc).
Proof. apply (st_decide (E := env) (m_commits abc) bA 0 subA); done. Qed.

Lemma decide_bcd : step (m_commits bcd) [ADecide view0 bA (sealsOf bcd)] (m_done bcd).
Proof. apply (st_decide (E := env) (m_commits bcd) bA 0 subA); done. Qed.

(** The COMMITs of the two deciders are all for the same subject. *)
Lemma stored_commits l i msg s :
  messages (Commits (m_rs (m_commits l))) !! i = Some msg ->
  DecodeSubject (Msg msg) = Some s -> ACommit s ∈ acts0.
Proof.
  intros Hm Hd. assert (Msg msg = bytesA) as E1.
  { revert Hm. unfold m_commits.
    assert (H0 : forall i msg, messages (Commits (m_rs m_prepared)) !! i = Some msg -> Msg msg = bytesA).
    { intros i' msg'. change (messages (Commits (m_rs m_prepared))) with (∅ : gmap string Message).
      by rewrite lookup_empty. }
    revert H0. generalize m_prepared. induction l as [|j l IH]; intros m H0; simpl; [apply H0|].
    apply IH. intros i' msg' [->|Hin]%MessageSet_Add_lookup; [done|]. by eapply H0. }
  rewrite E1 in Hd. pose proof (eq_trans (eq_sym Hd) decode_subA) as [= ->]. unfold acts0. constructor. constructor.
Qed.

(** ** The loop *)

Definition evs0 : list event := [EvRequest (mkRequest (Some bA)); EvP2P "junk"%string; EvTimeout].

Lemma evs0_valid : Forall valid_event evs0.
Proof. repeat constructor. by eexists. Qed.

Example run_refines_witness :
  exists u c', run evs0 c_start = Ret (u, c') /\ exists m' acts es,
    runs c' m' /\ main_inv m' /\ steps m_start acts m' /\
    trace c' = trace c_start ++ es /\ Forall (justified "a" acts evs0) es /\
    all_warranted evs0 es acts.
Proof.
  exact (wp_returns _ _ _ backend_reliable
    (run_refines evs0 c_start m_start start_runs start_inv evs0_valid)).
Defined.


Example Start_correct_witness :
  exists c m, Start (NewEngine "a" true world0) = Ret (tt, c) /\ runs c m /\
    at_view m (6, 0) /\ trace c = [ETimer roundChangeTimeout].
Proof.
  destruct (Start_correct (E := env) "a" true world0 bHead "a" world0 vs4 world0 eq_refl eq_refl)
    as (c & m & H1 & H2 & _ & _ & H3 & _ & _ & _ & _ & H4).
  exists c, m. split; [exact H1|]. split; [exact H2|]. split; [exact H3|exact H4].
Defined.

Definition world_empty : chain := mkChain None "" ids None None false.

Example Start_no_head_witness : Start (NewEngine (E := env) "a" true world_empty) = Panic.
Proof. exact (Start_no_head (E := env) "a" true world_empty "" world_empty eq_refl). Defined.

(** ** Votes and decisions *)

Example view_never_decreases_witness : view_le (6, 0) (6, 0).
Proof.
  apply (view_never_decreases m_start acts0 m_prepared (6, 0) (6, 0) start_inv
    run_to_prepared); split; reflexivity.
Defined.

Example decision_certificate_witness :
  exists (Q : gset string) (sub : Subject),
    quorum vs4 Q /\ Digest sub = HashOf bA /\ size Q = 3%nat.
Proof.
  destruct (decision_certificate (m_commits abc) view0 bA (sealsOf abc) (m_done abc)
    (commits_inv abc) decide_abc) as (Q & sub & H1 & _ & H2 & _ & H3 & _).
  exists Q, sub. split; [exact H1|]. split; [exact H2|]. rewrite <- H3. vm_compute. reflexivity.
Defined.

Lemma runs_of_all (F : gset string) i :
  i ∉ F -> main_inv m_start /\ steps m_start acts0 m_prepared /\ AUnlock 6 ∉ acts0.
Proof.
  intros _. split; [exact start_inv|]. split; [exact run_to_prepared|].
  unfold acts0, aP, aC. intros Hin. repeat (apply elem_of_cons in Hin as [?|Hin]; [done|]).
  by apply not_elem_of_nil in Hin.
Qed.

Lemma stored_commits_of_all (F : gset string) m i msg s :
  m = m_commits abc \/ m = m_commits bcd -> i ∉ F ->
  messages (Commits (m_rs m)) !! i = Some msg -> DecodeSubject (Msg msg) = Some s ->
  ACommit s ∈ acts0.
Proof. intros [-> | ->] _ H1 H2; by eapply stored_commits. Qed.

Example agreement_in_view_witness : HashOf bA = HashOf bA.
Proof.
  apply (agreement_in_view (m_commits abc) (m_done abc) (m_commits bcd) (m_done bcd) view0 bA bA
    (sealsOf abc) (sealsOf bcd) {["d"%string]} (fun _ => m_start) (fun _ => m_prepared)
    (fun _ => acts0) (commits_inv abc) (commits_inv bcd) decide_abc decide_bcd).
  - reflexivity.
  - by vm_compute.
  - left. reflexivity.
  - by vm_compute.
  - intros i Hi. destruct (runs_of_all _ i Hi) as (H1 & H2 & _). by split.
  - exact (stored_commits_of_all _).
Defined.

Example agreement_at_height_witness : HashOf bA = HashOf bA.
Proof.
  apply (agreement_at_height (m_commits abc) (m_done abc) (m_commits bcd) (m_done bcd) view0 view0
    bA bA (sealsOf abc) (sealsOf bcd) 6 {["d"%string]} (fun _ => m_start) (fun _ => m_prepared)
    (fun _ => acts0) (commits_inv abc) (commits_inv bcd) decide_abc decide_bcd).
  - reflexivity.
  - reflexivity.
  - discriminate.
  - discriminate.
  - reflexivity.
  - by vm_compute.
  - left. reflexivity.
  - by vm_compute.
  - intros i Hi. exact (runs_of_all _ i Hi).
  - exact (stored_commits_of_all _).
Defined.

(** ** Quorums *)

Lemma quorum_vs4 (Q : gset string) :
  Q ⊆ list_to_set ids -> size Q = 3%nat -> quorum vs4 Q.
Proof. intros H1 H2. split; [exact H1|]. rewrite H2. by vm_compute. Qed.

Example quorum_intersection_witness :
  FaultTolerantNum vs4 <
    Z.of_nat (size ((list_to_set abc : gset string) ∩ list_to_set bcd)).
Proof.
  apply (quorum_intersection vs4).
  - by vm_compute.
  - left. reflexivity.
  - apply quorum_vs4; [unfold ids, abc, bcd; set_solver|reflexivity].
  - apply quorum_vs4; [unfold ids, abc, bcd; set_solver|reflexivity].
Defined.

Definition vs5 : ValidatorSet := Default.newDefaultSet ["a"; "b"; "c"; "d"; "e"]%string RoundRobin.

Example quorum_too_small_witness :
  exists Q1 Q2 : gset string, quorum vs5 Q1 /\ quorum vs5 Q2 /\ Z.of_nat (size (Q1 ∩ Q2)) <= FaultTolerantNum vs5.
Proof.
  apply (quorum_too_small vs5).
  - apply (bool_decide_unpack _). by vm_compute.
  - by vm_compute.
  - by vm_compute.
Defined.

(** ** Handlers *)

Definition val_of (i : string) : Validator := Default.mkValidator i.

(** A core with a given main state, for the handlers. *)
Definition core_of (m : main) : core :=
  mkCore (m_id m) true (m_state m) (Some (m_vs m)) ∅ (Some (m_rs m)) (m_waiting m)
    (Some (m_rcs m)) None prque_New None cache_New [] cache_New world0 [].

Lemma core_of_runs m : runs (core_of m) m.
Proof.
  split; try reflexivity. split.
  - intros i ref H. by apply elem_of_nil in H.
  - intros r p H. by apply elem_of_nil in H.
Qed.

Lemma votes_inv : main_inv m_votes.
Proof.
  apply (steps_inv m_prep []); [apply votes_steps; [done|done|by left]|].
  exact (step_inv _ _ _ start_step_prepare start_inv).
Qed.

Definition pp_msg : Message :=
  mkMessage MsgPrePrepare (default ""%string (EncodePrePrepare ppA)) "b" None None.

Lemma decode_pp : DecodePrePrepare (Msg pp_msg) = Some ppA.
Proof. apply DecodePrePrepare_Encode. vm_compute. reflexivity. Qed.

(** "b" is the proposer of the first round. *)
Example HandlePrePrepare_correct_witness :
  exists e c', HandlePrePrepare pp_msg (val_of "b") (core_of m_start) = Ret (e, c') /\
    e = None /\ runs c' m_prep /\ then_sends "a" (APrepare subA) (trace c').
Proof.
  destruct (wp_returns _ _ _ backend_reliable
    (HandlePrePrepare_correct (core_of m_start) m_start 0 pp_msg (val_of "b") bA
      (core_of_runs m_start) start_inv eq_refl eq_refl decode_pp))
    as (e & c' & H1 & m' & es & H2 & H3 & H4 & H5 & H6).
  exists e, c'. split; [exact H1|]. split; [exact H4|]. split; [rewrite H5 in H2; exact H2|].
  rewrite H3. exact H6.
Defined.

(** ** Round changes *)

Definition sub1 : Subject := mkSubject (Some (full_view 6 1)) ZeroHash.
Definition bytes1 : string := default ""%string (EncodeSubject sub1).
Definition rc_msg (i : string) : Message :=
  mkMessage MsgRoundChange bytes1 i None None.

Lemma decode_sub1 : DecodeSubject bytes1 = Some sub1.
Proof. apply DecodeSubject_Encode. vm_compute. reflexivity. Qed.

Definition m_voted : main :=
  foldl (fun m i => m_set_rcs (roundChangeSet_Add (m_rcs m) 1 (rc_msg i)).2 m) m_start ["c"; "d"]%string.

Lemma voted_inv : main_inv m_voted.
Proof.
  pose proof (step_inv _ _ _ (st_round_vote m_start 1 (rc_msg "c") eq_refl) start_inv) as H.
  exact (step_inv _ _ _ (st_round_vote _ 1 (rc_msg "d") eq_refl) H).
Qed.

Lemma voted_third : roundChangeSet_Add (m_rcs m_voted) 1 (rc_msg "a") =
  ((3, None), (roundChangeSet_Add (m_rcs m_voted) 1 (rc_msg "a")).2).
Proof.
  rewrite (surjective_pairing (roundChangeSet_Add _ _ _)) at 1. by f_equal.
Qed.

(** The third ROUND-CHANGE takes the node to round 1. *)
Example HandleRoundChange_correct_witness :
  exists e c', HandleRoundChange (rc_msg "a") (val_of "a") (core_of m_voted) = Ret (e, c') /\
    e = None /\
    runs c' (new_round_main (m_set_rcs (roundChangeSet_Add (m_rcs m_voted) 1 (rc_msg "a")).2 m_voted) 1 "a").
Proof.
  destruct (wp_returns _ _ _ backend_reliable
    (HandleRoundChange_correct (core_of m_voted) m_voted 0 (rc_msg "a") (val_of "a")
      (core_of_runs m_voted) voted_inv eq_refl eq_refl)) as (e & c' & H1 & m' & es & H2 & _ & H3).
  exists e, c'. split; [exact H1|]. unfold round_change_outcome in H3.
  change (DecodeSubject (Msg (rc_msg "a"))) with (DecodeSubject bytes1) in H3.
  rewrite decode_sub1 in H3. cbn [mbind option_bind sub_View sub1 full_view] in H3.
  change (vote_verdict m_voted 0 MsgRoundChange (mkView (Some 6) (Some 1))) with (None : err) in H3.
  rewrite voted_third in H3. cbv iota in H3.
  replace (reachThreshold (m_vs m_voted) 3) with true in H3 by (vm_compute; reflexivity).
  destruct H3 as [He H3]. split; [exact He|].
  rewrite <- (H3 : m' = new_round_main (m_set_rcs (roundChangeSet_Add (m_rcs m_voted) 1 (rc_msg "a")).2
    m_voted) 1 "a"). exact H2.
Defined.

Lemma prepared_inv : main_inv m_prepared.
Proof. eapply steps_inv; [apply run_to_prepared|exact start_inv]. Qed.

(** A prepared node loses its lock. *)
Example handleTimeoutMsg_correct_witness :
  IsHashLocked (m_rs m_prepared) = true /\
  exists c' m', handleTimeoutMsg (core_of m_prepared) = Ret (tt, c') /\ runs c' m' /\
    IsHashLocked (m_rs m') = false.
Proof.
  split; [vm_compute; reflexivity|].
  destruct (wp_returns _ _ _ backend_reliable
    (handleTimeoutMsg_correct (core_of m_prepared) m_prepared 0 (core_of_runs m_prepared)
      prepared_inv eq_refl)) as (u & c' & H1 & m' & es & H2 & _ & _ & H3).
  exists c', m'. destruct u. split; [exact H1|]. split; [exact H2|exact H3].
Defined.

(** ** From a proposal to a decision *)

Lemma delivered_backlog vs sub pre post c m msg val :
  runs c m -> main_inv m -> Forall valid_event pre -> commit_for vs sub msg ->
  delivered vs sub (pre ++ EvBacklog msg val :: post) c (Msg_Validator msg).
Proof.
  intros Hc Hm Hv Hcf. destruct (wp_returns _ _ _ backend_reliable (run_refines_lemma pre c m Hc Hm Hv)) as ([] & c1 & H1 & _).
  exists pre, (EvBacklog msg val), post, c1, msg, val. repeat (split; [done|]). done.
Qed.

Definition backlog_vote (code : Z) (i : string) : event := EvBacklog (vote_msg code i) (val_of i).

(** A COMMIT of a stranger, junk from the network and a PREPARE among the
    COMMITs. *)
Definition commit_events : list event :=
  [backlog_vote MsgCommit "z"; backlog_vote MsgCommit "c"; backlog_vote MsgPrepare "d";
   backlog_vote MsgCommit "a"; backlog_vote MsgCommit "b"]%string.

Definition proposal_event : event (E := env) := EvBacklog (E := env) pp_msg (val_of "b").

Example round_commits_witness :
  exists u c', run (proposal_event :: commit_events) (core_of m_start) = Ret (u, c') /\
    commits bA (core_of m_start) c'.
Proof.
  apply (wp_returns _ _ _ backend_reliable).
  apply (round_commits proposal_event commit_events (core_of m_start) m_start 0 bA
    {["a"; "b"; "c"]}%string).
  - apply core_of_runs.
  - exact start_inv.
  - reflexivity.
  - split; reflexivity.
  - reflexivity.
  - exists pp_msg, (val_of "b"). split; [exact I|]. split; [split; reflexivity|].
    split; [reflexivity|]. split; [exact decode_pp|]. split; [reflexivity|by exists world0].
  - repeat constructor; (by left) || (by right).
  - set_solver.
  - vm_compute. reflexivity.
  - intros i Hi.
    assert (Hcf : forall j, is_Some (GetById (m_vs m_start) j).2 ->
      commit_for (m_vs m_start) (subject_of m_start 0 bA) (vote_msg MsgCommit j)).
    { intros j Hj. split; [reflexivity|]. split; [exact decode_subA|exact Hj]. }
    assert (Hi' : i = "a"%string \/ i = "b"%string \/ i = "c"%string) by set_solver.
    destruct Hi' as [->|[->| ->]].
    + apply (delivered_backlog _ _ (proposal_event :: take 3 commit_events) (drop 4 commit_events)
        _ m_start (vote_msg MsgCommit "a") (val_of "a") (core_of_runs m_start) start_inv); [by repeat constructor|].
      apply Hcf. by eexists.
    + apply (delivered_backlog _ _ (proposal_event :: take 4 commit_events) []
        _ m_start (vote_msg MsgCommit "b") (val_of "b") (core_of_runs m_start) start_inv); [by repeat constructor|].
      apply Hcf. by eexists.
    + apply (delivered_backlog _ _ (proposal_event :: take 1 commit_events) (drop 2 commit_events)
        _ m_start (vote_msg MsgCommit "c") (val_of "c") (core_of_runs m_start) start_inv); [by repeat constructor|].
      apply Hcf. by eexists.
Defined.

(** The third PREPARE makes the node prepared. *)
Definition m_votes2 : main := foldl (add_vote MsgPrepare) m_prep ["a"; "b"]%string.

Lemma votes2_inv : main_inv m_votes2.
Proof.
  apply (steps_inv m_prep []); [apply votes_steps; [done|done|by left]|].
  exact (step_inv _ _ _ start_step_prepare start_inv).
Qed.

Example HandlePrepare_correct_witness :
  exists e c' m' sub, HandlePrepare (vote_msg MsgPrepare "c") (val_of "c") (core_of m_votes2) = Ret (e, c')
    /\ e = None /\ runs c' m' /\ m' = after_prepare m_votes2 (vote_msg MsgPrepare "c") sub /\
    then_sends "a" (ACommit sub) (trace c').
Proof.
  destruct (wp_returns _ _ _ backend_reliable
    (HandlePrepare_correct (core_of m_votes2) m_votes2 0 (vote_msg MsgPrepare "c")
      (val_of "c") (core_of_runs m_votes2) votes2_inv eq_refl))
    as (e & c' & H1 & m' & es & H2 & H3 & H4 & H5).
  assert (He : vote_error m_votes2 0 MsgPrepare errFailedDecodePrepare (vote_msg MsgPrepare "c") = None).
  { unfold vote_error. replace (DecodeSubject (Msg (vote_msg MsgPrepare "c"))) with (Some subA)
      by (symmetry; exact decode_subA). vm_compute. reflexivity. }
  rewrite He in H4. rewrite H4 in H5. destruct H5 as (sub & Hs & H5 & H6).
  exists e, c', m', sub. split; [exact H1|]. split; [exact H4|]. split; [exact H2|]. split; [exact H5|].
  rewrite H3. rewrite H5 in H6. exact H6.
Defined.

Example HandleCommit_correct_witness :
  exists e c' m', HandleCommit (vote_msg MsgCommit "c") (val_of "c") (core_of (m_commits ["a"; "b"]%string))
    = Ret (e, c') /\ runs c' m' /\ (e <> None -> m' = m_commits ["a"; "b"]%string).
Proof.
  destruct (wp_returns _ _ _ backend_reliable
    (HandleCommit_correct (core_of (m_commits ["a"; "b"]%string)) (m_commits ["a"; "b"]%string) 0
      (vote_msg MsgCommit "c") (val_of "c") (core_of_runs _) (commits_inv _) eq_refl eq_refl))
    as (e & c' & H1 & m' & es & H2 & H3 & H4 & H5).
  exists e, c', m'. split; [exact H1|]. split; [exact H2|]. intros He.
  destruct e as [e|]; [exact (proj1 H5)|by destruct He].
Defined.

(** ** Messages *)

Example checkMessage_correct_witness :
  checkMessage c_start MsgPrepare (Some view0) = Ret (Some errFutureMessage).
Proof.
  rewrite (checkMessage_correct c_start m_start 0 MsgPrepare (Some view0) start_runs eq_refl).
  reflexivity.
Defined.

Example ProcessBacklog_correct_witness :
  exists bl evs, ProcessBacklog c_start = Ret (tt, set_trace (trace c_start ++ evs) (set_backlogs bl c_start)).
Proof.
  destruct (ProcessBacklog_correct c_start m_start start_runs ltac:(by exists 0)) as (bl & evs & H & _).
  exists bl, evs. exact H.
Defined.

Example ProcessPendingRequests_correct_witness :
  exists q evs, ProcessPendingRequests c_start =
    Ret (tt, set_trace (trace c_start ++ evs) (set_pendingRequests q c_start)).
Proof.
  destruct (ProcessPendingRequests_correct c_start m_start start_runs) as (q & evs & gone & H & _).
  exists q, evs. exact H.
Defined.

(** A payload that names "b" is accepted as a message of "b", signed or not. *)
Definition forged : string := default ""%string (EncodeMessage pp_msg).

Example decodeMsg_by_name_witness :
  decodeMsg c_start forged = Ret (inr (pp_msg, val_of "b")).
Proof.
  exact (decodeMsg_by_name c_start (m_vs m_start) pp_msg None forged forged
    (runs_vs _ _ start_runs) eq_refl eq_refl).
Defined.

(** The COMMIT of a prepared node, received by a node that just started. *)
Definition commit_out : option (option string * core) :=
  match finalizeMessage (mkMessage MsgCommit bytesA "" None None) (core_of m_prepared) with
  | Ret x => Some x
  | Fail _ => None
  end.
Definition commit_payload : string := default ""%string (commit_out ≫= fst).
Definition commit_core : core := default c_start (snd <$> commit_out).

Lemma finalize_commit :
  finalizeMessage (mkMessage MsgCommit bytesA "" None None) (core_of m_prepared) =
    Ret (Some commit_payload, commit_core).
Proof.
  assert (H : match finalizeMessage (mkMessage MsgCommit bytesA "" None None) (core_of m_prepared) with
    | Ret (Some _, _) => true | _ => false end = true) by (vm_compute; reflexivity).
  unfold commit_payload, commit_core, commit_out.
  destruct (finalizeMessage _ _) as [[[p|] c]|]; [reflexivity|discriminate H|discriminate H].
Qed.

Example finalizeMessage_received_witness :
  exists msg', decodeMsg c_start commit_payload = Ret (inr (msg', val_of "a")) /\
    Msg msg' = bytesA /\ is_Some (CommittedSeal msg').
Proof.
  destruct (finalizeMessage_received (core_of m_prepared) m_prepared
    (mkMessage MsgCommit bytesA "" None None) commit_payload commit_core c_start (m_vs m_start) 0
    (val_of "a") (core_of_runs m_prepared) finalize_commit (runs_vs _ _ start_runs) eq_refl)
    as (msg' & data & w & w' & H1 & _ & H2 & _ & _ & _ & H3).
  exists msg'. split; [exact H1|]. split; [exact H2|].
  destruct (H3 eq_refl bA eq_refl) as [w'' H4].
  exists "sig"%string. by injection H4.
Defined.

(** ** Priorities *)

Example toPriority_order_witness :
  exists p1 p2, toPriority MsgPrepare (full_view 7 1) = Ret p1 /\
    toPriority MsgPrePrepare (full_view 7 2) = Ret p2 /\ p2 < p1.
Proof.
  destruct (toPriority_order MsgPrepare 7 1 MsgPrePrepare 7 2 ltac:(lia) ltac:(lia) ltac:(lia)
    ltac:(lia)) as (p1 & p2 & H1 & H2 & H3 & _).
  exists p1, p2. split; [exact H1|]. split; [exact H2|]. apply H3. right. split; reflexivity.
Defined.

Example toPriority_monotone_witness :
  exists p1 p2, toPriority MsgPrepare (full_view (2 ^ 30) 1) = Ret p1 /\
    toPriority MsgPrePrepare (full_view (2 ^ 40) 2) = Ret p2 /\ p2 <= p1.
Proof.
  apply toPriority_monotone; try lia. left. left. reflexivity.
Defined.

Example toPriority_collapse_witness :
  toPriority MsgPrePrepare (full_view (2 ^ 25) 0) = toPriority MsgRoundChange (full_view (2 ^ 25) 99).
Proof.
  rewrite (proj1 (toPriority_collapse MsgPrePrepare MsgCommit 0 ltac:(lia))).
  rewrite (proj1 (toPriority_collapse MsgRoundChange MsgCommit 99 ltac:(lia))). reflexivity.
Defined.

Example StoreRequestMsg_priority_witness :
  StoreRequestMsg (mkRequest (Some bA)) c_start =
    Ret (tt, set_pendingRequests
      (prque_Push (pendingRequests c_start) (mkRequest (Some bA)) (2 ^ 64)) c_start).
Proof. apply (StoreRequestMsg_priority c_start bA). split; [reflexivity|discriminate]. Defined.

Example round_timeout_ranges_witness : round_timeout true 3 = 18 * second.
Proof.
  destruct (round_timeout_ranges (E := env) true 3) as (_ & H & _). rewrite H by lia. reflexivity.
Defined.

(** ** Sizes and rounds *)

Example GetPrepareOrCommitSize_union_witness : GetPrepareOrCommitSize (m_rs m_votes) = 3.
Proof.
  rewrite GetPrepareOrCommitSize_union; [vm_compute; reflexivity|].
  exact (proj1 (inv_prepares _ _ (inv_rs _ votes_inv))).
Defined.

Definition rcs1 : roundChangeSet :=
  (roundChangeSet_Add (newRoundChangeSet vs4) 2 (vote_msg MsgRoundChange "b")).2.

Example MaxRound_correct_witness :
  match roundChangeSet_MaxRound rcs1 1 with
  | Some m => voted_round rcs1 1 m /\ forall k, voted_round rcs1 1 k -> k <= m
  | None => forall k, ~ voted_round rcs1 1 k
  end.
Proof.
  apply MaxRound_correct. intros k [ms Hk].
  change (roundChanges rcs1) with ({[2 := (MessageSet_Add (NewMessageSet vs4)
    (vote_msg MsgRoundChange "b")).2]} : gmap Z MessageSet) in Hk.
  apply lookup_singleton_Some in Hk as [<- _]. lia.
Defined.

(** The vote of [subA], encoded by the methods of the program. *)
Example rlp_roundtrip_witness :
  exists i, Subject_EncodeRLP subA = Ret (Some i) /\ Subject_DecodeRLP i = Some subA.
Proof.
  destruct (rlp_roundtrip (P := Sample.platform) (R := Sample.rlp)) as [Hs _].
  apply (Hs 6 0 (HashOf bA)); lia.
Defined.

(** A message set has no exported field. *)
#[local] Instance round_rlp : RoundRlpI (E := env) (R := Sample.rlp) := {|
  uint_item n := GenLeaf n;
  item_uint t := match t with GenLeaf n => Some n | _ => None end;
  MessageSet_item _ := Some (GenNode 0 []);
  item_MessageSet _ := None;
  Request_item _ := Ret (Some (GenNode 0 []));
  nil_PrePrepare_item := Ret (Some (GenNode 0 []));
|}.

Example roundState_no_roundtrip_witness :
  exists i, roundState_EncodeRLP (m_rs m_prep) = Ret (Some i) /\ roundState_DecodeRLP i = None.
Proof.
  eexists. split; [vm_compute; reflexivity|].
  apply (proj1 (roundState_no_roundtrip (E := env) (R := Sample.rlp)) (m_rs m_prep)).
  vm_compute. reflexivity.
Defined.

(** ** Making an engine *)

(** A node key is its id, a configuration the name of its consensus; the
    service is registered at a list of APIs that is there. *)
#[local] Instance wiring : WiringI := {|
  NodeKey := string;
  Config := string;
  Broadcaster := unit;
  Reader := unit;
  DatabaseReader := unit;
  KVDB := unit;
  NodeID := string;
  SelfConfig := unit;
  ARC := Z;
  APIs := nat;
  NodeID_String i := i;
  nodeKey_ID k := Ret (inr k);
  ChainConfig name := Ret (name, inr tt);
  NewARC n := inr n;
  zero_NodeID := "";
  zero_APIs := 0%nat;
  RegisterAPI n _ := Ret (S n);
|}.

Definition package : list (option package_option) :=
  [Some (ONodeKey (Some "z")); None; Some (OConfig (Some "PBFT")); Some (ONodeKey (Some "a"))]%string.

Definition made_a : pbftEngine (E := env) :=
  mkEngine "a"%string (Some "a"%string) (Some "PBFT"%string) None None None 1%nat (Some tt)
    (Some (NewEngine "a" false world0)) None (Some 128) (Some 20).

Example NewConsensus_correct_witness : NewConsensus (E := env) world0 (options package) = Ret (inr made_a).
Proof.
  apply (NewConsensus_correct (E := env) world0 package 20 128 made_a); [reflexivity..|].
  exists "a"%string, "a"%string, "PBFT"%string, "PBFT"%string, tt, 1%nat.
  repeat (split; [reflexivity|]). reflexivity.
Defined.

Example engine_lifecycle_witness :
  exists c, engine_Start made_a = Ret (None, set_pbftCore c made_a).
Proof.
  destruct (engine_lifecycle (E := env) world0 package 20 128 made_a eq_refl eq_refl eq_refl)
    as (c0 & Ec & _ & Hs & _). injection Ec as <-.
  destruct (Start_runs (E := env) "a" false world0 bHead "a" world0 vs4 world0 eq_refl eq_refl) as (c & Hc & _).
  exists c. exact (Hs c Hc).
Defined.
End Witnesses.
