(* ===== verification/VoteWitnesses.v ===== *)
(** * VoteWitnesses: the theorems on votes and snapshots, applied

    A concrete [Chain] over the platform of [Sample], with its laws, and the
    theorems of [VotesSpec], [VotesLaws] and [SnapshotLaws] at concrete
    votes, snapshots and headers. *)

From S2P Require Import Prelude Types Interfaces ValidatorSet Sample Votes VotesSpec VotesLaws Snapshot SnapshotLaws.

Module VoteWitnesses.
Import Sample.

(** ** A chain: headers carry encoded data, JSON is the bits of a code *)

(** A header: height, hash, hash of the parent, time, signature, and the name
    and payload of its consensus data. *)
Record hdr := mkHdr {
  h_height : Z;
  h_hash : Z;
  h_parent : Z;
  h_time : Z;
  h_sig : option string;
  h_data : option (string * string);
}.

(** Consensus data as the payload of a header. *)
Definition data_tuple : Type :=
  list (option string) * list Z * list string * option (@ManagementVote Z) * option (@ValidatorVote Z).

Definition write_data (c : @ConsensusData platform Z) : string :=
  ("rlp" +:+ enc (A := data_tuple)
    (Snapshot.CommittedSeal c, cd_Managers c, cd_Validators c, MVote c, VVote c))%string.

Definition read_data (s : string) : engine_error + @ConsensusData platform Z :=
  match dec (A := data_tuple) (String.substring 3 (String.length s - 3) s) with
  | Some (seals, ms, vs, m, v) => inr (mkConsensusData (PF := platform) seals ms vs m v)
  | None => inl (errOther "rlp")
  end.

Lemma substring_all s : String.substring 0 (String.length s) s = s.
Proof. induction s as [|c s IH]; [done|]. simpl. by rewrite IH. Qed.

Lemma read_write c : read_data (write_data c) = inr c.
Proof.
  unfold read_data, write_data. set (t := enc _).
  change (String.length ("rlp" +:+ t) - 3)%nat with (String.length t - 0)%nat.
  rewrite Nat.sub_0_r. change (String.substring 3 (String.length t) ("rlp" +:+ t))
    with (String.substring 0 (String.length t) t).
  rewrite substring_all. unfold t. rewrite dec_enc. by destruct c.
Qed.

Definition ext_tuple : Type :=
  list string * option (gset Z) * list (@ValidatorVote Z) * list (@ManagementVote Z) *
  option (gmap Z Tally) * option (gmap string Tally) * Z.

#[global] Instance chain : @Chain platform Z _ _ := {|
  Header := hdr;
  hd_Height := h_height;
  hd_Hash := h_hash;
  hd_Consensus := h_data;
  Deserialize := read_data;
  json_Marshal j :=
    let x := j_VoteManager j in
    inr (enc (j_Epoch j, j_Height j, (j_Hash j : Z),
      (x_Validators x, x_Managers x, x_VVotes x, x_MVotes x, x_MTally x, x_VTally x, x_Policy x)));
  json_Unmarshal b :=
    match dec (A := Z * Z * Z * ext_tuple) b with
    | Some (e, n, h, (vals, ms, vv, mv, mt, vt, p)) =>
        inr (mkSnapshotJSON e n h (mkExtVoteSnapshot vals ms vv mv mt vt p))
    | None => inl (errOther "json")
    end;
  Database := gmap string string;
  db_Get db k := match db !! k with Some v => inr v | None => inl (errOther "not found") end;
  db_Put db k v := (None, <[k := v]> db);
|}.

#[global] Instance chain_laws : ChainLaws.
Proof.
  split; cbn [json_Marshal json_Unmarshal db_Get db_Put chain].
  - intros [e n h []] j' b [= <-]. rewrite dec_enc. by intros [= <-].
  - intros [e n h []] b _ [= <-]. by rewrite dec_enc.
  - intros db k v db' [= <-]. by rewrite lookup_insert_eq.
  - intros db k v e db' k' [= <- <-] Hk. by rewrite lookup_insert_ne.
  - done.
Qed.

(** ** Votes *)

Definition set1 : Default.defaultValidatorSet := Default.newDefaultSet ["a"%string] RoundRobin.
Definition heap1 : heap := mkHeap {[ 0%nat := set1 ]} 1.
Definition ms3 : gset Z := {[ 1; 2; 3 ]}.

Lemma set1_wf : Default.wf set1.
Proof. split; repeat constructor; set_solver. Qed.

(** A copied snapshot without votes. *)
Definition fresh_votes : voteSnapshot :=
  mkVoteSnapshot (Some 0%nat) (Some ms3) [] [] (Some ∅) (Some ∅).

Definition add4 (m : Z) : @ManagementVote Z := mkManagementVote m 4 true (Some 100) "".
Definition add_b (m : Z) : @ValidatorVote Z := mkValidatorVote m "b" true (Some 100) "".

Lemma exact_nil {K V} `{Countable K} (cand : V -> K) auth want : exact cand auth want ∅ [].
Proof. split; [|set_solver]. intros k. by rewrite lookup_empty. Qed.

Lemma fresh_m_ok : m_ok fresh_votes.
Proof.
  exists ms3, ∅. split; [done|]. split; [done|]. split; [|constructor]. apply exact_nil.
Qed.

(** Two of three managers make 4 a manager. *)
Example applyMVotes_refines_witness :
  exists st', applyMVotes_all [add4 1; add4 2] (mkVState fresh_votes heap1) = Ret (tt, st') /\
    Managers (vsnap st') = Some {[ 1; 2; 3; 4 ]} /\ m_ok (vsnap st').
Proof.
  destruct (applyMVotes_refines (mkVState fresh_votes heap1) [add4 1; add4 2] ms3 fresh_m_ok
    eq_refl) as (st' & E & Hok & Hms & _).
  exists st'. split; [exact E|]. split; [|exact Hok]. rewrite Hms. vm_compute. reflexivity.
Defined.

(** One vote adds a validator to a set of one. *)
Example applyVVotes_first_witness :
  exists st', applyVVotes (Some (add_b 1)) (mkVState fresh_votes heap1) = Ret (tt, st') /\
    Default.ids <$> the_set st' = Some ["a"; "b"]%string.
Proof.
  destruct (applyVVotes_first (mkVState fresh_votes heap1) (add_b 1) set1)
    as (st' & E & _ & Hs & _).
  - exists set1, ∅. split; [reflexivity|]. split; [exact set1_wf|]. split; [reflexivity|].
    apply exact_nil.
  - reflexivity.
  - intros w Hw. by apply not_elem_of_nil in Hw.
  - exists st'. split; [exact E|]. rewrite Hs. vm_compute. reflexivity.
Defined.

(** Voting twice on a validator, with no vote on managers, panics. *)
Example applyVVotes_revote_witness :
  applyVVotes (Some (add_b 1))
    (mkVState (set_vVotes [add_b 1] fresh_votes) heap1) = Panic.
Proof.
  destruct (applyVVotes_revote (mkVState (set_vVotes [add_b 1] fresh_votes) heap1)
    (add_b 1) 0 (add_b 1) eq_refl) as [Hp _].
  apply Hp. apply le_n.
Defined.

Example newVoteSnapshot_votes_witness :
  applyMVotes (Some (add4 1)) (mkVState (newVoteSnapshot (Some 0%nat) [1; 2; 3]) heap1) = Panic.
Proof.
  destruct (newVoteSnapshot_votes (Some 0%nat) [1; 2; 3] heap1 set1 eq_refl) as [Hm _].
  rewrite Hm. reflexivity.
Defined.

(** A vote past its deadline is dropped, the other one is proposed. *)
Example getVotes_correct_witness :
  let m := setMVote (setMVote newManager 4 (add4 1)) 5
             (mkManagementVote 1 5 true (Some 10) "") in
  exists mv vv m',
    getVotes m 50 (fun _ _ => Ret true) (fun _ _ => Ret true) [5; 4] [] = Ret ((mv, vv), m') /\
    vv = None /\ is_Some mv.
Proof.
  intros m.
  destruct (getVotes_correct m 50 (fun _ _ => true) (fun _ _ => true) [5; 4] []
    (fun v => default 0 (mv_DeadlineHeight v)) (fun v => default 0 (vv_DeadlineHeight v)))
    as (mv & vv & m' & E & (_ & _ & PM) & (Hs & _ & PV)).
  - intros a v Hv. unfold m, setMVote, newManager in Hv; simpl in Hv.
    apply lookup_insert_Some in Hv as [[_ <-]|[_ Hv]]; [reflexivity|].
    apply lookup_insert_Some in Hv as [[_ <-]|[_ Hv]]; [reflexivity|]. by rewrite lookup_empty in Hv.
  - intros i v Hv. cbn in Hv. by rewrite lookup_empty in Hv.
  - intros a [v Hv]. unfold m, setMVote, newManager in Hv; simpl in Hv.
    apply lookup_insert_Some in Hv as [[<- _]|[_ Hv]]; [constructor|].
    apply lookup_insert_Some in Hv as [[<- _]|[_ Hv]]; [constructor; constructor|].
    by rewrite lookup_empty in Hv.
  - intros i [v Hv]. cbn in Hv. by rewrite lookup_empty in Hv.
  - exists mv, vv, m'. split; [exact E|]. split.
    + destruct vv as [w|]; [|reflexivity]. destruct PV as (k & Hk & _).
      eapply lookup_weaken in Hk; [|exact Hs]. cbn in Hk. by rewrite lookup_empty in Hk.
    + destruct mv as [w|]; [by eexists|]. destruct PM as [_ PM].
      specialize (PM 4 (add4 1) eq_refl). discriminate PM.
Defined.

(** ** Snapshots *)

Definition genesis : @Snapshot platform Z _ _ := newSnapshot 100 0 0 (Some 0%nat) [1; 2; 3].
Definition no_vote (n : Z) : Header := mkHdr n n (n - 1) 0 None
  (Some ("PBFT"%string, write_data (mkConsensusData [] [] [] None None))).
Definition with_vote (n m : Z) : Header :=
  mkHdr n n (n - 1) 0 None
    (Some ("pbft"%string, write_data (mkConsensusData [] [] [] (Some (add4 m)) (Some (add_b m))))).

(** The state after a run, and the snapshot it returned. *)
Definition run_Apply (headers : list Header) (st : @SState platform Z _ _)
    : option (@Snapshot platform Z _ _ * @SState platform Z _ _) :=
  match Apply headers st with Ret (inr (Some s), st') => Some (s, st') | _ => None end.

Definition st_genesis : @SState platform Z _ _ := mkSState genesis heap1.
Definition after1 := default (genesis, st_genesis) (run_Apply [no_vote 1] st_genesis).
Definition st1 : @SState platform Z _ _ := mkSState after1.1 (sheap after1.2).
Definition after2 := default (genesis, st_genesis) (run_Apply [with_vote 2 1] st1).

Definition returned {A} (o : option A) : bool := match o with Some _ => true | None => false end.

Lemma run_Apply_Ret headers st d :
  returned (run_Apply headers st) = true ->
  let r := default d (run_Apply headers st) in
  Apply headers st = Ret (inr (Some r.1), r.2).
Proof.
  unfold run_Apply. destruct (Apply _ _) as [[[e|[s1|]] st1']|]; by intros E.
Qed.

Lemma apply1 : Apply [no_vote 1] st_genesis = Ret (inr (Some after1.1), after1.2).
Proof. apply run_Apply_Ret. vm_compute. reflexivity. Qed.

Lemma apply2 : Apply [with_vote 2 1] st1 = Ret (inr (Some after2.1), after2.2).
Proof. apply run_Apply_Ret. vm_compute. reflexivity. Qed.

(** The vote of header 2 would make "b" a validator: it changes the set that
    the votes of the receiver work on, and the result is as without it. *)
Example Apply_correct_witness :
  Default.ids <$> the_set (mkVState (sn_vote (ssnap after2.2)) (sheap after2.2)) =
    Some ["a"; "b"]%string /\
  vVotes (sn_vote after2.1) = [] /\ sn_Height after2.1 = 2.
Proof.
  destruct (Apply_correct [with_vote 2 1] st1) as (_ & _ & H).
  destruct H as [H _]; [discriminate|vm_compute; reflexivity|].
  specialize (H _ _ apply2). split; [vm_compute; reflexivity|].
  split.
  - etrans; [apply (f_equal (fun o => match o with Some s => vVotes (sn_vote s) | None => [] end) H)|].
    vm_compute. reflexivity.
  - etrans; [apply (f_equal (fun o => match o with Some s => sn_Height s | None => 0 end) H)|].
    vm_compute. reflexivity.
Defined.

(** Two applications of headers, then the core computes a proposer. *)
Definition last_heap : heap := heap_CalcProposer 0 "a"%string 1 (sheap after2.2).

Example genesis_validators_forever_witness :
  exists pr, heap_get last_heap (sn_ValSet after2.1) = Ret (with_proposer pr set1).
Proof.
  apply (genesis_validators_forever (PF := platform) (CH := chain) 100 0 0 0 set1 [1; 2; 3] heap1
    [genesis; ssnap after2.2; after2.1] last_heap);
    [reflexivity|constructor| |right; right; left].
  eapply rtc_l.
  { apply (step_apply [genesis] heap1 0 genesis [no_vote 1] _ _ eq_refl apply1). }
  eapply rtc_l.
  { apply (step_apply [ssnap after1.2; after1.1] (sheap after1.2) 1 after1.1 [with_vote 2 1] _ _
      eq_refl apply2). }
  eapply rtc_l; [apply step_propose|apply rtc_refl].
Defined.

Lemma stored : exists db, Store heap1 genesis ∅ = Ret (None, db).
Proof. eexists. reflexivity. Qed.

(** A snapshot after a checkpoint: its tallies are empty maps. *)
Definition reset_votes : @Snapshot platform Z _ _ :=
  set_vote (voteSnapshot_reset (sn_vote genesis)) genesis.

Lemma reset_text j : toJSONStruct heap1 (sn_vote reset_votes) = Ret j -> json_text j = true.
Proof. intros [= <-]. vm_compute. reflexivity. Qed.

Lemma reset_stored : exists db, Store heap1 reset_votes ∅ = Ret (None, db).
Proof. eexists. reflexivity. Qed.

Example Store_loadSnapshot_witness :
  exists db, Store heap1 reset_votes ∅ = Ret (None, db) /\
    exists s, loadSnapshot 7 db 0 heap1 = inr s /\ sn_ValSet s.1 = None /\ Epoch s.1 = 7 /\
      mTally (sn_vote s.1) = None.
Proof.
  destruct reset_stored as [db E]. exists db. split; [exact E|].
  pose proof (Store_loadSnapshot heap1 reset_votes set1 ∅ db 7 heap1 eq_refl set1_wf reset_text E) as H.
  eexists. split; [exact H|]. split; [reflexivity|]. split; reflexivity.
Defined.

(** Manager 1 votes for making 4 a manager, in the header after it. *)
Definition manager_vote : Header := mkHdr 1 1 0 0 None
  (Some ("pbft"%string, write_data (mkConsensusData [] [] [] (Some (add4 1)) None))).

Lemma reset_ok : m_ok (sn_vote reset_votes).
Proof. exact fresh_m_ok. Qed.

Example loaded_vote_panics_witness :
  exists db s h, Store heap1 reset_votes ∅ = Ret (None, db) /\
    loadSnapshot 7 db 0 heap1 = inr (s, h) /\ Apply [manager_vote] (mkSState s h) = Panic.
Proof.
  destruct reset_stored as [db E].
  pose proof (Store_loadSnapshot_lemma heap1 reset_votes set1 ∅ db 7 heap1 eq_refl set1_wf reset_text E) as Hl.
  eexists db, _, _. split; [exact E|]. split; [exact Hl|].
  apply (loaded_vote_panics heap1 reset_votes set1 ∅ db 7 heap1 _ _ manager_vote
    (mkConsensusData [] [] [] (Some (add4 1)) None) (add4 1) eq_refl set1_wf reset_text E Hl reset_ok);
    [reflexivity|reflexivity|apply read_write|reflexivity|reflexivity|vm_compute; reflexivity].
Defined.

(** The database after storing [genesis], and what is read from it. *)
Definition db1 : @Database platform Z _ _ chain :=
  match Store heap1 genesis ∅ with Ret (_, db) => db | Fail _ => ∅ end.

Definition loaded : option (@Snapshot platform Z _ _ * heap) :=
  match loadSnapshot 7 db1 0 heap1 with inr x => Some x | inl _ => None end.

Lemma loaded_returned : returned loaded = true.
Proof. vm_compute. reflexivity. Qed.

Example loadSnapshot_unusable_witness :
  exists s h, loadSnapshot 7 db1 0 heap1 = inr (s, h) /\ heap_get h (sn_ValSet s) = Panic.
Proof.
  pose proof loaded_returned as H. unfold loaded in H.
  destruct (loadSnapshot 7 db1 0 heap1) as [e|[s h]] eqn:E; [discriminate H|].
  exists s, h. split; [reflexivity|].
  apply (loadSnapshot_unusable _ _ _ _ _ _ E).
Defined.
End VoteWitnesses.
