(* ===== verification/EngineWitnesses.v ===== *)
(** * EngineWitnesses: the theorems on the engine, applied

    A concrete engine over the chain of [VoteWitnesses] — signatures that
    name the signer and the data, a block reader of two blocks — with its
    laws, and the theorems of [EngineSpec], [VerificationSpec], [BackendSpec]
    and [Sealing] on runs of it. *)

From Stdlib Require Import Ascii.
From stdpp Require Import pretty.
From S2P Require Import Prelude Types Interfaces ValidatorSet Sample Votes VotesSpec VotesLaws Snapshot SnapshotLaws Engine Verification EngineSpec VerificationSpec Backend BackendSpec Sealing Seals VoteWitnesses.

Module EngineWitnesses.
Import Sample VoteWitnesses.

(** ** Signatures: one character for the signer, a colon, the data *)

Definition sign (c : ascii) (data : string) : string :=
  String c (String ":"%char data).

Definition signer (data sig : string) : option ascii :=
  match sig with
  | String c (String ":"%char rest) => if String.eqb rest data then Some c else None
  | _ => None
  end.

Definition manager_key (c : ascii) : Z := Z.of_nat (nat_of_ascii c) - 48.

Definition proposal_text (what : string) (auth : bool) (deadline : option Z) : string :=
  ("propose" +:+ what +:+ (if auth then "+" else "-") +:+
   match deadline with Some d => pretty d | None => "" end)%string.

(** ** The engine: a block is its header *)

#[global] Instance engine : @EngineI platform Z _ _ chain := {|
  hd_Timestamp := h_time;
  hd_ParentHash := h_parent;
  hd_HashNoSign := h_hash;
  hd_Signature := h_sig;
  hd_set_Consensus c h := mkHdr (h_height h) (h_hash h) (h_parent h) (h_time h) (h_sig h) c;
  hd_set_Timestamp t h := mkHdr (h_height h) (h_hash h) (h_parent h) t (h_sig h) (h_data h);
  hd_set_Signature s h := mkHdr (h_height h) (h_hash h) (h_parent h) (h_time h) s (h_data h);
  Serialize c := inr (write_data c);
  Block := hdr;
  bk_Header b := b;
  bk_Hash := h_hash;
  bk_WithSeal _ h := h;
  RecoverId data sig :=
    match sig ≫= signer data with
    | Some c => inr (String c "")
    | None => inl errInvalidSignature
    end;
  PubKey := Z;
  RecoverPub data sig :=
    match signer data sig with
    | Some c => inr (manager_key c)
    | None => inl errInvalidSignature
    end;
  PubkeyToAddress := inr;
  nodeKey_Sign data := inr (Some (sign "a"%char data));
  sig_Deserialize := inr;
  encode_propose_manager a auth d := proposal_text (pretty a) auth d;
  encode_propose_validator i auth d := proposal_text i auth d;
  ECache := assoc;
|}.

#[global] Instance config : @EngineConfig Z := {|
  GenesisHeight := 0;
  cfg_Epoch := 100;
  BlockPeriod := 2;
  cfg_ProposerPolicy := RoundRobin;
  cfg_Managers := [1; 2; 3];
  cfg_Validators := ["a"; "b"; "c"; "d"]%string;
  nodeId := "a";
|}.

#[global] Instance engine_laws : EngineLaws.
Proof.
  split; [apply _|apply _|]. intros h h' E. apply (f_equal (dec (A := Z))) in E.
  change (dec (A := Z) (enc (A := Z) h) = dec (A := Z) (enc (A := Z) h')) in E.
  rewrite !dec_enc in E. by injection E.
Qed.

#[global] Instance backend_engine : BackendE := {|
  bk_Height := h_height;
  bk_ParentHash := h_parent;
  bk_New h := h;
  as_Block p := Some (mkHdr (b_height p) (b_hash p) (b_hash p - 1) 12 None
    (Some ("pbft"%string, write_data (mkConsensusData [] [] [] None None))));
  of_Block h := Sample.mkBlock (h_height h) (h_hash h);
  txs_DeepEqual_root _ := true;
  LatestBlockNumber := -1;
  models_IDFromString _ := None;
  nil_Block_methods := Panic;
|}.

#[global] Instance backend_laws : BackendLaws.
Proof.
  split; try done. intros c p _ [= <-]. split; [apply read_write|].
  by intros E%(f_equal String.length).
Qed.

(** ** Two blocks *)

Definition seal_on (hash : Z) (c : ascii) : option string :=
  Some (sign c (PrepareCommittedSeal (H := platform) hash)).

(** A vote of manager 1, signed by it. *)
Definition signed_add4 : @ManagementVote Z :=
  mkManagementVote 1 4 true (Some 100) (sign "1"%char (encode_propose_manager 4 true (Some 100))).

Definition block0 : hdr := mkHdr 0 0 0 10 None None.

Definition data1 : @ConsensusData platform Z :=
  mkConsensusData (PF := platform)
    [seal_on 1 "a"%char; seal_on 1 "b"%char; seal_on 1 "d"%char] [] [] None None.
Definition block1 : hdr :=
  mkHdr 1 1 0 12 (Some (sign "b"%char (enc 1))) (Some ("pbft"%string, write_data data1)).

(** A block with the vote; the reader does not have it. *)
Definition data2 : @ConsensusData platform Z :=
  mkConsensusData (PF := platform)
    [seal_on 2 "b"%char; seal_on 2 "c"%char; seal_on 2 "a"%char] [] [] (Some signed_add4) None.
Definition block2 : hdr :=
  mkHdr 2 2 1 14 (Some (sign "c"%char (enc 2))) (Some ("pbft"%string, write_data data2)).

Definition reader : BlockReader :=
  mkReader
    (fun hash n => if (hash =? 0) && (n =? 0) then Some block0
                   else if (hash =? 1) && (n =? 1) then Some block1 else None)
    (fun n => if n =? 0 then Some block0 else if n =? 1 then Some block1 else None)
    block1.

Lemma reader_is_ok : reader_ok reader.
Proof.
  split; cbn [reader GetHeader GetHeaderByNumber].
  - intros hash n h. destruct ((hash =? 0) && (n =? 0)) eqn:E0.
    { apply andb_true_iff in E0 as [->%Z.eqb_eq ->%Z.eqb_eq]. by intros [= <-]. }
    destruct ((hash =? 1) && (n =? 1)) eqn:E1; [|done].
    apply andb_true_iff in E1 as [->%Z.eqb_eq ->%Z.eqb_eq]. by intros [= <-].
  - intros n h. destruct (Z.eqb_spec n 0) as [->|]; [by intros [= <-]|].
    destruct (Z.eqb_spec n 1) as [->|]; [by intros [= <-]|done].
Qed.

Abbreviation ES := (@EState platform Z _ _ chain engine).

Definition st0 : ES := new_engine ∅.

Lemma st0_ok : e_ok st0.
Proof. apply new_engine_ok. by intros hash b j. Qed.
(** ** Runs *)

(** No error, an error or a snapshot: read off a run by evaluation. *)
Definition accepted {A} (o : outcome (option engine_error * A)) : bool :=
  match o with Ret (None, _) => true | _ => false end.

Lemma accepted_Ret {A} (o : outcome (option engine_error * A)) :
  accepted o = true -> exists st, o = Ret (None, st).
Proof. destruct o as [[[e|] st]|]; [done| |done]. by exists st. Qed.

Definition found {A B} (o : outcome ((engine_error + A) * B)) : bool :=
  match o with Ret (inr _, _) => true | _ => false end.

Lemma found_Ret {A B} (o : outcome ((engine_error + A) * B)) :
  found o = true -> exists q st, o = Ret (inr q, st).
Proof. destruct o as [[[e|q] st]|]; [done| |done]. by exists q, st. Qed.

Lemma four_validators : NoDup (cfg_Validators (EngineConfig := config)).
Proof. repeat constructor; set_solver. Qed.

Lemma genesis_wf : Default.wf genesis_set.
Proof. apply genesis_set_wf, four_validators. Qed.

(** Nesting three levels deep gives what one level gives. *)
Example snapshot_terminates_witness :
  snapshot_depth 3 reader 0 1 1 [] st0 = snapshot reader 0 1 1 [] st0 /\
  found (snapshot reader 0 1 1 [] st0) = true.
Proof.
  split; [|vm_compute; reflexivity].
  assert (Hg : 0 <= GenesisHeight) by (cbn; lia).
  destruct (snapshot_terminates reader 0 1 1 [] st0 Hg ltac:(lia) reader_is_ok) as [_ Hd].
  exact (Hd 2%nat).
Defined.

(** The snapshot of block 1: its hash, and the four validators. *)
Example snapshot_correct_witness :
  exists q st s, snapshot reader 0 1 1 [] st0 = Ret (inr q, st) /\
    es_snaps st !! q = Some s /\ e_ok st /\ asked reader 1 1 s /\ genesis_in_force st s.
Proof.
  destruct (found_Ret (snapshot reader 0 1 1 [] st0)) as (q & st & E); [vm_compute; reflexivity|].
  destruct (snapshot_correct reader 0 1 1 [] st0 (inr q) st reader_is_ok st0_ok E) as [Hok Hq].
  destruct (Hq q eq_refl) as (s & Es & Ha & Hf). exists q, st, s.
  split; [exact E|]. split; [exact Es|]. split; [exact Hok|]. split; [exact Ha|exact Hf].
Defined.

Definition is_None {A} (o : option A) : bool := match o with None => true | _ => false end.

Lemma is_None_eq {A} (o : option A) : is_None o = true -> o = None.
Proof. by destruct o. Qed.

(** Three of the four validators. *)
Definition seals_abd : list (option string) := [seal_on 1 "a"%char; seal_on 1 "b"%char; seal_on 1 "d"%char].
Definition seals_bcd : list (option string) := [seal_on 1 "b"%char; seal_on 1 "c"%char; seal_on 1 "d"%char].

Example check_seals_correct_witness :
  check_seals (genesis_set) 1 seals_abd = None /\
  exists l, sealed genesis_set 1 seals_abd l.
Proof.
  assert (E : check_seals genesis_set 1 seals_abd = None)
    by (apply is_None_eq; vm_compute; reflexivity).
  split; [exact E|]. apply (check_seals_correct (PF := platform) genesis_set 1 seals_abd genesis_wf). exact E.
Defined.

(** "d" is faulty; "b" sealed both. *)
Example verified_headers_agree_witness :
  check_seals genesis_set 1 seals_abd = None /\ check_seals genesis_set 1 seals_bcd = None /\
  (1 : Z) = 1.
Proof.
  assert (E1 : check_seals genesis_set 1 seals_abd = None)
    by (apply is_None_eq; vm_compute; reflexivity).
  assert (E2 : check_seals genesis_set 1 seals_bcd = None)
    by (apply is_None_eq; vm_compute; reflexivity).
  split; [exact E1|]. split; [exact E2|].
  apply (verified_headers_agree (PF := platform) genesis_set 1 1 seals_abd seals_bcd {["d"%string]});
    [exact genesis_wf|vm_compute; reflexivity|vm_compute; reflexivity|vm_compute; discriminate
    |intros; reflexivity|exact E1|exact E2].
Defined.

Lemma abd_sealed : sealed genesis_set 1 seals_abd ["a"; "b"; "d"]%string.
Proof.
  split; [repeat constructor|]. split; [repeat constructor; set_solver|].
  intros i Hi. vm_compute. set_solver.
Qed.

(** Three of four is a quorum of the core. *)
Example core_quorum_accepted_witness : check_seals genesis_set 1 seals_abd = None.
Proof.
  apply (core_quorum_accepted (PF := platform) sample_hash sample_proposal genesis_set 1 seals_abd
    ["a"; "b"; "d"]%string);
    [exact genesis_wf|vm_compute; split; reflexivity|exact abd_sealed|vm_compute; reflexivity].
Defined.

Definition two : Default.defaultValidatorSet := Default.newDefaultSet ["a"; "b"]%string RoundRobin.

Example one_seal_accepted_witness : check_seals two 1 [seal_on 1 "b"%char] = None.
Proof.
  apply (one_seal_accepted (PF := platform) two 1 (seal_on 1 "b"%char) "b"%string).
  - split; repeat constructor; set_solver.
  - vm_compute. split; [reflexivity|discriminate].
  - vm_compute. right. left.
  - reflexivity.
Defined.

(** Block 2, with its vote, is accepted on top of block 1. *)
Example VerifyHeader_accepts_witness :
  exists st', VerifyHeader reader 20 block2 st0 = Ret (None, st') /\
    exists i, i ∈ cfg_Validators (EngineConfig := config) /\ signed_by block2 i.
Proof.
  destruct (accepted_Ret (VerifyHeader reader 20 block2 st0)) as [st' E];
    [vm_compute; reflexivity|].
  exists st'. split; [exact E|].
  apply (VerifyHeader_accepts reader 20 reader_is_ok block2 st0 st' four_validators st0_ok E).
Defined.

(** ** The backend *)

Definition proposal2 : Proposal (Platform := platform) := Sample.mkBlock 2 2.

(** The parent's validators of a proposal on top of block 1. *)
Example getValidators_correct_witness :
  exists p st', ParentValidators reader 0 proposal2 st0 = Ret (p, st') /\ e_ok st' /\ handed_out st' p.
Proof.
  destruct (ParentValidators reader 0 proposal2 st0) as [[p st']|] eqn:E.
  - exists p, st'. split; [reflexivity|].
    apply (getValidators_correct reader 0 proposal2 st0 p st' reader_is_ok st0_ok).
    right. exact E.
  - exfalso. apply (f_equal (fun o => match o with Ret _ => true | Fail _ => false end)) in E.
    vm_compute in E. discriminate E.
Defined.

(** Block 1 proposed without seals, then committed with three. *)
Definition proposal1 : Proposal (Platform := platform) := Sample.mkBlock 1 1.


(** Block 2 on top of block 1, with the vote the node proposes. *)
Definition st_vote : ES := set_voteManager (setMVote newManager 4 signed_add4) st0.

Lemma st_vote_ok : e_ok st_vote.
Proof. destruct st0_ok as [B Hok]. exists B. exact Hok. Qed.

Definition header2 : hdr := mkHdr 2 2 1 0 None None.

Definition prepared {A B} (o : outcome ((A * option engine_error) * B)) : bool :=
  match o with Ret ((_, None), _) => true | _ => false end.

Lemma prepared_Ret {A B} (o : outcome ((A * option engine_error) * B)) :
  prepared o = true -> exists a st, o = Ret ((a, None), st).
Proof. destruct o as [[[a [e|]] st]|]; [done| |done]. by exists a, st. Qed.

Example Prepare_correct_witness :
  exists h' st', Prepare reader 0 13 13 [4] [] header2 st_vote = Ret ((h', None), st') /\
    14 <= hd_Timestamp h' /\
    exists data, FromConsensus (hd_Consensus h') = inr data /\ Snapshot.CommittedSeal data = [].
Proof.
  destruct (prepared_Ret (Prepare reader 0 13 13 [4] [] header2 st_vote)) as (h' & st' & E);
    [vm_compute; reflexivity|].
  exists h', st'. split; [exact E|].
  destruct (Prepare_correct reader 0 13 13 [4] [] header2 h' st_vote st' reader_is_ok st_vote_ok
    (Z.le_refl _) E) as (parent & s & q & data & Ep & Ht & _ & _ & _ & Ed & Es & _).
  injection Ep as <-. split; [exact Ht|]. exists data. split; [exact Ed|exact Es].
Defined.

(** Manager 1 proposes to make 4 a manager. *)
Example ProposeManager_correct_witness :
  exists st', ProposeManager reader 0 4 true (Some 100) (mv_Signature signed_add4) st0 =
      Ret (None, st') /\
    mCandidate (voteManager st') !! 4 = Some signed_add4.
Proof.
  destruct (accepted_Ret (ProposeManager reader 0 4 true (Some 100) (mv_Signature signed_add4) st0))
    as [st' E]; [vm_compute; reflexivity|].
  exists st'. split; [exact E|].
  destruct (ProposeManager_correct reader 0 4 true (Some 100) (mv_Signature signed_add4) st0
    None st' reader_is_ok st0_ok E) as (manager & q & s & d & sr & Ev & Esr & Er & _).
  injection Esr as <-. vm_compute in Er. injection Er as <-. rewrite Ev.
  vm_compute. reflexivity.
Defined.

(** ** Sealing *)

Definition seal_events : list (@seal_event platform Z _ _ chain engine) :=
  [timer; request_result true; drain_end; commit (block1 : Block); receive].

Example seal_one_result_witness :
  exists s, seal_run (EI := engine) block1 seal_events (start None 0) = Some s /\
    exists r, results s = [r] /\ forall b, r = Some b -> b ∈ commits seal_events.
Proof.
  eexists. split; [reflexivity|].
  destruct (seal_one_result (EI := engine) block1 None 0 seal_events _ eq_refl) as [Hf _].
  destruct (Hf eq_refl) as (r & Er & Hb). exists r. split; [exact Er|].
  intros b E. apply (Hb b E).
Defined.

(** Two calls; the first goes all the way, and a block is committed for it. *)
Definition seals_events : list (@seals_event platform Z _ _ chain engine) :=
  [SCall (block1 : Block); SCall (block2 : Block); SAt 0 KTimer; SAt 0 KPropose; SAt 0 (KRequest true); SAt 0 KDrainEnd;
   SAt 1 KTimer; SAt 0 KLock; SCommit (block1 : Block); SAt 0 KReceive; SAt 1 KPropose].

Definition call1 : seal_call (EI := engine) := mkCall (EI := engine) block1 CFinished [Some (block1 : Block)].
Definition call2 : seal_call (EI := engine) := mkCall (EI := engine) block2 CRequesting [].

Definition two_calls : seals (EI := engine) :=
  mkSeals [call1; call2]
    (mkShared None 2 None).

Example seals_refine_witness :
  exists ch p es', seal_run block1 es' (start ch p) =
      Some (call_view call1 (s_shared two_calls)) /\
    commits es' ⊆ [block1 : Block].
Proof.
  apply (seals_refine (EI := engine) seals_events two_calls 0
    call1); reflexivity.
Defined.

Example seals_correct_witness :
  g_lock (s_shared two_calls) <> Some 1%nat /\
  exists es' s' c', seals_run es' two_calls = Some s' /\ s_calls s' !! 1%nat = Some c' /\
    c_phase c' = CFinished.
Proof.
  destruct (seals_correct (EI := engine) seals_events two_calls 1
    call2 eq_refl eq_refl) as (Hl & _ & _ & Hn).
  split; [intros Hg; apply Hl in Hg; discriminate Hg|].
  destruct (Hn ltac:(discriminate)) as [_ He]. exact He.
Defined.

(** A block of November 2023 for its own second. *)
Example seal_delay_saturates_witness :
  seal_delay 1700000000000 1700000000000000000 = 2 ^ 63 - 1.
Proof. apply seal_delay_saturates; vm_compute; [split|]; congruence. Defined.

Definition sealed2 : outcome ((engine_error + Block (EngineI := engine)) * ES) := Seal_start reader 0 block2 st0.

Example Seal_start_correct_witness :
  exists b sig, nodeKey_Sign (EngineI := engine) (enc (2 : Z)) = inr (Some sig) /\
    b = bk_WithSeal (EngineI := engine) block2 (hd_set_Signature (EngineI := engine) (Some sig) block2) /\
    match sealed2 with Ret (inr b', _) => b' = b | _ => False end.
Proof.
  assert (F : found sealed2 = true) by (vm_compute; reflexivity).
  destruct (found_Ret sealed2 F) as (b & st' & E).
  destruct (Seal_start_correct reader 0 block2 st0 st' reader_is_ok st0_ok) as [H _].
  destruct (H b E) as (_ & _ & sig & Hs & Hb). exists b, sig.
  split; [exact Hs|]. split; [exact Hb|]. rewrite E. reflexivity.
Defined.
End EngineWitnesses.
