(* ===== verification/NodeWitnesses.v ===== *)
(** * NodeWitnesses: the theorems on nodes, applied

    A node "a" of the four validators of [EngineWitnesses], on a chain with
    a genesis block and one more, receives a proposal and the votes of the
    others; the theorems of [AssemblySpec] at this run. *)

From Stdlib Require Import Ascii.
From S2P Require Import Prelude Types Interfaces Rlp MessageSet ValidatorSet Sample Quorum RoundState CoreState Backlog Broadcast Round Phases Loop CoreFrame CoreSpec BroadcastSpec BacklogSpec Node Refinement Safety Correctness Decided.
From S2P Require Import Votes Snapshot SnapshotLaws Engine Verification EngineSpec VerificationSpec Backend BackendSpec EngineFrame Restart Assembly AssemblySpec VoteWitnesses EngineWitnesses.

Module NodeWitnesses.
Import Sample VoteWitnesses EngineWitnesses.

(** ** The node *)

(** A proposal as a block on top of the block with the hash before it,
    signed by "c". *)
#[local] Instance block_of_proposal : @BackendE platform Z _ _ chain engine := {|
  bk_Height := h_height;
  bk_ParentHash := h_parent;
  bk_New h := h;
  as_Block p := Some (mkHdr (b_height p) (b_hash p) (b_hash p - 1) (10 + 2 * b_height p)
    (Some (sign "c"%char (enc (b_hash p))))
    (Some ("pbft"%string, write_data (mkConsensusData [] [] [] None None))));
  of_Block h := Sample.mkBlock (h_height h) (h_hash h);
  txs_DeepEqual_root _ := true;
  LatestBlockNumber := -1;
  models_IDFromString _ := None;
  nil_Block_methods := Panic;
|}.

#[local] Instance outside : @OutsideI Z string block sample_hash sample_proposal Z _ _ chain engine unit := {|
  x_reader _ := reader;
  x_CurrentTime x := (20, x);
  x_Now x := (0, x);
  x_Broadcast _ _ x := (None, x);
  error_string _ := "error"%string;
|}.

#[local] Instance outside_laws : OutsideLaws (OI := outside).
Proof. split. intros []. exact reader_is_ok. Qed.

Definition node : Env := node_env (hi := sample_hash) (pi := sample_proposal) (CH := chain)
  (EI := engine) (CFG := config) (BE := block_of_proposal) (CO := codec) (PQ := prque)
  (CC := cache) (GI := go) (OI := outside).
#[local] Existing Instance node.

#[local] Instance node_laws : EnvLaws node.
Proof. split; apply _ || exact valset_laws. Qed.

Definition world_at (db : gmap string string) : World :=
  new_world (CH := chain) (EI := engine) db tt [].

(** ** The messages of the others *)

Definition block_two : Proposal := Sample.mkBlock 2 2.
Definition view_two : View := full_view 2 0.
Definition sub_two : Subject := mkSubject (Some view_two) (HashOf block_two).

Definition payload (code : Z) (i : string) (body : option string) (seal : option string) : string :=
  default ""%string
    (EncodeMessage (mkMessage code (default ""%string body) i (Some "sig"%string) seal)).

Definition proposal_of (i : string) : event :=
  EvP2P (payload MsgPrePrepare i
    (EncodePrePrepare (mkPrePrepare (Some view_two) (Some block_two))) None).
Definition prepare_of (i : string) : event :=
  EvP2P (payload MsgPrepare i (EncodeSubject sub_two) None).
Definition commit_of (c : ascii) : event :=
  EvP2P (payload MsgCommit (String c "") (EncodeSubject sub_two) (seal_on 2 c)).

Definition events : list event :=
  [proposal_of "c"; prepare_of "b"; prepare_of "c"; prepare_of "d";
   commit_of "b"%char; commit_of "c"%char; commit_of "d"%char]%string.

Lemma events_valid : Forall valid_event events.
Proof. repeat constructor. Qed.

Definition program : outcome (unit * core) :=
  (Start;; run events) (NewEngine "a" true (world_at ∅)).

Definition sent (o : outcome (unit * core)) : list hdr :=
  match o with Ret (_, c) => nw_sent (world c) | Fail _ => [] end.

Lemma empty_db_ok : db_ok (CH := chain) (∅ : gmap string string).
Proof. by intros hash b j. Qed.

Definition block_one : Proposal := Sample.mkBlock 1 1.

(** The head the chain answers with, and the world after that. *)
Definition node_head : prog World (option Proposal * string) :=
  @be_LastProposal _ _ _ (@env_backend node).

Definition after_head (db : gmap string string) : World :=
  match node_head (world_at db) with Ret (_, w) => w | Fail _ => world_at db end.

Definition head_is_one (db : gmap string string) : bool :=
  match node_head (world_at db) with
  | Ret ((Some p, last), _) => bool_decide (p = block_one) && String.eqb last "b"
  | _ => false
  end.

Lemma head_proposal db :
  head_is_one db = true ->
  node_head (world_at db) = Ret ((Some block_one, "b"%string), after_head db).
Proof.
  unfold head_is_one, after_head. destruct (node_head (world_at db)) as [[[[p|] last] w]|]; try done.
  intros [Hp%bool_decide_eq_true Hl%String.eqb_eq]%andb_true_iff. by subst.
Qed.

Lemma head_at_start : head_is_one ∅ = true.
Proof. vm_compute. reflexivity. Qed.

Lemma program_runs : exists c, program = Ret (tt, c) /\ length (nw_sent (world c)) = 1%nat.
Proof.
  assert (Hn : length (sent program) = 1%nat) by (vm_compute; reflexivity).
  destruct program as [[[] c]|]; [by exists c|discriminate Hn].
Qed.

(** The node passes on one block, as [node_correct] says of it. *)
Example node_correct_witness :
  exists (c : core (E := node)) m (acts : list (act (E := node))),
    program = Ret (tt, c) /\ runs c m /\
    length (nw_sent (world c)) = 1%nat /\
    forall blk, blk ∈ nw_sent (world c) ->
      exists v p seals, ADecide v p seals ∈ acts /\ Commit (PF := platform) p seals = inr blk.
Proof.
  destruct program_runs as (c & Hc & Hn).
  destruct (wp_Ret _ _ _ _ _ (node_correct (OL := outside_laws) "a" true ∅ tt [] events block_one "b"
    (after_head ∅) empty_db_ok events_valid (head_proposal ∅ head_at_start)) Hc)
    as (vs & w2 & m & acts & _ & H1 & _ & _ & _ & _ & H2).
  exists c, m, acts. split; [exact Hc|]. split; [exact H1|]. split; [exact Hn|exact H2].
Defined.

(** A correct node that votes to commit again the block it is locked on. *)
Definition locked_rs : roundState (E := node) :=
  mkRoundState (Some 0) 2 (Some (mkPrePrepare (Some view_two) (Some block_two)))
    (NewMessageSet genesis_set) (NewMessageSet genesis_set) 2 None.
Definition locked_main : main (E := node) :=
  mkMain "b" StateAcceptRequest false genesis_set locked_rs (newRoundChangeSet genesis_set).

Lemma locked_main_inv : main_inv locked_main.
Proof.
  split; try done.
  - split; [by exists 0|..]; try done.
    + intros _. by eexists _, _.
    + by intros pp [= <-].
Qed.

(** ** A decision with its certificate *)

Definition commit_msg (c : ascii) : Message :=
  mkMessage MsgCommit (default ""%string (EncodeSubject sub_two)) (String c "") None (seal_on 2 c).

(** The COMMITs of "b", "c" and "d". *)
Definition three_commits : MessageSet (E := node) :=
  foldl (fun ms c => (MessageSet_Add ms (commit_msg c)).2) (NewMessageSet genesis_set)
    ["b"; "c"; "d"]%char.
Definition deciding (ms : MessageSet) : main (E := node) :=
  mkMain "b" StatePrepared false genesis_set (set_Commits ms locked_rs) (newRoundChangeSet genesis_set).

Lemma decode_commit c : DecodeSubject (Msg (commit_msg c)) = Some sub_two.
Proof. apply DecodeSubject_Encode. vm_compute. reflexivity. Qed.

Lemma add_commit ms c :
  step (deciding ms) [] (deciding (MessageSet_Add ms (commit_msg c)).2).
Proof.
  exact (st_add_commit (E := node) (deciding ms) (commit_msg c) sub_two (conj eq_refl eq_refl) eq_refl
    (decode_commit c) eq_refl).
Qed.

Lemma deciding_inv : main_inv (deciding three_commits).
Proof.
  assert (H0 : main_inv (deciding (NewMessageSet genesis_set))).
  { exact (step_inv _ _ _ (st_recommit (E := node) locked_main block_two 0 (conj eq_refl eq_refl)
      eq_refl eq_refl eq_refl) locked_main_inv). }
  unfold three_commits, foldl. repeat (eapply step_inv; [apply add_commit|]). exact H0.
Qed.

Definition seals_two : list (option string) :=
  Types.CommittedSeal <$> MessageSet_Values three_commits.

Lemma decide_two : exists m', step (deciding three_commits) [ADecide view_two block_two seals_two] m'.
Proof.
  eexists. refine (st_decide (E := node) (deciding three_commits) block_two 0 sub_two _ (conj eq_refl eq_refl)
    eq_refl eq_refl eq_refl eq_refl _ eq_refl). vm_compute. reflexivity.
Qed.

Lemma three_seals i msg :
  messages three_commits !! i = Some msg ->
  is_Some (Types.CommittedSeal msg) /\
  RecoverId (EngineI := engine) (PrepareCommittedSeal (H := platform) (HashOf block_two))
    (Types.CommittedSeal msg) = inr i.
Proof.
  change (messages three_commits) with (<["d"%string := commit_msg "d"]> (<["c"%string := commit_msg "c"]>
    (<["b"%string := commit_msg "b"]> (∅ : gmap string Message)))).
  rewrite !lookup_insert_Some, lookup_empty.
  intros [[<- <-]|[_ [[<- <-]|[_ [[<- <-]|[_ ?]]]]]]; [| | |done];
    (split; [by eexists|vm_compute; reflexivity]).
Qed.

Definition block_data : @ConsensusData platform Z := mkConsensusData [] [] [] None None.

Example decided_block_certified_witness :
  exists blk, Commit (PF := platform) block_two seals_two = inr blk /\ certified (bk_Header blk).
Proof.
  destruct decide_two as [m' Hs]. eexists. split; [reflexivity|].
  eapply (decided_block_certified (hi := sample_hash) (pi := sample_proposal) (deciding three_commits)
    view_two block_two seals_two m' _ block_data);
    [exact four_validators|vm_compute; reflexivity|exact deciding_inv|exact Hs
    |left; exists (Default.proposer genesis_set); reflexivity|discriminate|exact three_seals
    |reflexivity|apply read_write|discriminate|discriminate|reflexivity|reflexivity].
Defined.
(** ** The node started again *)

(** The database the first run leaves behind. *)
Definition db_after : gmap string string :=
  match program with Ret (_, c) => es_db (nw_engine (world c)) | Fail _ => ∅ end.

Definition stored (hash : Z) : bool :=
  match db_Get (Chain := chain) db_after (db_key (PF := platform) hash) with
  | inr blob => match json_Unmarshal (Chain := chain) blob with inr _ => true | inl _ => false end
  | inl _ => false
  end.

Lemma genesis_stored : stored 0 = true.
Proof. vm_compute. reflexivity. Qed.

Lemma restarting_reader : restarting (CFG := config) reader block0 db_after.
Proof.
  split; [reflexivity|discriminate|reflexivity| |].
  - intros hash h. cbn [reader GetHeader GenesisHeight config]. rewrite andb_false_r.
    destruct (_ && _); [|discriminate]. by intros [= <-].
  - intros h. pose proof genesis_stored as Hs. unfold stored in Hs. unfold loadSnapshot.
    change (hd_Hash (Chain := chain) block0) with (0 : Z).
    destruct (db_Get (Chain := chain) db_after (db_key (PF := platform) 0)) as [e|blob]; [discriminate Hs|].
    unfold Snapshot_UnmarshalJSON. destruct (json_Unmarshal blob) as [e|j]; [discriminate Hs|].
    destruct (fromJSONStruct h (j_VoteManager j)) as [v h']. by eexists.
Qed.

Lemma head_at_restart : head_is_one db_after = true.
Proof. vm_compute. reflexivity. Qed.

Lemma restart_does_not_return :
  match Start (NewEngine "a" true (world_at db_after)) with Ret _ => true | Fail _ => false end = false.
Proof. vm_compute. reflexivity. Qed.

(** The node that committed block 2, started again, panics. *)
Example restart_loses_validators_witness :
  Start (NewEngine "a" true (world_at db_after)) = CalleePanic.
Proof.
  destruct (restart_loses_validators (OI := outside) "a" true db_after tt block0 block_one "b"
    (after_head db_after) restarting_reader (head_proposal db_after head_at_restart)
    ltac:(vm_compute; reflexivity) ltac:(discriminate)) as [_ [H|(c & m & H1 & _)]].
  - exact H.
  - assert (Hs : Start (NewEngine "a" true (world_at db_after)) = Ret (tt, c)) by exact H1.
    pose proof restart_does_not_return as Hn. rewrite Hs in Hn. discriminate Hn.
Defined.

(** The whole way of a block: the node passes on exactly one block, and
    another node that has only seen the blocks before it accepts its header. *)
Example committed_block_accepted :
  exists blk, sent program = [blk] /\ hd_Hash (Chain := chain) blk = 2 /\
    accepted (VerifyHeader (EI := engine) reader 20 blk st0) = true.
Proof.
  assert (H : match sent program with
    | [blk] => (h_hash blk =? 2) && accepted (VerifyHeader (EI := engine) reader 20 blk st0)
    | _ => false end = true) by (vm_compute; reflexivity).
  destruct (sent program) as [|blk [|]]; [discriminate H| |discriminate H].
  apply andb_true_iff in H as [Hh Ha]. exists blk. split; [reflexivity|].
  split; [by apply Z.eqb_eq|exact Ha].
Qed.
End NodeWitnesses.
