(* ===== verification/NetworkWitnesses.v ===== *)
(** * NetworkWitnesses: a network of nodes, run

    Three correct nodes, "a", "b" and "c", of the four validators of
    [EngineWitnesses], each the core on an engine, and the faulty validator
    "d", which sends "a" a proposal of its own.  The node "c" is asked for a
    block, and all three commit it; the theorems on networks at the state they
    reach. *)

From Stdlib Require Import Ascii.
From S2P Require Import Prelude Types Interfaces Rlp MessageSet ValidatorSet Sample Quorum RoundState CoreState Backlog Broadcast Round Phases Loop Provenance CoreFrame CoreSpec BroadcastSpec BacklogSpec Node Refinement Safety Correctness Decided Network Delivery.
From S2P Require Import Votes Snapshot SnapshotLaws Engine Verification EngineSpec VerificationSpec Backend BackendSpec EngineFrame Restart Assembly AssemblySpec VoteWitnesses EngineWitnesses NodeWitnesses.

Module NetworkWitnesses.
Import Sample VoteWitnesses EngineWitnesses NodeWitnesses.
#[local] Existing Instances block_of_proposal outside outside_laws node node_laws.

Definition block_three : Proposal := Sample.mkBlock 2 3.

Definition forged : event :=
  EvP2P (payload MsgPrePrepare "d"
    (EncodePrePrepare (mkPrePrepare (Some view_two) (Some block_three))) None).

Definition reached : option (gmap string (core (E := node) * list event)) :=
  n ← start_nodes true (world_at ∅) ["a"; "b"; "c"]%string;
  drive 400 [("a", forged); ("c", EvRequest (mkRequest (Some block_two)))]%string n.

(** ** What is read off the nodes *)

(** The node has committed the block. *)
Definition committed_two (c : core (E := node)) : bool :=
  (state c =? StateCommitted) && negb (waitingForRoundChange c) &&
  match valSet c with Some vs => (Default.Size vs =? 4) | None => false end &&
  match currentRoundState c with
  | Some rs => (sequence rs =? 2) && bool_decide (roundState_Proposal rs = Some block_two)
  | None => false
  end.

(** The chain took every block the node handed over. *)
Definition taken (c : core (E := node)) : bool :=
  forallb (fun e =>
    match e with
    | ECommit p seals => match Commit (PF := platform) p seals with inr _ => true | inl _ => false end
    | _ => true
    end) (trace c).

(** No timeout, and no PRE-PREPARE for a block of the chain. *)
Definition is_new (msg : @Message (@env_platform node)) : bool :=
  match DecodePrePrepare (CodecI := @env_codec node) (Msg msg) with
  | Some (mkPrePrepare _ (Some p)) => negb (HasProposal reader (HashOf p) (Height p))
  | _ => true
  end.
Definition calm_event (ev : event (E := node)) : bool :=
  match ev with
  | EvTimeout => false
  | EvBacklog msg _ => is_new msg
  | EvLocal payload | EvP2P payload =>
      match DecodeMessage (CodecI := @env_codec node) payload with
      | Some msg => negb (Code msg =? MsgPrePrepare) || is_new msg
      | None => true
      end
  | _ => true
  end.

Definition node_check (x : core (E := node) * list event) : bool :=
  committed_two x.1 && taken x.1 && forallb calm_event x.2.

(** The node would go on after a timeout. *)
Definition survives_timeout (c : core (E := node)) : bool :=
  match handle_event EvTimeout c with Ret _ => true | Fail _ => false end.

Definition net_check (n : gmap string (core (E := node) * list event)) : bool :=
  forallb (fun kx => node_check kx.2) (map_to_list n) &&
  forallb (fun i => match n !! i with Some x => survives_timeout x.1 | None => false end)
    ["a"; "b"; "c"]%string.

Lemma reached_check : match reached with Some n => net_check n | None => false end = true.
Proof. vm_compute. reflexivity. Qed.

(** ** The network *)

Lemma fresh_world : node_fresh (CH := chain) (world_at ∅).
Proof. exists ∅, tt, []. split; [exact empty_db_ok|reflexivity]. Qed.

Lemma network_exists : exists N : gmap string (replica (E := node)),
  reachable node_fresh N /\ net_check (shape <$> N) = true.
Proof.
  pose proof reached_check as Hc. destruct reached as [n|] eqn:En; [|discriminate Hc].
  unfold reached in En. apply bind_Some in En as (n0 & E0 & En).
  destruct (start_nodes_reach (E := node) node_fresh true (world_at ∅) block_one "b" (after_head ∅) _ n0 fresh_world
    (head_proposal ∅ head_at_start) E0) as (N0 & R0 & <-).
  destruct (drive_reaches (E := node) node_fresh 400 _ N0 n R0 En) as (N & R & <-).
  exists N. split; [exact R|exact Hc].
Qed.

Section At.
Context (N : gmap string (replica (E := node))).
Context (HN : reachable node_fresh N) (HC : net_check (shape <$> N) = true).

Lemma checked_node i r : N !! i = Some r ->
  committed_two (r_core r) = true /\ taken (r_core r) = true /\ forallb calm_event (r_evs r) = true.
Proof.
  intros Hr. unfold net_check in HC. apply andb_true_iff in HC as [Hall _].
  rewrite forallb_forall in Hall.
  assert (Hin : (i, shape r) ∈ map_to_list (shape <$> N)).
  { apply elem_of_map_to_list. by rewrite lookup_fmap, Hr. }
  apply list_elem_of_In in Hin. specialize (Hall _ Hin). unfold node_check in Hall. cbn [snd fst shape] in Hall.
  apply andb_true_iff in Hall as [Hall ?]. by apply andb_true_iff in Hall as [? ?].
Qed.

Lemma node_there i : i ∈ ["a"; "b"; "c"]%string ->
  exists r, N !! i = Some r /\ survives_timeout (r_core r) = true.
Proof.
  intros Hi. unfold net_check in HC. apply andb_true_iff in HC as [_ Hall].
  rewrite forallb_forall in Hall. apply list_elem_of_In in Hi. specialize (Hall i Hi).
  rewrite lookup_fmap in Hall. destruct (N !! i) as [r|]; [by exists r|discriminate Hall].
Qed.

(** The facts of [committed_two], of the main state. *)
Lemma committed_main i r m :
  N !! i = Some r -> runs (r_core r) m ->
  Default.validators (m_vs m) <> [] /\ committed m /\
  sequence (m_rs m) = 2 /\ roundState_Proposal (m_rs m) = Some block_two.
Proof.
  intros Hi [_ Hs Hw Hv Hr _ _]. destruct (checked_node i r Hi) as [Hp _]. clear HC.
  unfold committed_two in Hp. rewrite Hv, Hr, Hs, Hw in Hp.
  repeat (apply andb_true_iff in Hp as [Hp ?]).
  match goal with H : (Default.Size _ =? 4) = true |- _ => apply Z.eqb_eq in H; rename H into Hsz end.
  match goal with H : (m_state m =? _) = true |- _ => apply Z.eqb_eq in H end.
  match goal with H : negb (m_waiting m) = true |- _ => apply negb_true_iff in H end.
  match goal with H : (sequence _ =? 2) && _ = true |- _ => apply andb_true_iff in H as [Hq Hb] end.
  apply Z.eqb_eq in Hq. apply bool_decide_eq_true in Hb.
  split; [intros Hn; unfold Default.Size in Hsz; by rewrite Hn in Hsz|]. done.
Qed.

Lemma Commit_taken p seals answer b :
  Commit (PF := platform) p seals = inr b ->
  answers (be_Commit (BackendI := @env_backend node) p seals) answer -> answer = None.
Proof.
  intros Hc (w & w' & He).
  change ((sync;; node_Commit p seals) w = Ret (answer, w')) in He.
  unfold mbind, prog_bind in He. destruct (sync w) as [[_ w1]|]; [|discriminate He].
  unfold node_Commit in He.
  match type of He with context [match ?x with inl _ => _ | inr _ => _ end] =>
    assert (Hx : x = inr b) by exact Hc; rewrite Hx in He end.
  by injection He as <-.
Qed.

Lemma not_refused i r : N !! i = Some r -> ~ refused (trace (r_core r)).
Proof.
  intros Hi (p & seals & why & Hin & He). destruct (checked_node i r Hi) as (_ & Ht & _).
  unfold taken in Ht. rewrite forallb_forall in Ht. apply list_elem_of_In in Hin.
  specialize (Ht _ Hin). cbv beta iota in Ht.
  destruct (Commit (PF := platform) p seals) as [e|b] eqn:Ec; [discriminate Ht|].
  discriminate (Commit_taken p seals _ b Ec He).
Qed.

Lemma calm i r ev : N !! i = Some r -> ev ∈ r_evs r -> calm_event ev = true.
Proof.
  intros Hi Hin. destruct (checked_node i r Hi) as (_ & _ & Hc). rewrite forallb_forall in Hc.
  apply Hc. by apply list_elem_of_In.
Qed.

Lemma no_unlock i h : AUnlock h ∉ acts_of N i.
Proof.
  unfold acts_of. destruct (N !! i) as [r|] eqn:Hi; [|apply not_elem_of_nil].
  apply (keeps_locks node_fresh N i r h HN Hi); [|by apply (not_refused i)].
  intros Hin. discriminate (calm i r EvTimeout Hi Hin).
Qed.

Lemma HasProposal_answers h n :
  answers (be_HasProposal (BackendI := @env_backend node) h n) true -> HasProposal reader h n = true.
Proof.
  intros (w & w' & He).
  change ((sync;; gets (fun w => HasProposal (x_reader (nw_out w)) h n)) w = Ret (true, w')) in He.
  unfold mbind, prog_bind, gets in He. destruct (sync w) as [[_ w1]|]; [|discriminate He].
  by injection He.
Qed.

Lemma not_old msg s : is_new msg = true -> ~ old_proposal (E := node) msg s.
Proof.
  intros Hn (_ & p & Hd & _ & Hh). unfold is_new in Hn. rewrite Hd in Hn.
  apply negb_true_iff in Hn. by pose proof (eq_trans (eq_sym (HasProposal_answers _ _ Hh)) Hn).
Qed.

Lemma calm_new ev msg :
  calm_event ev = true -> carries ev msg -> Code msg = MsgPrePrepare -> is_new msg = true.
Proof.
  intros Hc Hcar Hcode. destruct ev as [req|pl|msg' val| |pl|]; try done.
  - unfold calm_event, carries in *. rewrite Hcar, Hcode in Hc. exact Hc.
  - unfold calm_event, carries in *. by subst.
  - unfold calm_event, carries in *. rewrite Hcar, Hcode in Hc. exact Hc.
Qed.

Lemma no_old i s : AOldCommit s ∉ acts_of N i.
Proof.
  unfold acts_of. destruct (N !! i) as [r|] eqn:Hi; [|apply not_elem_of_nil].
  apply (no_old_commits node_fresh N i r s HN Hi). intros ev msg Hev Hcar Hold.
  exact (not_old msg s (calm_new ev msg (calm i r ev Hi Hev) Hcar (proj1 Hold)) Hold).
Qed.

(** Of the four validators only "d" is not there. *)
Lemma one_faulty : Z.of_nat (size (faulty (E := node) N genesis_set)) <= 1.
Proof.
  assert (Hs : faulty (E := node) N genesis_set ⊆ {["d"%string]}).
  { intros i. unfold faulty. rewrite elem_of_difference, elem_of_list_to_set, elem_of_dom, elem_of_singleton.
    change (ID <$> List (genesis_set)) with (["a"; "b"; "c"; "d"]%string).
    rewrite !elem_of_cons. intros [[->|[->|[->|[->|Hi]]]] Hno]; [..|by apply not_elem_of_nil in Hi];
      try (exfalso; apply Hno; edestruct node_there as (r & Hr & _); [|by exists r]; set_solver); reflexivity. }
  apply subseteq_size in Hs. rewrite size_singleton in Hs. lia.
Qed.
End At.

(** ** The theorems on networks *)

Example deliver_total_witness :
  exists (N N' : gmap string (replica (E := node))), reachable node_fresh N /\ net_step N N'.
Proof.
  destruct network_exists as (N & HN & HC).
  destruct (node_there N HC "a" ltac:(set_solver)) as (r & Hr & Ht). exists N.
  unfold survives_timeout in Ht.
  destruct (handle_event EvTimeout (r_core r)) as [[u c]|] eqn:Eh; [|discriminate Ht].
  destruct (wp_Ret _ _ _ _ _ (deliver_total node_fresh N "a" r EvTimeout HN Hr I) Eh) as [acts Hs].
  eexists. split; [exact HN|exact Hs].
Defined.

Example nodes_agree_witness : HashOf block_two = HashOf block_two.
Proof.
  destruct network_exists as (N & HN & HC).
  destruct (node_there N HC "a" ltac:(set_solver)) as (r1 & G1 & _).
  destruct (node_there N HC "b" ltac:(set_solver)) as (r2 & G2 & _).
  destruct (reachable_ok node_fresh N HN "a" r1 G1) as [[m1 K1] _].
  destruct (reachable_ok node_fresh N HN "b" r2 G2) as [[m2 K2] _].
  pose proof (no_runs _ _ _ _ K1) as R1. pose proof (no_runs _ _ _ _ K2) as R2.
  destruct (committed_main N HC "a" r1 m1 G1 R1) as (N1 & C1 & S1 & P1).
  destruct (committed_main N HC "b" r2 m2 G2 R2) as (N2 & C2 & S2 & P2).
  apply (nodes_agree (OL := outside_laws) N "a" "b" r1 r2 m1 m2 block_two block_two HN G1 G2 R1 R2
    N1 N2 C1 C2 (eq_trans S1 (eq_sym S2)) P1 P2).
  - discriminate.
  - discriminate.
  - vm_compute; split; reflexivity.
  - left. reflexivity.
  - exact (one_faulty N HN HC).
  - intros i. exact (no_unlock N HN HC i _).
  - intros i s w Hi. destruct (no_old N HN HC i s Hi).
Defined.

(** The same network, by the theorem on any nodes. *)
Example network_agreement_witness : HashOf block_two = HashOf block_two.
Proof.
  destruct network_exists as (N & HN & HC).
  destruct (node_there N HC "b" ltac:(set_solver)) as (r1 & G1 & _).
  destruct (node_there N HC "c" ltac:(set_solver)) as (r2 & G2 & _).
  destruct (reachable_ok node_fresh N HN "b" r1 G1) as [[m1 K1] _].
  destruct (reachable_ok node_fresh N HN "c" r2 G2) as [[m2 K2] _].
  pose proof (no_runs _ _ _ _ K1) as R1. pose proof (no_runs _ _ _ _ K2) as R2.
  destruct (committed_main N HC "b" r1 m1 G1 R1) as (N1 & C1 & S1 & P1).
  destruct (committed_main N HC "c" r2 m2 G2 R2) as (N2 & C2 & S2 & P2).
  destruct (network_validators N "b" r1 m1 HN G1 R1 N1) as [pr1 E1].
  destruct (network_validators N "c" r2 m2 HN G2 R2 N2) as [pr2 E2].
  apply (network_agreement node_fresh N "b" "c" r1 r2 m1 m2 block_two block_two HN G1 G2 R1 R2 C1 C2
    (eq_trans S1 (eq_sym S2)) P1 P2).
  - discriminate.
  - discriminate.
  - rewrite E1, E2. reflexivity.
  - rewrite E1. vm_compute; split; reflexivity.
  - rewrite E1. left. reflexivity.
  - rewrite E1. exact (one_faulty N HN HC).
  - intros i. exact (no_unlock N HN HC i _).
  - intros i s w Hi. destruct (no_old N HN HC i s Hi).
Defined.

(** A COMMIT that "a" holds was brought by an event. *)
Lemma commit_held : match program with
  | Ret (_, c) => match currentRoundState c with
                  | Some rs => match messages (Commits rs) !! "b"%string with Some _ => true | None => false end
                  | None => false
                  end
  | Fail _ => false
  end = true.
Proof. vm_compute. reflexivity. Qed.

Example holds_received_witness :
  exists (c : core (E := node)) msg, program = Ret (tt, c) /\ holds c msg /\
    exists ev, ev ∈ events /\ carries ev msg.
Proof.
  pose proof commit_held as Hc. destruct program as [[[] c]|] eqn:Ep; [|discriminate Hc].
  destruct (currentRoundState c) as [rs|] eqn:Er; [|discriminate Hc].
  destruct (messages (Commits rs) !! "b"%string) as [msg|] eqn:Em; [|discriminate Hc].
  assert (Hh : holds c msg) by exact (held_commit _ _ _ _ msg rs "b" Er Em).
  exists c, msg. split; [reflexivity|]. split; [exact Hh|].
  exact (holds_received (E := node) "a" true (world_at ∅) events c msg Ep Hh).
Defined.
End NetworkWitnesses.
